(** * SmartAudit Agent: pipeline coordinator and findings scorer

    A shallow embedding of
      - src/actions/runStaticAnalysis.ts  (Finding, SEVERITY_MAP, the Slither
        and Solhint adapters, runStaticAnalysis, calculatePriorityScore),
      - src/actions/cloneRepo.ts          (result shapes of the two hard stages),
      - src/telegram/telegramBot.ts       (sendTelegramMessage and the notify*
        wrappers),
      - src/agent/smartAuditAgent.ts      (runAudit, executeAuditTool),
      - src/server.ts                     (the in-memory registry and the
        POST /api/audit/start handler),
    followed by the properties of the specification that concern them. *)

From Stdlib Require Import ZArith List Bool Ascii String Lia Permutation Sorted.
From stdpp Require Import base strings pretty list gmap.

Local Open Scope Z_scope.
Local Open Scope string_scope.
Local Open Scope list_scope.

(* ===================================================================== *)
(** * Part I: definitions *)
(* ===================================================================== *)

(** ** JavaScript primitives used by the sources *)

(** The scalar JSON values a property of an analyzer report can hold; a
    property that is missing reads as [undefined]. *)
Inductive JsVal :=
| JUndefined
| JNull
| JBool (b : bool)
| JNumber (z : Z)
| JString (s : string).

(** Truthiness, as [||] and [if] see it. *)
Definition truthy (v : JsVal) : bool :=
  match v with
  | JUndefined | JNull => false
  | JBool b => b
  | JNumber z => negb (z =? 0)%Z
  | JString s => negb (String.eqb s "")
  end.

(** [ToPropertyKey] on scalars: the string under which [obj[v]] looks. *)
Definition toPropertyKey (v : JsVal) : string :=
  match v with
  | JUndefined => "undefined"
  | JNull => "null"
  | JBool true => "true"
  | JBool false => "false"
  | JNumber z => pretty z
  | JString s => s
  end.

(** [v || d] *)
Definition jsOr (v d : JsVal) : JsVal := if truthy v then v else d.

(** [String.prototype.toLowerCase], on the ASCII letters. *)
Definition lowerAscii (c : ascii) : ascii :=
  let n := nat_of_ascii c in
  if (Nat.leb 65 n && Nat.leb n 90)%bool then ascii_of_nat (n + 32) else c.

Fixpoint toLowerCase (s : string) : string :=
  match s with
  | EmptyString => EmptyString
  | String c r => String (lowerAscii c) (toLowerCase r)
  end.

Fixpoint repeatString (c : ascii) (n : nat) : string :=
  match n with
  | O => EmptyString
  | S k => String c (repeatString c k)
  end.

(** [s.padStart(n, c)] for a one-character filler. *)
Definition padStart (n : nat) (c : ascii) (s : string) : string :=
  repeatString c (n - String.length s) +:+ s.

(** [s || d] on strings: the empty string is falsy. *)
Definition strOr (s d : string) : string :=
  if String.eqb s "" then d else s.

(** [o || d] where [o] is an optional string property. *)
Definition optStrOr (o : option string) (d : string) : string :=
  match o with
  | Some s => strOr s d
  | None => d
  end.

(** [Array.prototype.sort(cmp)]: the sort is stable, and [cmp a b < 0] puts
    [a] first.  Written as the stable insertion sort, which for a consistent
    comparator is the only result the language allows. *)
Section ArraySort.
Context {A : Type} (cmp : A -> A -> Z).

Fixpoint sortInsert (x : A) (l : list A) : list A :=
  match l with
  | [] => [x]
  | y :: ys => if (cmp x y <=? 0)%Z then x :: y :: ys else y :: sortInsert x ys
  end.

Definition Array_sort (l : list A) : list A := foldr sortInsert [] l.
End ArraySort.

(** [arr.slice(0, k)]. *)
Definition slice0 {A : Type} (k : nat) (l : list A) : list A := take k l.

(** ** runStaticAnalysis.ts: the unified finding *)

Inductive Severity := critical | high | medium | low | info.
Inductive Confidence := conf_high | conf_medium | conf_low.

Record Finding := mkFinding {
  id : string;
  file : string;
  line : Z;
  title : string;
  description : string;
  severity : Severity;
  confidence : Confidence;
  recommendation : string;
  tool : string;
  category : string;
}.

Record Summary := mkSummary {
  s_critical : nat;
  s_high : nat;
  s_medium : nat;
  s_low : nat;
  s_info : nat;
  s_total : nat;
}.

Definition severity_eqb (a b : Severity) : bool :=
  match a, b with
  | critical, critical | high, high | medium, medium
  | low, low | info, info => true
  | _, _ => false
  end.

(** The order of the data model: info < low < medium < high < critical. *)
Definition severityRank (s : Severity) : nat :=
  match s with
  | info => 0 | low => 1 | medium => 2 | high => 3 | critical => 4
  end%nat.

(** low < medium < high. *)
Definition confidenceRank (c : Confidence) : nat :=
  match c with
  | conf_low => 0 | conf_medium => 1 | conf_high => 2
  end%nat.

(** [const severityScores = { critical: 10, high: 7, medium: 4, low: 2, info: 1 }] *)
Definition severityScores (s : Severity) : Z :=
  match s with
  | critical => 10 | high => 7 | medium => 4 | low => 2 | info => 1
  end.

(** [const confidenceScores = { high: 3, medium: 2, low: 1 }] *)
Definition confidenceScores (c : Confidence) : Z :=
  match c with
  | conf_high => 3 | conf_medium => 2 | conf_low => 1
  end.

Definition calculatePriorityScore (finding : Finding) : Z :=
  severityScores (severity finding) * confidenceScores (confidence finding).

(** [allFindings.filter(f => f.severity === s).length] *)
Definition countSeverity (s : Severity) (fs : list Finding) : nat :=
  length (List.filter (fun f => severity_eqb (severity f) s) fs).

(** The summary object literal of the success path. *)
Definition summarize (allFindings : list Finding) : Summary :=
  {| s_critical := countSeverity critical allFindings;
     s_high := countSeverity high allFindings;
     s_medium := countSeverity medium allFindings;
     s_low := countSeverity low allFindings;
     s_info := countSeverity info allFindings;
     s_total := length allFindings |}.

(** The literal [{ critical: 0, high: 0, medium: 0, low: 0, info: 0, total: 0 }]. *)
Definition emptySummary : Summary := mkSummary 0 0 0 0 0 0.

(** The comparator of runAudit's sort:
    [(a, b) => calculatePriorityScore(b) - calculatePriorityScore(a)]. *)
Definition byPriorityDesc (a b : Finding) : Z :=
  calculatePriorityScore b - calculatePriorityScore a.

(** [findings.sort(byPriorityDesc).slice(0, k)]; runAudit uses [k = 5]. *)
Definition topK (k : nat) (findings : list Finding) : list Finding :=
  slice0 k (Array_sort byPriorityDesc findings).

(** ** JavaScript completions: a call returns a value or throws *)

Inductive Completion (A : Type) :=
| Returns (a : A)
| Throws (message : string).
Arguments Returns {A} a.
Arguments Throws {A} message.

(** ** runStaticAnalysis.ts: the per-source adapters *)

(** [const SEVERITY_MAP: Record<string, Finding['severity']>]: the seven
    keys of the object literal. *)
Definition SEVERITY_MAP : gmap string Severity :=
  list_to_map
    [ ("High", high); ("Medium", medium); ("Low", low);
      ("Informational", info);
      ("error", high); ("warning", medium); ("info", info) ].

(** The members an object literal inherits from Object.prototype.  Each is
    a function, except [__proto__], which reads as Object.prototype itself;
    all of them are truthy and none is a string. *)
Definition objectPrototypeKeys : list string :=
  [ "constructor"; "__defineGetter__"; "__defineSetter__"; "hasOwnProperty";
    "__lookupGetter__"; "__lookupSetter__"; "isPrototypeOf";
    "propertyIsEnumerable"; "toString"; "valueOf"; "__proto__";
    "toLocaleString" ].

(** What the [severity] of an adapter's object holds: one of the five
    strings, or the member of Object.prototype found under the key. *)
Inductive SeverityVal :=
| SevOf (s : Severity)
| SevInherited (key : string).

(** [SEVERITY_MAP[v] || 'info']: an own key gives its severity, an inherited
    one its member, which is truthy, and any other key [undefined] and so
    the fallback. *)
Definition mapSeverity (v : JsVal) : SeverityVal :=
  match SEVERITY_MAP !! toPropertyKey v with
  | Some s => SevOf s
  | None =>
      if bool_decide (toPropertyKey v ∈ objectPrototypeKeys)
      then SevInherited (toPropertyKey v)
      else SevOf info
  end.

(** The object an adapter builds.  The annotation [: Finding] of the source
    is a compile-time assertion only: a property copied from the report holds
    whatever scalar the JSON had there (or the fallback), [severity] what the
    table gave, and [confidence] whatever string the expression produced. *)
Record FindingObj := mkFindingObj {
  o_id : string;
  o_file : JsVal;
  o_line : JsVal;
  o_title : JsVal;
  o_description : JsVal;
  o_severity : SeverityVal;
  o_confidence : string;
  o_recommendation : JsVal;
  o_tool : string;
  o_category : JsVal;
}.

Definition asString (v : JsVal) : option string :=
  match v with JString s => Some s | _ => None end.

Definition asNumber (v : JsVal) : option Z :=
  match v with JNumber z => Some z | _ => None end.

Definition asSeverity (v : SeverityVal) : option Severity :=
  match v with SevOf s => Some s | SevInherited _ => None end.

(** The values of [Finding['confidence']]. *)
Definition parseConfidence (s : string) : option Confidence :=
  if String.eqb s "high" then Some conf_high
  else if String.eqb s "medium" then Some conf_medium
  else if String.eqb s "low" then Some conf_low
  else None.

(** An adapter's object seen at the declared type [Finding], when it has
    it: every property is of the type the interface declares. *)
Definition asFinding (o : FindingObj) : option Finding :=
  file ← asString (o_file o);
  line ← asNumber (o_line o);
  title ← asString (o_title o);
  description ← asString (o_description o);
  severity ← asSeverity (o_severity o);
  confidence ← parseConfidence (o_confidence o);
  recommendation ← asString (o_recommendation o);
  category ← asString (o_category o);
  Some (mkFinding (o_id o) file line title description severity confidence
          recommendation (o_tool o) category).

(** A [Finding] as the object it is. *)
Definition confidenceName (c : Confidence) : string :=
  match c with
  | conf_high => "high" | conf_medium => "medium" | conf_low => "low"
  end.

Definition ofFinding (f : Finding) : FindingObj :=
  {| o_id := id f;
     o_file := JString (file f);
     o_line := JNumber (line f);
     o_title := JString (title f);
     o_description := JString (description f);
     o_severity := SevOf (severity f);
     o_confidence := confidenceName (confidence f);
     o_recommendation := JString (recommendation f);
     o_tool := tool f;
     o_category := JString (category f) |}.

(** One entry of [report.results.detectors] in Slither's JSON.
    [d_filename_relative] and [d_first_line] stand for
    [elements?.[0]?.source_mapping?.filename_relative] and
    [elements?.[0]?.source_mapping?.lines?.[0]]. *)
Record SlitherDetector := mkSlitherDetector {
  d_check : JsVal;
  d_description : JsVal;
  d_impact : JsVal;
  d_confidence : JsVal;
  d_markdown : JsVal;
  d_filename_relative : JsVal;
  d_first_line : JsVal;
}.

(** [v?.toLowerCase()]: short-circuits on undefined and null, lowercases a
    string, and is a TypeError on any other scalar (no such method). *)
Definition optionalToLowerCase (v : JsVal) : Completion (option string) :=
  match v with
  | JUndefined | JNull => Returns None
  | JString s => Returns (Some (toLowerCase s))
  | JBool _ | JNumber _ => Throws "detector.confidence?.toLowerCase is not a function"
  end.

(** [`${prefix}-${String(idCounter).padStart(3, '0')}`] *)
Definition findingId (prefix : string) (idCounter : nat) : string :=
  prefix +:+ "-" +:+ padStart 3 "0" (pretty idCounter).

(** The object literal in the loop of runSlither. *)
Definition slitherFinding (idCounter : nat) (detector : SlitherDetector)
  : Completion FindingObj :=
  match optionalToLowerCase (d_confidence detector) with
  | Throws e => Throws e
  | Returns lowered =>
      Returns
        {| o_id := findingId "SLTH" idCounter;
           o_file := jsOr (d_filename_relative detector) (JString "unknown");
           o_line := jsOr (d_first_line detector) (JNumber 0);
           o_title := jsOr (d_check detector) (JString "Unknown Issue");
           o_description := jsOr (d_description detector) (JString "");
           o_severity := mapSeverity (d_impact detector);
           o_confidence := optStrOr lowered "medium";
           o_recommendation :=
             jsOr (d_markdown detector) (JString "Review the code carefully");
           o_tool := "Slither";
           o_category := jsOr (d_check detector) (JString "general") |}
  end.

(** The [for (const detector of ...)] loop inside the [try] of runSlither:
    a throw leaves the loop, and the [catch] keeps what was pushed so far. *)
Fixpoint slitherLoop (idCounter : nat) (detectors : list SlitherDetector)
    (findings : list FindingObj) : list FindingObj :=
  match detectors with
  | [] => findings
  | detector :: rest =>
      match slitherFinding idCounter detector with
      | Returns finding => slitherLoop (S idCounter) rest (findings ++ [finding])
      | Throws _ => findings
      end
  end.

(** runSlither on what the close handler reads: [None] when there is no
    report file, no parsable JSON or no [results.detectors]. *)
Definition runSlither (report : option (list SlitherDetector)) : list FindingObj :=
  match report with
  | Some detectors => slitherLoop 1 detectors []
  | None => []
  end.

(** One entry of [report.reports] in Solhint's JSON. *)
Record SolhintIssue := mkSolhintIssue {
  i_line : JsVal;
  i_ruleId : JsVal;
  i_message : JsVal;
  i_severity : JsVal;
}.

(** One entry of Solhint's top-level array; [r_reports] is [None] when
    [report.reports] is missing or falsy. *)
Record SolhintReport := mkSolhintReport {
  r_filePath : JsVal;
  r_reports : option (list SolhintIssue);
}.

(** The object literal in the inner loop of runSolhint. *)
Definition solhintFinding (idCounter : nat) (report : SolhintReport)
    (issue : SolhintIssue) : FindingObj :=
  {| o_id := findingId "SLNT" idCounter;
     o_file := jsOr (r_filePath report) (JString "unknown");
     o_line := jsOr (i_line issue) (JNumber 0);
     o_title := jsOr (i_ruleId issue) (JString "Style Issue");
     o_description := jsOr (i_message issue) (JString "");
     o_severity := mapSeverity (i_severity issue);
     o_confidence := "medium";
     o_recommendation := JString "Follow Solidity best practices";
     o_tool := "Solhint";
     o_category := jsOr (i_ruleId issue) (JString "style") |}.

Fixpoint solhintIssues (idCounter : nat) (report : SolhintReport)
    (issues : list SolhintIssue) (findings : list FindingObj)
  : nat * list FindingObj :=
  match issues with
  | [] => (idCounter, findings)
  | issue :: rest =>
      solhintIssues (S idCounter) report rest
        (findings ++ [solhintFinding idCounter report issue])
  end.

Fixpoint solhintLoop (idCounter : nat) (reports : list SolhintReport)
    (findings : list FindingObj) : list FindingObj :=
  match reports with
  | [] => findings
  | report :: rest =>
      match r_reports report with
      | Some issues =>
          let '(idCounter', findings') :=
            solhintIssues idCounter report issues findings in
          solhintLoop idCounter' rest findings'
      | None => solhintLoop idCounter rest findings
      end
  end.

(** runSolhint on the parsed standard output; [None] when the output is
    blank or does not parse. *)
Definition runSolhint (output : option (list SolhintReport)) : list FindingObj :=
  match output with
  | Some reports => solhintLoop 1 reports []
  | None => []
  end.

(** ** Shapes exchanged between the coordinator and its collaborators *)

(** utils/config.ts, the fields the coordinator and the notifier read. *)
Record Config := mkConfig {
  githubToken : string;
  testnetPrivateKey : string;
  rpcUrls : list string;
  telegramToken : string;
  telegramChatId : string;
  enableDynamicTesting : bool;
  enableAutoPR : bool;
  enableTelegramNotifications : bool;
}.

(** A [Finding[]] lives in the heap: the coordinator passes the array of the
    static result around by reference and sorts it in place. *)
Definition ArrayRef := nat.

(** cloneRepo.ts: [CloneRepoResult]. *)
Record CloneRepoResult := mkCloneRepoResult {
  c_success : bool;
  c_localPath : string;
  c_repoUrl : string;
  c_branch : string;
  c_commit : string;
  c_error : option string;
}.

(** cloneRepo.ts: the result of validateSolidityRepo. *)
Record ValidationResult := mkValidationResult {
  v_isValid : bool;
  v_contractFiles : list string;
  v_error : option string;
}.

(** runStaticAnalysis.ts: [StaticAnalysisResult]. *)
Record StaticAnalysisResult := mkStaticAnalysisResult {
  sa_success : bool;
  sa_findings : ArrayRef;
  sa_summary : Summary;
  sa_toolsRun : list string;
  sa_duration : Z;
  sa_error : option string;
}.

(** runDynamicTests.ts: the [summary] of a [DynamicTestResult]. *)
Record DynamicSummary := mkDynamicSummary {
  totalDeployed : nat;
  totalTransactions : nat;
  successfulTx : nat;
  failedTx : nat;
  totalGasUsed : N;
}.

(** runDynamicTests.ts: [DynamicTestResult], the fields the coordinator and
    the notifier read. *)
Record DynamicTestResult := mkDynamicTestResult {
  dt_success : bool;
  dt_summary : DynamicSummary;
  dt_error : option string;
}.

(** Modelled from the spec: generateFixes.ts is not among the sources; the
    coordinator only stores the fixes and counts them, so a fix is an opaque
    payload here. *)
Record Fix := mkFix { fix_payload : string }.

(** Modelled from the spec: createPR.ts is not among the sources; these are
    the three properties of its result that runAudit and executeAuditTool
    read ([success], [prUrl], [error]). *)
Record PRResult := mkPRResult {
  pr_success : bool;
  pr_prUrl : option string;
  pr_error : option string;
}.

(** The argument object of createPR, with the findings as they are in the
    array at the time of the call. *)
Record CreatePRInput := mkCreatePRInput {
  pi_repoPath : string;
  pi_repoUrl : string;
  pi_findings : list Finding;
  pi_fixes : list Fix;
  pi_dynamicTestResult : option DynamicTestResult;
  pi_auditId : string;
}.

(** smartAuditAgent.ts: [AuditRequest]. *)
Record AuditRequest := mkAuditRequest {
  rq_repoUrl : string;
  rq_branch : option string;
  rq_runDynamicTests : option bool;
  rq_createPullRequest : option bool;
}.

(** smartAuditAgent.ts: [AuditResult]. *)
Record AuditResult := mkAuditResult {
  ar_success : bool;
  ar_auditId : string;
  ar_repoUrl : string;
  ar_findings : ArrayRef;
  ar_fixes : list Fix;
  ar_dynamicTestResult : option DynamicTestResult;
  ar_prUrl : option string;
  ar_summary : Summary;
  ar_duration : Z;
  ar_error : option string;
}.

(** The object executeAuditTool returns. *)
Record ToolResult := mkToolResult {
  tr_success : bool;
  tr_auditId : string;
  tr_summary : option Summary;
  tr_findingsCount : option nat;
  tr_fixesCount : option nat;
  tr_prUrl : option string;
  tr_duration : Z;
  tr_error : option string;
}.

(** What [JSON.stringify(report)] freezes into memory/<auditId>/: the
    findings are serialised as they stand in the array at that moment. *)
Record ReportFile := mkReportFile {
  rp_auditId : string;
  rp_repoUrl : string;
  rp_timestamp : Z;
  rp_findings : list Finding;
  rp_summary : Summary;
  rp_dynamicTests : option DynamicTestResult;
  rp_fixes : list Fix;
  rp_prUrl : option string;
}.

(** The report of executeAuditTool (full-report.json). *)
Record FullReportFile := mkFullReportFile {
  fr_auditId : string;
  fr_repoUrl : string;
  fr_branch : string;
  fr_timestamp : Z;
  fr_clone : CloneRepoResult;
  fr_findings : list Finding;
  fr_summary : Summary;
  fr_dynamicTests : option DynamicTestResult;
  fr_fixes : list Fix;
  fr_pr : option PRResult;
  fr_duration : Z;
}.

Inductive FileContent :=
| AuditReportJson (report : ReportFile)
| FullReportJson (report : FullReportFile).

(** telegramBot.ts: the text of each notification, kept as the data that is
    interpolated into it.  The success rate of the dynamic tests, a floating
    point number in the source, is kept as the fraction it is computed from. *)
Inductive Message :=
| MsgAuditStart (repoUrl auditId : string)
| MsgCloneComplete (repoUrl : string) (contractCount : nat)
| MsgStaticAnalysisComplete (critical_ high_ medium_ total_ : nat)
    (topFindings : list Finding)
| MsgDynamicTestsComplete (deployed transactions : nat)
    (successNumerator successDenominator : nat)
| MsgPRCreated (prUrl : string) (fixesCount : nat) (topFindings : list string)
| MsgAuditComplete (result : AuditResult)
| MsgAuditError (repoUrl error : string).

(** server.ts: [AuditStatus]. *)
Inductive RunStatus := queued | running | completed | failed.

Record Progress := mkProgress {
  pg_step : string;
  pg_stepNumber : nat;
  pg_totalSteps : nat;
  pg_message : string;
}.

Record AuditStatus := mkAuditStatus {
  as_id : string;
  as_repoUrl : string;
  as_branch : string;
  as_status : RunStatus;
  as_progress : option Progress;
  as_startedAt : Z;
  as_completedAt : option Z;
  as_result : option AuditResult;
  as_error : option string;
}.

(** The four properties the handler of POST /api/audit/start reads from
    the JSON body, at the types it takes them for; [None] is a property
    that is missing. *)
Record StartBody := mkStartBody {
  b_repoUrl : option string;
  b_branch : option string;
  b_runDynamicTests : option bool;
  b_createPullRequest : option bool;
}.

(** What the first two statements of the handler's [try] come to:
    [await c.req.json()] rejects when the body is not JSON, and the
    destructuring throws when the body is [null]; otherwise the four
    properties are read from the body. *)
Inductive ParsedBody :=
| BodyThrows (message : string)
| BodyFields (body : StartBody).

(** [c.json({ error }, 400)], [c.json({ error: error.message }, 500)] and
    [c.json({ auditId, status: 'queued', ... })]. *)
Inductive Response :=
| Response400 (error : string)
| Response500 (error : string)
| ResponseQueued (auditId : string).

(** A callback handed to [setImmediate] by the start handler: the closure
    over the [audit] object, its id and the request fields. *)
Record Immediate := mkImmediate {
  im_audit : nat;
  im_auditId : string;
  im_repoUrl : string;
  im_branch : string;
  im_runDynamicTests : bool;
  im_createPullRequest : bool;
}.

(** Calls that leave the coordinator, in the order they are made. *)
Inductive Event :=
| EvClone (repoUrl branch : string)
| EvValidate (localPath : string)
| EvStaticAnalysis (repoPath : string)
| EvDynamicTests (repoPath : string)
| EvGenerateFixes (repoPath : string)
| EvCreatePR (auditId : string)
| EvWriteFile (path : string)
| EvSendMessage (message : Message).

(** ** The world the coordinator runs in *)

(** [files] holds what the coordinator itself writes with [fs.writeFile],
    its two reports.  What the actions it calls leave on disk (the clone of
    cloneRepository, the report file of Slither, the branch of createPR) is
    behind their oracles in [Env] and is not part of the world. *)
Record World := mkWorld {
  ticks : nat;                      (* clock readings taken so far *)
  arrays : list (list Finding);     (* heap of Finding[] *)
  objects : list AuditStatus;       (* heap of AuditStatus objects *)
  audits : gmap string nat;         (* server.ts: [const audits = new Map] *)
  immediates : list Immediate;      (* pending setImmediate callbacks *)
  files : gmap string FileContent;  (* reports written by fs_writeFile *)
  bot : bool;                       (* telegramBot.ts: [bot] is not null *)
  sent : nat;                       (* calls of bot.sendMessage so far *)
  trace : list Event;               (* calls made so far, oldest first *)
}.

Definition initialWorld : World :=
  mkWorld 0 [] [] ∅ [] ∅ false 0 [].

(** What the outside does when called.  Each field is the settled outcome of
    one external call; [clock] is the sequence of values read by the
    [Date.now()] and [new Date()] whose results the coordinator keeps.  The
    three analyzers answer at their declared type, [Promise<Finding[]>];
    what the coordinator does with objects that are not Findings is in
    [Runtime] below.  [fixGenerator] and [publisher] stand for
    generateFixes.ts and createPR.ts, whose sources are not available. *)
Record Env := mkEnv {
  config : Config;
  cwd : string;
  clock : nat -> Z;
  newTelegramBot : Completion unit;
  botSendMessage : nat -> Message -> Completion unit;
  gitClone : string -> string -> Completion (string * string);
  findSolFiles : string -> Completion (list string);
  slither : string -> Completion (list Finding);
  solhint : string -> Completion (list Finding);
  patternChecks : string -> Completion (list Finding);
  testnet : string -> Completion DynamicSummary;
  fixGenerator : list Finding -> string -> Completion (list Fix);
  publisher : CreatePRInput -> Completion PRResult;
  mkdir : string -> Completion unit;
  writeFile : string -> Completion unit;
}.

(** ** Sequencing: state passing with exceptions *)

Definition M (A : Type) : Type := World -> Completion A * World.

Definition ret {A} (a : A) : M A := fun w => (Returns a, w).

Definition throw {A} (message : string) : M A := fun w => (Throws message, w).

Definition bind {A B} (m : M A) (k : A -> M B) : M B :=
  fun w =>
    match m w with
    | (Returns a, w') => k a w'
    | (Throws e, w') => (Throws e, w')
    end.

(** [try { body } catch (error) { handler(message of error) }] *)
Definition tryCatch {A} (body : M A) (handler : string -> M A) : M A :=
  fun w =>
    match body w with
    | (Returns a, w') => (Returns a, w')
    | (Throws e, w') => handler e w'
    end.

Definition settle {A} (c : Completion A) : M A := fun w => (c, w).

Notation "x <- c1 ;; c2" := (bind c1 (fun x => c2))
  (at level 100, c1 at next level, right associativity).
Notation "c1 ;; c2" := (bind c1 (fun _ => c2))
  (at level 100, right associativity).

Definition setTicks (n : nat) (w : World) : World :=
  mkWorld n (arrays w) (objects w) (audits w) (immediates w) (files w)
    (bot w) (sent w) (trace w).
Definition setArrays (a : list (list Finding)) (w : World) : World :=
  mkWorld (ticks w) a (objects w) (audits w) (immediates w) (files w)
    (bot w) (sent w) (trace w).
Definition setObjects (o : list AuditStatus) (w : World) : World :=
  mkWorld (ticks w) (arrays w) o (audits w) (immediates w) (files w)
    (bot w) (sent w) (trace w).
Definition setAudits (m : gmap string nat) (w : World) : World :=
  mkWorld (ticks w) (arrays w) (objects w) m (immediates w) (files w)
    (bot w) (sent w) (trace w).
Definition setImmediates (q : list Immediate) (w : World) : World :=
  mkWorld (ticks w) (arrays w) (objects w) (audits w) q (files w)
    (bot w) (sent w) (trace w).
Definition setFiles (f : gmap string FileContent) (w : World) : World :=
  mkWorld (ticks w) (arrays w) (objects w) (audits w) (immediates w) f
    (bot w) (sent w) (trace w).
Definition setBot (b : bool) (w : World) : World :=
  mkWorld (ticks w) (arrays w) (objects w) (audits w) (immediates w) (files w)
    b (sent w) (trace w).
Definition setSent (n : nat) (w : World) : World :=
  mkWorld (ticks w) (arrays w) (objects w) (audits w) (immediates w) (files w)
    (bot w) n (trace w).
Definition setTrace (t : list Event) (w : World) : World :=
  mkWorld (ticks w) (arrays w) (objects w) (audits w) (immediates w) (files w)
    (bot w) (sent w) t.

Definition emit (e : Event) : M unit :=
  fun w => (Returns tt, setTrace (trace w ++ [e]) w).

(** The array behind a reference. *)
Definition deref (w : World) (r : ArrayRef) : list Finding :=
  default [] (arrays w !! r).

(** An array literal or a spread: a fresh array. *)
Definition newArray (l : list Finding) : M ArrayRef :=
  fun w => (Returns (length (arrays w)), setArrays (arrays w ++ [l]) w).

Definition readArray (r : ArrayRef) : M (list Finding) :=
  fun w => (Returns (deref w r), w).

(** [arr.sort(cmp)]: sorts the array itself and returns that same array. *)
Definition sortInPlace (cmp : Finding -> Finding -> Z) (r : ArrayRef)
  : M ArrayRef :=
  fun w =>
    (Returns r, setArrays (<[r := Array_sort cmp (deref w r)]> (arrays w)) w).

(** [arr.slice(0, k)]: a fresh array. *)
Definition sliceArray (k : nat) (r : ArrayRef) : M ArrayRef :=
  l <- readArray r ;; newArray (slice0 k l).

(** [`${e}`] of an optional string property. *)
Definition template (o : option string) : string := default "undefined" o.

(** [`audit-${Date.now()}`] *)
Definition auditIdOf (now : Z) : string := "audit-" +:+ pretty now.

(** [path.join(a, b)] *)
Definition pathJoin (a b : string) : string := a +:+ "/" +:+ b.

(** The content of a file on disk is replaced, or the file is created. *)
Definition storeFile (path : string) (content : FileContent) : M unit :=
  fun w => (Returns tt, setFiles (<[path := content]> (files w)) w).

(** [bot = new TelegramBot(...)] has run. *)
Definition setBotReady : M bool := fun w => (Returns true, setBot true w).

Section Coordinator.
Variable env : Env.

(** [Date.now()] and [new Date()]. *)
Definition DateNow : M Z :=
  fun w => (Returns (clock env (ticks w)), setTicks (S (ticks w)) w).

(** *** telegramBot.ts *)

Definition initTelegramBot : M bool :=
  if (negb (enableTelegramNotifications (config env))
      || String.eqb (telegramToken (config env)) "")%bool
  then ret false
  else
    tryCatch
      (settle (newTelegramBot env) ;; setBotReady)
      (fun _ => ret false).

(** [await bot.sendMessage(config.telegramChatId, message, ...)] *)
Definition bot_sendMessage (message : Message) : M unit :=
  fun w =>
    (botSendMessage env (sent w) message,
     setTrace (trace w ++ [EvSendMessage message]) (setSent (S (sent w)) w)).

Definition sendTelegramMessage (message : Message) : M unit :=
  fun w =>
    if (negb (bot w) || String.eqb (telegramChatId (config env)) "")%bool
    then ret tt w
    else tryCatch (bot_sendMessage message) (fun _ => ret tt) w.

Definition notifyAuditStart (repoUrl auditId : string) : M unit :=
  sendTelegramMessage (MsgAuditStart repoUrl auditId).

Definition notifyCloneComplete (repoUrl : string) (contractCount : nat)
  : M unit :=
  sendTelegramMessage (MsgCloneComplete repoUrl contractCount).

(** At the declared types every description is a string and the text is
    put together without a throw; for other objects see
    [Runtime.notifyStaticAnalysisComplete]. *)
Definition notifyStaticAnalysisComplete (findings topFindings : ArrayRef)
  : M unit :=
  fs <- readArray findings ;;
  top <- readArray topFindings ;;
  sendTelegramMessage
    (MsgStaticAnalysisComplete
       (countSeverity critical fs) (countSeverity high fs)
       (countSeverity medium fs) (length fs) top).

Definition notifyDynamicTestsComplete (deployed transactions : nat)
    (successNumerator successDenominator : nat) : M unit :=
  sendTelegramMessage
    (MsgDynamicTestsComplete deployed transactions
       successNumerator successDenominator).

Definition notifyPRCreated (prUrl : string) (fixesCount : nat)
    (topFindings : list string) : M unit :=
  sendTelegramMessage (MsgPRCreated prUrl fixesCount topFindings).

Definition notifyAuditComplete (result : AuditResult) : M unit :=
  sendTelegramMessage (MsgAuditComplete result).

Definition notifyAuditError (repoUrl error : string) : M unit :=
  sendTelegramMessage (MsgAuditError repoUrl error).

(** *** cloneRepo.ts *)

(** cloneRepository as the coordinator sees it: the result object.  The
    directory it creates and fills on disk is not recorded in the world. *)
Definition cloneRepository (repoUrl : string) (branch : string)
  : M CloneRepoResult :=
  emit (EvClone repoUrl branch) ;;
  tryCatch
    (cloned <- settle (gitClone env repoUrl branch) ;;
     ret (mkCloneRepoResult true (fst cloned) repoUrl branch (snd cloned) None))
    (fun errorMsg =>
       ret (mkCloneRepoResult false "" repoUrl branch "" (Some errorMsg))).

Definition validateSolidityRepo (localPath : string) : M ValidationResult :=
  emit (EvValidate localPath) ;;
  tryCatch
    (contractFiles <- settle (findSolFiles env localPath) ;;
     if (length contractFiles =? 0)%nat
     then ret (mkValidationResult false []
                 (Some "No Solidity (.sol) files found in repository"))
     else ret (mkValidationResult true contractFiles None))
    (fun errorMsg => ret (mkValidationResult false [] (Some errorMsg))).

(** *** runStaticAnalysis.ts *)

(** [await Promise.all([runSlither(p), runSolhint(p), runPatternChecks(p)])];
    the three calls are made in this order before any of them is awaited. *)
Definition analyzers (repoPath : string)
  : M (list Finding * list Finding * list Finding) :=
  match slither env repoPath, solhint env repoPath, patternChecks env repoPath with
  | Returns a, Returns b, Returns c => ret (a, b, c)
  | Throws e, _, _ => throw e
  | _, Throws e, _ => throw e
  | _, _, Throws e => throw e
  end.

Definition toolsRunOf (slitherFindings solhintFindings : list Finding)
  : list string :=
  ["PatternCheck"]
    ++ (if (0 <? length slitherFindings)%nat then ["Slither"] else [])
    ++ (if (0 <? length solhintFindings)%nat then ["Solhint"] else []).

Definition runStaticAnalysis (repoPath : string) : M StaticAnalysisResult :=
  startTime <- DateNow ;;
  emit (EvStaticAnalysis repoPath) ;;
  tryCatch
    (found <- analyzers repoPath ;;
     let slitherFindings := fst (fst found) in
     let solhintFindings := snd (fst found) in
     let patternFindings := snd found in
     allFindings <-
       newArray (slitherFindings ++ solhintFindings ++ patternFindings) ;;
     all <- readArray allFindings ;;
     let summary := summarize all in
     now <- DateNow ;;
     ret (mkStaticAnalysisResult true allFindings summary
            (toolsRunOf slitherFindings solhintFindings)
            (now - startTime) None))
    (fun errorMsg =>
       empty <- newArray [] ;;
       now <- DateNow ;;
       ret (mkStaticAnalysisResult false empty emptySummary []
              (now - startTime) (Some errorMsg))).

(** *** runDynamicTests.ts *)

Definition runDynamicTests (repoPath : string) : M DynamicTestResult :=
  emit (EvDynamicTests repoPath) ;;
  tryCatch
    (summary <- settle (testnet env repoPath) ;;
     ret (mkDynamicTestResult true summary None))
    (fun errorMsg =>
       ret (mkDynamicTestResult false (mkDynamicSummary 0 0 0 0 0)
              (Some errorMsg))).

(** *** The two collaborators without source *)

(** Modelled from the spec: generateFixes.ts is not among the sources.  The
    fix generator is [generate(findings, localPath) -> Fix[]]: it reads the
    array it is handed, leaves it as it is, and returns or throws as the
    environment says. *)
Definition generateFixes (findings : ArrayRef) (repoPath : string)
  : M (list Fix) :=
  emit (EvGenerateFixes repoPath) ;;
  fs <- readArray findings ;;
  settle (fixGenerator env fs repoPath).

(** Modelled from the spec: createPR.ts is not among the sources.  The
    publisher is [publish(findings, fixes, dynamicSummary) -> {url} | Error];
    it is called with the argument object of the source, reads the findings
    array without changing it, and returns or throws as the environment
    says. *)
Definition createPR (repoPath repoUrl : string) (findings : ArrayRef)
    (fixes : list Fix) (dynamicTestResult : option DynamicTestResult)
    (auditId : string) : M PRResult :=
  emit (EvCreatePR auditId) ;;
  fs <- readArray findings ;;
  settle (publisher env
            (mkCreatePRInput repoPath repoUrl fs fixes dynamicTestResult
               auditId)).

(** [await fs.mkdir(dir, { recursive: true })] *)
Definition fs_mkdir (dir : string) : M unit := settle (mkdir env dir).

(** [await fs.writeFile(path, JSON.stringify(report, null, 2))]: when the
    call succeeds the file holds the serialised report. *)
Definition fs_writeFile (path : string) (content : FileContent) : M unit :=
  emit (EvWriteFile path) ;;
  settle (writeFile env path) ;;
  storeFile path content.

(** *** smartAuditAgent.ts *)

(** [if (flag)] on an optional boolean property. *)
Definition flagSet (flag : option bool) : bool := default false flag.

(** The steps planAuditTool lists. *)
Definition planSteps : list string :=
  ["Clone repository"; "Validate Solidity contracts";
   "Run static analysis (Slither, Solhint, Pattern checks)"]
    ++ (if (enableDynamicTesting (config env)
            && negb (String.eqb (testnetPrivateKey (config env)) ""))%bool
        then ["Deploy to Arbitrum Sepolia testnet"; "Execute test transactions"]
        else [])
    ++ ["Generate automated fixes"]
    ++ (if (enableAutoPR (config env)
            && negb (String.eqb (githubToken (config env)) ""))%bool
        then ["Create GitHub Pull Request"]
        else []).

(** executeAuditTool, step 4:
    [config.enableDynamicTesting && config.testnetPrivateKey
     && config.rpcUrls.length > 0] *)
Definition toolDynamicGate : bool :=
  (enableDynamicTesting (config env)
   && negb (String.eqb (testnetPrivateKey (config env)) "")
   && (0 <? length (rpcUrls (config env)))%nat)%bool.

(** executeAuditTool, step 6: [config.enableAutoPR && config.githubToken] *)
Definition toolPRGate : bool :=
  (enableAutoPR (config env)
   && negb (String.eqb (githubToken (config env)) ""))%bool.

(** runAudit: [request.runDynamicTests && config.enableDynamicTesting] *)
Definition auditDynamicGate (request : AuditRequest) : bool :=
  (flagSet (rq_runDynamicTests request)
   && enableDynamicTesting (config env))%bool.

(** runAudit: [request.createPullRequest && config.enableAutoPR] *)
Definition auditPRGate (request : AuditRequest) : bool :=
  (flagSet (rq_createPullRequest request) && enableAutoPR (config env))%bool.

Definition executeAuditTool (repoUrl branch : string) : M ToolResult :=
  idStamp <- DateNow ;;
  let auditId := auditIdOf idStamp in
  startTime <- DateNow ;;
  tryCatch
    (cloneResult <- cloneRepository repoUrl branch ;;
     if negb (c_success cloneResult)
     then throw ("Clone failed: " +:+ template (c_error cloneResult))
     else
     validation <- validateSolidityRepo (c_localPath cloneResult) ;;
     if negb (v_isValid validation)
     then throw ("Validation failed: " +:+ template (v_error validation))
     else
     staticResult <- runStaticAnalysis (c_localPath cloneResult) ;;
     if negb (sa_success staticResult)
     then throw ("Static analysis failed: " +:+ template (sa_error staticResult))
     else
     dynamicResult <-
       (if toolDynamicGate
        then d <- runDynamicTests (c_localPath cloneResult) ;; ret (Some d)
        else ret None) ;;
     fixes <- generateFixes (sa_findings staticResult) (c_localPath cloneResult) ;;
     prResult <-
       (if toolPRGate
        then p <- createPR (c_localPath cloneResult) repoUrl
                    (sa_findings staticResult) fixes dynamicResult auditId ;;
             ret (Some p)
        else ret None) ;;
     let memoryDir := pathJoin (pathJoin (cwd env) "memory") auditId in
     fs_mkdir memoryDir ;;
     timestamp <- DateNow ;;
     now <- DateNow ;;
     snapshot <- readArray (sa_findings staticResult) ;;
     fs_writeFile (pathJoin memoryDir "full-report.json")
       (FullReportJson
          (mkFullReportFile auditId repoUrl branch timestamp cloneResult
             snapshot (sa_summary staticResult) dynamicResult fixes
             prResult (now - startTime))) ;;
     all <- readArray (sa_findings staticResult) ;;
     finished <- DateNow ;;
     ret (mkToolResult true auditId (Some (sa_summary staticResult))
            (Some (length all)) (Some (length fixes))
            (p ← prResult; pr_prUrl p) (finished - startTime) None))
    (fun errorMsg =>
       now <- DateNow ;;
       ret (mkToolResult false auditId None None None None
              (now - startTime) (Some errorMsg))).

(** The dynamic-testing block of runAudit. *)
Definition auditDynamicStage (request : AuditRequest) (localPath : string)
  : M (option DynamicTestResult) :=
  if auditDynamicGate request
  then
    dynamicResult <- runDynamicTests localPath ;;
    (if dt_success dynamicResult
     then
       let s := dt_summary dynamicResult in
       if (0 <? totalTransactions s)%nat
       then notifyDynamicTestsComplete (totalDeployed s)
              (totalTransactions s) (successfulTx s * 100)
              (totalTransactions s)
       else notifyDynamicTestsComplete (totalDeployed s)
              (totalTransactions s) 0 1
     else ret tt) ;;
    ret (Some dynamicResult)
  else ret None.

(** The pull-request block of runAudit. *)
Definition auditPRStage (request : AuditRequest) (localPath : string)
    (findings topFindings : ArrayRef) (fixes : list Fix)
    (dynamicResult : option DynamicTestResult) (auditId : string)
  : M (option string) :=
  if auditPRGate request
  then
    prResult <- createPR localPath (rq_repoUrl request) findings fixes
                  dynamicResult auditId ;;
    let prUrl := pr_prUrl prResult in
    (if negb (String.eqb (default "" prUrl) "")
     then
       top <- readArray topFindings ;;
       notifyPRCreated (default "" prUrl) (length fixes) (map title top)
     else ret tt) ;;
    ret prUrl
  else ret None.

Definition runAudit (request : AuditRequest) : M AuditResult :=
  idStamp <- DateNow ;;
  let auditId := auditIdOf idStamp in
  startTime <- DateNow ;;
  notifyAuditStart (rq_repoUrl request) auditId ;;
  tryCatch
    (cloneResult <-
       cloneRepository (rq_repoUrl request)
         (optStrOr (rq_branch request) "main") ;;
     if negb (c_success cloneResult)
     then throw ("Clone failed: " +:+ template (c_error cloneResult))
     else
     validation <- validateSolidityRepo (c_localPath cloneResult) ;;
     if negb (v_isValid validation)
     then throw ("No Solidity contracts found: "
                 +:+ template (v_error validation))
     else
     notifyCloneComplete (rq_repoUrl request)
       (length (v_contractFiles validation)) ;;
     staticResult <- runStaticAnalysis (c_localPath cloneResult) ;;
     if negb (sa_success staticResult)
     then throw ("Static analysis failed: " +:+ template (sa_error staticResult))
     else
     sorted <- sortInPlace byPriorityDesc (sa_findings staticResult) ;;
     topFindings <- sliceArray 5 sorted ;;
     notifyStaticAnalysisComplete (sa_findings staticResult) topFindings ;;
     dynamicResult <- auditDynamicStage request (c_localPath cloneResult) ;;
     fixes <- generateFixes (sa_findings staticResult) (c_localPath cloneResult) ;;
     prUrl <- auditPRStage request (c_localPath cloneResult)
                (sa_findings staticResult) topFindings fixes dynamicResult
                auditId ;;
     let memoryDir := pathJoin (pathJoin (cwd env) "memory") auditId in
     fs_mkdir memoryDir ;;
     timestamp <- DateNow ;;
     snapshot <- readArray (sa_findings staticResult) ;;
     fs_writeFile (pathJoin memoryDir "audit-report.json")
       (AuditReportJson
          (mkReportFile auditId (rq_repoUrl request) timestamp snapshot
             (sa_summary staticResult) dynamicResult fixes prUrl)) ;;
     now <- DateNow ;;
     let result :=
       mkAuditResult true auditId (rq_repoUrl request)
         (sa_findings staticResult) fixes dynamicResult prUrl
         (sa_summary staticResult) (now - startTime) None in
     notifyAuditComplete result ;;
     ret result)
    (fun errorMsg =>
       notifyAuditError (rq_repoUrl request) errorMsg ;;
       empty <- newArray [] ;;
       now <- DateNow ;;
       ret (mkAuditResult false auditId (rq_repoUrl request) empty [] None
              None emptySummary (now - startTime) (Some errorMsg))).

(** *** server.ts *)

Definition newObject (a : AuditStatus) : M nat :=
  fun w => (Returns (length (objects w)), setObjects (objects w ++ [a]) w).

Definition updateObject (r : nat) (f : AuditStatus -> AuditStatus) : M unit :=
  fun w => (Returns tt, setObjects (alter f r (objects w)) w).

(** [audits.set(auditId, audit)] *)
Definition audits_set (auditId : string) (audit : nat) : M unit :=
  fun w => (Returns tt, setAudits (<[auditId := audit]> (audits w)) w).

Definition setImmediate (callback : Immediate) : M unit :=
  fun w => (Returns tt, setImmediates (immediates w ++ [callback]) w).

(** [audit.status = 'running'; audit.progress = {...}] *)
Definition markRunning (a : AuditStatus) : AuditStatus :=
  mkAuditStatus (as_id a) (as_repoUrl a) (as_branch a) running
    (Some (mkProgress "clone" 1 6 "Cloning repository..."))
    (as_startedAt a) (as_completedAt a) (as_result a) (as_error a).

(** [audit.status = 'completed'; audit.completedAt = new Date();
     audit.result = result; delete audit.progress] *)
Definition markCompleted (completedAt : Z) (result : AuditResult)
    (a : AuditStatus) : AuditStatus :=
  mkAuditStatus (as_id a) (as_repoUrl a) (as_branch a) completed None
    (as_startedAt a) (Some completedAt) (Some result) (as_error a).

(** [audit.status = 'failed'; audit.completedAt = new Date();
     audit.error = error.message; delete audit.progress] *)
Definition markFailed (completedAt : Z) (message : string)
    (a : AuditStatus) : AuditStatus :=
  mkAuditStatus (as_id a) (as_repoUrl a) (as_branch a) failed None
    (as_startedAt a) (Some completedAt) (as_result a) (Some message).

(** The handler of POST /api/audit/start from the test of [repoUrl] to its
    response, given the four properties read from the body; the background
    work is left with [setImmediate]. *)
Definition startAudit (body : StartBody) : M Response :=
  let branch := default "main" (b_branch body) in
  let runDynamicTests := default true (b_runDynamicTests body) in
  let createPullRequest := default true (b_createPullRequest body) in
  if String.eqb (default "" (b_repoUrl body)) ""
  then ret (Response400 "Repository URL is required")
  else
    let repoUrl := default "" (b_repoUrl body) in
    idStamp <- DateNow ;;
    let auditId := auditIdOf idStamp in
    startedAt <- DateNow ;;
    audit <- newObject
               (mkAuditStatus auditId repoUrl branch queued None startedAt
                  None None None) ;;
    audits_set auditId audit ;;
    setImmediate
      (mkImmediate audit auditId repoUrl branch runDynamicTests
         createPullRequest) ;;
    ret (ResponseQueued auditId).

(** The handler of POST /api/audit/start with its [try] and [catch]: what
    is thrown while the body is read is answered with status 500 and the
    message of the error. *)
Definition postAuditStart (parsed : ParsedBody) : M Response :=
  tryCatch
    (match parsed with
     | BodyThrows message => throw message
     | BodyFields body => startAudit body
     end)
    (fun message => ret (Response500 message)).

(** The callback given to [setImmediate].  The interval timer that only
    rewrites [audit.progress] while the run is going is left out:
    [progress] is deleted on both exits. *)
Definition auditJob (job : Immediate) : M unit :=
  tryCatch
    (updateObject (im_audit job) markRunning ;;
     tryCatch
       (result <-
          runAudit
            (mkAuditRequest (im_repoUrl job) (Some (im_branch job))
               (Some (im_runDynamicTests job))
               (Some (im_createPullRequest job))) ;;
        completedAt <- DateNow ;;
        updateObject (im_audit job) (markCompleted completedAt result))
       (fun auditError => throw auditError))
    (fun message =>
       completedAt <- DateNow ;;
       updateObject (im_audit job) (markFailed completedAt message)).

Fixpoint runJobs (jobs : list Immediate) : M unit :=
  match jobs with
  | [] => ret tt
  | job :: rest => auditJob job ;; runJobs rest
  end.

(** One turn of the event loop: the pending callbacks run, each to its end. *)
Definition runImmediates : M unit :=
  fun w => runJobs (immediates w) (setImmediates [] w).

(** POST /api/audit/start followed by the background work it queued. *)
Definition serveAudit (body : StartBody) : M Response :=
  response <- startAudit body ;;
  runImmediates ;;
  ret response.
End Coordinator.

(** GET /api/audit/:id *)
Definition getAudit (w : World) (auditId : string) : option AuditStatus :=
  r ← audits w !! auditId; objects w !! r.

(** The world a call leaves behind, and what it returned. *)
Definition worldAfter {A} (m : M A) (w : World) : World := snd (m w).
Definition outcome {A} (m : M A) (w : World) : Completion A := fst (m w).

(** ** Vocabulary of the properties *)

(** [a] may stand before [b] in a list sorted by descending priority. *)
Definition scoreGe (a b : Finding) : Prop :=
  calculatePriorityScore a >= calculatePriorityScore b.

(** The findings of one priority score. *)
Definition hasScore (p : Z) (f : Finding) : bool :=
  (calculatePriorityScore f =? p)%Z.

(** The sum of the five severity buckets of a summary. *)
Definition bucketSum (s : Summary) : nat :=
  (s_critical s + s_high s + s_medium s + s_low s + s_info s)%nat.

(** sendTelegramMessage returns at its first line: no bot, or no chat id. *)
Definition telegramOff (env : Env) (botReady : bool) : bool :=
  (negb botReady || String.eqb (telegramChatId (config env)) "")%bool.

(** What one call of sendTelegramMessage adds to the trace. *)
Definition sendEvents (env : Env) (message : Message) (botReady : bool)
  : list Event :=
  if telegramOff env botReady then [] else [EvSendMessage message].

(** How many calls of bot.sendMessage one call of sendTelegramMessage makes. *)
Definition sendCount (env : Env) (botReady : bool) : nat :=
  if telegramOff env botReady then 0 else 1.

(** The world after a call of sendTelegramMessage, whatever the sink did:
    nothing when the bot or the chat id is missing, else one more call. *)
Definition noteSend (env : Env) (message : Message) (w : World) : World :=
  mkWorld (ticks w) (arrays w) (objects w) (audits w) (immediates w) (files w)
    (bot w) (sent w + sendCount env (bot w))
    (trace w ++ sendEvents env message (bot w)).

(** The same environment with another notification sink. *)
Definition withSink (sink : nat -> Message -> Completion unit) (env : Env) : Env :=
  mkEnv (config env) (cwd env) (clock env) (newTelegramBot env) sink
    (gitClone env) (findSolFiles env) (slither env) (solhint env)
    (patternChecks env) (testnet env) (fixGenerator env) (publisher env)
    (mkdir env) (writeFile env).

(** A call that does not throw. *)
Definition returnsNormally {A} (c : Completion A) : Prop :=
  match c with
  | Returns _ => True
  | Throws _ => False
  end.

(** Where runAudit writes the report of the run [auditId]. *)
Definition reportPath (env : Env) (auditId : string) : string :=
  pathJoin (pathJoin (pathJoin (cwd env) "memory") auditId) "audit-report.json".

(** Weakest precondition of a call: [Q] on return, [E] on throw. *)
Definition wp {A} (m : M A) (Q : A -> World -> Prop)
    (E : string -> World -> Prop) (w : World) : Prop :=
  match m w with
  | (Returns a, w') => Q a w'
  | (Throws e, w') => E e w'
  end.

(** A call that moves the world along [R] only. *)
Definition respects {A} (R : World -> World -> Prop) (m : M A) : Prop :=
  forall w, R w (snd (m w)).

(** Only the trace grew and messages were sent: the clock position, the
    arrays, the registry, the pending callbacks, the files and the bot are
    untouched. *)
Definition sameStore (w w' : World) : Prop :=
  ticks w' = ticks w /\ arrays w' = arrays w /\ objects w' = objects w
  /\ audits w' = audits w /\ immediates w' = immediates w
  /\ files w' = files w /\ bot w' = bot w
  /\ exists events, trace w' = trace w ++ events.

(** The registry, the pending callbacks and the bot are untouched. *)
Definition sameRegistry (w w' : World) : Prop :=
  objects w' = objects w /\ audits w' = audits w
  /\ immediates w' = immediates w /\ bot w' = bot w.

(** The events a call appended to the trace. *)
Definition newEvents (before after : World) : list Event :=
  drop (length (trace before)) (trace after).

(** The events that are the execution of a pipeline stage after source
    acquisition and validation. *)
Definition laterStage (e : Event) : bool :=
  match e with
  | EvStaticAnalysis _ | EvDynamicTests _ | EvGenerateFixes _
  | EvCreatePR _ | EvWriteFile _ => true
  | _ => false
  end.

(** The events that are the execution of an optional stage. *)
Definition isDynamicTests (e : Event) : bool :=
  match e with EvDynamicTests _ => true | _ => false end.

Definition isCreatePR (e : Event) : bool :=
  match e with EvCreatePR _ => true | _ => false end.

(** The id under which the start handler answered is the id inside the
    AuditResult stored in that registry entry. *)
Definition registryKeyIsResultId (env : Env) (body : StartBody) (w : World)
  : Prop :=
  forall key a r,
    outcome (serveAudit env body) w = Returns (ResponseQueued key) ->
    getAudit (worldAfter (serveAudit env body) w) key = Some a ->
    as_result a = Some r ->
    ar_auditId r = key.

(** Two accepted requests are answered with two different ids. *)
Definition acceptedIdsDiffer (env : Env) (body1 body2 : StartBody) (w : World)
  : Prop :=
  forall key1 key2,
    outcome (startAudit env body1) w = Returns (ResponseQueued key1) ->
    outcome (startAudit env body2) (worldAfter (startAudit env body1) w)
    = Returns (ResponseQueued key2) ->
    key1 <> key2.

(** ** Concrete runs used as examples *)

Definition lowFinding : Finding :=
  mkFinding "SLNT-001" "contracts/Vault.sol" 3 "compiler-version"
    "Compiler version must be fixed" low conf_medium
    "Follow Solidity best practices" "Solhint" "compiler-version".

Definition highFinding1 : Finding :=
  mkFinding "PTRN-001" "contracts/Vault.sol" 9 "tx.origin usage detected"
    "Found suspicious pattern: require(tx.origin == owner);" high conf_medium
    "Use msg.sender instead of tx.origin to prevent phishing attacks"
    "PatternCheck" "security".

Definition highFinding2 : Finding :=
  mkFinding "PTRN-002" "contracts/Proxy.sol" 21 "delegatecall usage detected"
    "Found suspicious pattern: target.delegatecall(data);" high conf_medium
    "Ensure delegatecall target is trusted and immutable"
    "PatternCheck" "security".

(** Both feature flags are on (their default), the Telegram settings are
    present, and no credential of an optional stage is configured. *)
Definition demoConfig : Config := mkConfig "" "" [] "token" "chat" true true true.

Definition demoPath : string := "/app/cloned-repos/vault-999".

(** Every hard stage succeeds, Solhint reports one finding and the pattern
    checks two, the test network cannot be reached, the publisher reports a
    failure, and the sink rejects every message.  The clock advances by one
    at each reading. *)
Definition demoEnv : Env :=
  mkEnv demoConfig "/app" (fun n => 1000 + Z.of_nat n) (Returns tt)
    (fun _ _ => Throws "ETELEGRAM: 400 Bad Request")
    (fun _ _ => Returns (demoPath, "4f2a9c1"))
    (fun _ => Returns ["contracts/Vault.sol"; "contracts/Proxy.sol"])
    (fun _ => Returns [])
    (fun _ => Returns [lowFinding])
    (fun _ => Returns [highFinding1; highFinding2])
    (fun _ => Throws "No working RPC URLs found")
    (fun _ _ => Returns [mkFix "replace tx.origin by msg.sender"])
    (fun _ => Returns (mkPRResult false None (Some "GitHub token not configured")))
    (fun _ => Returns tt)
    (fun _ => Returns tt).

(** The same, with a repository that cannot be cloned. *)
Definition cloneFailEnv : Env :=
  mkEnv demoConfig "/app" (fun n => 1000 + Z.of_nat n) (Returns tt)
    (fun _ _ => Throws "ETELEGRAM: 400 Bad Request")
    (fun _ _ => Throws "Repository not found")
    (findSolFiles demoEnv) (slither demoEnv) (solhint demoEnv)
    (patternChecks demoEnv) (testnet demoEnv) (fixGenerator demoEnv)
    (publisher demoEnv) (mkdir demoEnv) (writeFile demoEnv).

(** The same as [demoEnv], with a clock that stays within one millisecond. *)
Definition frozenClockEnv : Env :=
  mkEnv demoConfig "/app" (fun _ => 1000) (Returns tt)
    (botSendMessage demoEnv) (gitClone demoEnv)
    (findSolFiles demoEnv) (slither demoEnv) (solhint demoEnv)
    (patternChecks demoEnv) (testnet demoEnv) (fixGenerator demoEnv)
    (publisher demoEnv) (mkdir demoEnv) (writeFile demoEnv).

Definition demoBody : StartBody :=
  mkStartBody (Some "https://github.com/acme/vault") None None None.

Definition otherBody : StartBody :=
  mkStartBody (Some "https://github.com/acme/token") None None None.

Definition demoRequest : AuditRequest :=
  mkAuditRequest "https://github.com/acme/vault" (Some "main") (Some true)
    (Some true).

(** The world once the server has initialised the bot. *)
Definition startedWorld : World :=
  worldAfter (initTelegramBot demoEnv) initialWorld.

(** What runAudit returns for [demoRequest] in [demoEnv]. *)
Definition demoResult : AuditResult :=
  Eval vm_compute in
    match outcome (runAudit demoEnv demoRequest) startedWorld with
    | Returns r => r
    | Throws _ =>
        mkAuditResult false "" "" 0%nat [] None None emptySummary 0 None
    end.

(** * Part I, continued: the rest of the sources

    The directory walk of validateSolidityRepo and the directory name of
    cloneRepository (cloneRepo.ts), the pattern checks (runStaticAnalysis.ts),
    utils/config.ts, utils/logger.ts, utils/helpers.ts and
    actions/runDynamicTests.ts, with the JavaScript primitives they use. *)

(** ** More JavaScript primitives *)

(** A JavaScript string is the Rocq string of its code units, as everywhere
    in this development; the text primitives below are written for code units
    below 256. *)

(** [s.endsWith(suffix)] *)
Fixpoint endsWith (suffix s : string) : bool :=
  String.eqb s suffix
  || match s with
     | EmptyString => false
     | String _ rest => endsWith suffix rest
     end.

(** [s.includes(needle)] *)
Fixpoint includes (needle s : string) : bool :=
  String.prefix needle s
  || match s with
     | EmptyString => false
     | String _ rest => includes needle rest
     end.

(** [s.split(sep)] for a separator of one code unit: the fields between the
    separators, the empty ones included; never the empty array. *)
Fixpoint String_split (sep : ascii) (s : string) : list string :=
  match s with
  | EmptyString => [EmptyString]
  | String c rest =>
      if Ascii.eqb c sep then EmptyString :: String_split sep rest
      else
        match String_split sep rest with
        | field :: fields => String c field :: fields
        | [] => [String c EmptyString]
        end
  end.

(** [arr.join(sep)] *)
Definition Array_join (sep : string) (fields : list string) : string :=
  String.concat sep fields.

(** [arr.filter(Boolean)] on strings: the empty string is the falsy one. *)
Definition filterBoolean (fields : list string) : list string :=
  List.filter (fun field => negb (String.eqb field "")) fields.

(** White space and line terminators, the code units [trim] strips:
    TAB, LF, VT, FF, CR, SP and NBSP. *)
Definition isWhiteSpace (c : ascii) : bool :=
  let n := nat_of_ascii c in
  ((Nat.leb 9 n && Nat.leb n 13) || Nat.eqb n 32 || Nat.eqb n 160)%bool.

Fixpoint trimStart (s : string) : string :=
  match s with
  | EmptyString => EmptyString
  | String c rest => if isWhiteSpace c then trimStart rest else s
  end.

Definition trimEnd (s : string) : string :=
  String.rev (trimStart (String.rev s)).

(** [s.trim()] *)
Definition trim (s : string) : string := trimEnd (trimStart s).

(** [s.substring(0, n)] for [n] a natural number. *)
Definition substring0 (n : nat) (s : string) : string := String.substring 0 n s.

(** The code units of [s] from index [n] on. *)
Fixpoint dropString (n : nat) (s : string) : string :=
  match n, s with
  | O, _ => s
  | S k, EmptyString => EmptyString
  | S k, String _ rest => dropString k rest
  end.

(** [s.replace(pattern, replacement)] with a string pattern: the first
    occurrence only. *)
Fixpoint String_replace (pattern replacement s : string) : string :=
  if String.prefix pattern s
  then replacement +:+ dropString (String.length pattern) s
  else
    match s with
    | EmptyString => EmptyString
    | String c rest => String c (String_replace pattern replacement rest)
    end.

(** [arr.pop()] of an array that is not kept: its last element. *)
Definition Array_pop {A : Type} (l : list A) : option A := last l.

(** *** Regular expressions with the flags [g] and [i]

    The four expressions of runPatternChecks are literals: escaped
    punctuation and ASCII letters.  Under [i] two code units match when they
    canonicalize to the same one; an ASCII letter canonicalizes to its upper
    case and no code unit above 127 canonicalizes to an ASCII one. *)
Definition canonicalize (c : ascii) : ascii :=
  let n := nat_of_ascii c in
  if (Nat.leb 97 n && Nat.leb n 122)%bool then ascii_of_nat (n - 32) else c.

(** The literal matches at the start of [s]. *)
Fixpoint matchesHere (literal s : string) : bool :=
  match literal, s with
  | EmptyString, _ => true
  | String _ _, EmptyString => false
  | String p ps, String c cs =>
      Ascii.eqb (canonicalize p) (canonicalize c) && matchesHere ps cs
  end.

(** The first index, counted from [i], at which the literal matches in [s]. *)
Fixpoint searchFrom (literal s : string) (i : nat) : option nat :=
  if matchesHere literal s then Some i
  else
    match s with
    | EmptyString => None
    | String _ rest => searchFrom literal rest (S i)
    end.

(** [regex.test(s)] for a global regex whose [lastIndex] is [lastIndex]: the
    search starts there; a match leaves [lastIndex] at its end, a failure
    resets it to 0.  The result is paired with the new [lastIndex]. *)
Definition RegExp_test (literal : string) (lastIndex : nat) (s : string)
  : bool * nat :=
  if (String.length s <? lastIndex)%nat then (false, 0%nat)
  else
    match searchFrom literal (dropString lastIndex s) lastIndex with
    | Some i => (true, (i + String.length literal)%nat)
    | None => (false, 0%nat)
    end.

(** ** The file system under a repository *)

(** What [fs.readdir(dir, { withFileTypes: true })] lists: a regular file, a
    directory together with what reading it answers, or anything else (a
    symbolic link, a socket), for which both [isFile()] and [isDirectory()]
    are false.  Names are single path segments. *)
#[warnings="-register-all"]
Inductive Dirent :=
| DirentFile (name : string)
| DirentDirectory (name : string) (entries : Completion (list Dirent))
| DirentOther (name : string).

(** The recursive walk that cloneRepo.ts, runStaticAnalysis.ts and
    runDynamicTests.ts each write out: depth first in directory order,
    entering the directories [enter] accepts and keeping the files [keep]
    accepts; the first [readdir] that throws ends the walk. *)
Section Walk.
Variables (enter keep : string -> bool).

Fixpoint walkEntry (dir : string) (entry : Dirent) {struct entry}
  : Completion (list string) :=
  match entry with
  | DirentDirectory name entries =>
      if enter name
      then
        match entries with
        | Throws e => Throws e
        | Returns below =>
            (fix walkBelow (l : list Dirent) : Completion (list string) :=
               match l with
               | [] => Returns []
               | e :: rest =>
                   match walkEntry (pathJoin dir name) e with
                   | Throws m => Throws m
                   | Returns found =>
                       match walkBelow rest with
                       | Throws m => Throws m
                       | Returns more => Returns (found ++ more)
                       end
                   end
               end) below
        end
      else Returns []
  | DirentFile name =>
      if keep name then Returns [pathJoin dir name] else Returns []
  | DirentOther _ => Returns []
  end.

(** The [for (const entry of entries)] loop over one directory. *)
Fixpoint walkEntries (dir : string) (entries : list Dirent)
  : Completion (list string) :=
  match entries with
  | [] => Returns []
  | e :: rest =>
      match walkEntry dir e with
      | Throws m => Throws m
      | Returns found =>
          match walkEntries dir rest with
          | Throws m => Throws m
          | Returns more => Returns (found ++ more)
          end
      end
  end.

(** The walk from [dir], given what [readdir(dir)] answers. *)
Definition walkDir (dir : string) (entries : Completion (list Dirent))
  : Completion (list string) :=
  match entries with
  | Throws e => Throws e
  | Returns l => walkEntries dir l
  end.
End Walk.

(** [path.relative(from, to)] for a [to] below [from], which is where the
    walk from [from] finds its files; any other [to] is left as it is. *)
Definition pathRelative (from to : string) : string :=
  if String.prefix (from +:+ "/") to
  then dropString (String.length from + 1) to
  else to.

(** ** cloneRepo.ts: finding the contracts and naming the clone *)

Module CloneRepo.

(** [entry.isDirectory() && entry.name !== 'node_modules' && entry.name !== '.git'] *)
Definition entersDirectory (name : string) : bool :=
  (negb (String.eqb name "node_modules") && negb (String.eqb name ".git"))%bool.

(** The inner function findSolFiles of validateSolidityRepo. *)
Definition findSolFiles (dir : string) (entries : Completion (list Dirent))
  : Completion (list string) :=
  walkDir entersDirectory (endsWith ".sol") dir entries.

(** [repoUrl.split('/').pop()?.replace('.git', '') || 'repo'] *)
Definition repoName (repoUrl : string) : string :=
  optStrOr
    (name ← Array_pop (String_split "/" repoUrl);
     Some (String_replace ".git" "" name))
    "repo".

(** [targetDir || path.join(process.cwd(), 'cloned-repos', `${repoName}-${timestamp}`)] *)
Definition clonePath (workingDir : string) (targetDir : option string)
    (repoUrl : string) (timestamp : Z) : string :=
  optStrOr targetDir
    (pathJoin (pathJoin workingDir "cloned-repos")
       (repoName repoUrl +:+ "-" +:+ pretty timestamp)).

End CloneRepo.

(** The environment [env] with the file system [readdir] behind
    validateSolidityRepo. *)
Definition withFileSystem (readdir : string -> Completion (list Dirent))
    (env : Env) : Env :=
  mkEnv (config env) (cwd env) (clock env) (newTelegramBot env)
    (botSendMessage env) (gitClone env)
    (fun localPath => CloneRepo.findSolFiles localPath (readdir localPath))
    (slither env) (solhint env) (patternChecks env) (testnet env)
    (fixGenerator env) (publisher env) (mkdir env) (writeFile env).

(** ** runStaticAnalysis.ts: the pattern checks *)

Module PatternChecks.

(** One element of the [patterns] array; [p_regex] is the literal its
    regular expression spells. *)
Record Pattern := mkPattern {
  p_regex : string;
  p_title : string;
  p_severity : Severity;
  p_recommendation : string;
}.

Definition patterns : list Pattern :=
  [ mkPattern ".call{value:" "Low-level call detected" medium
      "Consider using transfer() or send() with proper error handling";
    mkPattern "tx.origin" "tx.origin usage detected" high
      "Use msg.sender instead of tx.origin to prevent phishing attacks";
    mkPattern "selfdestruct" "selfdestruct usage detected" medium
      "Ensure selfdestruct is properly protected and necessary";
    mkPattern "delegatecall" "delegatecall usage detected" high
      "Ensure delegatecall target is trusted and immutable" ].

(** A pattern together with the [lastIndex] of its regular expression, the
    one piece of state a [RegExp] object carries from one [test] to the next. *)
Record Scanner := mkScanner {
  sc_pattern : Pattern;
  sc_lastIndex : nat;
}.

(** The array as the literal builds it: every [lastIndex] is 0. *)
Definition newScanners : list Scanner :=
  map (fun pattern => mkScanner pattern 0) patterns.

(** The inner function findSolFiles of runPatternChecks. *)
Definition findSolFiles (dir : string) (entries : Completion (list Dirent))
  : Completion (list string) :=
  walkDir CloneRepo.entersDirectory (endsWith ".sol") dir entries.

(** The object pushed for a line that matches. *)
Definition patternFinding (idCounter : nat) (repoPath filePath : string)
    (index : nat) (line : string) (pattern : Pattern) : Finding :=
  {| id := findingId "PTRN" idCounter;
     file := pathRelative repoPath filePath;
     line := Z.of_nat index + 1;
     title := p_title pattern;
     description :=
       "Found suspicious pattern: " +:+ substring0 100 (trim line);
     severity := p_severity pattern;
     confidence := conf_medium;
     recommendation := p_recommendation pattern;
     tool := "PatternCheck";
     category := "security" |}.

(** [lines.forEach((line, index) => { if (pattern.regex.test(line)) ... })]
    from the line of index [index] on.  The result is the [lastIndex] the
    regular expression is left with, the id counter and the findings. *)
Fixpoint scanLines (repoPath filePath : string) (pattern : Pattern)
    (lines : list string) (index lastIndex idCounter : nat)
    (findings : list Finding) : nat * nat * list Finding :=
  match lines with
  | [] => (lastIndex, idCounter, findings)
  | line :: rest =>
      match RegExp_test (p_regex pattern) lastIndex line with
      | (true, lastIndex') =>
          scanLines repoPath filePath pattern rest (S index) lastIndex'
            (S idCounter)
            (findings
             ++ [patternFinding idCounter repoPath filePath index line pattern])
      | (false, lastIndex') =>
          scanLines repoPath filePath pattern rest (S index) lastIndex'
            idCounter findings
      end
  end.

(** [for (const pattern of patterns) { lines.forEach(...) }] on one file. *)
Fixpoint scanPatterns (repoPath filePath : string) (lines : list string)
    (scanners : list Scanner) (idCounter : nat) (findings : list Finding)
  : list Scanner * nat * list Finding :=
  match scanners with
  | [] => ([], idCounter, findings)
  | scanner :: rest =>
      let '(lastIndex', idCounter', findings') :=
        scanLines repoPath filePath (sc_pattern scanner) lines 0
          (sc_lastIndex scanner) idCounter findings in
      let '(rest', idCounter'', findings'') :=
        scanPatterns repoPath filePath lines rest idCounter' findings' in
      (mkScanner (sc_pattern scanner) lastIndex' :: rest', idCounter'', findings'')
  end.

(** [for (const filePath of solFiles)]: a [readFile] that throws leaves the
    loop for the [catch], which keeps the findings pushed so far. *)
Fixpoint scanFiles (readFile : string -> Completion string)
    (repoPath : string) (solFiles : list string) (scanners : list Scanner)
    (idCounter : nat) (findings : list Finding) : list Finding :=
  match solFiles with
  | [] => findings
  | filePath :: rest =>
      match readFile filePath with
      | Throws _ => findings
      | Returns content =>
          let '(scanners', idCounter', findings') :=
            scanPatterns repoPath filePath (String_split "010" content)
              scanners idCounter findings in
          scanFiles readFile repoPath rest scanners' idCounter' findings'
      end
  end.

(** runPatternChecks on a repository whose root directory reads as [root]
    and whose files read as [readFile] says. *)
Definition runPatternChecks (readFile : string -> Completion string)
    (repoPath : string) (root : Completion (list Dirent)) : list Finding :=
  match findSolFiles repoPath root with
  | Throws _ => []
  | Returns solFiles => scanFiles readFile repoPath solFiles newScanners 1 []
  end.

End PatternChecks.

(** ** utils/config.ts *)

Module ConfigTs.

(** [process.env]: the variables that are set, each a string. *)
Definition ProcessEnv := gmap string string.

(** [process.env.NAME || fallback] *)
Definition envOr (penv : ProcessEnv) (name fallback : string) : string :=
  optStrOr (penv !! name) fallback.

(** [process.env.NAME !== 'false'] *)
Definition envNotFalse (penv : ProcessEnv) (name : string) : bool :=
  match penv !! name with
  | Some value => negb (String.eqb value "false")
  | None => true
  end.

(** [process.env.NAME === 'true'] *)
Definition envIsTrue (penv : ProcessEnv) (name : string) : bool :=
  match penv !! name with
  | Some value => String.eqb value "true"
  | None => false
  end.

(** The [Config] object of config.ts: the fields the coordinator and the
    notifier read ([coordinator], the record [Config] above) and the other
    fields that are strings or flags.  The three fields read with [parseInt]
    ([chainId], [port], [maxAnalysisTime]) are not part of this view; nothing
    modelled here reads them. *)
Record FullConfig := mkFullConfig {
  geminiApiKey : string;
  llmModel : string;
  baseUrl : string;
  enableStaticAnalysis : bool;
  logLevel : string;
  debugMode : bool;
  coordinator : Config;
}.

Definition getConfig (penv : ProcessEnv) : FullConfig :=
  {| geminiApiKey :=
       optStrOr (penv !! "GEMINI_API_KEY") (envOr penv "GENIE_API_KEY" "");
     llmModel := envOr penv "LLM_MODEL" "gemini-2.5-flash";
     baseUrl := envOr penv "BASE_URL" "http://localhost:3000";
     enableStaticAnalysis := envNotFalse penv "ENABLE_STATIC_ANALYSIS";
     logLevel := envOr penv "LOG_LEVEL" "info";
     debugMode := envIsTrue penv "DEBUG_MODE";
     coordinator :=
       {| githubToken := envOr penv "GITHUB_TOKEN" "";
          testnetPrivateKey := envOr penv "TESTNET_PRIVATE_KEY" "";
          rpcUrls :=
            filterBoolean (String_split "," (envOr penv "RPC_URLS" ""));
          telegramToken := envOr penv "TELEGRAM_TOKEN" "";
          telegramChatId := envOr penv "TELEGRAM_CHAT_ID" "";
          enableDynamicTesting := envNotFalse penv "ENABLE_DYNAMIC_TESTING";
          enableAutoPR := envNotFalse penv "ENABLE_AUTO_PR";
          enableTelegramNotifications :=
            envNotFalse penv "ENABLE_TELEGRAM_NOTIFICATIONS" |} |}.

(** What validateConfig returns. *)
Record Validation := mkValidation {
  isValid : bool;
  missing : list string;
  warnings : list string;
}.

(** [if (cond) arr.push(item)] *)
Definition pushIf (cond : bool) (item : string) (arr : list string)
  : list string :=
  if cond then arr ++ [item] else arr.

Definition isEmpty (s : string) : bool := String.eqb s "".

Definition validateConfig (c : FullConfig) (requireAll : bool) : Validation :=
  let k := coordinator c in
  let missing0 := pushIf (isEmpty (geminiApiKey c)) "GEMINI_API_KEY" [] in
  let missing1 :=
    if requireAll
    then
      pushIf (length (rpcUrls k) =? 0)%nat "RPC_URLS"
        (pushIf (isEmpty (testnetPrivateKey k)) "TESTNET_PRIVATE_KEY"
           (pushIf (isEmpty (githubToken k)) "GITHUB_TOKEN" missing0))
    else missing0 in
  let warnings1 :=
    if requireAll
    then []
    else
      pushIf (length (rpcUrls k) =? 0)%nat
        "RPC_URLS not set - dynamic testing will be disabled"
        (pushIf (isEmpty (testnetPrivateKey k))
           "TESTNET_PRIVATE_KEY not set - dynamic testing will be disabled"
           (pushIf (isEmpty (githubToken k))
              "GITHUB_TOKEN not set - PR creation will be disabled" [])) in
  let warnings2 :=
    if enableTelegramNotifications k
    then
      pushIf (isEmpty (telegramChatId k))
        "TELEGRAM_CHAT_ID not set - notifications will be disabled"
        (pushIf (isEmpty (telegramToken k))
           "TELEGRAM_TOKEN not set - notifications will be disabled" warnings1)
    else warnings1 in
  {| isValid := (length missing1 =? 0)%nat;
     missing := missing1;
     warnings := warnings2 |}.

(** logConfigStatus, up to what it logs: it throws when the configuration
    is not valid. *)
Definition logConfigStatus (c : FullConfig) : Completion unit :=
  let validation := validateConfig c false in
  if negb (isValid validation)
  then Throws "Missing required environment variables. Check .env file."
  else Returns tt.

End ConfigTs.

(** ** utils/logger.ts *)

Module LoggerTs.

Inductive LogLevel := debug | info | warn | error.

Definition levelName (level : LogLevel) : string :=
  match level with
  | debug => "debug" | info => "info" | warn => "warn" | error => "error"
  end.

(** [const LOG_LEVELS: Record<LogLevel, number>] *)
Definition LOG_LEVELS : gmap string Z :=
  list_to_map [ ("debug", 0); ("info", 1); ("warn", 2); ("error", 3) ].

(** [(process.env.LOG_LEVEL as LogLevel) || 'info'] *)
Definition CURRENT_LOG_LEVEL (penv : ConfigTs.ProcessEnv) : string :=
  ConfigTs.envOr penv "LOG_LEVEL" "info".

(** [LOG_LEVELS[level] >= LOG_LEVELS[CURRENT_LOG_LEVEL]].  The right-hand
    side is a number only for the four level names; for any other string it
    is [undefined] or a member inherited from Object.prototype, neither of
    which converts to a number, and [>=] with NaN is false. *)
Definition shouldLog (penv : ConfigTs.ProcessEnv) (level : LogLevel) : bool :=
  match LOG_LEVELS !! levelName level, LOG_LEVELS !! CURRENT_LOG_LEVEL penv with
  | Some l, Some current => (current <=? l)%Z
  | _, _ => false
  end.

End LoggerTs.

(** ** utils/helpers.ts *)

Module HelpersTs.

(** [formatDuration(ms)] for a safe integer [ms], one with
    [-2^53 < ms < 2^53]: there the double [ms / 1000] rounds down to the
    quotient of the integers, as do the two divisions by 60 after it, and
    [%] takes the sign of its left operand.  Outside this range a number
    need not be an integer and the function is not described. *)
Definition formatDuration (ms : Z) : string :=
  let seconds := ms / 1000 in
  let minutes := seconds / 60 in
  let hours := minutes / 60 in
  if (0 <? hours)%Z then pretty hours +:+ "h " +:+ pretty (Z.rem minutes 60) +:+ "m"
  else if (0 <? minutes)%Z
       then pretty minutes +:+ "m " +:+ pretty (Z.rem seconds 60) +:+ "s"
       else pretty seconds +:+ "s".

(** [truncate(str, maxLength)] for an integer [maxLength].
    [substring(0, n)] takes a negative [n] for 0. *)
Definition truncate (str : string) (maxLength : Z) : string :=
  if (Z.of_nat (String.length str) <=? maxLength)%Z then str
  else substring0 (Z.to_nat (maxLength - 3)) str +:+ "...".

(** What a [throw] of retry carries: an [Error] with its message, or the
    value [undefined] of a [lastError] that was never assigned. *)
Inductive Thrown :=
| ThrownError (message : string)
| ThrownUndefined.

(** What a call of retry did: the delays it slept, in order, the number of
    calls of [fn] it made, and how it ended. *)
Record Retried (T : Type) := mkRetried {
  slept : list Z;
  calls : nat;
  ended : T + Thrown;
}.
Arguments mkRetried {T} slept calls ended.
Arguments slept {T} r.
Arguments calls {T} r.
Arguments ended {T} r.

(** The [for] loop of retry from the iteration [i], with [remaining]
    iterations to go ([i + remaining] is [maxRetries]).  [fn k] is how the
    call of [fn] of index [k] settles. *)
Fixpoint retryFrom {T : Type} (fn : nat -> Completion T) (delayMs : Z)
    (i remaining : nat) (lastError : Thrown) (sleptSoFar : list Z)
  : Retried T :=
  match remaining with
  | O => mkRetried sleptSoFar i (inr lastError)
  | S remaining' =>
      match fn i with
      | Returns value => mkRetried sleptSoFar (S i) (inl value)
      | Throws message =>
          retryFrom fn delayMs (S i) remaining' (ThrownError message)
            (if (0 <? remaining')%nat
             then sleptSoFar ++ [delayMs * 2 ^ Z.of_nat i]
             else sleptSoFar)
      end
  end.

(** [retry(fn, maxRetries, delayMs)] for a natural number [maxRetries]. *)
Definition retry {T : Type} (fn : nat -> Completion T) (maxRetries : nat)
    (delayMs : Z) : Retried T :=
  retryFrom fn delayMs 0 maxRetries ThrownUndefined [].

End HelpersTs.

(** ** actions/runDynamicTests.ts *)

Module DynamicTests.

(** A transaction receipt of ethers, the three properties read here;
    [gasUsed] is a bigint, [status] is a number or null. *)
Record Receipt := mkReceipt {
  rc_gasUsed : N;
  rc_status : option Z;
  rc_blockNumber : Z;
}.

(** [DeploymentInfo].  The [gasUsed] of the source is the decimal string of
    a bigint ([receipt.gasUsed.toString()], or the literal 0) and is read
    back with [BigInt(...)]; it is kept as that bigint. *)
Record DeploymentInfo := mkDeploymentInfo {
  dp_contractName : option string;
  dp_address : string;
  dp_deployer : string;
  dp_txHash : string;
  dp_gasUsed : N;
  dp_blockNumber : Z;
}.

Inductive TxStatus := success | reverted.

(** [TestTransaction], with [gasUsed] kept as above. *)
Record TestTransaction := mkTestTransaction {
  tx_hash : string;
  tx_from : string;
  tx_to : string;
  tx_value : string;
  tx_gasUsed : N;
  tx_status : TxStatus;
  tx_blockNumber : Z;
  tx_error : option string;
}.

(** [DynamicTestResult] in full, but for [chainId], which is copied from a
    field of the configuration that is not modelled. *)
Record Result := mkResult {
  r_success : bool;
  r_deployments : list DeploymentInfo;
  r_transactions : list TestTransaction;
  r_summary : DynamicSummary;
  r_rpcUrl : string;
  r_duration : Z;
  r_error : option string;
}.

(** A compiled artifact as [JSON.parse] gives it, the two properties read. *)
Record Artifact := mkArtifact {
  a_contractName : option string;
  a_bytecode : JsVal;
}.

(** What the test network, Hardhat and the disk answer.
    [probe i url] is the latency measured for the URL of index [i], [None]
    when [getBlockNumber] failed; [connect url key] is the address of the
    wallet made from the key, or the throw of the provider or of the wallet;
    [deploy] is one deployment up to the transaction behind it: the address
    and, unless [deploymentTransaction()] is null, the hash and the receipt
    ([None] for a null receipt), or the throw of any of its steps;
    [sendTransaction i to] is the transfer to the deployment of index [i] up
    to its receipt. *)
Record Chain := mkChain {
  probe : nat -> string -> option Z;
  connect : string -> string -> Completion string;
  getBalance : string -> Completion N;
  hardhatCompile : string -> bool;
  artifactsAccess : string -> bool;
  artifactsDir : string -> Completion (list Dirent);
  readArtifact : string -> Completion Artifact;
  deploy : string -> Artifact -> Completion (string * option (string * option Receipt));
  sendTransaction : nat -> string -> Completion (string * option Receipt);
}.

(** [(a, b) => a.latency - b.latency] up to its sign, which is all a sort
    looks at; a failed URL has the latency [Infinity]. *)
Definition byLatency (a b : string * option Z) : Z :=
  match snd a, snd b with
  | Some x, Some y => x - y
  | Some _, None => -1
  | None, Some _ => 1
  | None, None => 0
  end.

(** selectBestRPC on the settled probes, one per URL in the order of the
    configuration. *)
Definition selectBestRPC (results : list (string * option Z))
  : Completion string :=
  match Array_sort byLatency results with
  | [] => Throws "Cannot read properties of undefined (reading 'latency')"
  | best :: _ =>
      match snd best with
      | None => Throws "No working RPC URLs found"
      | Some _ => Returns (fst best)
      end
  end.

(** [entry.isFile() && entry.name.endsWith('.json') && !entry.name.includes('.dbg.')] *)
Definition isArtifactName (name : string) : bool :=
  (endsWith ".json" name && negb (includes ".dbg." name))%bool.

Definition findContractArtifacts (dir : string)
    (entries : Completion (list Dirent)) : Completion (list string) :=
  walkDir (fun _ => true) isArtifactName dir entries.

(** [!artifact.bytecode || artifact.bytecode === '0x'] *)
Definition noBytecode (artifact : Artifact) : bool :=
  (negb (truthy (a_bytecode artifact))
   || match a_bytecode artifact with
      | JString s => String.eqb s "0x"
      | _ => false
      end)%bool.

(** One iteration of the loop of deployContracts, [try] and [catch]
    included. *)
Definition deployOne (chain : Chain) (deployer contractFile : string)
    (deployments : list DeploymentInfo) : list DeploymentInfo :=
  match readArtifact chain contractFile with
  | Throws _ => deployments
  | Returns artifact =>
      if noBytecode artifact then deployments
      else
        match deploy chain contractFile artifact with
        | Throws _ => deployments
        | Returns (_, None) => deployments
        | Returns (address, Some (txHash, receipt)) =>
            deployments
            ++ [ {| dp_contractName := a_contractName artifact;
                    dp_address := address;
                    dp_deployer := deployer;
                    dp_txHash := txHash;
                    dp_gasUsed := default 0%N (rc_gasUsed <$> receipt);
                    dp_blockNumber := default 0 (rc_blockNumber <$> receipt) |} ]
        end
  end.

Definition deployContracts (chain : Chain) (repoPath deployer : string)
  : list DeploymentInfo :=
  let artifactsPath := pathJoin (pathJoin repoPath "artifacts") "contracts" in
  if negb (artifactsAccess chain artifactsPath) then []
  else
    match findContractArtifacts artifactsPath (artifactsDir chain artifactsPath) with
    | Throws _ => []
    | Returns contractFiles =>
        foldl (fun deployments contractFile =>
                 deployOne chain deployer contractFile deployments)
          [] (slice0 3 contractFiles)
    end.

(** The transaction pushed for one deployment. *)
Definition testTransaction (chain : Chain) (sender : string) (i : nat)
    (deployment : DeploymentInfo) : TestTransaction :=
  match sendTransaction chain i (dp_address deployment) with
  | Returns (hash, receipt) =>
      {| tx_hash := hash;
         tx_from := sender;
         tx_to := dp_address deployment;
         tx_value := "0.0001";
         tx_gasUsed := default 0%N (rc_gasUsed <$> receipt);
         tx_status :=
           match receipt ≫= rc_status with
           | Some 1 => success
           | _ => reverted
           end;
         tx_blockNumber := default 0 (rc_blockNumber <$> receipt);
         tx_error := None |}
  | Throws errorMsg =>
      {| tx_hash := "";
         tx_from := sender;
         tx_to := dp_address deployment;
         tx_value := "0";
         tx_gasUsed := 0%N;
         tx_status := reverted;
         tx_blockNumber := 0;
         tx_error := Some errorMsg |}
  end.

Definition runTestTransactions (chain : Chain) (sender : string)
    (deployments : list DeploymentInfo) : list TestTransaction :=
  imap (testTransaction chain sender) deployments.

Definition isSuccess (t : TestTransaction) : bool :=
  match tx_status t with success => true | reverted => false end.

Definition isReverted (t : TestTransaction) : bool :=
  match tx_status t with success => false | reverted => true end.

(** The [summary] literal of the success path. *)
Definition summaryOf (deployments : list DeploymentInfo)
    (transactions : list TestTransaction) : DynamicSummary :=
  {| totalDeployed := length deployments;
     totalTransactions := length transactions;
     successfulTx := length (List.filter isSuccess transactions);
     failedTx := length (List.filter isReverted transactions);
     totalGasUsed :=
       foldl N.add 0%N
         (map dp_gasUsed deployments ++ map tx_gasUsed transactions) |}.

Definition runDynamicTests (env : Env) (chain : Chain) (repoPath : string)
  : M Result :=
  startTime <- DateNow env ;;
  tryCatch
    (rpcUrl <-
       settle (selectBestRPC
                 (imap (fun i url => (url, probe chain i url))
                    (rpcUrls (config env)))) ;;
     wallet <- settle (connect chain rpcUrl (testnetPrivateKey (config env))) ;;
     settle (getBalance chain wallet) ;;
     if negb (hardhatCompile chain repoPath)
     then throw "Contract compilation failed"
     else
       let deployments := deployContracts chain repoPath wallet in
       let transactions := runTestTransactions chain wallet deployments in
       now <- DateNow env ;;
       ret {| r_success := true;
              r_deployments := deployments;
              r_transactions := transactions;
              r_summary := summaryOf deployments transactions;
              r_rpcUrl := rpcUrl;
              r_duration := now - startTime;
              r_error := None |})
    (fun errorMsg =>
       now <- DateNow env ;;
       ret {| r_success := false;
              r_deployments := [];
              r_transactions := [];
              r_summary := mkDynamicSummary 0 0 0 0 0;
              r_rpcUrl := optStrOr (head (rpcUrls (config env))) "";
              r_duration := now - startTime;
              r_error := Some errorMsg |}).

End DynamicTests.

(** ** Vocabulary of the further properties *)

(** A confidence on which [?.toLowerCase()] does not throw: a string, or a
    missing or null value. *)
Definition lowerable (v : JsVal) : bool :=
  match v with
  | JBool _ | JNumber _ => false
  | JUndefined | JNull | JString _ => true
  end.

(** The issues of a Solhint output in the order the two loops visit them,
    each with the report it is listed in. *)
Definition solhintPairs (reports : list SolhintReport)
  : list (SolhintReport * SolhintIssue) :=
  flat_map (fun report => map (pair report) (default [] (r_reports report)))
    reports.

(** What a walk of a directory tree is to find, said without the walk. *)
Section WalkSpec.
Variables (enter keep : string -> bool).

(** [path] is a file with a name that [keep] accepts, in [dir] or in a
    directory below it that is reached through readable directories [enter]
    accepts. *)
Inductive Finds : string -> list Dirent -> string -> Prop :=
| finds_here (dir : string) (entries : list Dirent) (name : string) :
    In (DirentFile name) entries -> keep name = true ->
    Finds dir entries (pathJoin dir name)
| finds_below (dir : string) (entries : list Dirent) (name : string)
      (below : list Dirent) (path : string) :
    In (DirentDirectory name (Returns below)) entries -> enter name = true ->
    Finds (pathJoin dir name) below path ->
    Finds dir entries path.

(** Some directory that is reached in this way cannot be read. *)
Inductive Blocked : list Dirent -> Prop :=
| blocked_here (entries : list Dirent) (name message : string) :
    In (DirentDirectory name (Throws message)) entries -> enter name = true ->
    Blocked entries
| blocked_below (entries : list Dirent) (name : string) (below : list Dirent) :
    In (DirentDirectory name (Returns below)) entries -> enter name = true ->
    Blocked below ->
    Blocked entries.
(** What a walk answers, entry by entry. *)
Definition walkAnswers (dir : string) (entries : list Dirent)
    (answer : Completion (list string)) : Prop :=
  match answer with
  | Returns paths =>
      ~ Blocked entries
      /\ forall p, In p paths <-> Finds dir entries p
  | Throws _ => Blocked entries
  end.
End WalkSpec.

(** The literal occurs in [s], in whatever letter case. *)
Definition occurs (literal s : string) : Prop :=
  exists i, (i <= String.length s)%nat
            /\ matchesHere literal (dropString i s) = true.

(** [f] is the finding runPatternChecks pushes for [pattern] at the line
    [line] of index [index] of the file [filePath], under some id. *)
Definition reportsLine (repoPath filePath : string) (index : nat)
    (line : string) (pattern : PatternChecks.Pattern) (f : Finding) : Prop :=
  exists idCounter,
    f = PatternChecks.patternFinding idCounter repoPath filePath index line pattern.

(** The messages handed to [bot.sendMessage] among some events, in order. *)
Definition messagesOf (events : list Event) : list Message :=
  omap (fun e => match e with EvSendMessage m => Some m | _ => None end) events.

(** The two notifications that end a run. *)
Definition isFinalMessage (m : Message) : bool :=
  match m with
  | MsgAuditComplete _ | MsgAuditError _ _ => true
  | _ => false
  end.

(** The notification runAudit ends with for the result [r]. *)
Definition finalMessage (r : AuditResult) : Message :=
  if ar_success r then MsgAuditComplete r
  else MsgAuditError (ar_repoUrl r) (default "" (ar_error r)).

(** Where executeAuditTool writes the report of the run [auditId]. *)
Definition fullReportPath (env : Env) (auditId : string) : string :=
  pathJoin (pathJoin (pathJoin (cwd env) "memory") auditId) "full-report.json".

(** Every id in the registry refers to an object that exists. *)
Definition registryBound (w : World) : Prop :=
  forall auditId r, audits w !! auditId = Some r -> (r < length (objects w))%nat.

(** ** Further concrete inputs *)

(** The line feed. *)
Definition LF : string := String "010" EmptyString.

(** A contract with [tx.origin] on two consecutive lines, at the same
    column. *)
Definition vaultSource : string :=
  "contract Vault {" +:+ LF
  +:+ "  function sweep() external { require(tx.origin == owner); }" +:+ LF
  +:+ "  function close() external { require(tx.origin == admin); }" +:+ LF
  +:+ "}".

(** A repository with one contract, a dependency directory that cannot be
    read and a directory of build scripts. *)
Definition vaultTree : list Dirent :=
  [ DirentDirectory "node_modules" (Throws "EACCES: permission denied");
    DirentDirectory "contracts" (Returns [DirentFile "Vault.sol"; DirentFile "README.md"]);
    DirentDirectory "scripts" (Returns [DirentFile "deploy.js"]);
    DirentOther "latest" ].


(** A Slither report of three detectors; the confidence of the second is a
    number. *)
Definition reentrancyDetector : SlitherDetector :=
  mkSlitherDetector (JString "reentrancy-eth")
    (JString "Reentrancy in withdraw()") (JString "High") (JString "High")
    JUndefined (JString "contracts/Vault.sol") (JNumber 42).

Definition brokenDetector : SlitherDetector :=
  mkSlitherDetector (JString "unused-return") JUndefined (JString "Medium")
    (JNumber 2) JUndefined (JString "contracts/Vault.sol") (JNumber 57).

Definition timestampDetector : SlitherDetector :=
  mkSlitherDetector (JString "timestamp") JUndefined (JString "Low")
    (JString "Medium") JUndefined (JString "contracts/Vault.sol") (JNumber 80).

(** What the pattern checks report for [vaultSource] in [vaultTree]. *)
Definition vaultFinding : Finding :=
  mkFinding "PTRN-001" "contracts/Vault.sol" 2 "tx.origin usage detected"
    "Found suspicious pattern: function sweep() external { require(tx.origin == owner); }"
    high conf_medium
    "Use msg.sender instead of tx.origin to prevent phishing attacks"
    "PatternCheck" "security".

(** [demoConfig] with a model key. *)
Definition demoFullConfig : ConfigTs.FullConfig :=
  ConfigTs.mkFullConfig "key" "gemini-2.5-flash" "http://localhost:3000" true
    "info" false demoConfig.

(** An environment that names two RPC URLs. *)
Definition demoProcessEnv : ConfigTs.ProcessEnv :=
  {[ "RPC_URLS" := "https://rpc.one,https://rpc.two" ]}.

(** A call that fails twice and then succeeds. *)
Definition flakyCall (i : nat) : Completion string :=
  match i with
  | 0%nat => Throws "ETIMEDOUT"
  | 1%nat => Throws "ECONNRESET"
  | _ => Returns "done"
  end.

(* ===================================================================== *)
(** * Part I, continued: the run on the objects the adapters hand over

    The coordinator above runs at the declared types: its analyzers answer
    with [Finding]s.  What runSlither and runSolhint resolve with are the
    objects they built, and [Finding[]] is only what the compiler was told.
    This module is runStaticAnalysis, the notifications and runAudit on
    those objects; the places where the code looks into a finding (the
    summary, the priority score, the sort, the text of the static-analysis
    notification) are written for what an object can hold. *)
(* ===================================================================== *)

#[global] Instance JsVal_eq_dec : EqDecision JsVal.
Proof. solve_decision. Defined.

#[global] Instance Severity_eq_dec : EqDecision Severity.
Proof. solve_decision. Defined.

#[global] Instance SeverityVal_eq_dec : EqDecision SeverityVal.
Proof. solve_decision. Defined.

#[global] Instance FindingObj_eq_dec : EqDecision FindingObj.
Proof. solve_decision. Defined.

Declare Scope runtime_scope.

Module Runtime.

(** ** Where the code looks into a finding *)

(** [f.severity === s] for one of the five strings: a member of
    Object.prototype is not equal to a string. *)
Definition severityIs (s : Severity) (f : FindingObj) : bool :=
  match o_severity f with
  | SevOf s' => severity_eqb s' s
  | SevInherited _ => false
  end.

(** [allFindings.filter(f => f.severity === s).length] *)
Definition countSeverity (s : Severity) (fs : list FindingObj) : nat :=
  length (List.filter (severityIs s) fs).

(** The summary object literal of the success path of runStaticAnalysis. *)
Definition summarize (allFindings : list FindingObj) : Summary :=
  {| s_critical := countSeverity critical allFindings;
     s_high := countSeverity high allFindings;
     s_medium := countSeverity medium allFindings;
     s_low := countSeverity low allFindings;
     s_info := countSeverity info allFindings;
     s_total := length allFindings |}.

(** calculatePriorityScore on an object; [None] is NaN.
    [severityScores[finding.severity]] is a number for the five strings and
    [undefined] for a member of Object.prototype used as a key;
    [confidenceScores[finding.confidence]] is a number for the three
    strings, and [undefined] or a member of Object.prototype for any other
    string; a product with one of these is NaN. *)
Definition calculatePriorityScore (finding : FindingObj) : option Z :=
  match o_severity finding, parseConfidence (o_confidence finding) with
  | SevOf s, Some c => Some (severityScores s * confidenceScores c)
  | _, _ => None
  end.

(** The comparator of runAudit's sort as the sort reads it:
    [calculatePriorityScore(b) - calculatePriorityScore(a)], and +0 when
    that is NaN. *)
Definition byPriorityDesc (a b : FindingObj) : Z :=
  match calculatePriorityScore b, calculatePriorityScore a with
  | Some x, Some y => x - y
  | _, _ => 0
  end.

(** Whether [byPriorityDesc] is a consistent comparison function for the
    elements of [l], as the language defines it: among other things a call
    on any two of them, the same one twice included, returns a number that
    is not NaN.  The difference of two scores is such a number exactly when
    both scores are numbers, and differences of numbers meet the other
    requirements. *)
Definition consistentComparator (l : list FindingObj) : bool :=
  forallb (fun f => bool_decide (is_Some (calculatePriorityScore f))) l.

(** [description.substring(0, 100)]: a string has the method; for any other
    value the call throws a TypeError, whose message (in V8's words) is: *)
Definition substringError (description : JsVal) : option string :=
  match description with
  | JString _ => None
  | JUndefined =>
      Some "Cannot read properties of undefined (reading 'substring')"
  | JNull => Some "Cannot read properties of null (reading 'substring')"
  | JBool _ | JNumber _ =>
      Some "finding.description.substring is not a function"
  end.

(** What the [forEach] over the top findings throws: the error of the first
    finding whose description is not a string. *)
Definition firstSubstringError (topFindings : list FindingObj)
  : option string :=
  head (omap (fun finding => substringError (o_description finding))
          topFindings).

(** ** Shapes that carry findings *)

Record CreatePRInput := mkCreatePRInput {
  pi_repoPath : string;
  pi_repoUrl : string;
  pi_findings : list FindingObj;
  pi_fixes : list Fix;
  pi_dynamicTestResult : option DynamicTestResult;
  pi_auditId : string;
}.

(** What is handed to [JSON.stringify] for memory/<auditId>/audit-report.json,
    with the findings as they stand in the array at that moment. *)
Record ReportFile := mkReportFile {
  rp_auditId : string;
  rp_repoUrl : string;
  rp_timestamp : Z;
  rp_findings : list FindingObj;
  rp_summary : Summary;
  rp_dynamicTests : option DynamicTestResult;
  rp_fixes : list Fix;
  rp_prUrl : option string;
}.

(** The text of each notification, kept as the data interpolated into it. *)
Inductive Message :=
| MsgAuditStart (repoUrl auditId : string)
| MsgCloneComplete (repoUrl : string) (contractCount : nat)
| MsgStaticAnalysisComplete (critical_ high_ medium_ total_ : nat)
    (topFindings : list FindingObj)
| MsgDynamicTestsComplete (deployed transactions : nat)
    (successNumerator successDenominator : nat)
| MsgPRCreated (prUrl : string) (fixesCount : nat) (topFindings : list JsVal)
| MsgAuditComplete (result : AuditResult)
| MsgAuditError (repoUrl error : string).

Inductive Event :=
| EvClone (repoUrl branch : string)
| EvValidate (localPath : string)
| EvStaticAnalysis (repoPath : string)
| EvDynamicTests (repoPath : string)
| EvGenerateFixes (repoPath : string)
| EvCreatePR (auditId : string)
| EvWriteFile (path : string)
| EvSendMessage (message : Message).

(** ** The world and the outside *)

Record World := mkWorld {
  ticks : nat;                      (* clock readings taken so far *)
  arrays : list (list FindingObj);  (* heap of the findings arrays *)
  files : gmap string ReportFile;   (* reports written with fs.writeFile *)
  bot : bool;                       (* telegramBot.ts: [bot] is not null *)
  sent : nat;                       (* calls of bot.sendMessage so far *)
  trace : list Event;               (* calls made so far, oldest first *)
}.

Definition initialWorld : World := mkWorld 0 [] ∅ false 0 [].

(** What the outside does when called, as for the coordinator at the
    declared types, with the analyzers answering with objects.
    [engineSort] is what [Array.prototype.sort] leaves when the comparator
    is not consistent, where the language leaves the order to the engine. *)
Record Env := mkEnv {
  config : Config;
  cwd : string;
  clock : nat -> Z;
  botSendMessage : nat -> Message -> Completion unit;
  gitClone : string -> string -> Completion (string * string);
  findSolFiles : string -> Completion (list string);
  slither : string -> Completion (list FindingObj);
  solhint : string -> Completion (list FindingObj);
  patternChecks : string -> Completion (list FindingObj);
  testnet : string -> Completion DynamicSummary;
  fixGenerator : list FindingObj -> string -> Completion (list Fix);
  publisher : CreatePRInput -> Completion PRResult;
  mkdir : string -> Completion unit;
  writeFile : string -> Completion unit;
  engineSort : list FindingObj -> list FindingObj;
}.

(** [env] with another sink, and with another engine. *)
Definition withSink (sink : nat -> Message -> Completion unit) (env : Env)
  : Env :=
  mkEnv (config env) (cwd env) (clock env) sink (gitClone env)
    (findSolFiles env) (slither env) (solhint env) (patternChecks env)
    (testnet env) (fixGenerator env) (publisher env) (mkdir env)
    (writeFile env) (engineSort env).

Definition withEngine (engine : list FindingObj -> list FindingObj)
    (env : Env) : Env :=
  mkEnv (config env) (cwd env) (clock env) (botSendMessage env) (gitClone env)
    (findSolFiles env) (slither env) (solhint env) (patternChecks env)
    (testnet env) (fixGenerator env) (publisher env) (mkdir env)
    (writeFile env) engine.

(** ** Sequencing *)

Definition M (A : Type) : Type := World -> Completion A * World.

Definition ret {A} (a : A) : M A := fun w => (Returns a, w).

Definition throw {A} (message : string) : M A := fun w => (Throws message, w).

Definition bind {A B} (m : M A) (k : A -> M B) : M B :=
  fun w =>
    match m w with
    | (Returns a, w') => k a w'
    | (Throws e, w') => (Throws e, w')
    end.

Definition tryCatch {A} (body : M A) (handler : string -> M A) : M A :=
  fun w =>
    match body w with
    | (Returns a, w') => (Returns a, w')
    | (Throws e, w') => handler e w'
    end.

Definition settle {A} (c : Completion A) : M A := fun w => (c, w).

Notation "x <- c1 ;; c2" := (bind c1 (fun x => c2))
  (at level 100, c1 at next level, right associativity) : runtime_scope.
Notation "c1 ;; c2" := (bind c1 (fun _ => c2))
  (at level 100, right associativity) : runtime_scope.
Local Open Scope runtime_scope.

Definition emit (e : Event) : M unit :=
  fun w =>
    (Returns tt,
     mkWorld (ticks w) (arrays w) (files w) (bot w) (sent w) (trace w ++ [e])).

Definition deref (w : World) (r : ArrayRef) : list FindingObj :=
  default [] (arrays w !! r).

Definition newArray (l : list FindingObj) : M ArrayRef :=
  fun w =>
    (Returns (length (arrays w)),
     mkWorld (ticks w) (arrays w ++ [l]) (files w) (bot w) (sent w) (trace w)).

Definition readArray (r : ArrayRef) : M (list FindingObj) :=
  fun w => (Returns (deref w r), w).

Definition storeFile (path : string) (content : ReportFile) : M unit :=
  fun w =>
    (Returns tt,
     mkWorld (ticks w) (arrays w) (<[path := content]> (files w)) (bot w)
       (sent w) (trace w)).

Section Coordinator.
Variable env : Env.

Definition DateNow : M Z :=
  fun w =>
    (Returns (clock env (ticks w)),
     mkWorld (S (ticks w)) (arrays w) (files w) (bot w) (sent w) (trace w)).

(** [findings.sort(byPriorityDesc)] on the elements [l]: for a consistent
    comparator the stable sort; otherwise the order is left to the engine,
    which leaves some arrangement of the same elements. *)
Definition sortByPriority (l : list FindingObj) : list FindingObj :=
  if consistentComparator l then Array_sort byPriorityDesc l
  else if bool_decide (engineSort env l ≡ₚ l) then engineSort env l
       else l.

(** [arr.sort(cmp)]: sorts the array itself and returns that same array. *)
Definition sortInPlace (r : ArrayRef) : M ArrayRef :=
  fun w =>
    (Returns r,
     mkWorld (ticks w) (<[r := sortByPriority (deref w r)]> (arrays w))
       (files w)
       (bot w) (sent w) (trace w)).

(** [arr.slice(0, k)]: a fresh array. *)
Definition sliceArray (k : nat) (r : ArrayRef) : M ArrayRef :=
  l <- readArray r ;; newArray (slice0 k l).

(** *** telegramBot.ts *)

Definition bot_sendMessage (message : Message) : M unit :=
  fun w =>
    (botSendMessage env (sent w) message,
     mkWorld (ticks w) (arrays w) (files w) (bot w) (S (sent w))
       (trace w ++ [EvSendMessage message])).

Definition sendTelegramMessage (message : Message) : M unit :=
  fun w =>
    if (negb (bot w) || String.eqb (telegramChatId (config env)) "")%bool
    then ret tt w
    else tryCatch (bot_sendMessage message) (fun _ => ret tt) w.

Definition notifyAuditStart (repoUrl auditId : string) : M unit :=
  sendTelegramMessage (MsgAuditStart repoUrl auditId).

Definition notifyCloneComplete (repoUrl : string) (contractCount : nat)
  : M unit :=
  sendTelegramMessage (MsgCloneComplete repoUrl contractCount).

(** The text is put together before sendTelegramMessage is called and
    outside its [try]: the [forEach] over the top findings throws at the
    first one whose description has no [substring], bot or no bot. *)
Definition notifyStaticAnalysisComplete (findings topFindings : ArrayRef)
  : M unit :=
  fs <- readArray findings ;;
  top <- readArray topFindings ;;
  match firstSubstringError top with
  | None =>
      sendTelegramMessage
        (MsgStaticAnalysisComplete
           (countSeverity critical fs) (countSeverity high fs)
           (countSeverity medium fs) (length fs) top)
  | Some message => throw message
  end.

Definition notifyDynamicTestsComplete (deployed transactions : nat)
    (successNumerator successDenominator : nat) : M unit :=
  sendTelegramMessage
    (MsgDynamicTestsComplete deployed transactions
       successNumerator successDenominator).

Definition notifyPRCreated (prUrl : string) (fixesCount : nat)
    (topFindings : list JsVal) : M unit :=
  sendTelegramMessage (MsgPRCreated prUrl fixesCount topFindings).

Definition notifyAuditComplete (result : AuditResult) : M unit :=
  sendTelegramMessage (MsgAuditComplete result).

Definition notifyAuditError (repoUrl error : string) : M unit :=
  sendTelegramMessage (MsgAuditError repoUrl error).

(** *** cloneRepo.ts *)

(** cloneRepository as the coordinator sees it: the result object.  The
    directory it creates and fills on disk is not recorded in the world. *)
Definition cloneRepository (repoUrl : string) (branch : string)
  : M CloneRepoResult :=
  emit (EvClone repoUrl branch) ;;
  tryCatch
    (cloned <- settle (gitClone env repoUrl branch) ;;
     ret (mkCloneRepoResult true (fst cloned) repoUrl branch (snd cloned) None))
    (fun errorMsg =>
       ret (mkCloneRepoResult false "" repoUrl branch "" (Some errorMsg))).

Definition validateSolidityRepo (localPath : string) : M ValidationResult :=
  emit (EvValidate localPath) ;;
  tryCatch
    (contractFiles <- settle (findSolFiles env localPath) ;;
     if (length contractFiles =? 0)%nat
     then ret (mkValidationResult false []
                 (Some "No Solidity (.sol) files found in repository"))
     else ret (mkValidationResult true contractFiles None))
    (fun errorMsg => ret (mkValidationResult false [] (Some errorMsg))).

(** *** runStaticAnalysis.ts *)

Definition analyzers (repoPath : string)
  : M (list FindingObj * list FindingObj * list FindingObj) :=
  match slither env repoPath, solhint env repoPath, patternChecks env repoPath with
  | Returns a, Returns b, Returns c => ret (a, b, c)
  | Throws e, _, _ => throw e
  | _, Throws e, _ => throw e
  | _, _, Throws e => throw e
  end.

Definition toolsRunOf (slitherFindings solhintFindings : list FindingObj)
  : list string :=
  ["PatternCheck"]
    ++ (if (0 <? length slitherFindings)%nat then ["Slither"] else [])
    ++ (if (0 <? length solhintFindings)%nat then ["Solhint"] else []).

Definition runStaticAnalysis (repoPath : string) : M StaticAnalysisResult :=
  startTime <- DateNow ;;
  emit (EvStaticAnalysis repoPath) ;;
  tryCatch
    (found <- analyzers repoPath ;;
     let slitherFindings := fst (fst found) in
     let solhintFindings := snd (fst found) in
     let patternFindings := snd found in
     allFindings <-
       newArray (slitherFindings ++ solhintFindings ++ patternFindings) ;;
     all <- readArray allFindings ;;
     let summary := summarize all in
     now <- DateNow ;;
     ret (mkStaticAnalysisResult true allFindings summary
            (toolsRunOf slitherFindings solhintFindings)
            (now - startTime) None))
    (fun errorMsg =>
       empty <- newArray [] ;;
       now <- DateNow ;;
       ret (mkStaticAnalysisResult false empty emptySummary []
              (now - startTime) (Some errorMsg))).

(** *** runDynamicTests.ts and the two collaborators without source *)

Definition runDynamicTests (repoPath : string) : M DynamicTestResult :=
  emit (EvDynamicTests repoPath) ;;
  tryCatch
    (summary <- settle (testnet env repoPath) ;;
     ret (mkDynamicTestResult true summary None))
    (fun errorMsg =>
       ret (mkDynamicTestResult false (mkDynamicSummary 0 0 0 0 0)
              (Some errorMsg))).

Definition generateFixes (findings : ArrayRef) (repoPath : string)
  : M (list Fix) :=
  emit (EvGenerateFixes repoPath) ;;
  fs <- readArray findings ;;
  settle (fixGenerator env fs repoPath).

Definition createPR (repoPath repoUrl : string) (findings : ArrayRef)
    (fixes : list Fix) (dynamicTestResult : option DynamicTestResult)
    (auditId : string) : M PRResult :=
  emit (EvCreatePR auditId) ;;
  fs <- readArray findings ;;
  settle (publisher env
            (mkCreatePRInput repoPath repoUrl fs fixes dynamicTestResult
               auditId)).

Definition fs_mkdir (dir : string) : M unit := settle (mkdir env dir).

Definition fs_writeFile (path : string) (content : ReportFile) : M unit :=
  emit (EvWriteFile path) ;;
  settle (writeFile env path) ;;
  storeFile path content.

(** *** smartAuditAgent.ts *)

Definition auditDynamicGate (request : AuditRequest) : bool :=
  (flagSet (rq_runDynamicTests request)
   && enableDynamicTesting (config env))%bool.

Definition auditPRGate (request : AuditRequest) : bool :=
  (flagSet (rq_createPullRequest request) && enableAutoPR (config env))%bool.

Definition auditDynamicStage (request : AuditRequest) (localPath : string)
  : M (option DynamicTestResult) :=
  if auditDynamicGate request
  then
    dynamicResult <- runDynamicTests localPath ;;
    (if dt_success dynamicResult
     then
       let s := dt_summary dynamicResult in
       if (0 <? totalTransactions s)%nat
       then notifyDynamicTestsComplete (totalDeployed s)
              (totalTransactions s) (successfulTx s * 100)
              (totalTransactions s)
       else notifyDynamicTestsComplete (totalDeployed s)
              (totalTransactions s) 0 1
     else ret tt) ;;
    ret (Some dynamicResult)
  else ret None.

Definition auditPRStage (request : AuditRequest) (localPath : string)
    (findings topFindings : ArrayRef) (fixes : list Fix)
    (dynamicResult : option DynamicTestResult) (auditId : string)
  : M (option string) :=
  if auditPRGate request
  then
    prResult <- createPR localPath (rq_repoUrl request) findings fixes
                  dynamicResult auditId ;;
    let prUrl := pr_prUrl prResult in
    (if negb (String.eqb (default "" prUrl) "")
     then
       top <- readArray topFindings ;;
       notifyPRCreated (default "" prUrl) (length fixes) (map o_title top)
     else ret tt) ;;
    ret prUrl
  else ret None.

Definition runAudit (request : AuditRequest) : M AuditResult :=
  idStamp <- DateNow ;;
  let auditId := auditIdOf idStamp in
  startTime <- DateNow ;;
  notifyAuditStart (rq_repoUrl request) auditId ;;
  tryCatch
    (cloneResult <-
       cloneRepository (rq_repoUrl request)
         (optStrOr (rq_branch request) "main") ;;
     if negb (c_success cloneResult)
     then throw ("Clone failed: " +:+ template (c_error cloneResult))
     else
     validation <- validateSolidityRepo (c_localPath cloneResult) ;;
     if negb (v_isValid validation)
     then throw ("No Solidity contracts found: "
                 +:+ template (v_error validation))
     else
     notifyCloneComplete (rq_repoUrl request)
       (length (v_contractFiles validation)) ;;
     staticResult <- runStaticAnalysis (c_localPath cloneResult) ;;
     if negb (sa_success staticResult)
     then throw ("Static analysis failed: " +:+ template (sa_error staticResult))
     else
     sorted <- sortInPlace (sa_findings staticResult) ;;
     topFindings <- sliceArray 5 sorted ;;
     notifyStaticAnalysisComplete (sa_findings staticResult) topFindings ;;
     dynamicResult <- auditDynamicStage request (c_localPath cloneResult) ;;
     fixes <- generateFixes (sa_findings staticResult) (c_localPath cloneResult) ;;
     prUrl <- auditPRStage request (c_localPath cloneResult)
                (sa_findings staticResult) topFindings fixes dynamicResult
                auditId ;;
     let memoryDir := pathJoin (pathJoin (cwd env) "memory") auditId in
     fs_mkdir memoryDir ;;
     timestamp <- DateNow ;;
     snapshot <- readArray (sa_findings staticResult) ;;
     fs_writeFile (pathJoin memoryDir "audit-report.json")
       (mkReportFile auditId (rq_repoUrl request) timestamp snapshot
          (sa_summary staticResult) dynamicResult fixes prUrl) ;;
     now <- DateNow ;;
     let result :=
       mkAuditResult true auditId (rq_repoUrl request)
         (sa_findings staticResult) fixes dynamicResult prUrl
         (sa_summary staticResult) (now - startTime) None in
     notifyAuditComplete result ;;
     ret result)
    (fun errorMsg =>
       notifyAuditError (rq_repoUrl request) errorMsg ;;
       empty <- newArray [] ;;
       now <- DateNow ;;
       ret (mkAuditResult false auditId (rq_repoUrl request) empty [] None
              None emptySummary (now - startTime) (Some errorMsg))).
End Coordinator.

(** The world a call leaves behind, and what it returned. *)
Definition worldAfter {A} (m : M A) (w : World) : World := snd (m w).
Definition outcome {A} (m : M A) (w : World) : Completion A := fst (m w).

(** The messages handed to [bot.sendMessage] so far, oldest first. *)
Definition messages (w : World) : list Message :=
  omap (fun e => match e with EvSendMessage m => Some m | _ => None end)
    (trace w).

(** [a] may stand before [b] in a list in descending order of priority:
    [calculatePriorityScore(a) >= calculatePriorityScore(b)], which is false
    when one of the two is NaN. *)
Definition scoreGe (a b : FindingObj) : Prop :=
  match calculatePriorityScore a, calculatePriorityScore b with
  | Some x, Some y => x >= y
  | _, _ => False
  end.

End Runtime.

(** ** Runs on what the adapters hand over *)

(** The environment of the examples above, with the three analyzers
    answering [a], [b] and [c] and the given notification sink and engine. *)
Definition runtimeEnv (sink : nat -> Runtime.Message -> Completion unit)
    (engine : list FindingObj -> list FindingObj)
    (a b c : list FindingObj) : Runtime.Env :=
  Runtime.mkEnv demoConfig "/app" (fun n => 1000 + Z.of_nat n) sink
    (fun _ _ => Returns (demoPath, "4f2a9c1"))
    (fun _ => Returns ["contracts/Vault.sol"])
    (fun _ => Returns a) (fun _ => Returns b) (fun _ => Returns c)
    (fun _ => Throws "No working RPC URLs found")
    (fun _ _ => Returns [mkFix "replace tx.origin by msg.sender"])
    (fun _ => Returns (mkPRResult false None (Some "GitHub token not configured")))
    (fun _ => Returns tt)
    (fun _ => Returns tt)
    engine.

(** The severity of the object is one of the five strings. *)
Definition hasNamedSeverity (f : FindingObj) : bool :=
  match asSeverity (o_severity f) with
  | Some _ => true
  | None => false
  end.

(** A sink that accepts every message. *)
Definition acceptingSink (n : nat) (m : Runtime.Message) : Completion unit :=
  Returns tt.

(** The world of a run, with or without a bot. *)
Definition runtimeWorld (botReady : bool) : Runtime.World :=
  Runtime.mkWorld 0 [] ∅ botReady 0 [].

(** A Slither detector whose impact spells the name of a member of
    Object.prototype. *)
Definition constructorDetector : SlitherDetector :=
  mkSlitherDetector (JString "reentrancy-eth")
    (JString "Reentrancy in withdraw()") (JString "constructor")
    (JString "High") JUndefined (JString "contracts/Vault.sol") (JNumber 42).

(** A Slither detector of impact Low whose confidence is none of High,
    Medium and Low. *)
Definition certainDetector : SlitherDetector :=
  mkSlitherDetector (JString "unused-return")
    (JString "withdraw() ignores return value") (JString "Low")
    (JString "Certain") JUndefined (JString "contracts/Vault.sol") (JNumber 57).

(** A Slither detector whose description is a number. *)
Definition numberedDetector : SlitherDetector :=
  mkSlitherDetector (JString "reentrancy-eth") (JNumber 5) (JString "High")
    (JString "High") JUndefined (JString "contracts/Vault.sol") (JNumber 42).

(** What the pattern checks hand over for [vaultSource] in [vaultTree]. *)
Definition vaultPatternFindings : list FindingObj :=
  map ofFinding
    (PatternChecks.runPatternChecks (fun _ => Returns vaultSource) demoPath
       (Returns vaultTree)).

(** ** The typed run as a run on objects *)

(** The notifications, calls, reports and worlds of the coordinator at the
    declared types, seen as those of the coordinator on objects: every
    [Finding] becomes the object it is. *)
Definition ofMessage (m : Message) : Runtime.Message :=
  match m with
  | MsgAuditStart repoUrl auditId => Runtime.MsgAuditStart repoUrl auditId
  | MsgCloneComplete repoUrl contractCount =>
      Runtime.MsgCloneComplete repoUrl contractCount
  | MsgStaticAnalysisComplete c h m t top =>
      Runtime.MsgStaticAnalysisComplete c h m t (map ofFinding top)
  | MsgDynamicTestsComplete d t n k => Runtime.MsgDynamicTestsComplete d t n k
  | MsgPRCreated prUrl fixesCount titles =>
      Runtime.MsgPRCreated prUrl fixesCount (map JString titles)
  | MsgAuditComplete result => Runtime.MsgAuditComplete result
  | MsgAuditError repoUrl error => Runtime.MsgAuditError repoUrl error
  end.

Definition ofEvent (e : Event) : Runtime.Event :=
  match e with
  | EvClone repoUrl branch => Runtime.EvClone repoUrl branch
  | EvValidate localPath => Runtime.EvValidate localPath
  | EvStaticAnalysis repoPath => Runtime.EvStaticAnalysis repoPath
  | EvDynamicTests repoPath => Runtime.EvDynamicTests repoPath
  | EvGenerateFixes repoPath => Runtime.EvGenerateFixes repoPath
  | EvCreatePR auditId => Runtime.EvCreatePR auditId
  | EvWriteFile path => Runtime.EvWriteFile path
  | EvSendMessage message => Runtime.EvSendMessage (ofMessage message)
  end.

Definition ofReport (r : ReportFile) : Runtime.ReportFile :=
  Runtime.mkReportFile (rp_auditId r) (rp_repoUrl r) (rp_timestamp r)
    (map ofFinding (rp_findings r)) (rp_summary r) (rp_dynamicTests r)
    (rp_fixes r) (rp_prUrl r).

(** The reports of runAudit; those of executeAuditTool have no counterpart. *)
Definition ofContent (c : FileContent) : option Runtime.ReportFile :=
  match c with
  | AuditReportJson r => Some (ofReport r)
  | FullReportJson _ => None
  end.

Definition ofInput (i : CreatePRInput) : Runtime.CreatePRInput :=
  Runtime.mkCreatePRInput (pi_repoPath i) (pi_repoUrl i)
    (map ofFinding (pi_findings i)) (pi_fixes i) (pi_dynamicTestResult i)
    (pi_auditId i).

Definition ofWorld (w : World) : Runtime.World :=
  Runtime.mkWorld (ticks w) (map (map ofFinding) (arrays w))
    (omap ofContent (files w)) (bot w) (sent w) (map ofEvent (trace w)).

Definition ofCompletion {A B} (f : A -> B) (c : Completion A) : Completion B :=
  match c with
  | Returns a => Returns (f a)
  | Throws e => Throws e
  end.

(** The outside of a run on objects answers as the outside of the typed
    run does, the findings being the same objects.  Nothing is asked of the
    sink and of the engine. *)
Record sameOutside (env : Env) (renv : Runtime.Env) : Prop := mkSameOutside {
  same_config : Runtime.config renv = config env;
  same_cwd : Runtime.cwd renv = cwd env;
  same_clock : forall n, Runtime.clock renv n = clock env n;
  same_gitClone :
    forall repoUrl branch,
      Runtime.gitClone renv repoUrl branch = gitClone env repoUrl branch;
  same_findSolFiles :
    forall path, Runtime.findSolFiles renv path = findSolFiles env path;
  same_slither :
    forall path,
      Runtime.slither renv path
      = ofCompletion (map ofFinding) (slither env path);
  same_solhint :
    forall path,
      Runtime.solhint renv path
      = ofCompletion (map ofFinding) (solhint env path);
  same_patternChecks :
    forall path,
      Runtime.patternChecks renv path
      = ofCompletion (map ofFinding) (patternChecks env path);
  same_testnet : forall path, Runtime.testnet renv path = testnet env path;
  same_fixGenerator :
    forall fs path,
      Runtime.fixGenerator renv (map ofFinding fs) path
      = fixGenerator env fs path;
  same_publisher :
    forall input, Runtime.publisher renv (ofInput input) = publisher env input;
  same_mkdir : forall dir, Runtime.mkdir renv dir = mkdir env dir;
  same_writeFile : forall path, Runtime.writeFile renv path = writeFile env path;
}.

(** The typed environment as one that answers with objects; the fix
    generator and the publisher are asked only about objects that are
    Findings. *)
Definition ofEnv (env : Env) : Runtime.Env :=
  Runtime.mkEnv (config env) (cwd env) (clock env) (fun _ _ => Returns tt)
    (gitClone env) (findSolFiles env)
    (fun path => ofCompletion (map ofFinding) (slither env path))
    (fun path => ofCompletion (map ofFinding) (solhint env path))
    (fun path => ofCompletion (map ofFinding) (patternChecks env path))
    (testnet env)
    (fun objects path => fixGenerator env (omap asFinding objects) path)
    (fun input =>
       publisher env
         (mkCreatePRInput (Runtime.pi_repoPath input) (Runtime.pi_repoUrl input)
            (omap asFinding (Runtime.pi_findings input))
            (Runtime.pi_fixes input) (Runtime.pi_dynamicTestResult input)
            (Runtime.pi_auditId input)))
    (mkdir env) (writeFile env) (fun l => l).

(** A call on objects does what the typed call does. *)
Definition sim {A B} (f : A -> B) (m : M A) (rm : Runtime.M B) : Prop :=
  forall w,
    rm (ofWorld w) = (ofCompletion f (fst (m w)), ofWorld (snd (m w))).

(* ===================================================================== *)
(** * Part II: properties *)
(* ===================================================================== *)

(** ** The scorer *)

Lemma severityScores_mono (s1 s2 : Severity) :
  (severityRank s1 < severityRank s2)%nat ->
  severityScores s1 < severityScores s2.
Proof. destruct s1, s2; cbn; lia. Qed.

Lemma confidenceScores_mono (c1 c2 : Confidence) :
  (confidenceRank c1 < confidenceRank c2)%nat ->
  confidenceScores c1 < confidenceScores c2.
Proof. destruct c1, c2; cbn; lia. Qed.

Lemma severityScores_pos (s : Severity) : 0 < severityScores s.
Proof. destruct s; cbn; lia. Qed.

Lemma confidenceScores_pos (c : Confidence) : 0 < confidenceScores c.
Proof. destruct c; cbn; lia. Qed.

(** C4. The priority score is the product of the severity weight and the
    confidence weight, the weights are info:1, low:2, medium:4, high:7,
    critical:10 and low:1, medium:2, high:3, and the score grows strictly
    with the severity at a fixed confidence and strictly with the confidence
    at a fixed severity. *)
Theorem calculatePriorityScore_weights_and_monotone :
  (forall f : Finding,
      calculatePriorityScore f
      = severityScores (severity f) * confidenceScores (confidence f))
  /\ (severityScores info = 1 /\ severityScores low = 2
      /\ severityScores medium = 4 /\ severityScores high = 7
      /\ severityScores critical = 10)
  /\ (confidenceScores conf_low = 1 /\ confidenceScores conf_medium = 2
      /\ confidenceScores conf_high = 3)
  /\ (forall f g : Finding,
        confidence f = confidence g ->
        (severityRank (severity f) < severityRank (severity g))%nat ->
        calculatePriorityScore f < calculatePriorityScore g)
  /\ (forall f g : Finding,
        severity f = severity g ->
        (confidenceRank (confidence f) < confidenceRank (confidence g))%nat ->
        calculatePriorityScore f < calculatePriorityScore g).
Proof.
  split; [reflexivity|].
  split; [repeat split|].
  split; [repeat split|].
  split.
  - intros f g Hc Hs. unfold calculatePriorityScore. rewrite Hc.
    apply Z.mul_lt_mono_pos_r.
    + apply confidenceScores_pos.
    + now apply severityScores_mono.
  - intros f g Hs Hc. unfold calculatePriorityScore. rewrite Hs.
    apply Z.mul_lt_mono_pos_l.
    + apply severityScores_pos.
    + now apply confidenceScores_mono.
Qed.

(** ** The summary *)

Lemma countSeverity_cons (s : Severity) (f : Finding) (fs : list Finding) :
  countSeverity s (f :: fs)
  = ((if severity_eqb (severity f) s then 1 else 0) + countSeverity s fs)%nat.
Proof.
  unfold countSeverity. cbn. destruct (severity_eqb (severity f) s); reflexivity.
Qed.

Lemma buckets_partition (fs : list Finding) :
  (countSeverity critical fs + countSeverity high fs + countSeverity medium fs
   + countSeverity low fs + countSeverity info fs)%nat = length fs.
Proof.
  induction fs as [|f fs IH]; [reflexivity|].
  rewrite !countSeverity_cons. cbn [length].
  destruct (severity f); cbn; lia.
Qed.

Lemma summarize_total (fs : list Finding) :
  s_total (summarize fs) = length fs /\ bucketSum (summarize fs) = length fs.
Proof. split; [reflexivity|]. apply buckets_partition. Qed.

Lemma countSeverity_Permutation (s : Severity) (l1 l2 : list Finding) :
  Permutation l1 l2 -> countSeverity s l1 = countSeverity s l2.
Proof.
  induction 1 as [|x l l' _ IH|x y l|l l' l'' _ IH1 _ IH2].
  - reflexivity.
  - rewrite !countSeverity_cons. now rewrite IH.
  - rewrite !countSeverity_cons. lia.
  - now rewrite IH1.
Qed.

(** ** Array.prototype.sort with the priority comparator *)

Lemma sortInsert_Permutation (x : Finding) (l : list Finding) :
  Permutation (sortInsert byPriorityDesc x l) (x :: l).
Proof.
  induction l as [|y ys IH]; cbn; [reflexivity|].
  destruct (byPriorityDesc x y <=? 0)%Z; [reflexivity|].
  rewrite IH. apply perm_swap.
Qed.

Lemma Array_sort_Permutation (l : list Finding) :
  Permutation (Array_sort byPriorityDesc l) l.
Proof.
  induction l as [|x l IH]; cbn; [reflexivity|].
  rewrite sortInsert_Permutation. now constructor.
Qed.

Lemma Array_sort_length (l : list Finding) :
  length (Array_sort byPriorityDesc l) = length l.
Proof. apply Permutation_length, Array_sort_Permutation. Qed.

Lemma sortInsert_sorted (x : Finding) (l : list Finding) :
  StronglySorted scoreGe l ->
  StronglySorted scoreGe (sortInsert byPriorityDesc x l).
Proof.
  induction 1 as [|y ys Hs IH Hall]; cbn.
  - repeat constructor.
  - destruct (byPriorityDesc x y <=? 0)%Z eqn:Hc.
    + apply Z.leb_le in Hc. unfold byPriorityDesc in Hc.
      constructor; [now constructor|].
      constructor; [unfold scoreGe; lia|].
      eapply Forall_impl; [exact Hall|].
      intros z Hz. unfold scoreGe in *. lia.
    + apply Z.leb_gt in Hc. unfold byPriorityDesc in Hc.
      constructor; [exact IH|].
      eapply Permutation_Forall.
      * symmetry. apply sortInsert_Permutation.
      * constructor; [unfold scoreGe; lia | exact Hall].
Qed.

Lemma Array_sort_sorted (l : list Finding) :
  StronglySorted scoreGe (Array_sort byPriorityDesc l).
Proof.
  induction l as [|x l IH]; cbn; [constructor|].
  now apply sortInsert_sorted.
Qed.

(** Stability: among the findings of one score, the order is the input's. *)
Lemma sortInsert_stable (p : Z) (x : Finding) (l : list Finding) :
  List.filter (hasScore p) (sortInsert byPriorityDesc x l)
  = List.filter (hasScore p) (x :: l).
Proof.
  induction l as [|y ys IH]; [reflexivity|].
  cbn [sortInsert].
  destruct (byPriorityDesc x y <=? 0)%Z eqn:Hc; [reflexivity|].
  apply Z.leb_gt in Hc. unfold byPriorityDesc in Hc.
  cbn [List.filter] in *. rewrite IH. unfold hasScore.
  destruct (calculatePriorityScore y =? p)%Z eqn:Hy;
    destruct (calculatePriorityScore x =? p)%Z eqn:Hx; try reflexivity.
  apply Z.eqb_eq in Hy, Hx. lia.
Qed.

Lemma Array_sort_stable (p : Z) (l : list Finding) :
  List.filter (hasScore p) (Array_sort byPriorityDesc l)
  = List.filter (hasScore p) l.
Proof.
  induction l as [|x l IH]; [reflexivity|].
  cbn [Array_sort foldr]. rewrite sortInsert_stable.
  cbn [List.filter]. fold (Array_sort byPriorityDesc l). now rewrite IH.
Qed.

Lemma filter_hasScore_In (p : Z) (f : Finding) (l : list Finding) :
  In f (List.filter (hasScore p) l) <-> In f l /\ calculatePriorityScore f = p.
Proof.
  rewrite filter_In. unfold hasScore. now rewrite Z.eqb_eq.
Qed.

Lemma filter_hasScore_cons (p : Z) (x : Finding) (t : list Finding) :
  List.filter (hasScore p) (x :: t)
  = if (calculatePriorityScore x =? p)%Z
    then x :: List.filter (hasScore p) t
    else List.filter (hasScore p) t.
Proof. reflexivity. Qed.

(** A list sorted by descending priority is determined by its findings of
    each score, in their order: the stable sort of a list is unique. *)
Lemma stable_sort_unique (l1 l2 : list Finding) :
  StronglySorted scoreGe l1 ->
  StronglySorted scoreGe l2 ->
  (forall p, List.filter (hasScore p) l1 = List.filter (hasScore p) l2) ->
  l1 = l2.
Proof.
  intros H1. revert l2.
  induction H1 as [|x t1 Hs1 IH Hx]; intros l2 H2 Heq.
  - destruct l2 as [|y t2]; [reflexivity|].
    specialize (Heq (calculatePriorityScore y)).
    rewrite filter_hasScore_cons, Z.eqb_refl in Heq. discriminate.
  - destruct H2 as [|y t2 Hs2 Hy].
    { specialize (Heq (calculatePriorityScore x)).
      rewrite filter_hasScore_cons, Z.eqb_refl in Heq. discriminate. }
    assert (Hxy : calculatePriorityScore x = calculatePriorityScore y).
    { assert (Hle1 : calculatePriorityScore y <= calculatePriorityScore x).
      { assert (Hin : In y (List.filter (hasScore (calculatePriorityScore y))
                              (x :: t1))).
        { rewrite Heq. apply filter_hasScore_In. split; [now left|reflexivity]. }
        apply filter_hasScore_In in Hin. destruct Hin as [[->|Hin] _]; [lia|].
        rewrite Forall_forall in Hx. specialize (Hx y).
        unfold scoreGe in Hx. rewrite <- list_elem_of_In in Hin.
        specialize (Hx Hin). lia. }
      assert (Hle2 : calculatePriorityScore x <= calculatePriorityScore y).
      { assert (Hin : In x (List.filter (hasScore (calculatePriorityScore x))
                              (y :: t2))).
        { rewrite <- Heq. apply filter_hasScore_In. split; [now left|reflexivity]. }
        apply filter_hasScore_In in Hin. destruct Hin as [[->|Hin] _]; [lia|].
        rewrite Forall_forall in Hy. specialize (Hy x).
        unfold scoreGe in Hy. rewrite <- list_elem_of_In in Hin.
        specialize (Hy Hin). lia. }
      lia. }
    assert (Hhead : x = y /\ forall p, List.filter (hasScore p) t1
                                       = List.filter (hasScore p) t2).
    { split.
      - specialize (Heq (calculatePriorityScore x)).
        rewrite !filter_hasScore_cons, <- Hxy, Z.eqb_refl in Heq.
        now injection Heq.
      - intro p. specialize (Heq p).
        rewrite !filter_hasScore_cons, <- Hxy in Heq.
        destruct (calculatePriorityScore x =? p)%Z; [now injection Heq|exact Heq]. }
    destruct Hhead as [-> Htail]. f_equal. now apply IH.
Qed.

(** So [Array_sort] with the priority comparator is the stable descending
    sort, whatever algorithm the engine runs. *)
Lemma Array_sort_characterized (l s : list Finding) :
  StronglySorted scoreGe s ->
  (forall p, List.filter (hasScore p) s = List.filter (hasScore p) l) ->
  s = Array_sort byPriorityDesc l.
Proof.
  intros Hs Hst. apply stable_sort_unique; [exact Hs|apply Array_sort_sorted|].
  intro p. now rewrite Hst, Array_sort_stable.
Qed.


(** On findings of the declared type, top-K selection is the first k
    elements of the findings sorted by descending priority score; when k is
    at least the number of findings it returns all of them, sorted by
    descending priority, and findings of equal priority keep their original
    relative order. *)
Theorem topK_sorts_descending_and_truncates (findings : list Finding) (k : nat) :
  exists sorted : list Finding,
    Permutation sorted findings
    /\ StronglySorted scoreGe sorted
    /\ (forall p, List.filter (hasScore p) sorted
                  = List.filter (hasScore p) findings)
    /\ topK k findings = take k sorted
    /\ ((length findings <= k)%nat -> topK k findings = sorted).
Proof.
  exists (Array_sort byPriorityDesc findings).
  split; [apply Array_sort_Permutation|].
  split; [apply Array_sort_sorted|].
  split; [intro p; apply Array_sort_stable|].
  split; [reflexivity|].
  intro Hk. unfold topK, slice0. apply take_ge.
  rewrite Array_sort_length. exact Hk.
Qed.

(** Witness for C4: a high and a critical finding of medium confidence. *)
Lemma calculatePriorityScore_weights_and_monotone_witness :
  calculatePriorityScore
    (mkFinding "SLTH-001" "Vault.sol" 10 "t" "d" high conf_medium "r" "Slither" "c")
  < calculatePriorityScore
      (mkFinding "SLTH-002" "Vault.sol" 20 "t" "d" critical conf_medium "r" "Slither" "c").
Proof.
  apply (proj1 (proj2 (proj2 (proj2 calculatePriorityScore_weights_and_monotone)))).
  - reflexivity.
  - cbn. lia.
Defined.

(** An example: three findings and k = 5. *)
Lemma topK_sorts_descending_and_truncates_witness :
  let lowF := mkFinding "SLNT-001" "a.sol" 3 "t1" "d" low conf_medium "r" "Solhint" "c" in
  let highF := mkFinding "PTRN-001" "a.sol" 9 "t2" "d" high conf_medium "r" "PatternCheck" "c" in
  let highG := mkFinding "PTRN-002" "b.sol" 1 "t3" "d" high conf_medium "r" "PatternCheck" "c" in
  exists sorted,
    Permutation sorted [lowF; highF; highG]
    /\ StronglySorted scoreGe sorted
    /\ topK 5 [lowF; highF; highG] = sorted.
Proof.
  intros lowF highF highG.
  destruct (topK_sorts_descending_and_truncates [lowF; highF; highG] 5)
    as (sorted & Hperm & Hsorted & _ & _ & Hall).
  exists sorted. split; [exact Hperm|]. split; [exact Hsorted|].
  apply Hall. cbn. lia.
Defined.

(** ** The adapters *)

(** A level that is neither a key of the table nor the name of a member of
    Object.prototype becomes info. *)
Lemma mapSeverity_unmapped (v : JsVal) :
  toPropertyKey v
    ∉ ["High"; "Medium"; "Low"; "Informational"; "error"; "warning"; "info"] ->
  toPropertyKey v ∉ objectPrototypeKeys ->
  mapSeverity v = SevOf info.
Proof.
  intros Hk Hinherited. unfold mapSeverity, SEVERITY_MAP.
  rewrite (not_elem_of_list_to_map_1 _ (toPropertyKey v)) by exact Hk.
  now rewrite bool_decide_eq_false_2.
Qed.

(** A level that spells the name of a member of Object.prototype is not
    defaulted: the severity is that member. *)
Lemma mapSeverity_inherited (v : JsVal) :
  toPropertyKey v ∈ objectPrototypeKeys ->
  mapSeverity v = SevInherited (toPropertyKey v).
Proof.
  intro Hin. unfold mapSeverity.
  assert (Hnone : SEVERITY_MAP !! toPropertyKey v = None).
  { apply not_elem_of_list_to_map_1. cbn [fmap list_fmap fst].
    intro Hown. unfold objectPrototypeKeys in Hin.
    repeat (apply elem_of_cons in Hin as [Hin|Hin];
            [rewrite Hin in Hown; clear Hin;
             repeat (apply elem_of_cons in Hown as [Hown|Hown];
                     [discriminate Hown|]);
             now apply elem_of_nil in Hown|]).
    now apply elem_of_nil in Hin. }
  rewrite Hnone. now rewrite bool_decide_eq_true_2.
Qed.

Lemma mapSeverity_missing : mapSeverity JUndefined = SevOf info.
Proof. reflexivity. Qed.

Lemma slitherFinding_severity (n : nat) (d : SlitherDetector) (o : FindingObj) :
  slitherFinding n d = Returns o -> o_severity o = mapSeverity (d_impact d).
Proof.
  unfold slitherFinding. destruct (optionalToLowerCase (d_confidence d)); [|discriminate].
  intros [= <-]. reflexivity.
Qed.

(** A confidence that is missing, null or the empty string becomes medium. *)
Lemma slitherFinding_missing_confidence (n : nat) (d : SlitherDetector) :
  d_confidence d = JUndefined \/ d_confidence d = JNull
  \/ d_confidence d = JString "" ->
  exists o, slitherFinding n d = Returns o /\ o_confidence o = "medium".
Proof.
  unfold slitherFinding. intros [H|[H|H]]; rewrite H; cbn; eexists; split; reflexivity.
Qed.

(** Any other string confidence is carried over in lower case. *)
Lemma slitherFinding_string_confidence (n : nat) (d : SlitherDetector) (s : string) :
  d_confidence d = JString s -> toLowerCase s <> "" ->
  exists o, slitherFinding n d = Returns o /\ o_confidence o = toLowerCase s.
Proof.
  intros H Hne. unfold slitherFinding. rewrite H. cbn.
  eexists. split; [reflexivity|]. cbn. unfold strOr.
  destruct (String.eqb_spec (toLowerCase s) ""); [contradiction|reflexivity].
Qed.

(** A confidence that is a number or a boolean makes the object literal throw. *)
Lemma slitherFinding_throws (n : nat) (d : SlitherDetector) :
  (exists z, d_confidence d = JNumber z) \/ (exists b, d_confidence d = JBool b) ->
  exists e, slitherFinding n d = Throws e.
Proof.
  unfold slitherFinding. intros [[z H]|[b H]]; rewrite H; cbn; eexists; reflexivity.
Qed.

Lemma solhintFinding_typed (n : nat) (r : SolhintReport) (i : SolhintIssue) :
  o_confidence (solhintFinding n r i) = "medium"
  /\ o_severity (solhintFinding n r i) = mapSeverity (i_severity i).
Proof. split; reflexivity. Qed.

(** C6. A Slither detector whose impact is in the table and whose confidence
    is the string Certain, which is none of High, Medium, Low: the adapter
    returns an object whose confidence is the lower-cased native value, not
    medium, so the object is not a Finding. *)
Theorem slitherFinding_unmapped_confidence_not_defaulted :
  let detector :=
    mkSlitherDetector (JString "reentrancy-eth")
      (JString "Reentrancy in withdraw()")
      (JString "High") (JString "Certain") JUndefined
      (JString "contracts/Vault.sol") (JNumber 42) in
  exists o,
    slitherFinding 1 detector = Returns o
    /\ runSlither (Some [detector]) = [o]
    /\ o_severity o = SevOf high
    /\ o_confidence o = "certain"
    /\ o_confidence o <> "medium"
    /\ asFinding o = None.
Proof.
  cbn zeta. eexists. split; [reflexivity|].
  split; [reflexivity|]. split; [reflexivity|]. split; [reflexivity|].
  split; [discriminate|reflexivity].
Qed.

(** ** Reasoning about calls *)

Arguments bind : simpl never.
Arguments tryCatch : simpl never.
Arguments ret : simpl never.
Arguments throw : simpl never.
Arguments settle : simpl never.
Arguments emit : simpl never.
Arguments newArray : simpl never.
Arguments readArray : simpl never.
Arguments sortInPlace : simpl never.
Arguments DateNow : simpl never.
Arguments auditDynamicGate : simpl never.
Arguments auditPRGate : simpl never.
Arguments toolDynamicGate : simpl never.
Arguments toolPRGate : simpl never.
Arguments storeFile : simpl never.
Arguments sendTelegramMessage : simpl never.
Arguments newObject : simpl never.
Arguments updateObject : simpl never.
Arguments audits_set : simpl never.
Arguments setImmediate : simpl never.
Arguments wp : simpl never.
Arguments deref : simpl never.
Arguments slice0 : simpl never.
Arguments toolsRunOf : simpl never.
Arguments countSeverity : simpl never.
Arguments auditIdOf : simpl never.
Arguments pathJoin : simpl never.
Arguments sendEvents : simpl never.
Arguments sendCount : simpl never.
Arguments Array_sort : simpl never.
Arguments summarize : simpl never.

Section WpRules.
Context {A B : Type}.
Implicit Types (Q : A -> World -> Prop) (E : string -> World -> Prop).

Lemma wp_ret (a : A) Q E w : Q a w -> wp (ret a) Q E w.
Proof. intro H. exact H. Qed.

Lemma wp_throw e Q E w : E e w -> wp (throw e) Q E w.
Proof. intro H. exact H. Qed.

Lemma wp_settle (c : Completion A) Q E w :
  match c with Returns a => Q a w | Throws e => E e w end ->
  wp (settle c) Q E w.
Proof. unfold wp, settle. now destruct c. Qed.

Lemma wp_bind (m : M B) (k : B -> M A) Q E w :
  wp m (fun b => wp (k b) Q E) E w -> wp (bind m k) Q E w.
Proof. unfold wp, bind. now destruct (m w) as [[b|e] w']. Qed.

Lemma wp_tryCatch (body : M A) handler Q E w :
  wp body Q (fun e => wp (handler e) Q E) w ->
  wp (tryCatch body handler) Q E w.
Proof. unfold wp, tryCatch. now destruct (body w) as [[b|e] w']. Qed.

Lemma wp_mono (m : M A) Q Q' E E' w :
  wp m Q E w ->
  (forall a w', Q a w' -> Q' a w') ->
  (forall e w', E e w' -> E' e w') ->
  wp m Q' E' w.
Proof. unfold wp. destruct (m w) as [[b|e] w']; auto. Qed.

(** What a [wp] says about the pair the call evaluates to. *)
Lemma wp_returns (m : M A) Q E w a w' :
  wp m Q E w -> m w = (Returns a, w') -> Q a w'.
Proof. unfold wp. intros H Hm. now rewrite Hm in H. Qed.
End WpRules.

Lemma sendTelegramMessage_eq env m w :
  sendTelegramMessage env m w = (Returns tt, noteSend env m w).
Proof.
  unfold sendTelegramMessage, noteSend, sendEvents, sendCount, telegramOff.
  destruct (negb (bot w) || String.eqb (telegramChatId (config env)) "")%bool.
  - destruct w. cbn. now rewrite Nat.add_0_r, app_nil_r.
  - unfold tryCatch, bot_sendMessage, setTrace, setSent. cbn.
    replace (sent w + 1)%nat with (S (sent w)) by lia.
    destruct (botSendMessage env (sent w) m) as [[]|e]; reflexivity.
Qed.

Lemma wp_send env m Q E w :
  Q tt (noteSend env m w) -> wp (sendTelegramMessage env m) Q E w.
Proof. unfold wp. now rewrite sendTelegramMessage_eq. Qed.

Lemma wp_DateNow env Q E w :
  Q (clock env (ticks w)) (setTicks (S (ticks w)) w) -> wp (DateNow env) Q E w.
Proof. intro H. exact H. Qed.

Lemma wp_emit ev Q E w :
  Q tt (setTrace (trace w ++ [ev]) w) -> wp (emit ev) Q E w.
Proof. intro H. exact H. Qed.

Lemma wp_newArray l Q E w :
  Q (length (arrays w)) (setArrays (arrays w ++ [l]) w) -> wp (newArray l) Q E w.
Proof. intro H. exact H. Qed.

Lemma wp_readArray r Q E w : Q (deref w r) w -> wp (readArray r) Q E w.
Proof. intro H. exact H. Qed.

Lemma wp_sortInPlace cmp r Q E w :
  Q r (setArrays (<[r := Array_sort cmp (deref w r)]> (arrays w)) w) ->
  wp (sortInPlace cmp r) Q E w.
Proof. intro H. exact H. Qed.

Lemma wp_storeFile path content Q E w :
  Q tt (setFiles (<[path := content]> (files w)) w) ->
  wp (storeFile path content) Q E w.
Proof. intro H. exact H. Qed.

Lemma wp_newObject a Q E w :
  Q (length (objects w)) (setObjects (objects w ++ [a]) w) ->
  wp (newObject a) Q E w.
Proof. intro H. exact H. Qed.

Lemma wp_updateObject r f Q E w :
  Q tt (setObjects (alter f r (objects w)) w) -> wp (updateObject r f) Q E w.
Proof. intro H. exact H. Qed.

Lemma wp_audits_set k r Q E w :
  Q tt (setAudits (<[k := r]> (audits w)) w) -> wp (audits_set k r) Q E w.
Proof. intro H. exact H. Qed.

Lemma wp_setImmediate c Q E w :
  Q tt (setImmediates (immediates w ++ [c]) w) -> wp (setImmediate c) Q E w.
Proof. intro H. exact H. Qed.

Lemma sendEvents_Forall (P : Event -> Prop) env m b :
  P (EvSendMessage m) -> Forall P (sendEvents env m b).
Proof.
  intro H. unfold sendEvents. destruct (telegramOff env b); repeat constructor.
  exact H.
Qed.

Create HintDb audit discriminated.
#[local] Hint Unfold runAudit executeAuditTool notifyAuditStart
  notifyCloneComplete notifyStaticAnalysisComplete notifyAuditComplete
  notifyAuditError notifyDynamicTestsComplete notifyPRCreated cloneRepository
  validateSolidityRepo runStaticAnalysis analyzers
  runDynamicTests generateFixes createPR fs_mkdir fs_writeFile
  sliceArray : audit.

Create HintDb stages discriminated.
#[local] Hint Unfold auditDynamicStage auditPRStage : stages.

(** Case analysis on the outcome of an external call: by a hypothesis that
    fixes it when there is one. *)
Ltac case_on c :=
  first [ match goal with H : c = _ |- _ => rewrite H end
        | destruct c eqn:? ].

(** One step of symbolic execution of a call under [wp]. *)
Ltac wp_step :=
  lazymatch goal with
  | |- wp (bind _ _) _ _ _ => apply wp_bind
  | |- wp (tryCatch _ _) _ _ _ => apply wp_tryCatch
  | |- wp (ret _) _ _ _ => apply wp_ret
  | |- wp (throw _) _ _ _ => apply wp_throw
  | |- wp (settle _) _ _ _ =>
      apply wp_settle; cbn;
      lazymatch goal with
      | |- match ?c with _ => _ end => case_on c
      end
  | |- wp (DateNow _) _ _ _ => apply wp_DateNow
  | |- wp (emit _) _ _ _ => apply wp_emit
  | |- wp (newArray _) _ _ _ => apply wp_newArray
  | |- wp (readArray _) _ _ _ => apply wp_readArray
  | |- wp (sortInPlace _ _) _ _ _ => apply wp_sortInPlace
  | |- wp (sendTelegramMessage _ _) _ _ _ => apply wp_send
  | |- wp (storeFile _ _) _ _ _ => apply wp_storeFile
  | |- wp (newObject _) _ _ _ => apply wp_newObject
  | |- wp (updateObject _ _) _ _ _ => apply wp_updateObject
  | |- wp (audits_set _ _) _ _ _ => apply wp_audits_set
  | |- wp (setImmediate _) _ _ _ => apply wp_setImmediate
  | |- wp (if ?b then _ else _) _ _ _ => case_on b
  | |- wp (match ?x with _ => _ end) _ _ _ => case_on x
  end;
  cbv beta zeta; cbn.

Ltac wp_run := autounfold with audit; repeat wp_step.

Lemma wp_total {A} (m : M A) (Q : A -> World -> Prop) w :
  wp m Q (fun _ _ => False) w ->
  exists a, outcome m w = Returns a /\ Q a (worldAfter m w).
Proof.
  unfold wp, outcome, worldAfter. destruct (m w) as [[a|e] w']; cbn; [|tauto].
  intro H. exists a. split; [reflexivity|exact H].
Qed.

(** ** Frames *)

Section Respects.
Context (R : World -> World -> Prop) `{!PreOrder R}.

Lemma respects_ret {A} (a : A) : respects R (ret a).
Proof. intro w. reflexivity. Qed.

Lemma respects_throw {A} e : respects R (@throw A e).
Proof. intro w. reflexivity. Qed.

Lemma respects_settle {A} (c : Completion A) : respects R (settle c).
Proof. intro w. reflexivity. Qed.

Lemma respects_bind {A B} (m : M A) (k : A -> M B) :
  respects R m -> (forall a, respects R (k a)) -> respects R (bind m k).
Proof.
  intros Hm Hk w. unfold bind. specialize (Hm w).
  destruct (m w) as [[a|e] w']; cbn in *; [|assumption].
  etransitivity; [exact Hm|apply Hk].
Qed.

Lemma respects_tryCatch {A} (m : M A) h :
  respects R m -> (forall e, respects R (h e)) -> respects R (tryCatch m h).
Proof.
  intros Hm Hk w. unfold tryCatch. specialize (Hm w).
  destruct (m w) as [[a|e] w']; cbn in *; [assumption|].
  etransitivity; [exact Hm|apply Hk].
Qed.

Lemma wp_respects {A} (m : M A) Q E w :
  respects R m ->
  (forall a w', R w w' -> Q a w') ->
  (forall e w', R w w' -> E e w') ->
  wp m Q E w.
Proof.
  intros Hm HQ HE. unfold wp. specialize (Hm w).
  destruct (m w) as [[a|e] w']; auto.
Qed.
End Respects.

#[local] Instance sameRegistry_preorder : PreOrder sameRegistry.
Proof.
  split.
  - intro w. repeat split.
  - intros a b c (?&?&?&?) (?&?&?&?). repeat split; congruence.
Qed.

Lemma send_registry env m : respects sameRegistry (sendTelegramMessage env m).
Proof.
  intro w. rewrite sendTelegramMessage_eq. cbn. repeat split.
Qed.

(** Decomposes a frame goal along the structure of the call. *)
Ltac frame :=
  repeat first
    [ progress intros
    | match goal with |- PreOrder _ => typeclasses eauto end
    | apply respects_ret | apply respects_throw | apply respects_settle
    | apply respects_bind
    | apply respects_tryCatch
    | apply send_registry
    | match goal with
      | |- respects _ (if ?b then _ else _) => destruct b
      | |- respects _ (match ?x with _ => _ end) => destruct x
      end
    | solve [intro; unfold sameRegistry; cbn; repeat split; reflexivity] ].

Lemma runAudit_registry env rq : respects sameRegistry (runAudit env rq).
Proof. autounfold with audit stages. autounfold with audit. frame. Qed.

(** ** runAudit always returns *)

Lemma wp_any {A} (m : M A) w : wp m (fun _ _ => True) (fun _ _ => True) w.
Proof. unfold wp. destruct (m w) as [[a|e] w']; exact I. Qed.

Lemma runAudit_returns env rq w :
  wp (runAudit env rq) (fun _ _ => True) (fun _ _ => False) w.
Proof.
  unfold runAudit, notifyAuditStart. do 6 wp_step. apply wp_tryCatch.
  eapply wp_mono with (Q := fun _ _ => True) (E := fun _ _ => True).
  - apply wp_any.
  - auto.
  - intros e w' _. unfold notifyAuditError. repeat wp_step. exact I.
Qed.

(** ** The summary of a static-analysis result *)

Lemma lookup_snoc_new {A} (l : list A) (x : A) : (l ++ [x]) !! length l = Some x.
Proof. now apply list_lookup_middle. Qed.

Lemma deref_new (w : World) (l : list Finding) (a : list (list Finding)) :
  arrays w = (a ++ [l])%list -> deref w (length a) = l.
Proof. intro H. unfold deref. rewrite H, lookup_snoc_new. reflexivity. Qed.

(** When the analyzers answer with findings of the declared type, then on
    the success path and on the failure path alike (an empty list of
    findings included) the total of the summary is the number of findings
    and the five severity buckets add up to the total. *)
Theorem runStaticAnalysis_summary_counts :
  (forall fs : list Finding,
      s_total (summarize fs) = length fs
      /\ bucketSum (summarize fs) = s_total (summarize fs))
  /\ (s_total emptySummary = length (@nil Finding)
      /\ bucketSum emptySummary = s_total emptySummary)
  /\ (forall env repoPath w,
        exists r,
          outcome (runStaticAnalysis env repoPath) w = Returns r
          /\ s_total (sa_summary r)
             = length (deref (worldAfter (runStaticAnalysis env repoPath) w)
                         (sa_findings r))
          /\ bucketSum (sa_summary r) = s_total (sa_summary r)).
Proof.
  split; [|split].
  - intro fs. destruct (summarize_total fs) as [Ht Hb]. split; congruence.
  - split; reflexivity.
  - intros env repoPath w.
    apply (wp_total _
             (fun r w' =>
                s_total (sa_summary r) = length (deref w' (sa_findings r))
                /\ bucketSum (sa_summary r) = s_total (sa_summary r))).
    wp_run.
    all: repeat (erewrite deref_new by reflexivity).
    all: split; [reflexivity|].
    all: first [ apply buckets_partition | reflexivity ].
Qed.

(** ** The notification sink cannot be observed by a run *)

Lemma bind_ext {A B} (m1 m2 : M A) (k1 k2 : A -> M B) w :
  m1 w = m2 w -> (forall a w', k1 a w' = k2 a w') ->
  bind m1 k1 w = bind m2 k2 w.
Proof.
  intros Hm Hk. unfold bind. rewrite Hm.
  destruct (m2 w) as [[a|e] w']; [apply Hk|reflexivity].
Qed.

Lemma tryCatch_ext {A} (m1 m2 : M A) (h1 h2 : string -> M A) w :
  m1 w = m2 w -> (forall e w', h1 e w' = h2 e w') ->
  tryCatch m1 h1 w = tryCatch m2 h2 w.
Proof.
  intros Hm Hh. unfold tryCatch. rewrite Hm.
  destruct (m2 w) as [[a|e] w']; [reflexivity|apply Hh].
Qed.

Lemma send_sink s1 s2 env m w :
  sendTelegramMessage (withSink s1 env) m w
  = sendTelegramMessage (withSink s2 env) m w.
Proof. rewrite !sendTelegramMessage_eq. reflexivity. Qed.

(** Compares two calls that differ in the sink only, piece by piece. *)
Ltac sink_ext :=
  repeat
    (cbn;
     lazymatch goal with
     | |- bind _ _ _ = bind _ _ _ => apply bind_ext; [|intros ? ?]
     | |- tryCatch _ _ _ = tryCatch _ _ _ => apply tryCatch_ext; [|intros ? ?]
     | |- sendTelegramMessage _ _ _ = sendTelegramMessage _ _ _ => apply send_sink
     | |- (if ?b then _ else _) _ = _ => destruct b
     | |- (match ?x with _ => _ end) _ = _ => destruct x
     | |- _ => reflexivity
     end).

Lemma runAudit_sink s1 s2 env rq w :
  runAudit (withSink s1 env) rq w = runAudit (withSink s2 env) rq w.
Proof.
  autounfold with audit stages. autounfold with audit.
  unfold auditDynamicGate, auditPRGate. sink_ext.
Qed.

Lemma auditJob_sink s1 s2 env job w :
  auditJob (withSink s1 env) job w = auditJob (withSink s2 env) job w.
Proof.
  unfold auditJob.
  apply tryCatch_ext; [|reflexivity].
  apply bind_ext; [reflexivity|]. intros _ w1.
  apply tryCatch_ext; [|reflexivity].
  apply bind_ext; [apply runAudit_sink|reflexivity].
Qed.

Lemma runJobs_sink s1 s2 env jobs w :
  runJobs (withSink s1 env) jobs w = runJobs (withSink s2 env) jobs w.
Proof.
  revert w. induction jobs as [|job rest IH]; intro w; [reflexivity|].
  cbn [runJobs]. apply bind_ext; [apply auditJob_sink|]. intros _ w1. apply IH.
Qed.

Lemma serveAudit_sink s1 s2 env body w :
  serveAudit (withSink s1 env) body w = serveAudit (withSink s2 env) body w.
Proof.
  unfold serveAudit.
  apply bind_ext; [reflexivity|]. intros response w1.
  apply bind_ext; [|reflexivity].
  unfold runImmediates. apply runJobs_sink.
Qed.

(** Two environments that differ at most in the sink. *)
Lemma withSink_only (env1 env2 : Env) :
  config env1 = config env2 -> cwd env1 = cwd env2 ->
  clock env1 = clock env2 -> newTelegramBot env1 = newTelegramBot env2 ->
  gitClone env1 = gitClone env2 -> findSolFiles env1 = findSolFiles env2 ->
  slither env1 = slither env2 -> solhint env1 = solhint env2 ->
  patternChecks env1 = patternChecks env2 -> testnet env1 = testnet env2 ->
  fixGenerator env1 = fixGenerator env2 -> publisher env1 = publisher env2 ->
  mkdir env1 = mkdir env2 -> writeFile env1 = writeFile env2 ->
  env1 = withSink (botSendMessage env1) env2.
Proof.
  destruct env1, env2. cbn. intros. subst. reflexivity.
Qed.

(** On findings of the declared type a failure of the notification sink
    never reaches the run: sendTelegramMessage returns normally whatever
    bot.sendMessage does, so do the seven notify functions when the
    descriptions of the findings are strings, and two executions of the same
    request from the same state that differ only in the behaviour of the
    sink leave the same response, the same registry with the same status,
    result and error in every entry, the same arrays and the same report
    files. *)
Theorem notification_failure_never_affects_the_run :
  (forall env message w,
      outcome (sendTelegramMessage env message) w = Returns tt)
  /\ (forall env w repoUrl auditId contractCount findings topFindings
             deployed transactions n d prUrl fixesCount titles result error,
        outcome (notifyAuditStart env repoUrl auditId) w = Returns tt
        /\ outcome (notifyCloneComplete env repoUrl contractCount) w = Returns tt
        /\ outcome (notifyStaticAnalysisComplete env findings topFindings) w
           = Returns tt
        /\ outcome (notifyDynamicTestsComplete env deployed transactions n d) w
           = Returns tt
        /\ outcome (notifyPRCreated env prUrl fixesCount titles) w = Returns tt
        /\ outcome (notifyAuditComplete env result) w = Returns tt
        /\ outcome (notifyAuditError env repoUrl error) w = Returns tt)
  /\ (forall env sink1 sink2 request w,
        runAudit (withSink sink1 env) request w
        = runAudit (withSink sink2 env) request w)
  /\ (forall env sink1 sink2 body w,
        outcome (serveAudit (withSink sink1 env) body) w
        = outcome (serveAudit (withSink sink2 env) body) w
        /\ worldAfter (serveAudit (withSink sink1 env) body) w
           = worldAfter (serveAudit (withSink sink2 env) body) w
        /\ forall auditId,
             getAudit (worldAfter (serveAudit (withSink sink1 env) body) w) auditId
             = getAudit (worldAfter (serveAudit (withSink sink2 env) body) w) auditId).
Proof.
  assert (Hsend : forall env message w,
             outcome (sendTelegramMessage env message) w = Returns tt).
  { intros. unfold outcome. now rewrite sendTelegramMessage_eq. }
  split; [exact Hsend|].
  split.
  { intros. unfold notifyAuditStart, notifyCloneComplete,
      notifyStaticAnalysisComplete, notifyDynamicTestsComplete, notifyPRCreated,
      notifyAuditComplete, notifyAuditError.
    repeat split; apply Hsend. }
  split; [intros; apply runAudit_sink|].
  intros env sink1 sink2 body w. unfold outcome, worldAfter.
  rewrite (serveAudit_sink sink1 sink2). repeat split.
Qed.


(** ** The optional stages move the trace only *)

#[local] Instance sameStore_preorder : PreOrder sameStore.
Proof.
  split.
  - intro w. repeat split. exists []. now rewrite app_nil_r.
  - intros a b c (?&?&?&?&?&?&?&e1&Ht1) (?&?&?&?&?&?&?&e2&Ht2).
    repeat split; try congruence.
    exists (e1 ++ e2). rewrite Ht2, Ht1. now rewrite app_assoc.
Qed.

Lemma store_send env m : respects sameStore (sendTelegramMessage env m).
Proof.
  intro w. rewrite sendTelegramMessage_eq. cbn. repeat split. eexists. reflexivity.
Qed.

Lemma store_emit e : respects sameStore (emit e).
Proof. intro w. cbn. repeat split. eexists. reflexivity. Qed.

Lemma store_readArray r : respects sameStore (readArray r).
Proof. intro w. reflexivity. Qed.

Ltac store_frame :=
  repeat first
    [ progress intros
    | match goal with |- PreOrder _ => typeclasses eauto end
    | apply respects_ret | apply respects_throw | apply respects_settle
    | apply respects_bind
    | apply respects_tryCatch
    | apply store_send | apply store_emit | apply store_readArray
    | match goal with
      | |- respects _ (if ?b then _ else _) => destruct b
      | |- respects _ (match ?x with _ => _ end) => destruct x
      end ].

Lemma auditDynamicStage_store env rq p :
  respects sameStore (auditDynamicStage env rq p).
Proof. autounfold with stages audit. store_frame. Qed.

Lemma auditPRStage_store env rq p f t fx d i :
  respects sameStore (auditPRStage env rq p f t fx d i).
Proof. autounfold with stages audit. store_frame. Qed.


Lemma wp_readArray_at r l Q E w :
  arrays w !! r = Some l -> Q l w -> wp (readArray r) Q E w.
Proof. intros Hl HQ. apply wp_readArray. unfold deref. now rewrite Hl. Qed.

Lemma wp_sortInPlace_at cmp r l Q E w :
  arrays w !! r = Some l ->
  Q r (setArrays (<[r := Array_sort cmp l]> (arrays w)) w) ->
  wp (sortInPlace cmp r) Q E w.
Proof. intros Hl HQ. apply wp_sortInPlace. unfold deref. now rewrite Hl. Qed.

Lemma insert_snoc {A} (l : list A) (x y : A) :
  <[length l := y]> (l ++ [x]) = l ++ [y].
Proof.
  rewrite insert_app_r_alt by lia. rewrite Nat.sub_diag. reflexivity.
Qed.

(** Brings a read of the heap to the array that was stored there. *)
Ltac heap :=
  cbn;
  repeat match goal with
         | H : arrays _ = _ |- _ => rewrite H
         | H : files _ = _ |- _ => rewrite H
         end;
  repeat first
    [ rewrite insert_snoc
    | rewrite lookup_snoc_new
    | rewrite lookup_app_l by (rewrite ?length_app; cbn; lia)
    | rewrite lookup_insert_eq ].

(** Steps over an optional stage as a whole. *)
Ltac wp_stage :=
  lazymatch goal with
  | |- wp (auditDynamicStage _ _ _) _ _ _ =>
      eapply (wp_respects sameStore); [ apply auditDynamicStage_store | | ]
  | |- wp (auditPRStage _ _ _ _ _ _ _ _) _ _ _ =>
      eapply (wp_respects sameStore); [ apply auditPRStage_store | | ]
  end;
  (let w' := fresh "w'" in
   let Hticks := fresh "Hticks" in
   let Harrays := fresh "Harrays" in
   let Hfiles := fresh "Hfiles" in
   let Htrace := fresh "Htrace" in
   intros ? w' (Hticks & Harrays & _ & _ & _ & Hfiles & _ & ? & Htrace);
   cbn in Hticks, Harrays, Hfiles, Htrace);
  cbv beta zeta; cbn.

Ltac wp_heap :=
  lazymatch goal with
  | |- wp (readArray _) _ _ _ =>
      eapply wp_readArray_at; [heap; reflexivity|]
  | |- wp (sortInPlace _ _) _ _ _ =>
      eapply wp_sortInPlace_at; [heap; reflexivity|]; cbn; rewrite ?insert_snoc
  end;
  cbv beta zeta; cbn.

Ltac wp_run_stages :=
  autounfold with audit; repeat first [wp_stage | wp_heap | wp_step].

Lemma runAudit_success env rq w :
  wp (runAudit env rq)
    (fun r w' =>
       (ar_auditId r = auditIdOf (clock env (ticks w))
        /\ ar_repoUrl r = rq_repoUrl rq)
       /\ (ar_success r = true ->
       exists localPath commit a b c rep,
         gitClone env (rq_repoUrl rq) (optStrOr (rq_branch rq) "main")
         = Returns (localPath, commit)
         /\ slither env localPath = Returns a
         /\ solhint env localPath = Returns b
         /\ patternChecks env localPath = Returns c
         /\ deref w' (ar_findings r) = Array_sort byPriorityDesc (a ++ b ++ c)
         /\ ar_summary r = summarize (a ++ b ++ c)
         /\ ar_error r = None
         /\ files w' !! reportPath env (ar_auditId r) = Some (AuditReportJson rep)
         /\ rp_auditId rep = ar_auditId r
         /\ rp_findings rep = Array_sort byPriorityDesc (a ++ b ++ c)
         /\ rp_summary rep = ar_summary r))
    (fun _ _ => False) w.
Proof.
  wp_run_stages.
  all: split; [split; reflexivity|].
  all: intros Hok; try discriminate Hok.
  destruct a as [localPath commit]. cbn in *.
  do 5 eexists. eexists.
  split; [reflexivity|].
  do 3 (split; [eassumption|]).
  unfold deref, reportPath. heap.
  repeat split.
Qed.

(** ** The start handler and its background job *)

Lemma wp_call {A} (m : M A) (Q : A -> World -> Prop) E w :
  (forall a w', m w = (Returns a, w') -> Q a w') ->
  (forall e w', m w = (Throws e, w') -> E e w') ->
  wp m Q E w.
Proof. unfold wp. destruct (m w) as [[a|e] w']; auto. Qed.

Lemma alter_snoc {A} (f : A -> A) (l : list A) (x : A) :
  alter f (length l) (l ++ [x]) = l ++ [f x].
Proof.
  induction l as [|y l IH]; [reflexivity|]. cbn. now rewrite IH.
Qed.

Lemma runAudit_pair env rq w :
  exists r w', runAudit env rq w = (Returns r, w') /\ sameRegistry w w'.
Proof.
  pose proof (runAudit_returns env rq w) as Hr.
  pose proof (runAudit_registry env rq w) as Hf.
  unfold wp in Hr. destruct (runAudit env rq w) as [[r|e] w']; [|contradiction].
  exists r, w'. split; [reflexivity|exact Hf].
Qed.

(** The background job, given what runAudit returned. *)
Lemma auditJob_eq env job w r w2 :
  runAudit env
    (mkAuditRequest (im_repoUrl job) (Some (im_branch job))
       (Some (im_runDynamicTests job)) (Some (im_createPullRequest job)))
    (setObjects (alter markRunning (im_audit job) (objects w)) w)
  = (Returns r, w2) ->
  auditJob env job w
  = (Returns tt,
     setObjects
       (alter (markCompleted (clock env (ticks w2)) r) (im_audit job) (objects w2))
       (setTicks (S (ticks w2)) w2)).
Proof.
  intro Hrun. unfold auditJob, tryCatch, bind, updateObject.
  rewrite Hrun. reflexivity.
Qed.

(** The start handler, for a body that carries a repository URL. *)
Lemma startAudit_eq env body w repoUrl :
  b_repoUrl body = Some repoUrl ->
  String.eqb repoUrl "" = false ->
  startAudit env body w
  = (Returns (ResponseQueued (auditIdOf (clock env (ticks w)))),
     setImmediates
       (immediates w
        ++ [mkImmediate (length (objects w)) (auditIdOf (clock env (ticks w)))
              repoUrl (default "main" (b_branch body))
              (default true (b_runDynamicTests body))
              (default true (b_createPullRequest body))])
       (setAudits
          (<[auditIdOf (clock env (ticks w)) := length (objects w)]> (audits w))
          (setObjects
             (objects w
              ++ [mkAuditStatus (auditIdOf (clock env (ticks w))) repoUrl
                    (default "main" (b_branch body)) queued None
                    (clock env (S (ticks w))) None None None])
             (setTicks (S (S (ticks w))) w)))).
Proof.
  intros Hurl Hne. unfold startAudit. rewrite Hurl. simpl.
  rewrite Hne. reflexivity.
Qed.

Lemma serveAudit_spec env body w repoUrl :
  immediates w = [] ->
  b_repoUrl body = Some repoUrl ->
  String.eqb repoUrl "" = false ->
  exists w1 r w2 a,
    runAudit env
      (mkAuditRequest repoUrl (Some (default "main" (b_branch body)))
         (Some (default true (b_runDynamicTests body)))
         (Some (default true (b_createPullRequest body)))) w1
    = (Returns r, w2)
    /\ (ticks w1 = S (S (ticks w)) /\ arrays w1 = arrays w
        /\ files w1 = files w /\ trace w1 = trace w /\ bot w1 = bot w)
    /\ outcome (serveAudit env body) w
       = Returns (ResponseQueued (auditIdOf (clock env (ticks w))))
    /\ getAudit (worldAfter (serveAudit env body) w)
         (auditIdOf (clock env (ticks w))) = Some a
    /\ (as_id a = auditIdOf (clock env (ticks w))
        /\ as_status a = completed /\ as_error a = None
        /\ as_result a = Some r)
    /\ (arrays (worldAfter (serveAudit env body) w) = arrays w2
        /\ files (worldAfter (serveAudit env body) w) = files w2
        /\ trace (worldAfter (serveAudit env body) w) = trace w2).
Proof.
  intros Him Hurl Hne.
  pose proof (startAudit_eq env body w repoUrl Hurl Hne) as Hstart.
  rewrite Him in Hstart. cbn [app] in Hstart.
  match type of Hstart with
  | _ = (_, setImmediates [?j] ?ws) =>
      set (job := j) in *; set (w0 := setImmediates [] (setImmediates [job] ws))
  end.
  destruct (runAudit_pair env
              (mkAuditRequest (im_repoUrl job) (Some (im_branch job))
                 (Some (im_runDynamicTests job)) (Some (im_createPullRequest job)))
              (setObjects (alter markRunning (im_audit job) (objects w0)) w0))
    as (r & w2 & Hrun & Ho & Ha & _ & _).
  pose proof (auditJob_eq env job w0 r w2 Hrun) as Hjob.
  assert (Hserve :
    serveAudit env body w
    = (Returns (ResponseQueued (auditIdOf (clock env (ticks w)))),
       setObjects
         (alter (markCompleted (clock env (ticks w2)) r) (im_audit job) (objects w2))
         (setTicks (S (ticks w2)) w2))).
  { unfold serveAudit, bind. rewrite Hstart. unfold runImmediates.
    cbn [immediates setImmediates]. fold w0. cbn [runJobs]. unfold bind.
    rewrite Hjob. reflexivity. }
  unfold outcome, worldAfter. rewrite Hserve. cbn [fst snd].
  cbn in Ho, Ha. rewrite alter_snoc in Ho.
  eexists _, r, w2, _.
  split; [exact Hrun|].
  split; [repeat split|].
  split; [reflexivity|].
  split.
  { unfold getAudit. cbn. rewrite Ha, Ho. rewrite lookup_insert_eq. cbn.
    rewrite alter_snoc. apply lookup_snoc_new. }
  split; repeat split.
Qed.

(** ** A hard stage fails *)

Lemma newEvents_app (w w' : World) (events : list Event) :
  trace w' = trace w ++ events -> newEvents w w' = events.
Proof. intro H. unfold newEvents. rewrite H. apply drop_app_length. Qed.

Lemma runAudit_clone_failure env rq w msg :
  gitClone env (rq_repoUrl rq) (optStrOr (rq_branch rq) "main") = Throws msg ->
  wp (runAudit env rq)
    (fun r w' =>
       ar_success r = false
       /\ ar_error r = Some ("Clone failed: " +:+ msg)
       /\ deref w' (ar_findings r) = []
       /\ ar_summary r = emptySummary
       /\ exists events,
            trace w' = trace w ++ events
            /\ Forall (fun e => laterStage e = false) events)
    (fun _ _ => False) w.
Proof.
  intro Hclone. wp_run_stages.
  repeat split.
  - unfold deref. heap. reflexivity.
  - eexists. split; [rewrite <- !app_assoc; reflexivity|].
    repeat (apply Forall_app; split);
      first [ apply sendEvents_Forall; reflexivity
            | repeat constructor ].
Qed.

Lemma runAudit_validation_failure env rq w localPath commit :
  gitClone env (rq_repoUrl rq) (optStrOr (rq_branch rq) "main")
  = Returns (localPath, commit) ->
  findSolFiles env localPath = Returns []
  \/ (exists msg, findSolFiles env localPath = Throws msg) ->
  wp (runAudit env rq)
    (fun r w' =>
       ar_success r = false
       /\ (exists msg, ar_error r = Some ("No Solidity contracts found: " +:+ msg))
       /\ deref w' (ar_findings r) = []
       /\ ar_summary r = emptySummary
       /\ exists events,
            trace w' = trace w ++ events
            /\ Forall (fun e => laterStage e = false) events)
    (fun _ _ => False) w.
Proof.
  intros Hclone [Hnone|[msg Hthrow]]; wp_run_stages.
  all: repeat split; try (eexists; reflexivity).
  all: try (unfold deref; heap; reflexivity).
  all: eexists; split; [rewrite <- !app_assoc; reflexivity|].
  all: repeat (apply Forall_app; split);
      first [ apply sendEvents_Forall; reflexivity
            | repeat constructor ].
Qed.

(** ** Only the dynamic-testing stage fails *)

Lemma runAudit_dynamic_failure env rq w localPath commit contractFiles a b c msg :
  gitClone env (rq_repoUrl rq) (optStrOr (rq_branch rq) "main")
  = Returns (localPath, commit) ->
  findSolFiles env localPath = Returns contractFiles ->
  (length contractFiles =? 0)%nat = false ->
  slither env localPath = Returns a ->
  solhint env localPath = Returns b ->
  patternChecks env localPath = Returns c ->
  auditDynamicGate env rq = true ->
  testnet env localPath = Throws msg ->
  (forall fs p, returnsNormally (fixGenerator env fs p)) ->
  (forall input, returnsNormally (publisher env input)) ->
  (forall dir, returnsNormally (mkdir env dir)) ->
  (forall path, returnsNormally (writeFile env path)) ->
  wp (runAudit env rq)
    (fun r w' =>
       ar_success r = true
       /\ ar_error r = None
       /\ ar_dynamicTestResult r
          = Some (mkDynamicTestResult false (mkDynamicSummary 0 0 0 0 0) (Some msg))
       /\ ar_summary r = summarize (a ++ b ++ c)
       /\ s_total (ar_summary r) = length (deref w' (ar_findings r)))
    (fun _ _ => False) w.
Proof.
  intros Hclone Hfiles Hlen Ha Hb Hc Hgate Htest Hfix Hpub Hmkdir Hwrite.
  autounfold with audit stages. autounfold with audit.
  repeat first [wp_heap | wp_step].
  all: try match goal with
         | Heq : fixGenerator _ ?fs ?p = Throws _ |- _ =>
             specialize (Hfix fs p); rewrite Heq in Hfix; destruct Hfix
         | Heq : publisher _ ?i = Throws _ |- _ =>
             specialize (Hpub i); rewrite Heq in Hpub; destruct Hpub
         | Heq : mkdir _ ?d = Throws _ |- _ =>
             specialize (Hmkdir d); rewrite Heq in Hmkdir; destruct Hmkdir
         | Heq : writeFile _ ?p = Throws _ |- _ =>
             specialize (Hwrite p); rewrite Heq in Hwrite; destruct Hwrite
         end.
  all: repeat split.
  all: unfold deref; heap; cbn.
  all: rewrite Array_sort_length; reflexivity.
Qed.

(** ** The registry entry of a run whose clone stage fails *)

(** C1. A run whose clone stage fails executes no later stage and its
    AuditResult carries [success = false] and the message of the clone stage;
    the registry entry of the run nevertheless ends with status completed
    and without an error, because the start handler stores whatever runAudit
    returns as a completed run. *)
Theorem clone_failure_is_stored_as_completed env body w repoUrl msg :
  immediates w = [] ->
  b_repoUrl body = Some repoUrl ->
  String.eqb repoUrl "" = false ->
  gitClone env repoUrl (strOr (default "main" (b_branch body)) "main")
  = Throws msg ->
  exists a r,
    getAudit (worldAfter (serveAudit env body) w)
      (auditIdOf (clock env (ticks w))) = Some a
    /\ as_status a = completed
    /\ as_error a = None
    /\ as_result a = Some r
    /\ ar_success r = false
    /\ ar_error r = Some ("Clone failed: " +:+ msg)
    /\ Forall (fun e => laterStage e = false)
         (newEvents w (worldAfter (serveAudit env body) w)).
Proof.
  intros Him Hurl Hne Hclone.
  destruct (serveAudit_spec env body w repoUrl Him Hurl Hne)
    as (w1 & r & w2 & a & Hrun & (_ & _ & _ & Htr1 & _) & _ & Hget
        & (_ & Hst & Herr & Hres) & (_ & _ & Htr2)).
  match type of Hrun with
  | runAudit _ ?rq _ = _ =>
      pose proof (wp_returns _ _ _ _ _ _
                    (runAudit_clone_failure env rq w1 msg Hclone) Hrun)
        as (Hfail & Hmsg & _ & _ & events & Hev & Hall)
  end.
  exists a, r. repeat (split; [assumption|]).
  rewrite (newEvents_app w _ events); [exact Hall|].
  now rewrite Htr2, Hev, Htr1.
Qed.

(** Witness for C1: the repository cannot be cloned. *)
Lemma clone_failure_is_stored_as_completed_witness :
  exists a r,
    getAudit (worldAfter (serveAudit cloneFailEnv demoBody) startedWorld)
      (auditIdOf (clock cloneFailEnv (ticks startedWorld))) = Some a
    /\ as_status a = completed
    /\ as_error a = None
    /\ as_result a = Some r
    /\ ar_success r = false
    /\ ar_error r = Some ("Clone failed: " +:+ "Repository not found")
    /\ Forall (fun e => laterStage e = false)
         (newEvents startedWorld
            (worldAfter (serveAudit cloneFailEnv demoBody) startedWorld)).
Proof.
  apply (clone_failure_is_stored_as_completed cloneFailEnv demoBody startedWorld
           "https://github.com/acme/vault" "Repository not found");
    reflexivity.
Defined.

(** The same for a repository without Solidity files. *)
Lemma validation_failure_is_stored_as_completed env body w repoUrl localPath commit :
  immediates w = [] ->
  b_repoUrl body = Some repoUrl ->
  String.eqb repoUrl "" = false ->
  gitClone env repoUrl (strOr (default "main" (b_branch body)) "main")
  = Returns (localPath, commit) ->
  findSolFiles env localPath = Returns []
  \/ (exists msg, findSolFiles env localPath = Throws msg) ->
  exists a r,
    getAudit (worldAfter (serveAudit env body) w)
      (auditIdOf (clock env (ticks w))) = Some a
    /\ as_status a = completed
    /\ as_error a = None
    /\ as_result a = Some r
    /\ ar_success r = false
    /\ (exists msg, ar_error r = Some ("No Solidity contracts found: " +:+ msg))
    /\ Forall (fun e => laterStage e = false)
         (newEvents w (worldAfter (serveAudit env body) w)).
Proof.
  intros Him Hurl Hne Hclone Hval.
  destruct (serveAudit_spec env body w repoUrl Him Hurl Hne)
    as (w1 & r & w2 & a & Hrun & (_ & _ & _ & Htr1 & _) & _ & Hget
        & (_ & Hst & Herr & Hres) & (_ & _ & Htr2)).
  match type of Hrun with
  | runAudit _ ?rq _ = _ =>
      pose proof (wp_returns _ _ _ _ _ _
                    (runAudit_validation_failure env rq w1 localPath commit
                       Hclone Hval) Hrun)
        as (Hfail & Hmsg & _ & _ & events & Hev & Hall)
  end.
  exists a, r. repeat (split; [assumption|]).
  rewrite (newEvents_app w _ events); [exact Hall|].
  now rewrite Htr2, Hev, Htr1.
Qed.

(** The failed branch of the start handler is never taken. *)
Lemma every_run_is_stored_as_completed env body w repoUrl :
  immediates w = [] ->
  b_repoUrl body = Some repoUrl ->
  String.eqb repoUrl "" = false ->
  exists a,
    getAudit (worldAfter (serveAudit env body) w)
      (auditIdOf (clock env (ticks w))) = Some a
    /\ as_status a = completed /\ as_error a = None.
Proof.
  intros Him Hurl Hne.
  destruct (serveAudit_spec env body w repoUrl Him Hurl Hne)
    as (w1 & r & w2 & a & _ & _ & _ & Hget & (_ & Hst & Herr & _) & _).
  exists a. auto.
Qed.

(** ** The registry entry of a run whose dynamic tests fail *)

(** C2. When the clone, validation and static-analysis stages succeed, the
    later collaborators return, and only the dynamic tests fail, the run
    ends with status completed and no error, the failure of the dynamic
    tests is recorded in the result (with its message), and the summary of
    the static findings is present. *)
Theorem dynamic_failure_still_completes
    env body w repoUrl localPath commit contractFiles a b c msg :
  immediates w = [] ->
  b_repoUrl body = Some repoUrl ->
  String.eqb repoUrl "" = false ->
  gitClone env repoUrl (strOr (default "main" (b_branch body)) "main")
  = Returns (localPath, commit) ->
  findSolFiles env localPath = Returns contractFiles ->
  (length contractFiles =? 0)%nat = false ->
  slither env localPath = Returns a ->
  solhint env localPath = Returns b ->
  patternChecks env localPath = Returns c ->
  default true (b_runDynamicTests body) = true ->
  enableDynamicTesting (config env) = true ->
  testnet env localPath = Throws msg ->
  (forall fs p, returnsNormally (fixGenerator env fs p)) ->
  (forall input, returnsNormally (publisher env input)) ->
  (forall dir, returnsNormally (mkdir env dir)) ->
  (forall path, returnsNormally (writeFile env path)) ->
  exists st r d,
    getAudit (worldAfter (serveAudit env body) w)
      (auditIdOf (clock env (ticks w))) = Some st
    /\ as_status st = completed
    /\ as_error st = None
    /\ as_result st = Some r
    /\ ar_success r = true
    /\ ar_error r = None
    /\ ar_dynamicTestResult r = Some d
    /\ dt_success d = false
    /\ dt_error d = Some msg
    /\ ar_summary r = summarize (a ++ b ++ c)
    /\ s_total (ar_summary r)
       = length (deref (worldAfter (serveAudit env body) w) (ar_findings r)).
Proof.
  intros Him Hurl Hne Hclone Hfiles Hlen Ha Hb Hc Hflag Hcfg Htest
    Hfix Hpub Hmkdir Hwrite.
  destruct (serveAudit_spec env body w repoUrl Him Hurl Hne)
    as (w1 & r & w2 & st & Hrun & _ & _ & Hget
        & (_ & Hst & Herr & Hres) & (Harr & _ & _)).
  assert (Hgate :
    auditDynamicGate env
      (mkAuditRequest repoUrl (Some (default "main" (b_branch body)))
         (Some (default true (b_runDynamicTests body)))
         (Some (default true (b_createPullRequest body)))) = true).
  { unfold auditDynamicGate, flagSet. cbn. now rewrite Hflag, Hcfg. }
  match type of Hrun with
  | runAudit _ ?rq _ = _ =>
      pose proof (wp_returns _ _ _ _ _ _
                    (runAudit_dynamic_failure env rq w1 localPath commit
                       contractFiles a b c msg Hclone Hfiles Hlen Ha Hb Hc
                       Hgate Htest Hfix Hpub Hmkdir Hwrite) Hrun)
        as (Hok & Hnone & Hdyn & Hsum & Htot)
  end.
  exists st, r, (mkDynamicTestResult false (mkDynamicSummary 0 0 0 0 0) (Some msg)).
  repeat (split; [assumption || reflexivity|]).
  unfold deref in *. now rewrite Harr.
Qed.

(** Witness for C2: the test network cannot be reached. *)
Lemma dynamic_failure_still_completes_witness :
  exists st r d,
    getAudit (worldAfter (serveAudit demoEnv demoBody) startedWorld)
      (auditIdOf (clock demoEnv (ticks startedWorld))) = Some st
    /\ as_status st = completed
    /\ as_error st = None
    /\ as_result st = Some r
    /\ ar_success r = true
    /\ ar_error r = None
    /\ ar_dynamicTestResult r = Some d
    /\ dt_success d = false
    /\ dt_error d = Some "No working RPC URLs found"
    /\ ar_summary r = summarize ([] ++ [lowFinding] ++ [highFinding1; highFinding2])
    /\ s_total (ar_summary r)
       = length (deref (worldAfter (serveAudit demoEnv demoBody) startedWorld)
                   (ar_findings r)).
Proof.
  apply (dynamic_failure_still_completes demoEnv demoBody startedWorld
           "https://github.com/acme/vault" demoPath "4f2a9c1"
           ["contracts/Vault.sol"; "contracts/Proxy.sol"]);
    first [ reflexivity | intros; exact I ].
Defined.

(** ** The ids of a run *)

Lemma auditIdOf_inj (t1 t2 : Z) : auditIdOf t1 = auditIdOf t2 <-> t1 = t2.
Proof.
  split; [|now intros ->].
  unfold auditIdOf. cbn [String.append]. intros [= H].
  now apply pretty_Z_inj in H.
Qed.

(** C9 as stated fails on two counts.  In the example run the start handler
    answers and stores the run under audit-1000 while the AuditResult stored
    in that entry, and the report directory, carry audit-1002.  And two
    requests accepted while the clock shows the same millisecond are both
    answered with audit-1000. *)
Lemma run_id_is_neither_single_nor_unique :
  (outcome (serveAudit demoEnv demoBody) startedWorld
   = Returns (ResponseQueued "audit-1000")
   /\ (a ← getAudit (worldAfter (serveAudit demoEnv demoBody) startedWorld)
               "audit-1000";
       r ← as_result a;
       Some (as_id a, ar_auditId r)) = Some ("audit-1000", "audit-1002")
   /\ map fst (map_to_list
                 (files (worldAfter (serveAudit demoEnv demoBody) startedWorld)))
      = ["/app/memory/audit-1002/audit-report.json"]
   /\ ~ registryKeyIsResultId demoEnv demoBody startedWorld)
  /\ (outcome (startAudit frozenClockEnv demoBody) startedWorld
      = Returns (ResponseQueued "audit-1000")
      /\ outcome (startAudit frozenClockEnv otherBody)
           (worldAfter (startAudit frozenClockEnv demoBody) startedWorld)
         = Returns (ResponseQueued "audit-1000")
      /\ ~ acceptedIdsDiffer frozenClockEnv demoBody otherBody startedWorld).
Proof.
  split.
  - split; [vm_compute; reflexivity|].
    split; [vm_compute; reflexivity|].
    split; [vm_compute; reflexivity|].
    intro H.
    specialize (H "audit-1000").
    destruct (getAudit (worldAfter (serveAudit demoEnv demoBody) startedWorld)
                "audit-1000") as [a|] eqn:Hget; [|vm_compute in Hget; discriminate].
    destruct (as_result a) as [r|] eqn:Hres.
    + specialize (H a r eq_refl eq_refl Hres).
      vm_compute in Hget. injection Hget as <-. vm_compute in Hres.
      injection Hres as <-. vm_compute in H. discriminate.
    + vm_compute in Hget. injection Hget as <-. vm_compute in Hres. discriminate.
  - split; [vm_compute; reflexivity|].
    split; [vm_compute; reflexivity|].
    intro H. apply (H "audit-1000" "audit-1000"); reflexivity.
Qed.

(** C9, amended. Ids are made from the clock: two ids are equal exactly when
    the clock readings they are made from are equal.  runAudit makes its id
    from the first clock reading it takes; the id inside the AuditResult it
    returns and, when the run succeeds, the directory and the content of the
    persisted report carry that id.  The start handler stores the run under
    an id it makes from its own clock reading at acceptance, and the
    AuditResult stored in that entry carries the id runAudit made two
    readings later: the two are equal exactly when these two readings are. *)
Theorem run_ids_are_made_from_the_clock :
  (forall t1 t2, auditIdOf t1 = auditIdOf t2 <-> t1 = t2)
  /\ (forall env rq w,
        exists r,
          outcome (runAudit env rq) w = Returns r
          /\ ar_auditId r = auditIdOf (clock env (ticks w))
          /\ (ar_success r = true ->
              exists rep,
                files (worldAfter (runAudit env rq) w)
                  !! reportPath env (ar_auditId r) = Some (AuditReportJson rep)
                /\ rp_auditId rep = ar_auditId r))
  /\ (forall env body w repoUrl,
        immediates w = [] ->
        b_repoUrl body = Some repoUrl ->
        String.eqb repoUrl "" = false ->
        exists a r,
          outcome (serveAudit env body) w
          = Returns (ResponseQueued (auditIdOf (clock env (ticks w))))
          /\ getAudit (worldAfter (serveAudit env body) w)
               (auditIdOf (clock env (ticks w))) = Some a
          /\ as_id a = auditIdOf (clock env (ticks w))
          /\ as_result a = Some r
          /\ ar_auditId r = auditIdOf (clock env (S (S (ticks w))))
          /\ (ar_success r = true ->
              exists rep,
                files (worldAfter (serveAudit env body) w)
                  !! reportPath env (ar_auditId r) = Some (AuditReportJson rep)
                /\ rp_auditId rep = ar_auditId r)
          /\ (as_id a = ar_auditId r
              <-> clock env (ticks w) = clock env (S (S (ticks w))))).
Proof.
  split; [exact auditIdOf_inj|]. split.
  - intros env rq w.
    apply (wp_total _
             (fun r w' =>
                ar_auditId r = auditIdOf (clock env (ticks w))
                /\ (ar_success r = true ->
                    exists rep,
                      files w' !! reportPath env (ar_auditId r)
                      = Some (AuditReportJson rep)
                      /\ rp_auditId rep = ar_auditId r))).
    eapply wp_mono; [apply runAudit_success| |auto].
    intros r w' [[Hid _] Hok]. split; [exact Hid|].
    intro Hs. destruct (Hok Hs)
      as (_ & _ & _ & _ & _ & rep & _ & _ & _ & _ & _ & _ & _ & Hf & Hr & _).
    exists rep. auto.
  - intros env body w repoUrl Him Hurl Hne.
    destruct (serveAudit_spec env body w repoUrl Him Hurl Hne)
      as (w1 & r & w2 & a & Hrun & (Ht1 & _) & Hout & Hget
          & (Hid & _ & _ & Hres) & (_ & Hf2 & _)).
    match type of Hrun with
    | runAudit _ ?rq _ = _ =>
        pose proof (wp_returns _ _ _ _ _ _ (runAudit_success env rq w1) Hrun)
          as [[Hrid _] Hok]
    end.
    rewrite Ht1 in Hrid.
    exists a, r. repeat (split; [assumption|]). split.
    + intro Hs. destruct (Hok Hs)
        as (_ & _ & _ & _ & _ & rep & _ & _ & _ & _ & _ & _ & _ & Hf & Hr & _).
      exists rep. now rewrite Hf2.
    + rewrite Hid, Hrid. apply auditIdOf_inj.
Qed.

(** Witness for C9: one accepted request in the example environment. *)
Lemma run_ids_are_made_from_the_clock_witness :
  exists a r,
    outcome (serveAudit demoEnv demoBody) startedWorld
    = Returns (ResponseQueued (auditIdOf (clock demoEnv (ticks startedWorld))))
    /\ getAudit (worldAfter (serveAudit demoEnv demoBody) startedWorld)
         (auditIdOf (clock demoEnv (ticks startedWorld))) = Some a
    /\ as_id a = auditIdOf (clock demoEnv (ticks startedWorld))
    /\ as_result a = Some r
    /\ ar_auditId r = auditIdOf (clock demoEnv (S (S (ticks startedWorld))))
    /\ (ar_success r = true ->
        exists rep,
          files (worldAfter (serveAudit demoEnv demoBody) startedWorld)
            !! reportPath demoEnv (ar_auditId r) = Some (AuditReportJson rep)
          /\ rp_auditId rep = ar_auditId r)
    /\ (as_id a = ar_auditId r
        <-> clock demoEnv (ticks startedWorld)
            = clock demoEnv (S (S (ticks startedWorld)))).
Proof.
  apply (proj2 (proj2 run_ids_are_made_from_the_clock) demoEnv demoBody
           startedWorld "https://github.com/acme/vault");
    reflexivity.
Defined.

(** ** The findings array after the sort *)

(** The two lines of runAudit that make the top-5 subset: the array is
    sorted where it is, and the subset is [topK 5] of what it held. *)
Lemma top5_sorts_the_array_itself (w : World) (r : ArrayRef) (l : list Finding) :
  arrays w !! r = Some l ->
  wp (sorted <- sortInPlace byPriorityDesc r ;; sliceArray 5 sorted)
    (fun top w' =>
       deref w' top = topK 5 l
       /\ deref w' r = Array_sort byPriorityDesc l)
    (fun _ _ => False) w.
Proof.
  intro Hl. unfold sliceArray.
  apply wp_bind. eapply wp_sortInPlace_at; [exact Hl|]. cbv beta.
  apply wp_bind. apply wp_readArray. apply wp_newArray.
  assert (Hr : (r < length (arrays w))%nat) by (eapply lookup_lt_Some; eauto).
  unfold deref. cbn.
  rewrite lookup_snoc_new, list_lookup_insert_eq by exact Hr. cbn.
  rewrite lookup_app_l by (rewrite length_insert; exact Hr).
  rewrite list_lookup_insert_eq by exact Hr. split; reflexivity.
Qed.

(** The sort that prepares the top-5 subset sorts the findings array of
    the static result itself.  When the analyzers answer with findings of
    the declared type, then in every successful run the array behind the
    [findings] of the returned AuditResult, and the findings written to the
    persisted report, are the analyzers' outputs (Slither, Solhint, pattern
    checks, concatenated in that order) sorted by descending priority, a
    permutation of that concatenation. *)
Theorem runAudit_returns_the_findings_sorted env rq w r :
  outcome (runAudit env rq) w = Returns r ->
  ar_success r = true ->
  exists localPath commit a b c rep,
    gitClone env (rq_repoUrl rq) (optStrOr (rq_branch rq) "main")
    = Returns (localPath, commit)
    /\ slither env localPath = Returns a
    /\ solhint env localPath = Returns b
    /\ patternChecks env localPath = Returns c
    /\ deref (worldAfter (runAudit env rq) w) (ar_findings r)
       = Array_sort byPriorityDesc (a ++ b ++ c)
    /\ Permutation (deref (worldAfter (runAudit env rq) w) (ar_findings r))
         (a ++ b ++ c)
    /\ StronglySorted scoreGe
         (deref (worldAfter (runAudit env rq) w) (ar_findings r))
    /\ files (worldAfter (runAudit env rq) w) !! reportPath env (ar_auditId r)
       = Some (AuditReportJson rep)
    /\ rp_findings rep
       = deref (worldAfter (runAudit env rq) w) (ar_findings r).
Proof.
  unfold outcome, worldAfter. intros Hout Hok.
  destruct (runAudit env rq w) as [c0 w'] eqn:Hrun. cbn in Hout. subst c0.
  pose proof (wp_returns _ _ _ _ _ _ (runAudit_success env rq w) Hrun)
    as [_ Hs].
  destruct (Hs Hok)
    as (localPath & commit & a & b & c & rep & Hclone & Ha & Hb & Hc & Hd
        & _ & _ & Hf & _ & Hr & _).
  exists localPath, commit, a, b, c, rep. cbn [snd].
  repeat (split; [assumption|]).
  rewrite Hd. split; [apply Array_sort_Permutation|].
  split; [apply Array_sort_sorted|]. split; assumption.
Qed.

(** In the example run the analyzers report a low finding before two high
    ones, and the returned array holds the high ones first. *)
Lemma runAudit_returns_the_findings_sorted_witness :
  (exists localPath commit a b c rep,
      gitClone demoEnv (rq_repoUrl demoRequest)
        (optStrOr (rq_branch demoRequest) "main") = Returns (localPath, commit)
      /\ slither demoEnv localPath = Returns a
      /\ solhint demoEnv localPath = Returns b
      /\ patternChecks demoEnv localPath = Returns c
      /\ deref (worldAfter (runAudit demoEnv demoRequest) startedWorld)
           (ar_findings demoResult)
         = Array_sort byPriorityDesc (a ++ b ++ c)
      /\ Permutation
           (deref (worldAfter (runAudit demoEnv demoRequest) startedWorld)
              (ar_findings demoResult))
           (a ++ b ++ c)
      /\ StronglySorted scoreGe
           (deref (worldAfter (runAudit demoEnv demoRequest) startedWorld)
              (ar_findings demoResult))
      /\ files (worldAfter (runAudit demoEnv demoRequest) startedWorld)
           !! reportPath demoEnv (ar_auditId demoResult)
         = Some (AuditReportJson rep)
      /\ rp_findings rep
         = deref (worldAfter (runAudit demoEnv demoRequest) startedWorld)
             (ar_findings demoResult))
  /\ deref (worldAfter (runAudit demoEnv demoRequest) startedWorld)
       (ar_findings demoResult)
     = [highFinding1; highFinding2; lowFinding]
  /\ [] ++ [lowFinding] ++ [highFinding1; highFinding2]
     <> [highFinding1; highFinding2; lowFinding].
Proof.
  split; [|split].
  - apply (runAudit_returns_the_findings_sorted demoEnv demoRequest startedWorld
             demoResult); vm_compute; reflexivity.
  - vm_compute. reflexivity.
  - discriminate.
Defined.

(** ** Gating of the optional stages *)

(** In executeAuditTool an optional stage runs only when its gate, the
    feature flag together with the credentials, is open; with a closed gate
    the stage is left out and the tool goes on to its result. *)
Lemma executeAuditTool_gating env repoUrl branch w :
  wp (executeAuditTool env repoUrl branch)
    (fun _ w' =>
       exists events,
         trace w' = trace w ++ events
         /\ (toolDynamicGate env = false ->
             Forall (fun e => isDynamicTests e = false) events)
         /\ (toolPRGate env = false ->
             Forall (fun e => isCreatePR e = false) events))
    (fun _ _ => False) w.
Proof.
  wp_run_stages.
  all: eexists; split; [rewrite <- ?app_assoc; reflexivity|].
  all: split; intro Hgate; try congruence.
  all: repeat constructor.
Qed.

Lemma toolDynamicGate_true env :
  toolDynamicGate env = true
  <-> enableDynamicTesting (config env) = true
      /\ testnetPrivateKey (config env) <> ""
      /\ rpcUrls (config env) <> [].
Proof.
  unfold toolDynamicGate. rewrite !andb_true_iff, negb_true_iff.
  rewrite String.eqb_neq, Nat.ltb_lt.
  destruct (rpcUrls (config env)); cbn; intuition (try lia; try congruence).
Qed.

Lemma toolPRGate_true env :
  toolPRGate env = true
  <-> enableAutoPR (config env) = true /\ githubToken (config env) <> "".
Proof.
  unfold toolPRGate. rewrite andb_true_iff, negb_true_iff, String.eqb_neq.
  tauto.
Qed.

(** In runAudit the gate of an optional stage is the flag of the request
    together with the feature flag; the credentials are not looked at. *)
Lemma runAudit_gating env rq w :
  wp (runAudit env rq)
    (fun _ w' =>
       exists events,
         trace w' = trace w ++ events
         /\ (auditDynamicGate env rq = false ->
             Forall (fun e => isDynamicTests e = false) events)
         /\ (auditPRGate env rq = false ->
             Forall (fun e => isCreatePR e = false) events))
    (fun _ _ => False) w.
Proof.
  autounfold with audit stages. autounfold with audit.
  repeat first [wp_heap | wp_step].
  all: eexists; split; [rewrite <- ?app_assoc; reflexivity|].
  all: split; intro Hgate; try congruence.
  all: repeat (apply Forall_app; split);
      first [ apply sendEvents_Forall; reflexivity
            | repeat constructor ].
Qed.

(** C3. With both feature flags on and no credential configured (no testnet
    key, no RPC URL, no GitHub token), a request that asks for both optional
    stages makes runAudit execute the dynamic tests and the pull-request
    creation; the dynamic tests are then recorded as a failed result, not
    left out.  executeAuditTool, in the same configuration, executes
    neither. *)
Theorem runAudit_runs_optional_stages_without_credentials :
  (enableDynamicTesting (config demoEnv) = true
   /\ enableAutoPR (config demoEnv) = true
   /\ testnetPrivateKey (config demoEnv) = ""
   /\ rpcUrls (config demoEnv) = []
   /\ githubToken (config demoEnv) = "")
  /\ (In (EvDynamicTests demoPath)
        (trace (worldAfter (runAudit demoEnv demoRequest) startedWorld))
      /\ In (EvCreatePR (ar_auditId demoResult))
           (trace (worldAfter (runAudit demoEnv demoRequest) startedWorld))
      /\ outcome (runAudit demoEnv demoRequest) startedWorld = Returns demoResult
      /\ ar_dynamicTestResult demoResult
         = Some (mkDynamicTestResult false (mkDynamicSummary 0 0 0 0 0)
                   (Some "No working RPC URLs found")))
  /\ Forall (fun e => isDynamicTests e = false /\ isCreatePR e = false)
       (trace (worldAfter
                 (executeAuditTool demoEnv (rq_repoUrl demoRequest) "main")
                 startedWorld)).
Proof.
  split; [repeat split|]. split.
  - split; [vm_compute; tauto|]. split; [vm_compute; tauto|].
    split; vm_compute; reflexivity.
  - vm_compute. repeat constructor.
Qed.

(** ** The sink cannot be observed by a run on objects either *)

Lemma Runtime_bind_ext {A B} (m1 m2 : Runtime.M A) (k1 k2 : A -> Runtime.M B) w :
  m1 w = m2 w -> (forall a w', k1 a w' = k2 a w') ->
  Runtime.bind m1 k1 w = Runtime.bind m2 k2 w.
Proof.
  intros Hm Hk. unfold Runtime.bind. rewrite Hm.
  destruct (m2 w) as [[a|e] w']; [apply Hk|reflexivity].
Qed.

Lemma Runtime_tryCatch_ext {A} (m1 m2 : Runtime.M A)
    (h1 h2 : string -> Runtime.M A) w :
  m1 w = m2 w -> (forall e w', h1 e w' = h2 e w') ->
  Runtime.tryCatch m1 h1 w = Runtime.tryCatch m2 h2 w.
Proof.
  intros Hm Hh. unfold Runtime.tryCatch. rewrite Hm.
  destruct (m2 w) as [[a|e] w']; [reflexivity|apply Hh].
Qed.

(** sendTelegramMessage returns, and leaves the same world whatever
    [bot.sendMessage] did. *)
Lemma Runtime_sendTelegramMessage_eq env m w :
  Runtime.sendTelegramMessage env m w
  = (Returns tt,
     if (negb (Runtime.bot w)
         || String.eqb (telegramChatId (Runtime.config env)) "")%bool
     then w
     else Runtime.mkWorld (Runtime.ticks w) (Runtime.arrays w)
            (Runtime.files w) (Runtime.bot w) (S (Runtime.sent w))
            (Runtime.trace w ++ [Runtime.EvSendMessage m])).
Proof.
  unfold Runtime.sendTelegramMessage, Runtime.tryCatch, Runtime.bot_sendMessage,
    Runtime.ret.
  destruct (negb (Runtime.bot w) || _)%bool; [reflexivity|].
  destruct (Runtime.botSendMessage env (Runtime.sent w) m) as [[]|e];
    reflexivity.
Qed.

Lemma Runtime_send_sink s1 s2 e1 e2 env m w :
  Runtime.sendTelegramMessage (Runtime.withSink s1 (Runtime.withEngine e1 env)) m w
  = Runtime.sendTelegramMessage (Runtime.withSink s2 (Runtime.withEngine e2 env)) m w.
Proof. rewrite !Runtime_sendTelegramMessage_eq. reflexivity. Qed.

#[local] Arguments Runtime.sortByPriority : simpl never.
#[local] Arguments Runtime.sortInPlace : simpl never.

(** Compares two runs on objects that differ in the sink and in the engine,
    piece by piece. *)
Ltac runtime_ext Hsort :=
  repeat
    (cbn;
     lazymatch goal with
     | |- Runtime.bind _ _ _ = Runtime.bind _ _ _ =>
         apply Runtime_bind_ext; [|intros ? ?]
     | |- Runtime.tryCatch _ _ _ = Runtime.tryCatch _ _ _ =>
         apply Runtime_tryCatch_ext; [|intros ? ?]
     | |- Runtime.sendTelegramMessage _ _ _ = Runtime.sendTelegramMessage _ _ _ =>
         apply Runtime_send_sink
     | |- Runtime.sortInPlace _ _ _ = Runtime.sortInPlace _ _ _ =>
         unfold Runtime.sortInPlace; rewrite Hsort; reflexivity
     | |- (if ?b then _ else _) _ = _ => destruct b
     | |- (match ?x with _ => _ end) _ = _ => destruct x
     | |- match ?x with _ => _ end = _ => destruct x
     | |- _ => reflexivity
     end).

(** A run depends on the sink not at all, and on the engine only through
    what the sort leaves. *)
Lemma Runtime_runAudit_ext s1 s2 e1 e2 env rq w :
  (forall l,
      Runtime.sortByPriority (Runtime.withEngine e1 env) l
      = Runtime.sortByPriority (Runtime.withEngine e2 env) l) ->
  Runtime.runAudit (Runtime.withSink s1 (Runtime.withEngine e1 env)) rq w
  = Runtime.runAudit (Runtime.withSink s2 (Runtime.withEngine e2 env)) rq w.
Proof.
  intro Hsort.
  assert (Hsort' : forall l,
             Runtime.sortByPriority
               (Runtime.withSink s1 (Runtime.withEngine e1 env)) l
             = Runtime.sortByPriority
                 (Runtime.withSink s2 (Runtime.withEngine e2 env)) l)
    by exact Hsort.
  clear Hsort.
  unfold Runtime.runAudit, Runtime.auditDynamicStage, Runtime.auditPRStage,
    Runtime.notifyAuditStart, Runtime.notifyCloneComplete,
    Runtime.notifyStaticAnalysisComplete, Runtime.notifyAuditComplete,
    Runtime.notifyAuditError, Runtime.notifyDynamicTestsComplete,
    Runtime.notifyPRCreated, Runtime.cloneRepository,
    Runtime.validateSolidityRepo, Runtime.runStaticAnalysis, Runtime.analyzers,
    Runtime.runDynamicTests, Runtime.generateFixes, Runtime.createPR,
    Runtime.fs_mkdir, Runtime.fs_writeFile, Runtime.sliceArray,
    Runtime.auditDynamicGate, Runtime.auditPRGate.
  runtime_ext Hsort'.
Qed.

Lemma Runtime_runAudit_sink s1 s2 env rq w :
  Runtime.runAudit (Runtime.withSink s1 env) rq w
  = Runtime.runAudit (Runtime.withSink s2 env) rq w.
Proof.
  pose proof (Runtime_runAudit_ext s1 s2 (Runtime.engineSort env)
                (Runtime.engineSort env) env rq w (fun l => eq_refl)) as H.
  destruct env. exact H.
Qed.

Lemma Array_sort_arranges {A} (cmp : A -> A -> Z) (l : list A) :
  Array_sort cmp l ≡ₚ l.
Proof.
  assert (Hins : forall x l, sortInsert cmp x l ≡ₚ x :: l).
  { intros x l0. induction l0 as [|y ys IH]; cbn; [reflexivity|].
    destruct (cmp x y <=? 0)%Z; [reflexivity|]. rewrite IH. apply perm_swap. }
  unfold Array_sort. induction l as [|x l IH]; [reflexivity|].
  cbn [foldr]. rewrite Hins. now constructor.
Qed.

(** What the sort leaves is an arrangement of what it was given. *)
Lemma Runtime_sortByPriority_Permutation env l :
  Runtime.sortByPriority env l ≡ₚ l.
Proof.
  unfold Runtime.sortByPriority.
  destruct (Runtime.consistentComparator l); [apply Array_sort_arranges|].
  destruct (bool_decide (Runtime.engineSort env l ≡ₚ l)) eqn:Hp; [|reflexivity].
  apply bool_decide_eq_true_1 in Hp. exact Hp.
Qed.

(** An engine can be exchanged for what the sort leaves with it. *)
Lemma Runtime_sortByPriority_engine env engine :
  (forall l, engine l = Runtime.sortByPriority env l) ->
  forall l,
    Runtime.sortByPriority (Runtime.withEngine (Runtime.engineSort env) env) l
    = Runtime.sortByPriority (Runtime.withEngine engine env) l.
Proof.
  intros Hengine l. unfold Runtime.sortByPriority.
  cbn [Runtime.engineSort Runtime.withEngine].
  destruct (Runtime.consistentComparator l) eqn:Hc; [reflexivity|].
  rewrite Hengine.
  rewrite (bool_decide_eq_true_2 _ (Runtime_sortByPriority_Permutation env l)).
  unfold Runtime.sortByPriority. rewrite Hc. reflexivity.
Qed.

(** A run in [runtimeEnv] is the run with the sink that accepts every
    message and with any engine that answers what the sort leaves. *)
Lemma runtimeEnv_ext sink engine engine' a b c rq w :
  (forall l,
      engine' l = Runtime.sortByPriority (runtimeEnv sink engine a b c) l) ->
  Runtime.runAudit (runtimeEnv sink engine a b c) rq w
  = Runtime.runAudit (runtimeEnv acceptingSink engine' a b c) rq w.
Proof.
  intro Hengine.
  apply (Runtime_runAudit_ext sink acceptingSink engine engine'
           (runtimeEnv sink engine a b c) rq w).
  exact (Runtime_sortByPriority_engine (runtimeEnv sink engine a b c) engine'
           Hengine).
Qed.

Lemma runtimeEnv_sink sink engine a b c rq w :
  Runtime.runAudit (runtimeEnv sink engine a b c) rq w
  = Runtime.runAudit (runtimeEnv acceptingSink engine a b c) rq w.
Proof.
  exact (Runtime_runAudit_sink sink acceptingSink
           (runtimeEnv acceptingSink engine a b c) rq w).
Qed.

(** ** The coordinator at the declared types is the coordinator on objects
       that are Findings *)

Lemma asFinding_ofFinding (f : Finding) : asFinding (ofFinding f) = Some f.
Proof. destruct f as [? ? ? ? ? ? [] ? ? ?]; reflexivity. Qed.

Lemma omap_asFinding (fs : list Finding) :
  omap asFinding (map ofFinding fs) = fs.
Proof.
  induction fs as [|f fs IH]; [reflexivity|].
  cbn [map omap list_omap]. rewrite asFinding_ofFinding. cbn. now rewrite IH.
Qed.

Lemma Runtime_score_ofFinding (f : Finding) :
  Runtime.calculatePriorityScore (ofFinding f) = Some (calculatePriorityScore f).
Proof. destruct f as [? ? ? ? ? ? [] ? ? ?]; reflexivity. Qed.

Lemma Runtime_byPriorityDesc_ofFinding (a b : Finding) :
  Runtime.byPriorityDesc (ofFinding a) (ofFinding b) = byPriorityDesc a b.
Proof.
  unfold Runtime.byPriorityDesc. now rewrite !Runtime_score_ofFinding.
Qed.

Lemma Runtime_countSeverity_ofFinding (s : Severity) (fs : list Finding) :
  Runtime.countSeverity s (map ofFinding fs) = countSeverity s fs.
Proof.
  unfold Runtime.countSeverity, countSeverity.
  induction fs as [|f fs IH]; [reflexivity|].
  cbn [map List.filter]. unfold Runtime.severityIs at 1. cbn [ofFinding o_severity].
  destruct (severity_eqb (severity f) s); cbn [length]; now rewrite IH.
Qed.

Lemma Runtime_summarize_ofFinding (fs : list Finding) :
  Runtime.summarize (map ofFinding fs) = summarize fs.
Proof.
  unfold Runtime.summarize, summarize.
  now rewrite !Runtime_countSeverity_ofFinding, length_map.
Qed.

Lemma firstSubstringError_ofFinding (fs : list Finding) :
  Runtime.firstSubstringError (map ofFinding fs) = None.
Proof.
  unfold Runtime.firstSubstringError.
  induction fs as [|f fs IH]; [reflexivity|exact IH].
Qed.

Lemma Array_sort_map {A B} (f : A -> B) (cmp : A -> A -> Z) (cmp' : B -> B -> Z) :
  (forall a b, cmp' (f a) (f b) = cmp a b) ->
  forall l, Array_sort cmp' (map f l) = map f (Array_sort cmp l).
Proof.
  intros Hcmp.
  assert (Hins : forall x l,
             sortInsert cmp' (f x) (map f l) = map f (sortInsert cmp x l)).
  { intros x l. induction l as [|y ys IH]; [reflexivity|].
    cbn [map sortInsert]. rewrite Hcmp.
    destruct (cmp x y <=? 0)%Z; [reflexivity|]. cbn [map]. now rewrite IH. }
  unfold Array_sort. induction l as [|x l IH]; [reflexivity|].
  cbn [map foldr]. now rewrite IH, Hins.
Qed.

(** On objects that are Findings every score is a number: the comparator
    is consistent and the engine is not asked. *)
Lemma Runtime_sortByPriority_ofFinding renv (fs : list Finding) :
  Runtime.sortByPriority renv (map ofFinding fs)
  = map ofFinding (Array_sort byPriorityDesc fs).
Proof.
  unfold Runtime.sortByPriority.
  assert (Hc : Runtime.consistentComparator (map ofFinding fs) = true).
  { unfold Runtime.consistentComparator.
    induction fs as [|f fs IH]; [reflexivity|].
    cbn [map forallb]. rewrite IH, andb_true_r.
    apply bool_decide_eq_true_2. rewrite Runtime_score_ofFinding.
    eexists. reflexivity. }
  rewrite Hc. apply Array_sort_map. exact Runtime_byPriorityDesc_ofFinding.
Qed.

Lemma ofEnv_sameOutside env : sameOutside env (ofEnv env).
Proof.
  split; try reflexivity.
  - intros fs path. cbn. now rewrite omap_asFinding.
  - intros [repoPath repoUrl fs fixes dyn auditId]. cbn.
    now rewrite omap_asFinding.
Qed.

Lemma deref_ofWorld w r :
  Runtime.deref (ofWorld w) r = map ofFinding (deref w r).
Proof.
  unfold Runtime.deref, deref, ofWorld. cbn [Runtime.arrays].
  revert r. induction (arrays w) as [|l ls IH]; intros [|r]; try reflexivity.
  apply IH.
Qed.

Lemma sim_ret {A B} (f : A -> B) (a : A) : sim f (ret a) (Runtime.ret (f a)).
Proof. intro w. reflexivity. Qed.

Lemma sim_throw {A B} (f : A -> B) (e : string) :
  sim f (throw e) (Runtime.throw e).
Proof. intro w. reflexivity. Qed.

Lemma sim_bind {A B A' B'} (f : A -> A') (g : B -> B')
    (m : M A) (rm : Runtime.M A') (k : A -> M B) (rk : A' -> Runtime.M B') :
  sim f m rm -> (forall a, sim g (k a) (rk (f a))) ->
  sim g (bind m k) (Runtime.bind rm rk).
Proof.
  intros Hm Hk w. unfold bind, Runtime.bind. rewrite Hm.
  destruct (m w) as [[a|e] w']; cbn [fst snd ofCompletion]; [apply Hk|reflexivity].
Qed.

Lemma sim_tryCatch {A A'} (f : A -> A') (m : M A) (rm : Runtime.M A')
    (h : string -> M A) (rh : string -> Runtime.M A') :
  sim f m rm -> (forall e, sim f (h e) (rh e)) ->
  sim f (tryCatch m h) (Runtime.tryCatch rm rh).
Proof.
  intros Hm Hh w. unfold tryCatch, Runtime.tryCatch. rewrite Hm.
  destruct (m w) as [[a|e] w']; cbn [fst snd ofCompletion]; [reflexivity|apply Hh].
Qed.

Lemma sim_settle {A B} (f : A -> B) (c : Completion A) (rc : Completion B) :
  rc = ofCompletion f c -> sim f (settle c) (Runtime.settle rc).
Proof. intros -> w. reflexivity. Qed.

Lemma sim_emit (e : Event) : sim (fun u : unit => u) (emit e) (Runtime.emit (ofEvent e)).
Proof.
  intro w. unfold emit, Runtime.emit, ofWorld. cbn. now rewrite map_app.
Qed.

Lemma sim_newArray (l : list Finding) :
  sim (fun r : ArrayRef => r) (newArray l) (Runtime.newArray (map ofFinding l)).
Proof.
  intro w. unfold newArray, Runtime.newArray, ofWorld. cbn.
  now rewrite length_map, map_app.
Qed.

Lemma sim_readArray (r : ArrayRef) :
  sim (map ofFinding) (readArray r) (Runtime.readArray r).
Proof.
  intro w. unfold readArray, Runtime.readArray. now rewrite deref_ofWorld.
Qed.

Lemma sim_sortInPlace renv (r : ArrayRef) :
  sim (fun r : ArrayRef => r) (sortInPlace byPriorityDesc r)
    (Runtime.sortInPlace renv r).
Proof.
  intro w. unfold sortInPlace, Runtime.sortInPlace.
  rewrite deref_ofWorld, Runtime_sortByPriority_ofFinding.
  unfold ofWorld. cbn. now rewrite list_fmap_insert.
Qed.

Lemma sim_sliceArray (k : nat) (r : ArrayRef) :
  sim (fun r : ArrayRef => r) (sliceArray k r) (Runtime.sliceArray k r).
Proof.
  unfold sliceArray, Runtime.sliceArray.
  eapply sim_bind; [apply sim_readArray|]. intro l. cbn beta.
  unfold slice0. rewrite <- fmap_take. apply sim_newArray.
Qed.

Lemma sim_storeFile (path : string) (report : ReportFile) :
  sim (fun u : unit => u) (storeFile path (AuditReportJson report))
    (Runtime.storeFile path (ofReport report)).
Proof.
  intro w. unfold storeFile, Runtime.storeFile, ofWorld. cbn.
  now rewrite (omap_insert_Some ofContent _ _ _ (ofReport report)).
Qed.

Lemma sim_settle_same {A} (c rc : Completion A) :
  rc = c -> sim (fun a : A => a) (settle c) (Runtime.settle rc).
Proof. intros -> w. cbn. now destruct c. Qed.

Section Simulation.
Variables (env : Env) (renv : Runtime.Env).
Hypothesis Hsame : sameOutside env renv.

Lemma sim_DateNow : sim (fun z : Z => z) (DateNow env) (Runtime.DateNow renv).
Proof.
  intro w. unfold DateNow, Runtime.DateNow, ofWorld. cbn.
  now rewrite (same_clock _ _ Hsame).
Qed.

Lemma sim_sendTelegramMessage (m : Message) :
  sim (fun u : unit => u) (sendTelegramMessage env m)
    (Runtime.sendTelegramMessage renv (ofMessage m)).
Proof.
  intro w. rewrite Runtime_sendTelegramMessage_eq, sendTelegramMessage_eq.
  rewrite (same_config _ _ Hsame).
  unfold noteSend, sendEvents, sendCount, telegramOff, ofWorld. cbn.
  destruct (negb (bot w) || String.eqb (telegramChatId (config env)) "")%bool.
  - now rewrite Nat.add_0_r, app_nil_r.
  - rewrite map_app. cbn. now rewrite Nat.add_1_r.
Qed.

(** Steps through two calls of the same shape. *)
Ltac sim_run :=
  repeat
    (cbv beta zeta;
     lazymatch goal with
     | |- sim _ (bind _ _) (Runtime.bind _ _) => eapply sim_bind; [|intro]
     | |- sim _ (tryCatch _ _) (Runtime.tryCatch _ _) =>
         apply sim_tryCatch; [|intro]
     | |- sim _ (ret ?a) (Runtime.ret _) => exact (sim_ret (fun x => x) a)
     | |- sim _ (throw _) (Runtime.throw _) => apply sim_throw
     | |- sim _ (emit _) (Runtime.emit _) => apply sim_emit
     | |- sim _ (newArray ?l) (Runtime.newArray _) => exact (sim_newArray l)
     | |- sim _ (readArray _) (Runtime.readArray _) => apply sim_readArray
     | |- sim _ (settle _) (Runtime.settle _) =>
         apply sim_settle_same; reflexivity
     | |- sim _ (DateNow _) (Runtime.DateNow _) => apply sim_DateNow
     | |- sim _ (if ?b then _ else _) (if ?b then _ else _) => destruct b
     end).

Lemma sim_cloneRepository repoUrl branch :
  sim (fun c : CloneRepoResult => c) (cloneRepository env repoUrl branch)
    (Runtime.cloneRepository renv repoUrl branch).
Proof.
  unfold cloneRepository, Runtime.cloneRepository.
  rewrite (same_gitClone _ _ Hsame). sim_run.
Qed.

Lemma sim_validateSolidityRepo localPath :
  sim (fun v : ValidationResult => v) (validateSolidityRepo env localPath)
    (Runtime.validateSolidityRepo renv localPath).
Proof.
  unfold validateSolidityRepo, Runtime.validateSolidityRepo.
  rewrite (same_findSolFiles _ _ Hsame). sim_run.
Qed.

Lemma sim_analyzers repoPath :
  sim (fun found : list Finding * list Finding * list Finding =>
         (map ofFinding (fst (fst found)), map ofFinding (snd (fst found)),
          map ofFinding (snd found)))
    (analyzers env repoPath) (Runtime.analyzers renv repoPath).
Proof.
  unfold analyzers, Runtime.analyzers.
  rewrite (same_slither _ _ Hsame), (same_solhint _ _ Hsame),
    (same_patternChecks _ _ Hsame).
  destruct (slither env repoPath), (solhint env repoPath),
    (patternChecks env repoPath); intro w; reflexivity.
Qed.

Lemma sim_runStaticAnalysis repoPath :
  sim (fun r : StaticAnalysisResult => r) (runStaticAnalysis env repoPath)
    (Runtime.runStaticAnalysis renv repoPath).
Proof.
  unfold runStaticAnalysis, Runtime.runStaticAnalysis.
  eapply sim_bind; [apply sim_DateNow|]. intro startTime. cbv beta.
  eapply sim_bind; [apply sim_emit|]. intros _. cbv beta.
  apply sim_tryCatch; [|intro e; sim_run].
  eapply sim_bind; [apply sim_analyzers|]. intros [[a b] c]. cbv beta zeta.
  cbn [fst snd]. rewrite <- !map_app.
  eapply sim_bind; [apply sim_newArray|]. intro allFindings. cbv beta.
  eapply sim_bind; [apply sim_readArray|]. intro all. cbv beta.
  rewrite Runtime_summarize_ofFinding.
  unfold toolsRunOf, Runtime.toolsRunOf. rewrite !length_map. sim_run.
Qed.

Lemma sim_notifyStaticAnalysisComplete findings topFindings :
  sim (fun u : unit => u)
    (notifyStaticAnalysisComplete env findings topFindings)
    (Runtime.notifyStaticAnalysisComplete renv findings topFindings).
Proof.
  unfold notifyStaticAnalysisComplete, Runtime.notifyStaticAnalysisComplete.
  eapply sim_bind; [apply sim_readArray|]. intro fs. cbv beta.
  eapply sim_bind; [apply sim_readArray|]. intro top. cbv beta.
  rewrite firstSubstringError_ofFinding, !Runtime_countSeverity_ofFinding,
    length_map.
  exact (sim_sendTelegramMessage
           (MsgStaticAnalysisComplete (countSeverity critical fs)
              (countSeverity high fs) (countSeverity medium fs) (length fs) top)).
Qed.

Lemma sim_runDynamicTests repoPath :
  sim (fun d : DynamicTestResult => d) (runDynamicTests env repoPath)
    (Runtime.runDynamicTests renv repoPath).
Proof.
  unfold runDynamicTests, Runtime.runDynamicTests.
  rewrite (same_testnet _ _ Hsame). sim_run.
Qed.

Lemma sim_generateFixes findings repoPath :
  sim (fun fixes : list Fix => fixes) (generateFixes env findings repoPath)
    (Runtime.generateFixes renv findings repoPath).
Proof.
  unfold generateFixes, Runtime.generateFixes.
  eapply sim_bind; [apply sim_emit|]. intros _. cbv beta.
  eapply sim_bind; [apply sim_readArray|]. intro fs. cbv beta.
  rewrite (same_fixGenerator _ _ Hsame). sim_run.
Qed.

Lemma sim_createPR repoPath repoUrl findings fixes dynamicTestResult auditId :
  sim (fun p : PRResult => p)
    (createPR env repoPath repoUrl findings fixes dynamicTestResult auditId)
    (Runtime.createPR renv repoPath repoUrl findings fixes dynamicTestResult
       auditId).
Proof.
  unfold createPR, Runtime.createPR.
  eapply sim_bind; [apply sim_emit|]. intros _. cbv beta.
  eapply sim_bind; [apply sim_readArray|]. intro fs. cbv beta.
  rewrite <- (same_publisher _ _ Hsame). sim_run.
Qed.

Lemma sim_auditDynamicStage request localPath :
  sim (fun d : option DynamicTestResult => d)
    (auditDynamicStage env request localPath)
    (Runtime.auditDynamicStage renv request localPath).
Proof.
  unfold auditDynamicStage, Runtime.auditDynamicStage, auditDynamicGate,
    Runtime.auditDynamicGate, notifyDynamicTestsComplete,
    Runtime.notifyDynamicTestsComplete.
  rewrite (same_config _ _ Hsame).
  destruct (flagSet (rq_runDynamicTests request)
            && enableDynamicTesting (config env))%bool; [|sim_run].
  eapply sim_bind; [apply sim_runDynamicTests|]. intro d. cbv beta zeta.
  eapply sim_bind; [|intros _; sim_run].
  destruct (dt_success d); [|sim_run].
  destruct (0 <? totalTransactions (dt_summary d))%nat.
  - exact (sim_sendTelegramMessage (MsgDynamicTestsComplete _ _ _ _)).
  - exact (sim_sendTelegramMessage (MsgDynamicTestsComplete _ _ _ _)).
Qed.

Lemma sim_auditPRStage request localPath findings topFindings fixes
    dynamicResult auditId :
  sim (fun u : option string => u)
    (auditPRStage env request localPath findings topFindings fixes
       dynamicResult auditId)
    (Runtime.auditPRStage renv request localPath findings topFindings fixes
       dynamicResult auditId).
Proof.
  unfold auditPRStage, Runtime.auditPRStage, auditPRGate, Runtime.auditPRGate,
    notifyPRCreated, Runtime.notifyPRCreated.
  rewrite (same_config _ _ Hsame).
  destruct (flagSet (rq_createPullRequest request)
            && enableAutoPR (config env))%bool; [|sim_run].
  eapply sim_bind; [apply sim_createPR|]. intro p. cbv beta zeta.
  eapply sim_bind; [|intros _; sim_run].
  destruct (negb (String.eqb (default "" (pr_prUrl p)) "")); [|sim_run].
  eapply sim_bind; [apply sim_readArray|]. intro top. cbv beta.
  rewrite map_map. cbn [ofFinding o_title]. rewrite <- (map_map title JString).
  exact (sim_sendTelegramMessage (MsgPRCreated _ _ (map title top))).
Qed.

Lemma sim_fs_writeFile path report :
  sim (fun u : unit => u) (fs_writeFile env path (AuditReportJson report))
    (Runtime.fs_writeFile renv path (ofReport report)).
Proof.
  unfold fs_writeFile, Runtime.fs_writeFile.
  rewrite (same_writeFile _ _ Hsame).
  eapply sim_bind; [apply sim_emit|]. intros _. cbv beta.
  eapply sim_bind; [apply sim_settle_same; reflexivity|]. intros _. cbv beta.
  apply sim_storeFile.
Qed.

(** runAudit on objects that are Findings does what runAudit at the
    declared types does: it returns the same result and leaves the same
    world. *)
Lemma sim_runAudit request :
  sim (fun r : AuditResult => r) (runAudit env request)
    (Runtime.runAudit renv request).
Proof.
  unfold runAudit, Runtime.runAudit, notifyAuditStart, Runtime.notifyAuditStart,
    notifyCloneComplete, Runtime.notifyCloneComplete, notifyAuditComplete,
    Runtime.notifyAuditComplete, notifyAuditError, Runtime.notifyAuditError,
    fs_mkdir, Runtime.fs_mkdir.
  rewrite (same_cwd _ _ Hsame).
  eapply sim_bind; [apply sim_DateNow|]. intro idStamp. cbv beta zeta.
  eapply sim_bind; [apply sim_DateNow|]. intro startTime. cbv beta.
  eapply sim_bind;
    [exact (sim_sendTelegramMessage (MsgAuditStart _ _))|]. intros _. cbv beta.
  apply sim_tryCatch.
  2:{ intro e.
      eapply sim_bind;
        [exact (sim_sendTelegramMessage (MsgAuditError _ _))|]. intros _.
      sim_run. }
  eapply sim_bind; [apply sim_cloneRepository|]. intro cloneResult. cbv beta.
  destruct (negb (c_success cloneResult)); [sim_run|].
  eapply sim_bind; [apply sim_validateSolidityRepo|]. intro validation. cbv beta.
  destruct (negb (v_isValid validation)); [sim_run|].
  eapply sim_bind;
    [exact (sim_sendTelegramMessage (MsgCloneComplete _ _))|]. intros _. cbv beta.
  eapply sim_bind; [apply sim_runStaticAnalysis|]. intro staticResult. cbv beta.
  destruct (negb (sa_success staticResult)); [sim_run|].
  eapply sim_bind; [apply sim_sortInPlace|]. intro sorted. cbv beta.
  eapply sim_bind; [apply sim_sliceArray|]. intro topFindings. cbv beta.
  eapply sim_bind; [apply sim_notifyStaticAnalysisComplete|]. intros _. cbv beta.
  eapply sim_bind; [apply sim_auditDynamicStage|]. intro dynamicResult. cbv beta.
  eapply sim_bind; [apply sim_generateFixes|]. intro fixes. cbv beta.
  eapply sim_bind; [apply sim_auditPRStage|]. intro prUrl. cbv beta zeta.
  rewrite (same_mkdir _ _ Hsame).
  eapply sim_bind; [apply sim_settle_same; reflexivity|]. intros _. cbv beta.
  eapply sim_bind; [apply sim_DateNow|]. intro timestamp. cbv beta.
  eapply sim_bind; [apply sim_readArray|]. intro snapshot. cbv beta.
  eapply sim_bind;
    [exact (sim_fs_writeFile _ (mkReportFile _ _ _ snapshot _ _ _ _))|].
  intros _. cbv beta.
  eapply sim_bind; [apply sim_DateNow|]. intro now. cbv beta zeta.
  eapply sim_bind;
    [exact (sim_sendTelegramMessage (MsgAuditComplete _))|]. intros _.
  sim_run.
Qed.
End Simulation.

(** The typed run is a run of the coordinator on objects: in every
    environment that answers with the same objects, runAudit on the objects
    returns what the typed runAudit returns and leaves the world the typed
    run leaves. *)
Lemma runAudit_is_the_run_on_objects env renv request w :
  sameOutside env renv ->
  Runtime.runAudit renv request (ofWorld w)
  = (fst (runAudit env request w), ofWorld (snd (runAudit env request w))).
Proof.
  intro Hsame. rewrite (sim_runAudit env renv Hsame request w).
  now destruct (fst (runAudit env request w)).
Qed.

(** ** Runs on objects that are not Findings *)

(** The analyzers are declared to resolve with [Finding]s, and the
    properties above are those of runs in which they do.  The objects
    runSlither and runSolhint build need not be Findings; the runs below are
    runs of the same code on such objects. *)

Lemma filter_cons_length {A : Type} (p : A -> bool) (x : A) (l : list A) :
  length (List.filter p (x :: l))
  = ((if p x then 1 else 0) + length (List.filter p l))%nat.
Proof. cbn [List.filter]. now destruct (p x). Qed.

(** The buckets count the findings whose severity is one of the five
    strings. *)
Lemma Runtime_buckets (fs : list FindingObj) :
  bucketSum (Runtime.summarize fs)
  = length (List.filter hasNamedSeverity fs).
Proof.
  unfold bucketSum, Runtime.summarize, Runtime.countSeverity.
  cbn [s_critical s_high s_medium s_low s_info].
  induction fs as [|f fs IH]; [reflexivity|].
  rewrite !filter_cons_length, <- IH.
  unfold Runtime.severityIs, hasNamedSeverity.
  destruct (o_severity f) as [[]|key]; cbn [asSeverity severity_eqb]; lia.
Qed.

(** C5. The summary invariant fails on what the adapters hand over.  The
    total of a successful static-analysis result is the number of findings,
    but a bucket counts the findings whose severity is the string that names
    it, and the severity of a finding whose native level spells a member of
    Object.prototype is that member: such a finding is in the total and in
    no bucket, so the buckets add up to less than the total. *)
Theorem runStaticAnalysis_summary_misses_inherited_severities
    (env : Runtime.Env) (repoPath : string) (w : Runtime.World)
    (a b c : list FindingObj) :
  Runtime.slither env repoPath = Returns a ->
  Runtime.solhint env repoPath = Returns b ->
  Runtime.patternChecks env repoPath = Returns c ->
  exists r,
    Runtime.outcome (Runtime.runStaticAnalysis env repoPath) w = Returns r
    /\ sa_success r = true
    /\ Runtime.deref
         (Runtime.worldAfter (Runtime.runStaticAnalysis env repoPath) w)
         (sa_findings r)
       = a ++ b ++ c
    /\ s_total (sa_summary r) = length (a ++ b ++ c)
    /\ bucketSum (sa_summary r)
       = length (List.filter hasNamedSeverity (a ++ b ++ c))
    /\ (Exists (fun f => asSeverity (o_severity f) = None) (a ++ b ++ c) ->
        (bucketSum (sa_summary r) < s_total (sa_summary r))%nat).
Proof.
  intros Ha Hb Hc.
  unfold Runtime.outcome, Runtime.worldAfter, Runtime.runStaticAnalysis,
    Runtime.analyzers, Runtime.bind, Runtime.tryCatch, Runtime.DateNow,
    Runtime.emit, Runtime.newArray, Runtime.readArray, Runtime.ret,
    Runtime.deref.
  rewrite Ha, Hb, Hc. cbn. rewrite lookup_snoc_new. cbn.
  eexists. split; [reflexivity|].
  cbn [sa_success sa_findings sa_summary]. rewrite lookup_snoc_new.
  split; [reflexivity|]. split; [reflexivity|]. split; [reflexivity|].
  rewrite Runtime_buckets. split; [reflexivity|].
  cbn [s_total Runtime.summarize].
  generalize (a ++ b ++ c). intros l Hex.
  induction Hex as [f l Hf|f l _ IH]; cbn [List.filter length].
  - unfold hasNamedSeverity at 1. rewrite Hf.
    pose proof (List.filter_length_le hasNamedSeverity l). lia.
  - destruct (hasNamedSeverity f); cbn [length]; lia.
Qed.

(** The failing input of C5: Slither reports one detector whose impact is
    the string constructor. *)
Lemma runStaticAnalysis_summary_misses_inherited_severities_witness :
  exists o r,
    runSlither (Some [constructorDetector]) = [o]
    /\ o_severity o = SevInherited "constructor"
    /\ Runtime.outcome
         (Runtime.runStaticAnalysis
            (runtimeEnv acceptingSink (fun l => l)
               (runSlither (Some [constructorDetector])) [] [])
            demoPath)
         (runtimeWorld false)
       = Returns r
    /\ sa_success r = true
    /\ s_total (sa_summary r) = 1%nat
    /\ bucketSum (sa_summary r) = 0%nat.
Proof.
  destruct (runStaticAnalysis_summary_misses_inherited_severities
              (runtimeEnv acceptingSink (fun l => l)
                 (runSlither (Some [constructorDetector])) [] [])
              demoPath (runtimeWorld false)
              (runSlither (Some [constructorDetector])) [] [])
    as (r & Hr & Hok & _ & Htotal & Hbuckets & _); try reflexivity.
  eexists _, r. split; [reflexivity|]. split; [reflexivity|].
  split; [exact Hr|]. split; [exact Hok|].
  split; [exact Htotal|exact Hbuckets].
Defined.

(** ** The order of findings that have no priority score *)

(** With a finding that has no score among them the comparator is not
    consistent, and the sort leaves what the engine leaves. *)
Lemma Runtime_sortByPriority_kept env l :
  Runtime.consistentComparator l = false ->
  Runtime.engineSort env l = l ->
  Runtime.sortByPriority env l = l.
Proof.
  intros Hc Hkeep. unfold Runtime.sortByPriority. rewrite Hc, Hkeep.
  now destruct (bool_decide (l ≡ₚ l)).
Qed.

(** C10. The findings a run returns and persists need not be sorted.  The
    comparator of the sort subtracts two priority scores, and the score of
    a finding whose confidence is none of high, medium and low is NaN.
    Slither reports one detector of impact Low and confidence Certain, and
    the pattern checks one finding of score 14.  The comparator returns NaN
    on them, so it is not a consistent comparison function and the order is
    left to the engine; but whatever the engine leaves, the list in the
    returned result and in the report holds a finding without a score next
    to the finding of score 14, and is in no descending order of priority.
    When the engine leaves the array as it is, which is what an insertion
    that reads NaN as a tie does, the list is the concatenation of the
    analyzers' outputs. *)
Theorem runAudit_returns_unscored_findings_unsorted
    (sink : nat -> Runtime.Message -> Completion unit)
    (engine : list FindingObj -> list FindingObj) (botReady : bool) :
  let a := runSlither (Some [certainDetector]) in
  let c := vaultPatternFindings in
  let run := Runtime.runAudit (runtimeEnv sink engine a [] c) demoRequest in
  let w' := Runtime.worldAfter run (runtimeWorld botReady) in
  exists r s p rep returned,
    a = [s] /\ c = [p]
    /\ o_confidence s = "certain"
    /\ Runtime.calculatePriorityScore s = None
    /\ Runtime.calculatePriorityScore p = Some 14
    /\ Runtime.outcome run (runtimeWorld botReady) = Returns r
    /\ ar_success r = true
    /\ Runtime.deref w' (ar_findings r) = returned
    /\ Runtime.files w' !! "/app/memory/audit-1000/audit-report.json"
       = Some rep
    /\ Runtime.rp_findings rep = returned
    /\ returned ≡ₚ a ++ c
    /\ ~ StronglySorted Runtime.scoreGe returned
    /\ (engine (a ++ c) = a ++ c -> returned = a ++ c).
Proof.
  intros a c run w'. subst run w'.
  pose (left := Runtime.sortByPriority (runtimeEnv sink engine a [] c) (a ++ c)).
  assert (Hperm : left ≡ₚ a ++ c) by apply Runtime_sortByPriority_Permutation.
  assert (Hkeep : engine (a ++ c) = a ++ c -> left = a ++ c).
  { intro H. apply Runtime_sortByPriority_kept; [reflexivity|exact H]. }
  unfold Runtime.outcome, Runtime.worldAfter.
  rewrite (runtimeEnv_ext sink engine
             (fun l => if decide (l = a ++ c) then left
                       else Runtime.sortByPriority
                              (runtimeEnv sink engine a [] c) l))
    by (intro l; destruct (decide (l = a ++ c)) as [->|]; reflexivity).
  clearbody left.
  assert (Hlist : exists s0 p0, a ++ c = [s0; p0])
    by (vm_compute; eexists _, _; reflexivity).
  destruct Hlist as (s0 & p0 & Hlist). rewrite Hlist in Hperm.
  apply Permutation_sym, Permutation_length_2_inv in Hperm.
  vm_compute in Hlist. injection Hlist as <- <-.
  destruct Hperm as [-> | ->]; destruct botReady.
  all: do 5 eexists.
  all: do 10 (split; [vm_compute; reflexivity|]).
  all: split; [apply (bool_decide_unpack _); vm_compute; exact I|].
  all: split; [|exact Hkeep].
  all: intro Hs; apply StronglySorted_inv in Hs as [_ Hs].
  all: apply Forall_inv in Hs; exact Hs.
Qed.

(** ** The five findings of the notification *)

(** C7. The findings of the notification need not be the findings of
    highest priority in descending order.  On the two findings of the run
    above, of which one has no score, all findings are handed to the
    notification (5 is more than their number), in an order that is not
    descending whatever the engine leaves.  And when Slither reports five
    detectors whose confidence is Certain and the pattern checks one
    finding of severity high and score 14, then with an engine that leaves
    the array as it is (an insertion that reads NaN as a tie does) the
    first five of the concatenation go into the notification, and the only
    finding that has a priority score is left out. *)
Theorem top5_notification_leaves_out_the_scored_finding
    (sink : nat -> Runtime.Message -> Completion unit)
    (engine : list FindingObj -> list FindingObj) :
  (let a := runSlither (Some [certainDetector]) in
   let c := vaultPatternFindings in
   let run := Runtime.runAudit (runtimeEnv sink engine a [] c) demoRequest in
   let w' := Runtime.worldAfter run (runtimeWorld true) in
   exists r top,
     Runtime.outcome run (runtimeWorld true) = Returns r
     /\ Runtime.messages w'
        = [ Runtime.MsgAuditStart "https://github.com/acme/vault" "audit-1000";
            Runtime.MsgCloneComplete "https://github.com/acme/vault" 1;
            Runtime.MsgStaticAnalysisComplete 0 1 0 2 top;
            Runtime.MsgAuditComplete r ]
     /\ top ≡ₚ a ++ c
     /\ ~ StronglySorted Runtime.scoreGe top)
  /\ (let a := runSlither (Some (replicate 5 certainDetector)) in
      let c := vaultPatternFindings in
      let run := Runtime.runAudit (runtimeEnv sink engine a [] c) demoRequest in
      let w' := Runtime.worldAfter run (runtimeWorld true) in
      engine (a ++ c) = a ++ c ->
      exists r p,
        c = [p]
        /\ o_severity p = SevOf high
        /\ Runtime.calculatePriorityScore p = Some 14
        /\ length a = 5%nat
        /\ forallb
             (fun s => bool_decide (Runtime.calculatePriorityScore s = None)) a
           = true
        /\ Runtime.outcome run (runtimeWorld true) = Returns r
        /\ ar_success r = true
        /\ Runtime.deref w' (ar_findings r) = a ++ c
        /\ Runtime.messages w'
           = [ Runtime.MsgAuditStart "https://github.com/acme/vault" "audit-1000";
               Runtime.MsgCloneComplete "https://github.com/acme/vault" 1;
               Runtime.MsgStaticAnalysisComplete 0 1 0 6 a;
               Runtime.MsgAuditComplete r ]
        /\ p ∉ a).
Proof.
  split.
  - intros a c run w'. subst run w'.
    pose (left := Runtime.sortByPriority (runtimeEnv sink engine a [] c) (a ++ c)).
    assert (Hperm : left ≡ₚ a ++ c) by apply Runtime_sortByPriority_Permutation.
    unfold Runtime.outcome, Runtime.worldAfter.
    rewrite (runtimeEnv_ext sink engine
               (fun l => if decide (l = a ++ c) then left
                         else Runtime.sortByPriority
                                (runtimeEnv sink engine a [] c) l))
      by (intro l; destruct (decide (l = a ++ c)) as [->|]; reflexivity).
    clearbody left.
    assert (Hlist : exists s0 p0, a ++ c = [s0; p0])
      by (vm_compute; eexists _, _; reflexivity).
    destruct Hlist as (s0 & p0 & Hlist). rewrite Hlist in Hperm.
    apply Permutation_sym, Permutation_length_2_inv in Hperm.
    vm_compute in Hlist. injection Hlist as <- <-.
    destruct Hperm as [-> | ->].
    all: do 2 eexists.
    all: do 2 (split; [vm_compute; reflexivity|]).
    all: split; [apply (bool_decide_unpack _); vm_compute; exact I|].
    all: intro Hs; apply StronglySorted_inv in Hs as [_ Hs].
    all: apply Forall_inv in Hs; exact Hs.
  - intros a c run w' Hkeep. subst run w'.
    unfold Runtime.outcome, Runtime.worldAfter.
    rewrite (runtimeEnv_ext sink engine
               (fun l => if decide (l = a ++ c) then a ++ c
                         else Runtime.sortByPriority
                                (runtimeEnv sink engine a [] c) l)).
    2:{ intro l. destruct (decide (l = a ++ c)) as [->|]; [|reflexivity].
        symmetry. apply Runtime_sortByPriority_kept; [reflexivity|exact Hkeep]. }
    do 2 eexists.
    do 9 (split; [vm_compute; reflexivity|]).
    intro Hin. apply (bool_decide_pack _) in Hin. vm_compute in Hin. exact Hin.
Qed.

(** The engine that leaves every array as it is, and the sink that accepts
    every message. *)
Lemma top5_notification_leaves_out_the_scored_finding_witness :
  exists r,
    Runtime.outcome
      (Runtime.runAudit
         (runtimeEnv acceptingSink (fun l => l)
            (runSlither (Some (replicate 5 certainDetector))) []
            vaultPatternFindings)
         demoRequest)
      (runtimeWorld true)
    = Returns r
    /\ Runtime.messages
         (Runtime.worldAfter
            (Runtime.runAudit
               (runtimeEnv acceptingSink (fun l => l)
                  (runSlither (Some (replicate 5 certainDetector))) []
                  vaultPatternFindings)
               demoRequest)
            (runtimeWorld true))
       = [ Runtime.MsgAuditStart "https://github.com/acme/vault" "audit-1000";
           Runtime.MsgCloneComplete "https://github.com/acme/vault" 1;
           Runtime.MsgStaticAnalysisComplete 0 1 0 6
             (runSlither (Some (replicate 5 certainDetector)));
           Runtime.MsgAuditComplete r ].
Proof.
  destruct (proj2 (top5_notification_leaves_out_the_scored_finding
                     acceptingSink (fun l => l)) eq_refl)
    as (r & p & _ & _ & _ & _ & _ & Hr & _ & _ & Hm & _).
  exists r. split; [exact Hr|exact Hm].
Defined.

(** ** A notification that throws *)

(** C8. A notification can fail the run.  The sink itself cannot: two runs
    that differ in the sink only return the same result and leave the same
    world.  But notifyStaticAnalysisComplete builds its text before it
    calls sendTelegramMessage, outside the [try] of that function, and the
    text takes [description.substring(0, 100)] of each of the top findings:
    where a description is not a string the call throws, bot or no bot, and
    runAudit returns a failure.  Slither reports one detector whose
    description is the number 5: the run fails with the message of the
    TypeError, without findings and without a report; the same run on a
    detector whose description is a string succeeds. *)
Theorem notifyStaticAnalysisComplete_can_fail_the_run :
  (forall s1 s2 env rq w,
      Runtime.runAudit (Runtime.withSink s1 env) rq w
      = Runtime.runAudit (Runtime.withSink s2 env) rq w)
  /\ (forall env findings topFindings w message,
        Runtime.firstSubstringError (Runtime.deref w topFindings)
        = Some message ->
        Runtime.notifyStaticAnalysisComplete env findings topFindings w
        = (Throws message, w))
  /\ (forall sink engine botReady,
        let a := runSlither (Some [numberedDetector]) in
        let run := Runtime.runAudit (runtimeEnv sink engine a [] []) demoRequest in
        let w' := Runtime.worldAfter run (runtimeWorld botReady) in
        exists o r,
          a = [o]
          /\ o_description o = JNumber 5
          /\ Runtime.outcome run (runtimeWorld botReady) = Returns r
          /\ ar_success r = false
          /\ ar_error r
             = Some "finding.description.substring is not a function"
          /\ Runtime.deref w' (ar_findings r) = []
          /\ ar_summary r = emptySummary
          /\ Runtime.files w' = ∅)
  /\ (forall sink engine botReady,
        let a := runSlither (Some [reentrancyDetector]) in
        let run := Runtime.runAudit (runtimeEnv sink engine a [] []) demoRequest in
        exists r,
          Runtime.outcome run (runtimeWorld botReady) = Returns r
          /\ ar_success r = true
          /\ ar_error r = None
          /\ Runtime.deref (Runtime.worldAfter run (runtimeWorld botReady))
               (ar_findings r)
             = a).
Proof.
  split; [exact Runtime_runAudit_sink|].
  split.
  { intros env findings topFindings w message Htop.
    unfold Runtime.notifyStaticAnalysisComplete, Runtime.bind,
      Runtime.readArray, Runtime.throw.
    rewrite Htop. reflexivity. }
  split.
  - intros sink engine botReady a run w'. subst a run w'.
    unfold Runtime.outcome, Runtime.worldAfter. rewrite runtimeEnv_sink.
    destruct botReady.
    all: do 2 eexists.
    all: repeat (split; [vm_compute; reflexivity|]).
    all: vm_compute; reflexivity.
  - intros sink engine botReady a run. subst a run.
    unfold Runtime.outcome, Runtime.worldAfter. rewrite runtimeEnv_sink.
    destruct botReady.
    all: eexists.
    all: repeat (split; [vm_compute; reflexivity|]).
    all: vm_compute; reflexivity.
Qed.

(* ===================================================================== *)
(** * Part III: further properties of the sources *)
(* ===================================================================== *)

(** ** Finding ids *)

Lemma pretty_N_go_head (x : N) (s : string) :
  (0 < x)%N ->
  exists c r, pretty.pretty_N_go x s = String c r /\ c <> "0"%char.
Proof.
  revert s. induction (N.lt_wf_0 x) as [x _ IH]. intros s Hx.
  rewrite pretty.pretty_N_go_step by exact Hx.
  destruct (N.eq_dec (x `div` 10)%N 0%N) as [Hz|Hnz].
  - rewrite Hz, pretty.pretty_N_go_0. eexists _, _. split; [reflexivity|].
    assert (Hlt : (x < 10)%N).
    { destruct (N.lt_ge_cases x 10) as [Hlt|Hge]; [exact Hlt|].
      pose proof (N.Div0.div_le_mono 10 x 10 Hge) as Hd.
      rewrite N.div_same in Hd by discriminate. lia. }
    rewrite N.mod_small by exact Hlt.
    assert (x = 1 \/ x = 2 \/ x = 3 \/ x = 4 \/ x = 5 \/ x = 6 \/ x = 7
            \/ x = 8 \/ x = 9)%N as Hc by lia.
    repeat (destruct Hc as [->|Hc]; [discriminate|]). subst x. discriminate.
  - apply IH.
    + apply N.div_lt; lia.
    + apply N.neq_0_lt_0. exact Hnz.
Qed.

(** The decimal numerals: the digit 0 alone, or a string that does not start
    with the digit 0. *)
Lemma pretty_nat_numeral (n : nat) :
  pretty n = "0" \/ exists c r, pretty n = String c r /\ c <> "0"%char.
Proof.
  unfold pretty, pretty.pretty_nat, pretty, pretty.pretty_N.
  destruct (decide (N.of_nat n = 0%N)) as [_|Hne]; [left; reflexivity|].
  right. apply pretty_N_go_head. lia.
Qed.

Lemma zeros_numeral_inj (a b : nat) (s t : string) :
  (s = "0" \/ exists c r, s = String c r /\ c <> "0"%char) ->
  (t = "0" \/ exists c r, t = String c r /\ c <> "0"%char) ->
  (a + String.length s = b + String.length t)%nat ->
  repeatString "0" a +:+ s = repeatString "0" b +:+ t -> s = t.
Proof.
  intros Hs Ht.
  assert (Hls : (1 <= String.length s)%nat)
    by (destruct Hs as [->|(c & r & -> & _)]; cbn; lia).
  assert (Hlt : (1 <= String.length t)%nat)
    by (destruct Ht as [->|(c & r & -> & _)]; cbn; lia).
  revert b. induction a as [|a IH]; intros [|b] Hlen Heq; cbn in *.
  - exact Heq.
  - destruct Hs as [->|(c & r & -> & Hc)]; cbn in *; [lia|].
    injection Heq as -> _. contradiction.
  - destruct Ht as [->|(c & r & -> & Hc)]; cbn in *; [lia|].
    injection Heq as <- _. contradiction.
  - injection Heq as Heq. apply (IH b); [lia|exact Heq].
Qed.

Lemma length_repeatString c n : String.length (repeatString c n) = n.
Proof. induction n as [|n IH]; simpl; [reflexivity|now f_equal]. Qed.

Lemma append_cons (c : ascii) (a b : string) :
  String c a +:+ b = String c (a +:+ b).
Proof. reflexivity. Qed.

Lemma length_string_app (s t : string) :
  String.length (s +:+ t) = (String.length s + String.length t)%nat.
Proof.
  induction s as [|c s IH]; [reflexivity|].
  rewrite append_cons. cbn [String.length]. now rewrite IH.
Qed.

Lemma findingId_inj (prefix : string) (n m : nat) :
  findingId prefix n = findingId prefix m -> n = m.
Proof.
  unfold findingId. intro H.
  apply (inj (String.app prefix)) in H. apply (inj (String.app "-")) in H.
  apply (inj pretty). unfold padStart in H.
  apply (f_equal String.length) in H as Hlen.
  rewrite !length_string_app, !length_repeatString in Hlen.
  eapply zeros_numeral_inj; [apply pretty_nat_numeral..|exact Hlen|exact H].
Qed.

(** ** The two tool adapters as functions of their input *)

Lemma slitherFinding_lowerable (n : nat) (d : SlitherDetector) :
  lowerable (d_confidence d) = true -> exists o, slitherFinding n d = Returns o.
Proof.
  unfold slitherFinding. destruct (d_confidence d); cbn; try discriminate;
    intros _; eexists; reflexivity.
Qed.

Lemma slitherFinding_not_lowerable (n : nat) (d : SlitherDetector) :
  lowerable (d_confidence d) = false -> exists e, slitherFinding n d = Throws e.
Proof.
  unfold slitherFinding. destruct (d_confidence d); cbn; try discriminate;
    intros _; eexists; reflexivity.
Qed.

Lemma slitherFinding_id (n : nat) (d : SlitherDetector) (o : FindingObj) :
  slitherFinding n d = Returns o -> o_id o = findingId "SLTH" n.
Proof.
  unfold slitherFinding. destruct (optionalToLowerCase (d_confidence d));
    [|discriminate]. intros [= <-]. reflexivity.
Qed.

(** The loop of runSlither pushes one object per detector, with the ids of a
    counter that starts where it is handed. *)
Lemma slitherLoop_spec (ds : list SlitherDetector) :
  forall n acc,
    exists new,
      slitherLoop n ds acc = acc ++ new
      /\ map o_id new = map (findingId "SLTH") (seq n (length new))
      /\ (Forall (fun d => lowerable (d_confidence d) = true) ds ->
          length new = length ds
          /\ forall k d, ds !! k = Some d ->
               exists o, slitherFinding (n + k) d = Returns o /\ new !! k = Some o).
Proof.
  induction ds as [|d ds IH]; intros n acc; cbn [slitherLoop].
  - exists []. rewrite app_nil_r. split; [reflexivity|]. split; [reflexivity|].
    intros _. split; [reflexivity|]. intros k d Hk. discriminate.
  - destruct (slitherFinding n d) as [o|e] eqn:Ho.
    + destruct (IH (S n) (acc ++ [o])) as (new & Heq & Hids & Hall).
      exists (o :: new). rewrite Heq, <- app_assoc. split; [reflexivity|].
      split.
      { cbn. rewrite Hids. f_equal. now apply slitherFinding_id in Ho. }
      intro Hok. apply Forall_cons in Hok as [_ Hok].
      destruct (Hall Hok) as [Hlen Hk]. split; [cbn; congruence|].
      intros [|k] d' Hd; cbn in Hd.
      * injection Hd as <-. exists o. rewrite Nat.add_0_r. auto.
      * destruct (Hk k d' Hd) as (o' & Ho' & Hn). exists o'.
        replace (n + S k)%nat with (S n + k)%nat by lia. auto.
    + exists []. rewrite app_nil_r. split; [reflexivity|]. split; [reflexivity|].
      intro Hok. apply Forall_cons in Hok as [Hd _].
      destruct (slitherFinding_lowerable n d Hd) as [o Ho']. congruence.
Qed.

Lemma slitherLoop_stops (good rest : list SlitherDetector) (bad : SlitherDetector) :
  Forall (fun d => lowerable (d_confidence d) = true) good ->
  lowerable (d_confidence bad) = false ->
  forall n acc,
    slitherLoop n (good ++ bad :: rest) acc = slitherLoop n good acc.
Proof.
  intros Hgood Hbad. induction Hgood as [|d good Hd _ IH]; intros n acc; cbn.
  - destruct (slitherFinding_not_lowerable n bad Hbad) as [e ->]. reflexivity.
  - destruct (slitherFinding_lowerable n d Hd) as [o ->]. apply IH.
Qed.


(** The loops of runSolhint as one pass over the issues. *)
Lemma solhintIssues_spec (report : SolhintReport) (issues : list SolhintIssue) :
  forall n acc,
    solhintIssues n report issues acc
    = ((n + length issues)%nat,
       acc ++ imap (fun k issue => solhintFinding (n + k) report issue) issues).
Proof.
  induction issues as [|issue issues IH]; intros n acc; cbn [solhintIssues].
  - cbn. now rewrite Nat.add_0_r, app_nil_r.
  - rewrite IH. cbn [length imap]. rewrite <- app_assoc. cbn [app].
    rewrite Nat.add_0_r. f_equal; [lia|]. do 2 f_equal.
    apply imap_ext. intros k x _. cbn. f_equal. lia.
Qed.

Lemma solhintLoop_spec (reports : list SolhintReport) :
  forall n acc,
    solhintLoop n reports acc
    = acc ++ imap (fun k p => solhintFinding (n + k) (fst p) (snd p))
               (solhintPairs reports).
Proof.
  induction reports as [|report reports IH]; intros n acc;
    cbn [solhintLoop solhintPairs flat_map].
  - cbn. now rewrite app_nil_r.
  - fold (solhintPairs reports).
    destruct (r_reports report) as [issues|] eqn:Hr; cbn [default from_option].
    + rewrite solhintIssues_spec, IH, imap_app, <- app_assoc. f_equal.
      rewrite imap_fmap. unfold compose. cbn. rewrite length_map. f_equal.
      apply imap_ext. intros k x _. cbn. f_equal. lia.
    + cbn. apply IH.
Qed.

(** An adapter's severity is a string unless the native level names a
    member of Object.prototype. *)
Lemma mapSeverity_named (v : JsVal) :
  is_Some (asSeverity (mapSeverity v))
  <-> (toPropertyKey v ∉ objectPrototypeKeys).
Proof.
  destruct (decide (toPropertyKey v ∈ objectPrototypeKeys)) as [Hin|Hout].
  - rewrite (mapSeverity_inherited v Hin). cbn. split; [|contradiction].
    intros [? [=]].
  - split; [intros _; exact Hout|]. intros _. unfold mapSeverity.
    destruct (SEVERITY_MAP !! toPropertyKey v); [now eexists|].
    rewrite bool_decide_eq_false_2 by exact Hout. now eexists.
Qed.

(** An object is a Finding when each of its properties has the declared
    type. *)
Lemma asFinding_is_Some (o : FindingObj) :
  is_Some (asFinding o)
  <-> is_Some (asString (o_file o)) /\ is_Some (asNumber (o_line o))
      /\ is_Some (asString (o_title o)) /\ is_Some (asString (o_description o))
      /\ is_Some (asSeverity (o_severity o))
      /\ is_Some (parseConfidence (o_confidence o))
      /\ is_Some (asString (o_recommendation o))
      /\ is_Some (asString (o_category o)).
Proof.
  unfold asFinding.
  destruct (asString (o_file o)), (asNumber (o_line o)),
    (asString (o_title o)), (asString (o_description o)),
    (asSeverity (o_severity o)), (parseConfidence (o_confidence o)),
    (asString (o_recommendation o)), (asString (o_category o)); cbn;
    split; intro H; repeat split; try (now eexists);
    try (destruct H as [? [=]]);
    repeat match goal with
           | H : _ /\ _ |- _ => destruct H
           | H : @is_Some _ None |- _ => destruct H as [? [=]]
           end.
Qed.


(** ** Text primitives *)

Lemma endsWith_spec (suffix s : string) :
  endsWith suffix s = true <-> exists before, s = before +:+ suffix.
Proof.
  induction s as [|c s IH]; cbn [endsWith].
  - rewrite orb_false_r, String.eqb_eq. split.
    + intros <-. now exists "".
    + intros [[|c b] H]; cbn in H; [auto|].
      destruct suffix; discriminate.
  - rewrite orb_true_iff, String.eqb_eq, IH. split.
    + intros [<-|[b ->]]; [now exists ""|now exists (String c b)].
    + intros [[|c' b] H]; cbn in H; [left; auto|].
      injection H as -> ->. right. now exists b.
Qed.

Lemma string_app_assoc (a b c : string) : (a +:+ b) +:+ c = a +:+ (b +:+ c).
Proof.
  induction a as [|x a IH]; [reflexivity|]. rewrite !append_cons. now rewrite IH.
Qed.

Lemma prefix_app (a b : string) : String.prefix a (a +:+ b) = true.
Proof.
  induction a as [|x a IH]; [destruct b; reflexivity|].
  rewrite append_cons. cbn [String.prefix].
  destruct (ascii_dec x x); [exact IH|contradiction].
Qed.

Lemma dropString_app (a b : string) : dropString (String.length a) (a +:+ b) = b.
Proof.
  induction a as [|x a IH]; [reflexivity|]. rewrite append_cons. exact IH.
Qed.

Lemma dropString_add (a b : nat) (s : string) :
  dropString (a + b) s = dropString b (dropString a s).
Proof.
  revert s. induction a as [|a IH]; intro s; cbn; [reflexivity|].
  destruct s as [|c s]; [now destruct b|apply IH].
Qed.

Lemma length_dropString (n : nat) (s : string) :
  String.length (dropString n s) = (String.length s - n)%nat.
Proof.
  revert s. induction n as [|n IH]; intros [|c s]; cbn; auto.
Qed.

(** [path.relative] gives back what [path.join] appended. *)
Lemma pathRelative_pathJoin (from rest : string) :
  pathRelative from (pathJoin from rest) = rest.
Proof.
  unfold pathRelative, pathJoin. rewrite <- string_app_assoc, prefix_app.
  replace (String.length from + 1)%nat with (String.length (from +:+ "/")).
  - apply dropString_app.
  - rewrite length_string_app. reflexivity.
Qed.

(** ** The walk of a directory tree *)

Section WalkLemmas.
Variables (enter keep : string -> bool).

Lemma Dirent_induction (P : Dirent -> Prop) :
  (forall name, P (DirentFile name)) ->
  (forall name e, P (DirentDirectory name (Throws e))) ->
  (forall name below, Forall P below -> P (DirentDirectory name (Returns below))) ->
  (forall name, P (DirentOther name)) ->
  forall entry, P entry.
Proof.
  intros Hfile Hthrows Hdir Hother. fix IH 1.
  intros [name|name [below|e]|name];
    [apply Hfile| |apply Hthrows|apply Hother].
  apply Hdir. revert below. fix IHl 1.
  intros [|entry below]; constructor; [apply IH|apply IHl].
Qed.

Lemma walkEntry_directory (dir name : string) (below : list Dirent) :
  walkEntry enter keep dir (DirentDirectory name (Returns below))
  = if enter name
    then walkEntries enter keep (pathJoin dir name) below
    else Returns [].
Proof.
  cbn [walkEntry]. destruct (enter name); [|reflexivity].
  induction below as [|e below IH]; [reflexivity|].
  cbn [walkEntries]. rewrite <- IH. reflexivity.
Qed.

Lemma Finds_cons (dir : string) (e : Dirent) (rest : list Dirent) (p : string) :
  Finds enter keep dir (e :: rest) p
  <-> Finds enter keep dir [e] p \/ Finds enter keep dir rest p.
Proof.
  split.
  - intro H. inversion H as [d es name Hin Hk|d es name below path Hin He Hf];
      subst; destruct Hin as [->|Hin].
    + left. apply finds_here; [now left|assumption].
    + right. now apply finds_here.
    + left. eapply finds_below; [now left|eassumption..].
    + right. eapply finds_below; eassumption.
  - intros [H|H];
      inversion H as [d es name Hin Hk|d es name below path Hin He Hf]; subst.
    + destruct Hin as [->|[]]. apply finds_here; [now left|assumption].
    + destruct Hin as [->|[]]. eapply finds_below; [now left|eassumption..].
    + apply finds_here; [now right|assumption].
    + eapply finds_below; [right|..]; eassumption.
Qed.

Lemma Blocked_cons (e : Dirent) (rest : list Dirent) :
  Blocked enter (e :: rest) <-> Blocked enter [e] \/ Blocked enter rest.
Proof.
  split.
  - intro H. inversion H as [es name m Hin He|es name below Hin He Hb];
      subst; destruct Hin as [->|Hin].
    + left. eapply blocked_here; [now left|assumption].
    + right. eapply blocked_here; eassumption.
    + left. eapply blocked_below; [now left|eassumption..].
    + right. eapply blocked_below; eassumption.
  - intros [H|H];
      inversion H as [es name m Hin He|es name below Hin He Hb]; subst.
    + destruct Hin as [->|[]]. eapply blocked_here; [now left|assumption].
    + destruct Hin as [->|[]]. eapply blocked_below; [now left|eassumption..].
    + eapply blocked_here; [right|]; eassumption.
    + eapply blocked_below; [right|..]; eassumption.
Qed.

(** Inverts a [Finds] or [Blocked] over a list that is written out. *)
Ltac walk_inv H :=
  inversion H; subst; cbn [In] in *;
  repeat match goal with
         | Hin : _ \/ _ |- _ => destruct Hin as [Hin|Hin]
         | Hin : False |- _ => destruct Hin
         | Heq : _ = _ |- _ => discriminate Heq
         | Heq : DirentDirectory _ _ = DirentDirectory _ _ |- _ =>
             injection Heq as -> ?
         | Heq : DirentFile _ = DirentFile _ |- _ => injection Heq as ->
         | Heq : Returns _ = Returns _ |- _ => injection Heq as ->
         end;
  try congruence; try assumption; try (now left).

Lemma walkEntries_answers_from (entries : list Dirent) :
  Forall (fun e => forall dir,
            walkAnswers enter keep dir [e] (walkEntry enter keep dir e)) entries ->
  forall dir, walkAnswers enter keep dir entries (walkEntries enter keep dir entries).
Proof.
  induction 1 as [|e rest He _ IH]; intro dir; cbn [walkEntries].
  - split.
    + intro H. walk_inv H.
    + intro p. split; [intros []|]. intro H. walk_inv H.
  - specialize (He dir). specialize (IH dir).
    destruct (walkEntry enter keep dir e) as [found|m]; cbn in He.
    + destruct (walkEntries enter keep dir rest) as [more|m]; cbn in IH |- *.
      * destruct He as [Hb1 Hf1]. destruct IH as [Hb2 Hf2]. split.
        -- rewrite Blocked_cons. tauto.
        -- intro p. rewrite in_app_iff, Finds_cons, Hf1, Hf2. tauto.
      * apply Blocked_cons. now right.
    + apply Blocked_cons. now left.
Qed.

Lemma walkEntry_answers (entry : Dirent) :
  forall dir, walkAnswers enter keep dir [entry] (walkEntry enter keep dir entry).
Proof.
  induction entry as [name|name e|name below IH|name] using Dirent_induction;
    intro dir.
  - cbn [walkEntry]. destruct (keep name) eqn:Hk; cbn.
    + split; [intro H; walk_inv H|].
      intro p. split.
      * intros [<-|[]]. apply finds_here; [now left|exact Hk].
      * intro H. walk_inv H.
    + split; [intro H; walk_inv H|].
      intro p. split; [intros []|]. intro H. walk_inv H.
  - cbn [walkEntry]. destruct (enter name) eqn:He; cbn.
    + eapply blocked_here; [now left|exact He].
    + split; [intro H; walk_inv H|].
      intro p. split; [intros []|]. intro H. walk_inv H.
  - rewrite walkEntry_directory.
    pose proof (walkEntries_answers_from below IH (pathJoin dir name)) as Hbelow.
    destruct (enter name) eqn:He.
    + destruct (walkEntries enter keep (pathJoin dir name) below) as [paths|m];
        cbn in Hbelow |- *.
      * destruct Hbelow as [Hb Hf]. split; [intro H; walk_inv H|].
        intro p. rewrite Hf. split.
        -- intro H. eapply finds_below; [now left|exact He|exact H].
        -- intro H. walk_inv H.
      * eapply blocked_below; [now left|exact He|exact Hbelow].
    + cbn. split; [intro H; walk_inv H|].
      intro p. split; [intros []|]. intro H. walk_inv H.
  - cbn. split; [intro H; walk_inv H|].
    intro p. split; [intros []|]. intro H. walk_inv H.
Qed.

Lemma walkEntries_answers (entries : list Dirent) (dir : string) :
  walkAnswers enter keep dir entries (walkEntries enter keep dir entries).
Proof.
  apply walkEntries_answers_from. apply Forall_forall.
  intros e _. apply walkEntry_answers.
Qed.

(** Every file found lies below the directory the walk starts from and has
    a name that [keep] accepts. *)
Lemma Finds_below (dir : string) (entries : list Dirent) (p : string) :
  Finds enter keep dir entries p ->
  exists rest name,
    p = pathJoin dir rest /\ endsWith name rest = true /\ keep name = true.
Proof.
  induction 1 as [dir entries name _ Hk|dir entries name below path _ _ _ IH].
  - exists name, name. split; [reflexivity|]. split; [|exact Hk].
    apply endsWith_spec. now exists "".
  - destruct IH as (rest & leaf & -> & Hends & Hk).
    exists (pathJoin name rest), leaf. split.
    + unfold pathJoin. now rewrite !string_app_assoc.
    + split; [|exact Hk]. apply endsWith_spec in Hends as [b ->].
      apply endsWith_spec. exists (name +:+ "/" +:+ b). unfold pathJoin.
      now rewrite !string_app_assoc.
Qed.
End WalkLemmas.

(** ** The regular expressions of the pattern checks *)

Lemma searchFrom_None (literal s : string) (i : nat) :
  searchFrom literal s i = None <->
  forall k, (k <= String.length s)%nat ->
            matchesHere literal (dropString k s) = false.
Proof.
  revert i. induction s as [|c s IH]; intro i; cbn [searchFrom].
  - destruct (matchesHere literal "") eqn:Hm.
    + split; [discriminate|]. intro H. specialize (H 0%nat). cbn in H.
      rewrite Hm in H. specialize (H (Nat.le_refl _)). discriminate.
    + split; [|reflexivity]. intros _ [|k] Hk; cbn; [exact Hm|exact Hm].
  - destruct (matchesHere literal (String c s)) eqn:Hm.
    + split; [discriminate|]. intro H. specialize (H 0%nat). cbn in H.
      rewrite Hm in H. specialize (H (Nat.le_0_l _)). discriminate.
    + rewrite IH. split.
      * intros H [|k] Hk; [exact Hm|]. cbn. apply H. cbn in Hk. lia.
      * intros H k Hk. apply (H (S k)). cbn. lia.
Qed.

Lemma searchFrom_Some (literal s : string) (i j : nat) :
  searchFrom literal s i = Some j ->
  exists k, j = (i + k)%nat /\ (k <= String.length s)%nat
            /\ matchesHere literal (dropString k s) = true.
Proof.
  revert i. induction s as [|c s IH]; intro i; cbn [searchFrom].
  - destruct (matchesHere literal "") eqn:Hm; [|discriminate].
    intros [= <-]. exists 0%nat. rewrite Nat.add_0_r. auto.
  - destruct (matchesHere literal (String c s)) eqn:Hm.
    + intros [= <-]. exists 0%nat. rewrite Nat.add_0_r. cbn. auto with arith.
    + intro H. destruct (IH _ H) as (k & -> & Hk & Hmk).
      exists (S k). cbn. split; [lia|]. split; [lia|exact Hmk].
Qed.

(** A regular expression that starts from 0 sees every occurrence. *)
Lemma RegExp_test_fresh (literal s : string) :
  fst (RegExp_test literal 0 s) = true <-> occurs literal s.
Proof.
  unfold RegExp_test, occurs. cbn [Nat.ltb Nat.leb dropString].
  destruct (searchFrom literal s 0) as [j|] eqn:Hs; cbn [fst].
  - split; [|reflexivity]. intros _.
    destruct (searchFrom_Some _ _ _ _ Hs) as (k & _ & Hk & Hm). eauto.
  - split; [discriminate|]. intros (k & Hk & Hm).
    rewrite (proj1 (searchFrom_None _ _ _) Hs k Hk) in Hm. discriminate.
Qed.

(** Wherever it starts from, it reports only what is there. *)
Lemma RegExp_test_sound (literal s : string) (lastIndex : nat) :
  fst (RegExp_test literal lastIndex s) = true -> occurs literal s.
Proof.
  unfold RegExp_test, occurs.
  destruct (String.length s <? lastIndex)%nat eqn:Hlen; [discriminate|].
  apply Nat.ltb_ge in Hlen.
  destruct (searchFrom literal (dropString lastIndex s) lastIndex) as [j|] eqn:Hs;
    [|discriminate].
  intros _. destruct (searchFrom_Some _ _ _ _ Hs) as (k & _ & Hk & Hm).
  rewrite length_dropString in Hk. exists (lastIndex + k)%nat.
  split; [lia|]. now rewrite dropString_add.
Qed.

(** A failed test leaves it at 0. *)
Lemma RegExp_test_resets (literal s : string) (lastIndex : nat) :
  fst (RegExp_test literal lastIndex s) = false ->
  snd (RegExp_test literal lastIndex s) = 0%nat.
Proof.
  unfold RegExp_test.
  destruct (String.length s <? lastIndex)%nat; [reflexivity|].
  destruct (searchFrom literal (dropString lastIndex s) lastIndex);
    [discriminate|reflexivity].
Qed.


Lemma endsWith_trans (a b c : string) :
  endsWith a b = true -> endsWith b c = true -> endsWith a c = true.
Proof.
  rewrite !endsWith_spec. intros [x ->] [y ->]. exists (y +:+ x).
  now rewrite string_app_assoc.
Qed.

(** ** Finding the Solidity files *)

(** X5. The walk that looks for contracts (the same code in cloneRepo.ts
    and in runStaticAnalysis.ts) returns exactly the regular files whose
    name ends in .sol and that lie in the directory it starts from or below
    it, under directories other than node_modules and .git; it throws
    exactly when one of the directories it enters cannot be read.  What is
    inside a node_modules or .git directory, at any depth, is never read.
    Every path it returns is the start directory followed by a relative path
    that ends in .sol. *)
Theorem findSolFiles_finds_the_sol_files_outside_node_modules :
  (forall dir entries,
      walkAnswers CloneRepo.entersDirectory (endsWith ".sol") dir entries
        (CloneRepo.findSolFiles dir (Returns entries)))
  /\ (forall dir e, CloneRepo.findSolFiles dir (Throws e) = Throws e)
  /\ (forall dir name inside inside',
        name = "node_modules" \/ name = ".git" ->
        walkEntry CloneRepo.entersDirectory (endsWith ".sol") dir
          (DirentDirectory name inside)
        = walkEntry CloneRepo.entersDirectory (endsWith ".sol") dir
            (DirentDirectory name inside')
        /\ walkEntry CloneRepo.entersDirectory (endsWith ".sol") dir
             (DirentDirectory name inside) = Returns [])
  /\ (forall dir entries p,
        Finds CloneRepo.entersDirectory (endsWith ".sol") dir entries p ->
        exists rest, p = pathJoin dir rest /\ endsWith ".sol" rest = true)
  /\ (forall dir entries,
        PatternChecks.findSolFiles dir entries = CloneRepo.findSolFiles dir entries).
Proof.
  split; [intros; apply walkEntries_answers|].
  split; [reflexivity|]. split.
  { intros dir name inside inside' [->| ->]; split; reflexivity. }
  split; [|reflexivity].
  intros dir entries p H.
  destruct (Finds_below _ _ _ _ _ H) as (rest & name & -> & Hends & Hk).
  exists rest. split; [reflexivity|]. eapply endsWith_trans; eassumption.
Qed.

(** ** The loops of the pattern checks *)

Section PatternLoops.
Import PatternChecks.


Lemma scanLines_app repoPath filePath pattern (a b : list string) :
  forall index lastIndex idCounter findings,
    scanLines repoPath filePath pattern (a ++ b) index lastIndex idCounter findings
    = let '(lastIndex', idCounter', findings') :=
        scanLines repoPath filePath pattern a index lastIndex idCounter findings in
      scanLines repoPath filePath pattern b (index + length a) lastIndex'
        idCounter' findings'.
Proof.
  induction a as [|line a IH]; intros index lastIndex idCounter findings;
    cbn [scanLines app length].
  - now rewrite Nat.add_0_r.
  - destruct (RegExp_test (p_regex pattern) lastIndex line) as [[|] lastIndex'];
      rewrite IH; replace (S index + length a)%nat with (index + S (length a))%nat
        by lia; reflexivity.
Qed.

(** What a loop adds to the findings: [new], numbered on from the counter,
    each element the report of a line the loop looked at in which the
    pattern occurs. *)
Lemma scanLines_adds repoPath filePath pattern (lines : list string) :
  forall index lastIndex idCounter findings,
    exists lastIndex' new,
      scanLines repoPath filePath pattern lines index lastIndex idCounter findings
      = (lastIndex', (idCounter + length new)%nat, findings ++ new)
      /\ map id new = map (findingId "PTRN") (seq idCounter (length new))
      /\ Forall (fun f =>
                   exists k line,
                     lines !! k = Some line
                     /\ reportsLine repoPath filePath (index + k) line pattern f
                     /\ occurs (p_regex pattern) line) new.
Proof.
  induction lines as [|line lines IH]; intros index lastIndex idCounter findings;
    cbn [scanLines].
  - exists lastIndex, []. rewrite app_nil_r, Nat.add_0_r. repeat split. constructor.
  - destruct (RegExp_test (p_regex pattern) lastIndex line) as [[|] lastIndex']
      eqn:Htest.
    + destruct (IH (S index) lastIndex' (S idCounter)
                  (findings
                   ++ [patternFinding idCounter repoPath filePath index line pattern]))
        as (li & new & -> & Hids & Hall).
      exists li, (patternFinding idCounter repoPath filePath index line pattern :: new).
      cbn [length]. rewrite <- app_assoc. cbn [app].
      split; [f_equal; f_equal; lia|]. split; [cbn; now rewrite Hids|].
      constructor.
      * exists 0%nat, line. rewrite Nat.add_0_r. split; [reflexivity|].
        split; [now exists idCounter|].
        apply (RegExp_test_sound _ _ lastIndex). now rewrite Htest.
      * eapply Forall_impl; [exact Hall|]. intros f (k & l & Hk & Hr & Ho).
        exists (S k), l. replace (index + S k)%nat with (S index + k)%nat by lia.
        auto.
    + destruct (IH (S index) lastIndex' idCounter findings)
        as (li & new & -> & Hids & Hall).
      exists li, new. split; [reflexivity|]. split; [exact Hids|].
      eapply Forall_impl; [exact Hall|]. intros f (k & l & Hk & Hr & Ho).
      exists (S k), l. replace (index + S k)%nat with (S index + k)%nat by lia.
      auto.
Qed.

Lemma seq_ids_app (prefix : string) (c : nat) (a b : list Finding) :
  map id a = map (findingId prefix) (seq c (length a)) ->
  map id b = map (findingId prefix) (seq (c + length a) (length b)) ->
  map id (a ++ b) = map (findingId prefix) (seq c (length (a ++ b))).
Proof.
  intros Ha Hb. rewrite map_app, length_app, seq_app, map_app. now rewrite Ha, Hb.
Qed.

Lemma scanPatterns_adds repoPath filePath (lines : list string)
    (scanners : list Scanner) :
  forall idCounter findings,
    exists scanners' new,
      scanPatterns repoPath filePath lines scanners idCounter findings
      = (scanners', (idCounter + length new)%nat, findings ++ new)
      /\ map sc_pattern scanners' = map sc_pattern scanners
      /\ map id new = map (findingId "PTRN") (seq idCounter (length new))
      /\ Forall (fun f =>
                   exists k line pattern,
                     In pattern (map sc_pattern scanners)
                     /\ lines !! k = Some line
                     /\ reportsLine repoPath filePath k line pattern f
                     /\ occurs (p_regex pattern) line) new.
Proof.
  induction scanners as [|scanner scanners IH]; intros idCounter findings;
    cbn [scanPatterns].
  - exists [], []. rewrite app_nil_r, Nat.add_0_r. repeat split. constructor.
  - destruct (scanLines_adds repoPath filePath (sc_pattern scanner) lines 0
                (sc_lastIndex scanner) idCounter findings)
      as (li & new1 & -> & Hids1 & Hall1).
    destruct (IH (idCounter + length new1)%nat (findings ++ new1))
      as (rest' & new2 & -> & Hpat & Hids2 & Hall2).
    exists (mkScanner (sc_pattern scanner) li :: rest'), (new1 ++ new2).
    split; [rewrite length_app, <- app_assoc; f_equal; f_equal; lia|].
    split; [cbn; now rewrite Hpat|]. split; [now apply seq_ids_app|].
    apply Forall_app. split.
    + eapply Forall_impl; [exact Hall1|]. intros f (k & l & Hk & Hr & Ho).
      exists k, l, (sc_pattern scanner). cbn. auto.
    + eapply Forall_impl; [exact Hall2|]. intros f (k & l & p & Hp & Hk & Hr & Ho).
      exists k, l, p. cbn. auto.
Qed.

Lemma scanFiles_adds readFile repoPath (solFiles : list string) :
  forall scanners idCounter findings,
    exists new,
      scanFiles readFile repoPath solFiles scanners idCounter findings
      = findings ++ new
      /\ map id new = map (findingId "PTRN") (seq idCounter (length new))
      /\ Forall (fun f =>
                   exists filePath content k line pattern,
                     In filePath solFiles
                     /\ readFile filePath = Returns content
                     /\ In pattern (map sc_pattern scanners)
                     /\ String_split "010" content !! k = Some line
                     /\ reportsLine repoPath filePath k line pattern f
                     /\ occurs (p_regex pattern) line) new.
Proof.
  induction solFiles as [|filePath solFiles IH]; intros scanners idCounter findings;
    cbn [scanFiles].
  - exists []. rewrite app_nil_r. repeat split. constructor.
  - destruct (readFile filePath) as [content|e] eqn:Hread.
    + destruct (scanPatterns_adds repoPath filePath (String_split "010" content)
                  scanners idCounter findings)
        as (scanners' & new1 & -> & Hpat & Hids1 & Hall1).
      destruct (IH scanners' (idCounter + length new1)%nat (findings ++ new1))
        as (new2 & -> & Hids2 & Hall2).
      exists (new1 ++ new2). rewrite <- app_assoc. split; [reflexivity|].
      split; [now apply seq_ids_app|]. apply Forall_app. split.
      * eapply Forall_impl; [exact Hall1|].
        intros f (k & l & p & Hp & Hk & Hr & Ho).
        exists filePath, content, k, l, p. cbn. auto 10.
      * eapply Forall_impl; [exact Hall2|].
        intros f (fp & ct & k & l & p & Hf & Hrd & Hp & Hk & Hr & Ho).
        exists fp, ct, k, l, p. rewrite <- Hpat. cbn. auto 10.
    + exists []. rewrite app_nil_r. repeat split. constructor.
Qed.

(** After a line in which the pattern does not occur the regular expression
    is back at 0, wherever it was. *)
Lemma scanLines_miss_resets repoPath filePath pattern (before : list string)
    (prev : string) index lastIndex idCounter findings :
  ~ occurs (p_regex pattern) prev ->
  fst (fst (scanLines repoPath filePath pattern (before ++ [prev]) index
              lastIndex idCounter findings)) = 0%nat.
Proof.
  intro Hno. rewrite scanLines_app.
  destruct (scanLines repoPath filePath pattern before index lastIndex idCounter
              findings) as [[li c] fs].
  cbn [scanLines].
  pose proof (RegExp_test_sound (p_regex pattern) prev li) as Hsound.
  pose proof (RegExp_test_resets (p_regex pattern) prev li) as Hreset.
  destruct (RegExp_test (p_regex pattern) li prev) as [[|] li']; cbn in *.
  - destruct (Hno (Hsound eq_refl)).
  - exact (Hreset eq_refl).
Qed.

(** A line in which the pattern occurs is reported when the regular
    expression reaches it at 0. *)
Lemma scanLines_hit_when_fresh repoPath filePath pattern
    (before after : list string) (line : string) index lastIndex idCounter findings :
  fst (fst (scanLines repoPath filePath pattern before index lastIndex idCounter
              findings)) = 0%nat ->
  occurs (p_regex pattern) line ->
  exists f,
    In f (snd (scanLines repoPath filePath pattern (before ++ line :: after) index
                 lastIndex idCounter findings))
    /\ reportsLine repoPath filePath (index + length before) line pattern f.
Proof.
  intros Hfresh Hocc. rewrite scanLines_app.
  destruct (scanLines repoPath filePath pattern before index lastIndex idCounter
              findings) as [[li c] fs].
  cbn in Hfresh. subst li. cbn [scanLines].
  apply RegExp_test_fresh in Hocc.
  destruct (RegExp_test (p_regex pattern) 0 line) as [[|] li'];
    [|discriminate Hocc].
  match goal with
  | |- context [scanLines ?r ?fp ?p ?ls ?i ?li ?c' ?fs'] =>
      destruct (scanLines_adds r fp p ls i li c' fs') as (li2 & new & -> & _ & _)
  end.
  eexists. split; [|eexists; reflexivity].
  cbn [snd]. apply in_or_app. left. apply in_or_app. right. now left.
Qed.

Lemma scanPatterns_reports repoPath filePath (before after : list string)
    (line : string) (scanners : list Scanner) (scanner : Scanner) :
  In scanner scanners ->
  (forall index idCounter findings,
      fst (fst (scanLines repoPath filePath (sc_pattern scanner) before index
                  (sc_lastIndex scanner) idCounter findings)) = 0%nat) ->
  occurs (p_regex (sc_pattern scanner)) line ->
  forall idCounter findings,
    exists f,
      In f (snd (scanPatterns repoPath filePath (before ++ line :: after)
                   scanners idCounter findings))
      /\ reportsLine repoPath filePath (length before) line (sc_pattern scanner) f.
Proof.
  intros Hin Hfresh Hocc.
  induction scanners as [|head scanners IH]; [destruct Hin|].
  intros idCounter findings. cbn [scanPatterns].
  destruct Hin as [->|Hin].
  - destruct (scanLines_hit_when_fresh repoPath filePath (sc_pattern scanner)
                before after line 0 (sc_lastIndex scanner) idCounter findings
                (Hfresh _ _ _) Hocc) as (f & Hf & Hr).
    destruct (scanLines repoPath filePath (sc_pattern scanner)
                (before ++ line :: after) 0 (sc_lastIndex scanner) idCounter
                findings) as [[li c] fs].
    destruct (scanPatterns_adds repoPath filePath (before ++ line :: after)
                scanners c fs) as (rest' & new & -> & _ & _ & _).
    exists f. split; [|exact Hr]. cbn [snd] in *. apply in_or_app. now left.
  - destruct (scanLines repoPath filePath (sc_pattern head)
                (before ++ line :: after) 0 (sc_lastIndex head) idCounter findings)
      as [[li c] fs].
    destruct (IH Hin c fs) as (f & Hf & Hr).
    destruct (scanPatterns repoPath filePath (before ++ line :: after) scanners
                c fs) as [[rest' c'] fs'].
    exists f. auto.
Qed.

Lemma scanFiles_reports readFile repoPath (filesBefore filesAfter : list string)
    (filePath content : string) (before after : list string) (line : string)
    (pattern : Pattern) :
  Forall (fun p => exists c, readFile p = Returns c) filesBefore ->
  readFile filePath = Returns content ->
  String_split "010" content = before ++ line :: after ->
  (forall index lastIndex idCounter findings,
      fst (fst (scanLines repoPath filePath pattern before index lastIndex
                  idCounter findings)) = 0%nat) ->
  occurs (p_regex pattern) line ->
  forall scanners idCounter findings,
    In pattern (map sc_pattern scanners) ->
    exists f,
      In f (scanFiles readFile repoPath (filesBefore ++ filePath :: filesAfter)
              scanners idCounter findings)
      /\ reportsLine repoPath filePath (length before) line pattern f.
Proof.
  intros Hreadable Hread Hsplit Hfresh Hocc.
  induction Hreadable as [|p filesBefore [c Hc] _ IH];
    intros scanners idCounter findings Hpat; cbn [scanFiles app].
  - rewrite Hread, Hsplit.
    apply in_map_iff in Hpat as (scanner & <- & Hin).
    destruct (scanPatterns_reports repoPath filePath before after line scanners
                scanner Hin (fun i c fs => Hfresh i _ c fs) Hocc idCounter
                findings) as (f & Hf & Hr).
    destruct (scanPatterns repoPath filePath (before ++ line :: after) scanners
                idCounter findings) as [[scanners' c'] fs'].
    destruct (scanFiles_adds readFile repoPath filesAfter scanners' c' fs')
      as (new & -> & _ & _).
    exists f. split; [|exact Hr]. cbn [snd] in Hf. apply in_or_app. now left.
  - rewrite Hc.
    destruct (scanPatterns_adds repoPath p (String_split "010" c) scanners
                idCounter findings) as (scanners' & new & -> & Hsame & _ & _).
    apply IH. now rewrite Hsame.
Qed.

Lemma scanFiles_stops readFile repoPath (filesBefore filesAfter : list string)
    (bad e : string) :
  readFile bad = Throws e ->
  forall scanners idCounter findings,
    scanFiles readFile repoPath (filesBefore ++ bad :: filesAfter) scanners
      idCounter findings
    = scanFiles readFile repoPath filesBefore scanners idCounter findings.
Proof.
  intro Hbad. induction filesBefore as [|p filesBefore IH];
    intros scanners idCounter findings; cbn [scanFiles app].
  - now rewrite Hbad.
  - destruct (readFile p) as [content|]; [|reflexivity].
    destruct (scanPatterns repoPath p (String_split "010" content) scanners
                idCounter findings) as [[scanners' c'] fs'].
    apply IH.
Qed.


Lemma runPatternChecks_members
    (readFile : string -> Completion string) (repoPath : string)
    (root : Completion (list Dirent)) (f : Finding) :
  In f (PatternChecks.runPatternChecks readFile repoPath root) ->
  exists entries relative content index text pattern,
    root = Returns entries
    /\ Finds CloneRepo.entersDirectory (endsWith ".sol") repoPath entries
         (pathJoin repoPath relative)
    /\ readFile (pathJoin repoPath relative) = Returns content
    /\ String_split "010" content !! index = Some text
    /\ In pattern PatternChecks.patterns
    /\ occurs (PatternChecks.p_regex pattern) text
    /\ file f = relative
    /\ line f = Z.of_nat index + 1
    /\ title f = PatternChecks.p_title pattern
    /\ severity f = PatternChecks.p_severity pattern
    /\ (severity f = medium \/ severity f = high)
    /\ confidence f = conf_medium
    /\ recommendation f = PatternChecks.p_recommendation pattern
    /\ tool f = "PatternCheck"
    /\ category f = "security"
    /\ description f = "Found suspicious pattern: " +:+ substring0 100 (trim text)
    /\ (String.length (substring0 100 (trim text)) <= 100)%nat.
Proof.
  unfold runPatternChecks, PatternChecks.findSolFiles. intro Hin.
  destruct root as [entries|e]; cbn [walkDir] in Hin; [|destruct Hin].
  pose proof (walkEntries_answers CloneRepo.entersDirectory (endsWith ".sol")
                entries repoPath) as Hwalk.
  destruct (walkEntries CloneRepo.entersDirectory (endsWith ".sol") repoPath entries)
    as [solFiles|e]; [|destruct Hin].
  destruct Hwalk as [_ Hfinds].
  destruct (scanFiles_adds readFile repoPath solFiles newScanners 1 [])
    as (new & Heq & _ & Hall).
  rewrite Heq in Hin. cbn [app] in Hin.
  rewrite List.Forall_forall in Hall.
  destruct (Hall f Hin)
    as (filePath & content & k & text & pattern & Hfile & Hread & Hpat & Hk
        & [c ->] & Hocc).
  apply Hfinds in Hfile.
  destruct (Finds_below _ _ _ _ _ Hfile) as (relative & name & -> & _ & _).
  exists entries, relative, content, k, text, pattern.
  split; [reflexivity|]. split; [exact Hfile|]. split; [exact Hread|].
  split; [exact Hk|].
  assert (Hp : In pattern patterns).
  { unfold newScanners in Hpat. rewrite map_map in Hpat. exact Hpat. }
  split; [exact Hp|]. split; [exact Hocc|].
  split; [apply pathRelative_pathJoin|].
  repeat (split; [reflexivity|]).
  split.
  { cbn [severity patternFinding]. cbn in Hp.
    destruct Hp as [<-|[<-|[<-|[<-|[]]]]]; cbn; auto. }
  repeat (split; [reflexivity|]).
  clear. unfold substring0. generalize (trim text) as s. generalize 100%nat as n.
  induction n as [|n IH]; intros [|c s]; cbn; auto with arith.
Qed.
End PatternLoops.

(** ** The pattern checks *)

(** X7. Every finding of runPatternChecks is about a line that is there: a
    Solidity file the walk found and that could be read, a line of it, and
    one of the four patterns that occurs in that line (in whatever letter
    case).  The finding names the file relative to the repository and the
    line counted from 1, carries the title, severity and recommendation of
    the pattern, confidence medium, and quotes at most the first 100
    characters of the trimmed line. *)
Theorem runPatternChecks_reports_lines_that_match
    (readFile : string -> Completion string) (repoPath : string)
    (root : Completion (list Dirent)) (f : Finding) :
  In f (PatternChecks.runPatternChecks readFile repoPath root) ->
  exists entries relative content index text pattern,
    root = Returns entries
    /\ Finds CloneRepo.entersDirectory (endsWith ".sol") repoPath entries
         (pathJoin repoPath relative)
    /\ readFile (pathJoin repoPath relative) = Returns content
    /\ String_split "010" content !! index = Some text
    /\ In pattern PatternChecks.patterns
    /\ occurs (PatternChecks.p_regex pattern) text
    /\ file f = relative
    /\ line f = Z.of_nat index + 1
    /\ title f = PatternChecks.p_title pattern
    /\ severity f = PatternChecks.p_severity pattern
    /\ (severity f = medium \/ severity f = high)
    /\ confidence f = conf_medium
    /\ recommendation f = PatternChecks.p_recommendation pattern
    /\ tool f = "PatternCheck"
    /\ category f = "security"
    /\ description f = "Found suspicious pattern: " +:+ substring0 100 (trim text)
    /\ (String.length (substring0 100 (trim text)) <= 100)%nat.
Proof. apply runPatternChecks_members. Qed.

(** X8. The regular expressions of runPatternChecks are global, so each
    keeps the position of its last match from one line to the next.  A line
    in which a pattern occurs is reported whenever the line before it in the
    file has no occurrence of that pattern, and so is the first line of the
    first file; what can be missed is a line that directly follows a
    reported one, as the second of the two [tx.origin] lines of the example
    is: there one finding is returned for two matching lines. *)
Theorem runPatternChecks_reports_a_match_after_a_clean_line :
  (forall readFile repoPath root filesBefore filePath filesAfter content
          before prev text after pattern,
      PatternChecks.findSolFiles repoPath root
      = Returns (filesBefore ++ filePath :: filesAfter) ->
      Forall (fun p => exists c, readFile p = Returns c) filesBefore ->
      readFile filePath = Returns content ->
      String_split "010" content = before ++ prev :: text :: after ->
      In pattern PatternChecks.patterns ->
      ~ occurs (PatternChecks.p_regex pattern) prev ->
      occurs (PatternChecks.p_regex pattern) text ->
      exists f,
        In f (PatternChecks.runPatternChecks readFile repoPath root)
        /\ reportsLine repoPath filePath (S (length before)) text pattern f)
  /\ (forall readFile repoPath root filePath filesAfter content text after pattern,
        PatternChecks.findSolFiles repoPath root = Returns (filePath :: filesAfter) ->
        readFile filePath = Returns content ->
        String_split "010" content = text :: after ->
        In pattern PatternChecks.patterns ->
        occurs (PatternChecks.p_regex pattern) text ->
        exists f,
          In f (PatternChecks.runPatternChecks readFile repoPath root)
          /\ reportsLine repoPath filePath 0 text pattern f)
  /\ (String_split "010" vaultSource
      = [ "contract Vault {";
          "  function sweep() external { require(tx.origin == owner); }";
          "  function close() external { require(tx.origin == admin); }";
          "}" ]
      /\ occurs "tx.origin"
           "  function sweep() external { require(tx.origin == owner); }"
      /\ occurs "tx.origin"
           "  function close() external { require(tx.origin == admin); }"
      /\ map (fun f => (file f, line f, title f))
           (PatternChecks.runPatternChecks (fun _ => Returns vaultSource)
              "/app/cloned-repos/vault-999" (Returns vaultTree))
         = [("contracts/Vault.sol", 2, "tx.origin usage detected")]).
Proof.
  split; [|split].
  - intros readFile repoPath root filesBefore filePath filesAfter content
      before prev text after pattern Hwalk Hreadable Hread Hsplit Hpat Hno Hocc.
    unfold PatternChecks.runPatternChecks. rewrite Hwalk.
    replace (before ++ prev :: text :: after)
      with ((before ++ [prev]) ++ text :: after) in Hsplit
      by (now rewrite <- app_assoc).
    assert (Hfresh : forall index lastIndex idCounter findings,
               fst (fst (PatternChecks.scanLines repoPath filePath pattern (before ++ [prev])
                           index lastIndex idCounter findings)) = 0%nat)
      by (intros; now apply scanLines_miss_resets).
    assert (Hpat' : In pattern (map PatternChecks.sc_pattern PatternChecks.newScanners))
      by (unfold PatternChecks.newScanners; rewrite map_map; exact Hpat).
    destruct (scanFiles_reports readFile repoPath filesBefore filesAfter filePath
                content (before ++ [prev]) after text pattern Hreadable Hread
                Hsplit Hfresh Hocc PatternChecks.newScanners 1%nat [] Hpat')
      as (f & Hf & Hr).
    exists f. split; [exact Hf|].
    rewrite length_app, Nat.add_1_r in Hr. exact Hr.
  - intros readFile repoPath root filePath filesAfter content text after pattern
      Hwalk Hread Hsplit Hpat Hocc.
    unfold PatternChecks.runPatternChecks. rewrite Hwalk. cbn [PatternChecks.scanFiles].
    rewrite Hread, Hsplit.
    assert (Hsc : In (PatternChecks.mkScanner pattern 0) PatternChecks.newScanners)
      by (unfold PatternChecks.newScanners;
          apply (in_map (fun p => PatternChecks.mkScanner p 0) PatternChecks.patterns pattern Hpat)).
    destruct (scanPatterns_reports repoPath filePath [] after text PatternChecks.newScanners
                (PatternChecks.mkScanner pattern 0) Hsc (fun _ _ _ => eq_refl) Hocc 1%nat [])
      as (f & Hf & Hr).
    cbn [app length] in Hf, Hr.
    destruct (PatternChecks.scanPatterns repoPath filePath (text :: after) PatternChecks.newScanners 1 [])
      as [[scanners' c'] fs'].
    destruct (scanFiles_adds readFile repoPath filesAfter scanners' c' fs')
      as (new & -> & _ & _).
    exists f. split; [|exact Hr]. apply in_or_app. now left.
  - split; [vm_compute; reflexivity|].
    split; [apply RegExp_test_fresh; vm_compute; reflexivity|].
    split; [apply RegExp_test_fresh; vm_compute; reflexivity|].
    vm_compute. reflexivity.
Qed.

(** X9. runPatternChecks never throws, and what goes wrong is not told to
    the caller: when the root directory or any directory the walk enters
    cannot be read, the result is the empty list; when a contract cannot be
    read, the result is what had been found in the files before it, and
    neither that file nor any file after it is looked at. *)
Theorem runPatternChecks_keeps_what_it_found_before_a_failure :
  (forall readFile repoPath e,
      PatternChecks.runPatternChecks readFile repoPath (Throws e) = [])
  /\ (forall readFile repoPath entries,
        Blocked CloneRepo.entersDirectory entries ->
        PatternChecks.runPatternChecks readFile repoPath (Returns entries) = [])
  /\ (forall readFile repoPath root filesBefore bad filesAfter e,
        PatternChecks.findSolFiles repoPath root
        = Returns (filesBefore ++ bad :: filesAfter) ->
        readFile bad = Throws e ->
        PatternChecks.runPatternChecks readFile repoPath root
        = PatternChecks.scanFiles readFile repoPath filesBefore
            PatternChecks.newScanners 1 []).
Proof.
  split; [reflexivity|]. split.
  - intros readFile repoPath entries Hblocked.
    unfold PatternChecks.runPatternChecks, PatternChecks.findSolFiles. cbn [walkDir].
    pose proof (walkEntries_answers CloneRepo.entersDirectory (endsWith ".sol")
                  entries repoPath) as Hwalk.
    destruct (walkEntries CloneRepo.entersDirectory (endsWith ".sol") repoPath
                entries); [|reflexivity].
    destruct Hwalk as [Hnot _]. contradiction.
  - intros readFile repoPath root filesBefore bad filesAfter e Hwalk Hbad.
    unfold PatternChecks.runPatternChecks. rewrite Hwalk. now apply scanFiles_stops with (e := e).
Qed.

(** ** Ids and severities across the three analyzers *)

Lemma solhintFinding_ids (n : nat) (pairs : list (SolhintReport * SolhintIssue)) :
  map o_id (imap (fun k p => solhintFinding (n + k) (fst p) (snd p)) pairs)
  = map (findingId "SLNT") (seq n (length pairs)).
Proof.
  revert n. induction pairs as [|p pairs IH]; intro n; [reflexivity|].
  cbn [imap map length seq]. rewrite Nat.add_0_r. f_equal.
  rewrite <- (IH (S n)). f_equal. apply imap_ext. intros k x _. cbn.
  f_equal. lia.
Qed.

Lemma findingId_NoDup (prefix : string) (n len : nat) :
  NoDup (map (findingId prefix) (seq n len)).
Proof.
  apply NoDup_fmap_2; [|apply NoDup_seq].
  intros a b. apply findingId_inj.
Qed.

Lemma findingId_prefix_neq (p q : string) (n m : nat) :
  String.length p = String.length q -> p <> q -> findingId p n <> findingId q m.
Proof.
  unfold findingId. revert q. induction p as [|c p IH]; intros [|d q] Hlen Hne;
    try discriminate; [congruence|].
  rewrite !append_cons. intros [= -> H]. apply (IH q); [now injection Hlen|
    congruence|exact H].
Qed.

(** X2. Within one run of an analyzer the ids of its findings are the
    prefix of the tool followed by the position of the finding, counted from
    1 and padded to three digits; so the ids of the findings of the three
    analyzers taken together are pairwise distinct. *)
Theorem analyzer_finding_ids_are_distinct :
  forall (report : option (list SlitherDetector))
         (output : option (list SolhintReport))
         (readFile : string -> Completion string) (repoPath : string)
         (root : Completion (list Dirent)),
    map o_id (runSlither report)
    = map (findingId "SLTH") (seq 1 (length (runSlither report)))
    /\ map o_id (runSolhint output)
       = map (findingId "SLNT") (seq 1 (length (runSolhint output)))
    /\ map id (PatternChecks.runPatternChecks readFile repoPath root)
       = map (findingId "PTRN")
           (seq 1 (length (PatternChecks.runPatternChecks readFile repoPath root)))
    /\ NoDup (map o_id (runSlither report) ++ map o_id (runSolhint output)
              ++ map id (PatternChecks.runPatternChecks readFile repoPath root)).
Proof.
  intros report output readFile repoPath root.
  assert (Hs : map o_id (runSlither report)
               = map (findingId "SLTH") (seq 1 (length (runSlither report)))).
  { destruct report as [ds|]; [|reflexivity]. cbn [runSlither].
    destruct (slitherLoop_spec ds 1 []) as (new & -> & Hids & _). exact Hids. }
  assert (Hl : map o_id (runSolhint output)
               = map (findingId "SLNT") (seq 1 (length (runSolhint output)))).
  { destruct output as [rs|]; [|reflexivity]. cbn [runSolhint].
    rewrite solhintLoop_spec. cbn [app]. rewrite length_imap.
    apply (solhintFinding_ids 1). }
  assert (Hp : map id (PatternChecks.runPatternChecks readFile repoPath root)
               = map (findingId "PTRN")
                   (seq 1 (length (PatternChecks.runPatternChecks readFile
                                     repoPath root)))).
  { unfold PatternChecks.runPatternChecks.
    destruct (PatternChecks.findSolFiles repoPath root) as [solFiles|];
      [|reflexivity].
    destruct (scanFiles_adds readFile repoPath solFiles PatternChecks.newScanners 1 [])
      as (new & -> & Hids & _). exact Hids. }
  repeat (split; [assumption|]).
  rewrite Hs, Hl, Hp.
  apply NoDup_app. split; [apply findingId_NoDup|]. split.
  - intros x Hx Hy. apply list_elem_of_fmap in Hx as (n & -> & _).
    apply elem_of_app in Hy as [Hy|Hy];
      apply list_elem_of_fmap in Hy as (m & Heq & _);
      revert Heq; apply findingId_prefix_neq; [reflexivity|discriminate
                                               |reflexivity|discriminate].
  - apply NoDup_app. split; [apply findingId_NoDup|].
    split; [|apply findingId_NoDup].
    intros x Hx Hy. apply list_elem_of_fmap in Hx as (n & -> & _).
    apply list_elem_of_fmap in Hy as (m & Heq & _).
    revert Heq. apply findingId_prefix_neq; [reflexivity|discriminate].
Qed.

Lemma mapSeverity_not_critical (v : JsVal) : mapSeverity v <> SevOf critical.
Proof.
  unfold mapSeverity.
  destruct (SEVERITY_MAP !! toPropertyKey v) as [s|] eqn:Hs.
  - apply elem_of_list_to_map_2 in Hs. cbn. intros [= ->].
    repeat (apply elem_of_cons in Hs as [Hs|Hs]; [discriminate Hs|]).
    inversion Hs.
  - destruct (bool_decide _); discriminate.
Qed.

Lemma slitherLoop_members (ds : list SlitherDetector) :
  forall n acc o,
    In o (slitherLoop n ds acc) ->
    In o acc \/ exists k d, slitherFinding k d = Returns o.
Proof.
  induction ds as [|d ds IH]; intros n acc o; cbn [slitherLoop]; [auto|].
  destruct (slitherFinding n d) as [o'|e] eqn:Ho; [|auto].
  intro Hin. apply IH in Hin as [Hin|Hin]; [|auto].
  apply in_app_or in Hin as [Hin|[<-|[]]]; [auto|]. right. eauto.
Qed.

Lemma Runtime_countSeverity_none (s : Severity) (fs : list FindingObj) :
  Forall (fun f => o_severity f <> SevOf s) fs ->
  Runtime.countSeverity s fs = 0%nat.
Proof.
  unfold Runtime.countSeverity. induction 1 as [|f fs Hf _ IH]; [reflexivity|].
  cbn [List.filter]. unfold Runtime.severityIs at 1.
  destruct (o_severity f) as [s'|key]; [|exact IH].
  destruct s', s; cbn; try exact IH; congruence.
Qed.

(** X4. No analyzer of this file produces a critical finding: the severity
    an adapter stores is high, medium, low or info or, for a native level
    that spells the name of a member of Object.prototype, that member, and
    the pattern checks are medium or high.  So in the findings the three
    analyzers hand to runStaticAnalysis the critical bucket of the summary
    is 0, and every priority score that is a number is at most 7 * 3 = 21. *)
Theorem analyzers_never_report_critical :
  (forall v, mapSeverity v <> SevOf critical)
  /\ (forall report o,
        In o (runSlither report) -> o_severity o <> SevOf critical)
  /\ (forall output o,
        In o (runSolhint output) -> o_severity o <> SevOf critical)
  /\ (forall readFile repoPath root f,
        In f (PatternChecks.runPatternChecks readFile repoPath root) ->
        severity f = medium \/ severity f = high)
  /\ (forall report output readFile repoPath root,
        let findings :=
          runSlither report ++ runSolhint output
          ++ map ofFinding
               (PatternChecks.runPatternChecks readFile repoPath root) in
        s_critical (Runtime.summarize findings) = 0%nat
        /\ Forall (fun f => forall score,
                      Runtime.calculatePriorityScore f = Some score ->
                      score <= 21) findings).
Proof.
  assert (Hslither : forall report o,
             In o (runSlither report) -> o_severity o <> SevOf critical).
  { intros [ds|] o Hin; [|destruct Hin]. cbn [runSlither] in Hin.
    apply slitherLoop_members in Hin as [[]|(k & d & Ho)].
    apply slitherFinding_severity in Ho as ->. apply mapSeverity_not_critical. }
  assert (Hsolhint : forall output o,
             In o (runSolhint output) -> o_severity o <> SevOf critical).
  { intros [rs|] o Hin; [|destruct Hin]. cbn [runSolhint] in Hin.
    rewrite solhintLoop_spec in Hin. cbn [app] in Hin.
    apply list_elem_of_In, elem_of_lookup_imap in Hin as (k & p & -> & _).
    apply mapSeverity_not_critical. }
  assert (Hpattern : forall readFile repoPath root f,
             In f (PatternChecks.runPatternChecks readFile repoPath root) ->
             severity f = medium \/ severity f = high).
  { intros readFile repoPath root f Hin.
    destruct (runPatternChecks_members readFile repoPath root f Hin)
      as (? & ? & ? & ? & ? & ? & H).
    tauto. }
  split; [exact mapSeverity_not_critical|].
  split; [exact Hslither|]. split; [exact Hsolhint|]. split; [exact Hpattern|].
  intros report output readFile repoPath root findings.
  assert (Hall : Forall (fun f => o_severity f <> SevOf critical) findings).
  { apply Forall_app. split; [|apply Forall_app; split].
    - apply List.Forall_forall. intros o Ho. now apply (Hslither report).
    - apply List.Forall_forall. intros o Ho. now apply (Hsolhint output).
    - apply List.Forall_forall. intros o Ho.
      apply in_map_iff in Ho as (f & <- & Hf). cbn [ofFinding o_severity].
      destruct (Hpattern _ _ _ _ Hf) as [-> | ->]; discriminate. }
  split.
  - unfold Runtime.summarize. cbn [s_critical].
    now apply Runtime_countSeverity_none.
  - eapply Forall_impl; [exact Hall|]. intros f Hf score. cbn beta in Hf.
    unfold Runtime.calculatePriorityScore.
    destruct (o_severity f) as [s|key]; [|discriminate].
    destruct (parseConfidence (o_confidence f)) as [c|]; [|discriminate].
    intros [= <-]. destruct s; [congruence|..]; destruct c; cbn; lia.
Qed.

(** ** validateSolidityRepo over a file system *)

(** X6. validateSolidityRepo never throws.  With the file system behind
    it, the repository is valid exactly when every directory the walk enters
    can be read and at least one .sol file is found; the contract files of a
    valid result are exactly the files the walk finds.  When nothing is
    found the error is the fixed message; when a directory cannot be read,
    the result is invalid, with no contract files and the error set. *)
Theorem validateSolidityRepo_is_valid_when_a_sol_file_is_found :
  forall (env : Env) (readdir : string -> Completion (list Dirent))
         (localPath : string) (w : World),
  exists v,
    outcome (validateSolidityRepo (withFileSystem readdir env) localPath) w
    = Returns v
    /\ match readdir localPath with
       | Throws e => v = mkValidationResult false [] (Some e)
       | Returns entries =>
           (v_isValid v = true
            <-> ~ Blocked CloneRepo.entersDirectory entries
                /\ exists p, Finds CloneRepo.entersDirectory (endsWith ".sol")
                               localPath entries p)
           /\ (v_isValid v = true ->
               v_error v = None
               /\ forall p, In p (v_contractFiles v)
                            <-> Finds CloneRepo.entersDirectory (endsWith ".sol")
                                  localPath entries p)
           /\ (v_isValid v = false ->
               v_contractFiles v = [] /\ v_error v <> None)
           /\ (~ Blocked CloneRepo.entersDirectory entries ->
               v_isValid v = false ->
               v_error v = Some "No Solidity (.sol) files found in repository")
       end.
Proof.
  intros env readdir localPath w.
  unfold outcome, validateSolidityRepo, bind, tryCatch, emit, settle, ret,
    withFileSystem, CloneRepo.findSolFiles.
  cbn [findSolFiles].
  destruct (readdir localPath) as [entries|e]; cbn [walkDir].
  2:{ eexists. split; reflexivity. }
  pose proof (walkEntries_answers CloneRepo.entersDirectory (endsWith ".sol")
                entries localPath) as Hwalk.
  destruct (walkEntries CloneRepo.entersDirectory (endsWith ".sol") localPath entries)
    as [[|p paths]|e]; cbn in Hwalk |- *; eexists; (split; [reflexivity|]);
    cbn [v_isValid v_contractFiles v_error].
  - destruct Hwalk as [Hnot Hfinds]. split; [|split; [|split]].
    + split; [discriminate|]. intros [_ [p Hp]]. apply Hfinds in Hp. destruct Hp.
    + discriminate.
    + intros _. split; [reflexivity|discriminate].
    + reflexivity.
  - destruct Hwalk as [Hnot Hfinds]. split; [|split; [|split]].
    + split; [|reflexivity]. intros _. split; [exact Hnot|].
      exists p. apply Hfinds. now left.
    + intros _. split; [reflexivity|exact Hfinds].
    + discriminate.
    + discriminate.
  - split; [|split; [|split]].
    + split; [discriminate|]. intros [Hnot _]. contradiction.
    + discriminate.
    + intros _. split; [reflexivity|discriminate].
    + intros Hnot. contradiction.
Qed.

(** ** Splitting and joining *)

Lemma includes_char_cons (c d : ascii) (s : string) :
  includes (String c "") (String d s)
  = (Ascii.eqb c d || includes (String c "") s)%bool.
Proof.
  cbn [includes String.prefix].
  destruct (ascii_dec c d) as [->|Hne].
  - rewrite Ascii.eqb_refl. now destruct s.
  - apply Ascii.eqb_neq in Hne. now rewrite Hne.
Qed.

Lemma includes_char_app (c : ascii) (a b : string) :
  includes (String c "") (a +:+ b)
  = (includes (String c "") a || includes (String c "") b)%bool.
Proof.
  induction a as [|d a IH]; [reflexivity|].
  rewrite append_cons, !includes_char_cons, IH. now rewrite orb_assoc.
Qed.

Lemma String_split_cons (sep c : ascii) (s : string) :
  String_split sep (String c s)
  = if Ascii.eqb c sep then EmptyString :: String_split sep s
    else match String_split sep s with
         | field :: fields => String c field :: fields
         | [] => [String c EmptyString]
         end.
Proof. reflexivity. Qed.

Lemma String_split_not_nil (sep : ascii) (s : string) : String_split sep s <> [].
Proof.
  induction s as [|c s IH]; [discriminate|]. rewrite String_split_cons.
  destruct (Ascii.eqb c sep); [discriminate|].
  destruct (String_split sep s); [contradiction|discriminate].
Qed.

(** No field of a split holds the separator. *)
Lemma String_split_free (sep : ascii) (s : string) :
  Forall (fun field => includes (String sep "") field = false)
    (String_split sep s).
Proof.
  induction s as [|c s IH]; [repeat constructor|]. rewrite String_split_cons.
  destruct (Ascii.eqb c sep) eqn:Hc; [constructor; [reflexivity|exact IH]|].
  destruct (String_split sep s) as [|field fields] eqn:Hsp;
    [contradiction (String_split_not_nil sep s Hsp)|].
  apply Forall_cons in IH as [Hf Hfs]. constructor; [|exact Hfs].
  rewrite includes_char_cons, Hf. rewrite Ascii.eqb_sym, Hc. reflexivity.
Qed.

(** A string without the separator is one field. *)
Lemma String_split_one (sep : ascii) (s : string) :
  includes (String sep "") s = false -> String_split sep s = [s].
Proof.
  induction s as [|c s IH]; [reflexivity|].
  rewrite includes_char_cons, orb_false_iff. intros [Hc Hs].
  rewrite String_split_cons, Ascii.eqb_sym, Hc, (IH Hs). reflexivity.
Qed.

Lemma String_split_app (sep : ascii) (a b : string) :
  includes (String sep "") a = false ->
  String_split sep (a +:+ String sep b) = a :: String_split sep b.
Proof.
  induction a as [|c a IH].
  - intros _. change ("" +:+ String sep b) with (String sep b).
    rewrite String_split_cons, Ascii.eqb_refl. reflexivity.
  - rewrite includes_char_cons, orb_false_iff. intros [Hc Ha].
    rewrite append_cons, String_split_cons, Ascii.eqb_sym, Hc, (IH Ha).
    reflexivity.
Qed.

Lemma concat_two (sep x y : string) (l : list string) :
  String.concat sep (x :: y :: l) = x +:+ sep +:+ String.concat sep (y :: l).
Proof. reflexivity. Qed.

(** Joining the fields of a split gives the string back. *)
Lemma Array_join_String_split (sep : ascii) (s : string) :
  Array_join (String sep "") (String_split sep s) = s.
Proof.
  unfold Array_join. induction s as [|c s IH]; [reflexivity|].
  rewrite String_split_cons.
  destruct (String_split sep s) as [|f fs] eqn:Hsp;
    [contradiction (String_split_not_nil sep s Hsp)|].
  destruct (Ascii.eqb_spec c sep) as [->|Hne].
  - rewrite concat_two, IH. reflexivity.
  - destruct fs as [|g fs].
    + cbn [String.concat] in *. now rewrite IH.
    + rewrite concat_two in *. rewrite append_cons. now rewrite IH.
Qed.

(** Splitting a join of fields that do not hold the separator gives the
    fields back. *)
Lemma String_split_Array_join (sep : ascii) (fields : list string) :
  fields <> [] ->
  Forall (fun field => includes (String sep "") field = false) fields ->
  String_split sep (Array_join (String sep "") fields) = fields.
Proof.
  unfold Array_join. intros Hnn Hfree.
  induction Hfree as [|f fs Hf Hfs IH]; [contradiction|].
  destruct fs as [|g fs].
  - cbn [String.concat]. now apply String_split_one.
  - rewrite concat_two.
    change (String sep "" +:+ String.concat (String sep "") (g :: fs))
      with (String sep (String.concat (String sep "") (g :: fs))).
    rewrite (String_split_app sep f _ Hf). f_equal. apply IH. discriminate.
Qed.

(** ** The configuration *)

Lemma strOr_empty (s : string) : strOr s "" = s.
Proof. unfold strOr. now destruct (String.eqb_spec s ""). Qed.

Lemma filterBoolean_all (fields : list string) :
  Forall (fun field => field <> "") fields -> filterBoolean fields = fields.
Proof.
  unfold filterBoolean. induction 1 as [|f fs Hf _ IH]; [reflexivity|].
  cbn [List.filter]. apply String.eqb_neq in Hf. rewrite Hf. cbn. now rewrite IH.
Qed.

(** X10. The RPC URLs of the configuration are the non-empty fields of
    RPC_URLS between commas, in order: no URL of the configuration is empty
    or holds a comma; a list of non-empty URLs without commas, joined with
    commas and read back, is the list itself; and with the variable unset or
    empty there is no URL at all. *)
Theorem getConfig_reads_back_the_rpc_urls :
  (forall penv,
      Forall (fun url => url <> "" /\ includes "," url = false)
        (rpcUrls (ConfigTs.coordinator (ConfigTs.getConfig penv))))
  /\ (forall penv urls,
        Forall (fun url => url <> "" /\ includes "," url = false) urls ->
        penv !! "RPC_URLS" = Some (Array_join "," urls) ->
        rpcUrls (ConfigTs.coordinator (ConfigTs.getConfig penv)) = urls)
  /\ (forall penv,
        penv !! "RPC_URLS" = None \/ penv !! "RPC_URLS" = Some "" ->
        rpcUrls (ConfigTs.coordinator (ConfigTs.getConfig penv)) = []).
Proof.
  split; [|split].
  - intro penv. cbn [ConfigTs.getConfig ConfigTs.coordinator rpcUrls].
    unfold filterBoolean. apply List.Forall_forall. intros url Hin.
    apply filter_In in Hin as [Hin Hne]. split.
    + apply negb_true_iff, String.eqb_neq in Hne. exact Hne.
    + pose proof (String_split_free "," (ConfigTs.envOr penv "RPC_URLS" "")) as Hfree.
      rewrite List.Forall_forall in Hfree. now apply Hfree.
  - intros penv urls Hall Hset.
    cbn [ConfigTs.getConfig ConfigTs.coordinator rpcUrls].
    unfold ConfigTs.envOr. rewrite Hset. cbn [optStrOr]. rewrite strOr_empty.
    destruct urls as [|url urls]; [reflexivity|].
    rewrite String_split_Array_join; [|discriminate|].
    + apply filterBoolean_all. eapply Forall_impl; [exact Hall|]. now intros ? [? _].
    + eapply Forall_impl; [exact Hall|]. now intros ? [_ ?].
  - intros penv [Hunset|Hempty];
      cbn [ConfigTs.getConfig ConfigTs.coordinator rpcUrls];
      unfold ConfigTs.envOr; [rewrite Hunset|rewrite Hempty]; reflexivity.
Qed.

Lemma isEmpty_true (s : string) : ConfigTs.isEmpty s = true <-> s = "".
Proof. apply String.eqb_eq. Qed.

Lemma isEmpty_false (s : string) : ConfigTs.isEmpty s = false <-> s <> "".
Proof. apply String.eqb_neq. Qed.

Lemma length_zero {A : Type} (l : list A) : (length l =? 0)%nat = true <-> l = [].
Proof. destruct l; cbn; split; congruence. Qed.

(** X11. validateConfig calls a configuration valid exactly when nothing is
    missing.  Without [requireAll] only the model key can be missing, so the
    configuration is valid exactly when that key is set, and the absent
    credentials of the optional stages are warnings; with [requireAll] it is
    valid exactly when the model key, the GitHub token, the testnet key and
    at least one RPC URL are set, and the only warnings left are the two
    about Telegram. *)
Theorem validateConfig_is_valid_when_nothing_is_missing :
  forall c : ConfigTs.FullConfig,
    (forall requireAll,
        ConfigTs.isValid (ConfigTs.validateConfig c requireAll) = true
        <-> ConfigTs.missing (ConfigTs.validateConfig c requireAll) = [])
    /\ (ConfigTs.isValid (ConfigTs.validateConfig c false) = true
        <-> ConfigTs.geminiApiKey c <> "")
    /\ (ConfigTs.missing (ConfigTs.validateConfig c false) = []
        \/ ConfigTs.missing (ConfigTs.validateConfig c false) = ["GEMINI_API_KEY"])
    /\ (ConfigTs.isValid (ConfigTs.validateConfig c true) = true
        <-> ConfigTs.geminiApiKey c <> ""
            /\ githubToken (ConfigTs.coordinator c) <> ""
            /\ testnetPrivateKey (ConfigTs.coordinator c) <> ""
            /\ rpcUrls (ConfigTs.coordinator c) <> [])
    /\ (forall warning,
          In warning (ConfigTs.warnings (ConfigTs.validateConfig c true)) ->
          enableTelegramNotifications (ConfigTs.coordinator c) = true
          /\ (warning = "TELEGRAM_TOKEN not set - notifications will be disabled"
              \/ warning
                 = "TELEGRAM_CHAT_ID not set - notifications will be disabled")).
Proof.
  intro c. unfold ConfigTs.validateConfig, ConfigTs.pushIf.
  cbn [ConfigTs.isValid ConfigTs.missing ConfigTs.warnings].
  rewrite <- !isEmpty_false.
  assert (Hurls : rpcUrls (ConfigTs.coordinator c) <> []
                  <-> (length (rpcUrls (ConfigTs.coordinator c)) =? 0)%nat = false).
  { rewrite <- length_zero. now destruct (_ =? _)%nat. }
  rewrite Hurls.
  destruct (ConfigTs.isEmpty (ConfigTs.geminiApiKey c)),
    (ConfigTs.isEmpty (githubToken (ConfigTs.coordinator c))),
    (ConfigTs.isEmpty (testnetPrivateKey (ConfigTs.coordinator c))),
    (length (rpcUrls (ConfigTs.coordinator c)) =? 0)%nat.
  all: split; [intros [|]; cbn; split; congruence|].
  all: split; [cbn; split; congruence|].
  all: split; [cbn; auto|].
  all: split; [cbn; intuition congruence|].
  all: intro warning;
    destruct (enableTelegramNotifications (ConfigTs.coordinator c)),
      (ConfigTs.isEmpty (telegramToken (ConfigTs.coordinator c))),
      (ConfigTs.isEmpty (telegramChatId (ConfigTs.coordinator c)));
    cbn; intuition auto.
Qed.

Lemma logConfigStatus_eq (c : ConfigTs.FullConfig) :
  ConfigTs.logConfigStatus c
  = if ConfigTs.isEmpty (ConfigTs.geminiApiKey c)
    then Throws "Missing required environment variables. Check .env file."
    else Returns tt.
Proof.
  unfold ConfigTs.logConfigStatus, ConfigTs.validateConfig, ConfigTs.pushIf.
  cbn [ConfigTs.isValid]. now destruct (ConfigTs.isEmpty (ConfigTs.geminiApiKey c)).
Qed.

Lemma getConfig_model_key (penv : ConfigTs.ProcessEnv) :
  ConfigTs.geminiApiKey (ConfigTs.getConfig penv) <> ""
  <-> (exists key, penv !! "GEMINI_API_KEY" = Some key /\ key <> "")
      \/ (exists key, penv !! "GENIE_API_KEY" = Some key /\ key <> "").
Proof.
  cbn [ConfigTs.getConfig ConfigTs.geminiApiKey]. unfold ConfigTs.envOr.
  assert (Hopt : forall o : option string,
             optStrOr o "" <> "" <-> exists key, o = Some key /\ key <> "").
  { intros [k|]; cbn [optStrOr]; [rewrite strOr_empty|].
    - split; [eauto|]. now intros (? & [= <-] & ?).
    - split; [congruence|]. now intros (? & [=] & ?). }
  rewrite <- (Hopt (penv !! "GENIE_API_KEY")).
  destruct (penv !! "GEMINI_API_KEY") as [k|]; cbn [optStrOr].
  - unfold strOr at 1. destruct (String.eqb_spec k "") as [->|Hk].
    + split; [auto|]. intros [(? & [= <-] & ?)|H]; [congruence|exact H].
    + split; [eauto|]. intros _. exact Hk.
  - split; [auto|]. intros [(? & [=] & ?)|H]. exact H.
Qed.

(** X12. Given what getConfig reads from the environment, logConfigStatus
    throws exactly when neither GEMINI_API_KEY nor GENIE_API_KEY is set to a
    non-empty string, and returns otherwise. *)
Theorem logConfigStatus_throws_without_a_model_key :
  forall penv : ConfigTs.ProcessEnv,
    let hasKey :=
      (exists key, penv !! "GEMINI_API_KEY" = Some key /\ key <> "")
      \/ (exists key, penv !! "GENIE_API_KEY" = Some key /\ key <> "") in
    (hasKey <-> ConfigTs.logConfigStatus (ConfigTs.getConfig penv) = Returns tt)
    /\ (~ hasKey <->
        ConfigTs.logConfigStatus (ConfigTs.getConfig penv)
        = Throws "Missing required environment variables. Check .env file.").
Proof.
  intros penv hasKey. subst hasKey. rewrite <- getConfig_model_key.
  rewrite logConfigStatus_eq, <- isEmpty_false.
  destruct (ConfigTs.isEmpty (ConfigTs.geminiApiKey (ConfigTs.getConfig penv)));
    split; split; congruence.
Qed.

(** ** The logger *)

(** X14. shouldLog is a threshold on the four levels: with LOG_LEVEL unset
    or empty the threshold is info; with LOG_LEVEL naming a level, exactly
    the levels from that one up are logged; and with any other value of
    LOG_LEVEL (another spelling of a level, say) nothing is logged at all,
    errors included. *)
Theorem shouldLog_is_a_threshold :
  forall penv : ConfigTs.ProcessEnv,
    (penv !! "LOG_LEVEL" = None \/ penv !! "LOG_LEVEL" = Some "" ->
     LoggerTs.shouldLog penv LoggerTs.debug = false
     /\ LoggerTs.shouldLog penv LoggerTs.info = true
     /\ LoggerTs.shouldLog penv LoggerTs.warn = true
     /\ LoggerTs.shouldLog penv LoggerTs.error = true)
    /\ (forall current level,
          penv !! "LOG_LEVEL" = Some (LoggerTs.levelName current) ->
          LoggerTs.shouldLog penv level
          = match current, level with
            | LoggerTs.debug, _ => true
            | LoggerTs.info, LoggerTs.debug => false
            | LoggerTs.info, _ => true
            | LoggerTs.warn, (LoggerTs.warn | LoggerTs.error) => true
            | LoggerTs.warn, _ => false
            | LoggerTs.error, LoggerTs.error => true
            | LoggerTs.error, _ => false
            end)
    /\ (forall name,
          penv !! "LOG_LEVEL" = Some name ->
          name <> "" ->
          (forall level, name <> LoggerTs.levelName level) ->
          forall level, LoggerTs.shouldLog penv level = false).
Proof.
  intro penv. unfold LoggerTs.shouldLog, LoggerTs.CURRENT_LOG_LEVEL, ConfigTs.envOr.
  split; [|split].
  - intros [-> | ->]; repeat split.
  - intros current level ->. destruct current, level; reflexivity.
  - intros name -> Hne Hnot level. cbn [optStrOr]. unfold strOr.
    destruct (String.eqb_spec name ""); [contradiction|].
    replace (LoggerTs.LOG_LEVELS !! name) with (@None Z).
    + now destruct (LoggerTs.LOG_LEVELS !! LoggerTs.levelName level).
    + symmetry. apply not_elem_of_list_to_map_1. cbn.
      intro Hin.
      repeat (apply elem_of_cons in Hin as [Hin|Hin];
              [first [ exact (Hnot LoggerTs.debug Hin) | exact (Hnot LoggerTs.info Hin)
                     | exact (Hnot LoggerTs.warn Hin) | exact (Hnot LoggerTs.error Hin) ]|]).
      inversion Hin.
Qed.

(** ** The helpers *)

Lemma substring0_length (n : nat) (s : string) :
  String.length (substring0 n s) = Nat.min n (String.length s).
Proof.
  unfold substring0. revert s. induction n as [|n IH]; intros [|c s]; cbn; auto.
Qed.

Lemma substring0_prefix (n : nat) (s : string) :
  String.prefix (substring0 n s) s = true.
Proof.
  unfold substring0. revert s. induction n as [|n IH]; intros [|c s]; cbn; auto.
  destruct (ascii_dec c c); [apply IH|contradiction].
Qed.

(** X15. truncate returns a string that fits as it is; a longer one is cut
    to a prefix followed by three dots and is exactly [maxLength] long when
    [maxLength] is at least 3.  Below 3 the result is the three dots
    alone, which is longer than what was asked for. *)
Theorem truncate_fits_when_there_is_room_for_the_dots :
  forall (str : string) (maxLength : Z),
    (Z.of_nat (String.length str) <= maxLength ->
     HelpersTs.truncate str maxLength = str)
    /\ (3 <= maxLength < Z.of_nat (String.length str) ->
        exists kept,
          HelpersTs.truncate str maxLength = kept +:+ "..."
          /\ String.prefix kept str = true
          /\ Z.of_nat (String.length kept) = maxLength - 3
          /\ Z.of_nat (String.length (HelpersTs.truncate str maxLength))
             = maxLength)
    /\ (maxLength < 3 -> maxLength < Z.of_nat (String.length str) ->
        HelpersTs.truncate str maxLength = "...").
Proof.
  intros str maxLength. unfold HelpersTs.truncate. split; [|split].
  - intro H. apply Z.leb_le in H. now rewrite H.
  - intros [H3 Hlt]. apply Z.leb_gt in Hlt as Hb. rewrite Hb.
    eexists. split; [reflexivity|]. split; [apply substring0_prefix|].
    rewrite length_string_app, substring0_length. cbn [String.length]. lia.
  - intros H3 Hlt. apply Z.leb_gt in Hlt. rewrite Hlt.
    replace (Z.to_nat (maxLength - 3)) with 0%nat by lia.
    unfold substring0. now destruct str.
Qed.

Lemma retryFrom_succeeds {T : Type} (fn : nat -> Completion T) (delayMs : Z)
    (value : T) (failures : nat) :
  forall i remaining lastError sleptSoFar,
    (failures < remaining)%nat ->
    (forall j, (j < failures)%nat -> exists e, fn (i + j)%nat = Throws e) ->
    fn (i + failures)%nat = Returns value ->
    HelpersTs.retryFrom fn delayMs i remaining lastError sleptSoFar
    = HelpersTs.mkRetried
        (sleptSoFar ++ map (fun k => delayMs * 2 ^ Z.of_nat k) (seq i failures))
        (S (i + failures)) (inl value).
Proof.
  induction failures as [|failures IH];
    intros i remaining lastError sleptSoFar Hlt Hfail Hok;
    (destruct remaining as [|remaining]; [lia|]); cbn [HelpersTs.retryFrom].
  - rewrite Nat.add_0_r in *. rewrite Hok. cbn. now rewrite app_nil_r.
  - destruct (Hfail 0%nat ltac:(lia)) as [e He]. rewrite Nat.add_0_r in He.
    rewrite He.
    assert (Hpos : (0 <? remaining)%nat = true) by (apply Nat.ltb_lt; lia).
    rewrite Hpos. rewrite (IH (S i) remaining); [| lia | |].
    + cbn [seq map]. rewrite <- app_assoc. cbn [app]. do 2 f_equal. lia.
    + intros j Hj. replace (S i + j)%nat with (i + S j)%nat by lia.
      apply Hfail. lia.
    + replace (S i + failures)%nat with (i + S failures)%nat by lia. exact Hok.
Qed.

Lemma retryFrom_gives_up {T : Type} (fn : nat -> Completion T) (delayMs : Z)
    (remaining : nat) :
  forall i lastError sleptSoFar,
    (forall j, (j < remaining)%nat -> exists e, fn (i + j)%nat = Throws e) ->
    HelpersTs.retryFrom fn delayMs i remaining lastError sleptSoFar
    = HelpersTs.mkRetried
        (sleptSoFar
         ++ map (fun k => delayMs * 2 ^ Z.of_nat k) (seq i (remaining - 1)))
        (i + remaining)
        (inr match remaining with
             | O => lastError
             | S n =>
                 match fn (i + n)%nat with
                 | Throws e => HelpersTs.ThrownError e
                 | Returns _ => lastError
                 end
             end).
Proof.
  induction remaining as [|remaining IH]; intros i lastError sleptSoFar Hfail;
    cbn [HelpersTs.retryFrom].
  - cbn. now rewrite app_nil_r, Nat.add_0_r.
  - destruct (Hfail 0%nat ltac:(lia)) as [e He]. rewrite Nat.add_0_r in He.
    rewrite He. rewrite IH.
    2:{ intros j Hj. replace (S i + j)%nat with (i + S j)%nat by lia.
        apply Hfail. lia. }
    replace (S i + remaining)%nat with (i + S remaining)%nat by lia.
    destruct remaining as [|remaining].
    + cbn. rewrite !app_nil_r, Nat.add_0_r, He. reflexivity.
    + cbn [Nat.ltb Nat.leb Nat.sub seq map]. rewrite Nat.sub_0_r, <- app_assoc.
      cbn [app]. replace (S i + remaining)%nat with (i + S remaining)%nat by lia.
      destruct (Hfail (S remaining) ltac:(lia)) as [e' He']. rewrite He'.
      reflexivity.
Qed.


(** ** Choosing the RPC URL *)

Lemma byLatency_trans (a b c : string * option Z) :
  DynamicTests.byLatency a b <= 0 -> DynamicTests.byLatency b c <= 0 ->
  DynamicTests.byLatency a c <= 0.
Proof.
  unfold DynamicTests.byLatency.
  destruct (snd a), (snd b), (snd c); lia.
Qed.

Lemma byLatency_flip (a b : string * option Z) :
  ~ DynamicTests.byLatency a b <= 0 -> DynamicTests.byLatency b a < 0.
Proof.
  unfold DynamicTests.byLatency. destruct (snd a), (snd b); lia.
Qed.

(** The head of a sorted array is the leftmost least element. *)
Lemma Array_sort_byLatency_head (results : list (string * option Z)) :
  match Array_sort DynamicTests.byLatency results with
  | [] => results = []
  | best :: _ =>
      exists before after,
        results = before ++ best :: after
        /\ Forall (fun r => DynamicTests.byLatency best r <= 0) results
        /\ Forall (fun r => DynamicTests.byLatency best r < 0) before
  end.
Proof.
  unfold Array_sort.
  induction results as [|x rest IH]; cbn [foldr]; [reflexivity|].
  destruct (foldr (sortInsert DynamicTests.byLatency) [] rest) as [|y sorted];
    cbn [sortInsert].
  - subst rest. exists [], []. repeat split; repeat constructor.
    unfold DynamicTests.byLatency. destruct (snd x); lia.
  - destruct IH as (before & after & -> & Hmin & Hstrict).
    destruct (Z.leb_spec (DynamicTests.byLatency x y) 0) as [Hle|Hgt].
    + exists [], (before ++ y :: after). split; [reflexivity|].
      split; [|constructor]. constructor.
      * unfold DynamicTests.byLatency. destruct (snd x); lia.
      * eapply Forall_impl; [exact Hmin|]. intros r Hr.
        eapply byLatency_trans; eassumption.
    + exists (x :: before), after. split; [reflexivity|].
      assert (Hyx : DynamicTests.byLatency y x < 0) by (apply byLatency_flip; lia).
      split; constructor; auto. lia.
Qed.

(** X17. When at least one URL answered, selectBestRPC returns a URL; the
    URL it returns is one that answered, none having answered faster, and
    among the fastest the one that comes first in the configuration.  It
    throws its own error exactly when URLs are configured and none answers;
    with no URL configured it throws the TypeError of reading a property of
    [undefined]. *)
Theorem selectBestRPC_picks_the_first_of_the_fastest :
  forall results : list (string * option Z),
    (results = [] ->
     DynamicTests.selectBestRPC results
     = Throws "Cannot read properties of undefined (reading 'latency')")
    /\ (results <> [] ->
        (Forall (fun r => snd r = None) results
         <-> DynamicTests.selectBestRPC results
             = Throws "No working RPC URLs found"))
    /\ (Exists (fun r => exists latency, snd r = Some latency) results ->
        exists url, DynamicTests.selectBestRPC results = Returns url)
    /\ (forall url,
          DynamicTests.selectBestRPC results = Returns url ->
          exists before latency after,
            results = before ++ (url, Some latency) :: after
            /\ Forall (fun r => forall other, snd r = Some other -> latency <= other)
                 results
            /\ Forall (fun r => forall other, snd r = Some other -> latency < other)
                 before).
Proof.
  intro results. unfold DynamicTests.selectBestRPC.
  pose proof (Array_sort_byLatency_head results) as Hhead.
  destruct (Array_sort DynamicTests.byLatency results) as [|[url latency] sorted].
  - subst results. split; [reflexivity|]. split; [congruence|].
    split; [|discriminate]. intro Hex. apply Exists_nil in Hex. contradiction.
  - destruct Hhead as (before & after & -> & Hmin & Hstrict).
    split; [intro H; destruct before; discriminate H|]. cbn [fst snd].
    destruct latency as [latency|].
    + split; [|split].
      * intros _. split; [|discriminate]. intro Hall.
        apply Forall_app in Hall as [_ Hall]. apply Forall_cons in Hall as [H _].
        discriminate H.
      * intros _. eexists. reflexivity.
      * intros url' [= <-]. exists before, latency, after. split; [reflexivity|].
        split; (eapply Forall_impl; [eassumption|]);
          intros [u l] Hr other Ho; cbn in Ho; subst l;
          unfold DynamicTests.byLatency in Hr; cbn in Hr; lia.
    + assert (Hnone : Forall (fun r : string * option Z => snd r = None)
                        (before ++ (url, None) :: after)).
      { eapply Forall_impl; [exact Hmin|]. intros [u l] Hr.
        unfold DynamicTests.byLatency in Hr. cbn in Hr |- *.
        destruct l; [lia|reflexivity]. }
      split; [|split; [|discriminate]].
      * intros _. split; [reflexivity|]. intros _. exact Hnone.
      * intro Hex. apply List.Exists_exists in Hex as (r & Hin & latency & Hr).
        rewrite List.Forall_forall in Hnone. rewrite (Hnone r Hin) in Hr.
        discriminate Hr.
Qed.

(** ** A run of the dynamic tests *)

Lemma deployOne_length chain deployer contractFile deployments :
  (length (DynamicTests.deployOne chain deployer contractFile deployments)
   <= S (length deployments))%nat.
Proof.
  unfold DynamicTests.deployOne.
  destruct (DynamicTests.readArtifact chain contractFile) as [artifact|]; [|lia].
  destruct (DynamicTests.noBytecode artifact); [lia|].
  destruct (DynamicTests.deploy chain contractFile artifact)
    as [[address [[txHash receipt]|]]|]; rewrite ?length_app; cbn; lia.
Qed.

Lemma deployLoop_length chain deployer (files : list string) :
  forall deployments,
    (length (foldl (fun ds file => DynamicTests.deployOne chain deployer file ds)
               deployments files)
     <= length deployments + length files)%nat.
Proof.
  induction files as [|file files IH]; intro deployments; cbn [foldl length];
    [lia|].
  etransitivity; [apply IH|].
  pose proof (deployOne_length chain deployer file deployments). lia.
Qed.

Lemma deployContracts_length chain repoPath deployer :
  (length (DynamicTests.deployContracts chain repoPath deployer) <= 3)%nat.
Proof.
  unfold DynamicTests.deployContracts.
  destruct (DynamicTests.artifactsAccess chain _); cbn [negb]; [|cbn; lia].
  destruct (DynamicTests.findContractArtifacts _ _) as [files|]; [|cbn; lia].
  etransitivity; [apply deployLoop_length|]. unfold slice0.
  rewrite length_take. cbn [length]. lia.
Qed.

Lemma runTestTransactions_to chain sender
    (deployments : list DynamicTests.DeploymentInfo) :
  map DynamicTests.tx_to (DynamicTests.runTestTransactions chain sender deployments)
  = map DynamicTests.dp_address deployments.
Proof.
  unfold DynamicTests.runTestTransactions.
  apply list_eq. intro k. rewrite !list_lookup_fmap, list_lookup_imap.
  destruct (deployments !! k) as [d|]; [|reflexivity]. cbn.
  unfold DynamicTests.testTransaction.
  now destruct (DynamicTests.sendTransaction chain k _) as [[h r]|].
Qed.

Lemma success_or_reverted (transactions : list DynamicTests.TestTransaction) :
  (length (List.filter DynamicTests.isSuccess transactions)
   + length (List.filter DynamicTests.isReverted transactions)
   = length transactions)%nat.
Proof.
  induction transactions as [|t ts IH]; [reflexivity|]. cbn [List.filter].
  unfold DynamicTests.isSuccess at 1, DynamicTests.isReverted at 1.
  destruct (DynamicTests.tx_status t); cbn [length]; lia.
Qed.

Lemma selectBestRPC_member (results : list (string * option Z)) (url : string) :
  DynamicTests.selectBestRPC results = Returns url -> In url (map fst results).
Proof.
  unfold DynamicTests.selectBestRPC.
  pose proof (Array_sort_byLatency_head results) as Hhead.
  destruct (Array_sort DynamicTests.byLatency results) as [|[u l] sorted];
    [discriminate|].
  destruct Hhead as (before & after & -> & _ & _). cbn [fst snd].
  destruct l; [|discriminate]. intros [= <-].
  rewrite map_app. apply in_or_app. right. now left.
Qed.

Lemma selectBestRPC_none :
  DynamicTests.selectBestRPC []
  = Throws "Cannot read properties of undefined (reading 'latency')".
Proof. reflexivity. Qed.

Arguments DynamicTests.selectBestRPC : simpl never.
Arguments DynamicTests.deployContracts : simpl never.
Arguments DynamicTests.runTestTransactions : simpl never.
Arguments DynamicTests.summaryOf : simpl never.

(** X18. runDynamicTests never throws: whatever fails on the way (no URL
    answers, the wallet cannot be made, the balance cannot be read, the
    contracts do not compile) it returns a result with [success = false],
    the message as [error], no deployments, no transactions, a summary of
    zeros and the first configured URL (or the empty string) as [rpcUrl].
    A successful result has no error, names a configured URL, and is only
    reached after a successful compilation.  With no RPC URL configured the
    result is always a failure, whose error is the TypeError of
    selectBestRPC. *)
Theorem runDynamicTests_reports_a_failure_as_a_result :
  forall (env : Env) (chain : DynamicTests.Chain) (repoPath : string) (w : World),
  exists r,
    outcome (DynamicTests.runDynamicTests env chain repoPath) w = Returns r
    /\ (DynamicTests.r_success r = true <-> DynamicTests.r_error r = None)
    /\ (DynamicTests.r_success r = false ->
        DynamicTests.r_deployments r = []
        /\ DynamicTests.r_transactions r = []
        /\ DynamicTests.r_summary r = mkDynamicSummary 0 0 0 0 0
        /\ DynamicTests.r_rpcUrl r = optStrOr (head (rpcUrls (config env))) "")
    /\ (DynamicTests.r_success r = true ->
        In (DynamicTests.r_rpcUrl r) (rpcUrls (config env))
        /\ DynamicTests.hardhatCompile chain repoPath = true)
    /\ (rpcUrls (config env) = [] ->
        DynamicTests.r_success r = false
        /\ DynamicTests.r_error r
           = Some "Cannot read properties of undefined (reading 'latency')").
Proof.
  intros env chain repoPath w.
  apply (wp_total _
           (fun r _ =>
              (DynamicTests.r_success r = true <-> DynamicTests.r_error r = None)
              /\ (DynamicTests.r_success r = false ->
                  DynamicTests.r_deployments r = []
                  /\ DynamicTests.r_transactions r = []
                  /\ DynamicTests.r_summary r = mkDynamicSummary 0 0 0 0 0
                  /\ DynamicTests.r_rpcUrl r
                     = optStrOr (head (rpcUrls (config env))) "")
              /\ (DynamicTests.r_success r = true ->
                  In (DynamicTests.r_rpcUrl r) (rpcUrls (config env))
                  /\ DynamicTests.hardhatCompile chain repoPath = true)
              /\ (rpcUrls (config env) = [] ->
                  DynamicTests.r_success r = false
                  /\ DynamicTests.r_error r
                     = Some "Cannot read properties of undefined (reading 'latency')"))).
  unfold DynamicTests.runDynamicTests. repeat wp_step.
  all: split; [split; congruence|].
  all: split; [intro; first [discriminate|repeat split]|].
  all: split; [intro; try discriminate|].
  all: try (intro Hnone;
            match goal with
            | H : DynamicTests.selectBestRPC _ = _ |- _ =>
                rewrite Hnone in H; cbn [imap] in H; rewrite selectBestRPC_none in H
            end; first [discriminate|split; congruence]).
  split.
  - match goal with
    | H : DynamicTests.selectBestRPC _ = Returns _ |- _ =>
        apply selectBestRPC_member in H; rename H into Hin
    end.
    apply in_map_iff in Hin as ([u l] & <- & Hin).
    apply list_elem_of_In, elem_of_lookup_imap in Hin as (i & url & [= -> _] & Hi).
    cbn. apply list_elem_of_In. eapply list_elem_of_lookup_2. exact Hi.
  - match goal with
    | H : negb _ = false |- _ => now apply negb_false_iff in H
    end.
Qed.

(** X19. The summary of a dynamic test always adds up: at most three
    contracts are deployed, exactly one transaction is sent to each
    deployment, in order, and every transaction counts as successful or as
    failed, never as both. *)
Theorem runDynamicTests_summary_adds_up :
  forall (env : Env) (chain : DynamicTests.Chain) (repoPath : string) (w : World),
  exists r,
    outcome (DynamicTests.runDynamicTests env chain repoPath) w = Returns r
    /\ totalDeployed (DynamicTests.r_summary r)
       = length (DynamicTests.r_deployments r)
    /\ totalTransactions (DynamicTests.r_summary r)
       = length (DynamicTests.r_transactions r)
    /\ (totalDeployed (DynamicTests.r_summary r) <= 3)%nat
    /\ totalTransactions (DynamicTests.r_summary r)
       = totalDeployed (DynamicTests.r_summary r)
    /\ (successfulTx (DynamicTests.r_summary r)
        + failedTx (DynamicTests.r_summary r)
        = totalTransactions (DynamicTests.r_summary r))%nat
    /\ map DynamicTests.tx_to (DynamicTests.r_transactions r)
       = map DynamicTests.dp_address (DynamicTests.r_deployments r)
    /\ totalGasUsed (DynamicTests.r_summary r)
       = foldl N.add 0%N
           (map DynamicTests.dp_gasUsed (DynamicTests.r_deployments r)
            ++ map DynamicTests.tx_gasUsed (DynamicTests.r_transactions r)).
Proof.
  intros env chain repoPath w.
  apply (wp_total _
           (fun r _ =>
              totalDeployed (DynamicTests.r_summary r)
              = length (DynamicTests.r_deployments r)
              /\ totalTransactions (DynamicTests.r_summary r)
                 = length (DynamicTests.r_transactions r)
              /\ (totalDeployed (DynamicTests.r_summary r) <= 3)%nat
              /\ totalTransactions (DynamicTests.r_summary r)
                 = totalDeployed (DynamicTests.r_summary r)
              /\ (successfulTx (DynamicTests.r_summary r)
                  + failedTx (DynamicTests.r_summary r)
                  = totalTransactions (DynamicTests.r_summary r))%nat
              /\ map DynamicTests.tx_to (DynamicTests.r_transactions r)
                 = map DynamicTests.dp_address (DynamicTests.r_deployments r)
              /\ totalGasUsed (DynamicTests.r_summary r)
                 = foldl N.add 0%N
                     (map DynamicTests.dp_gasUsed (DynamicTests.r_deployments r)
                      ++ map DynamicTests.tx_gasUsed
                           (DynamicTests.r_transactions r)))).
  unfold DynamicTests.runDynamicTests. repeat wp_step.
  all: try (repeat split; cbn; lia).
  unfold DynamicTests.summaryOf.
  cbn [totalDeployed totalTransactions successfulTx failedTx totalGasUsed].
  split; [reflexivity|]. split; [reflexivity|].
  split; [apply deployContracts_length|].
  split; [unfold DynamicTests.runTestTransactions; apply length_imap|].
  split; [apply success_or_reverted|]. split; [apply runTestTransactions_to|].
  reflexivity.
Qed.

(** ** The start handler *)

Lemma startAudit_returns env body w :
  exists response w', startAudit env body w = (Returns response, w').
Proof.
  unfold startAudit.
  destruct (String.eqb (default "" (b_repoUrl body)) "") eqn:Hurl;
    [do 2 eexists; reflexivity|].
  destruct (b_repoUrl body) as [repoUrl|] eqn:Hbody; [|discriminate Hurl].
  do 2 eexists. reflexivity.
Qed.

(** Once the body is read the [catch] of the handler is not reached. *)
Lemma postAuditStart_fields env body w :
  postAuditStart env (BodyFields body) w = startAudit env body w.
Proof.
  unfold postAuditStart, tryCatch.
  destruct (startAudit_returns env body w) as (response & w' & ->).
  reflexivity.
Qed.

(** X20. The handler of POST /api/audit/start always answers.  When reading
    the body throws (the body is not JSON, or it is [null] and cannot be
    destructured) it answers 500 with the message of the error and leaves
    everything as it was.  Without a repository URL (or with the empty
    string) it answers 400 and leaves everything as it was: no clock
    reading, no registry entry, no background job.  With a URL the run is
    registered under the id made from the clock and can be read back at
    once as queued, with the branch main unless one is given; a job with
    both optional stages requested by default is left for the event loop;
    and the entries stored under other ids read as before. *)
Theorem postAuditStart_registers_a_queued_run :
  (forall env parsed w,
      exists response, outcome (postAuditStart env parsed) w = Returns response)
  /\ (forall env message w,
        postAuditStart env (BodyThrows message) w
        = (Returns (Response500 message), w))
  /\ (forall env body w,
        b_repoUrl body = None \/ b_repoUrl body = Some "" ->
        postAuditStart env (BodyFields body) w
        = (Returns (Response400 "Repository URL is required"), w))
  /\ (forall env body w repoUrl,
        b_repoUrl body = Some repoUrl ->
        repoUrl <> "" ->
        registryBound w ->
        let auditId := auditIdOf (clock env (ticks w)) in
        let w' := worldAfter (postAuditStart env (BodyFields body)) w in
        outcome (postAuditStart env (BodyFields body)) w
        = Returns (ResponseQueued auditId)
        /\ getAudit w' auditId
           = Some (mkAuditStatus auditId repoUrl (default "main" (b_branch body))
                     queued None (clock env (S (ticks w))) None None None)
        /\ (forall other, other <> auditId -> getAudit w' other = getAudit w other)
        /\ immediates w'
           = immediates w
             ++ [mkImmediate (length (objects w)) auditId repoUrl
                   (default "main" (b_branch body))
                   (default true (b_runDynamicTests body))
                   (default true (b_createPullRequest body))]
        /\ registryBound w').
Proof.
  split; [|split; [|split]].
  - intros env [message|body] w; unfold outcome.
    + eexists. reflexivity.
    + rewrite postAuditStart_fields.
      destruct (startAudit_returns env body w) as (response & w' & ->).
      eexists. reflexivity.
  - reflexivity.
  - intros env body w [H|H]; rewrite postAuditStart_fields; unfold startAudit;
      rewrite H; reflexivity.
  - intros env body w repoUrl Hurl Hne Hbound auditId w'.
    apply String.eqb_neq in Hne.
    pose proof (startAudit_eq env body w repoUrl Hurl Hne) as Heq.
    unfold outcome, worldAfter in *. subst w' auditId.
    rewrite postAuditStart_fields, Heq. cbn [fst snd].
    split; [reflexivity|]. unfold getAudit. cbn.
    split; [rewrite lookup_insert_eq; cbn; apply lookup_snoc_new|].
    split.
    + intros other Hother. rewrite lookup_insert_ne by congruence.
      destruct (audits w !! other) as [r|] eqn:Hr; [|reflexivity]. cbn.
      apply lookup_app_l. eapply Hbound. exact Hr.
    + split; [reflexivity|]. intros k r. cbn. rewrite length_app. cbn.
      destruct (decide (k = auditIdOf (clock env (ticks w)))) as [->|Hk].
      * rewrite lookup_insert_eq. intros [= <-]. lia.
      * rewrite lookup_insert_ne by congruence. intro Hr.
        pose proof (Hbound k r Hr). lia.
Qed.

(** ** What runAudit returns *)

(** Whatever the analyzers hand over, what is thrown in the [try] of
    runAudit is caught, and its [catch] does not throw. *)
Lemma Runtime_runAudit_returns env rq w :
  exists r, Runtime.outcome (Runtime.runAudit env rq) w = Returns r.
Proof.
  unfold Runtime.outcome, Runtime.runAudit, Runtime.notifyAuditStart,
    Runtime.notifyAuditError.
  unfold Runtime.bind at 1 2 3. cbn [Runtime.DateNow].
  rewrite Runtime_sendTelegramMessage_eq.
  unfold Runtime.tryCatch at 1.
  match goal with
  | |- context [match ?body ?w0 with _ => _ end] =>
      destruct (body w0) as [[r|e] w']
  end.
  - eexists. reflexivity.
  - unfold Runtime.bind at 1. rewrite Runtime_sendTelegramMessage_eq.
    eexists. reflexivity.
Qed.

(** X21. runAudit never throws, whatever the analyzers hand over.  When
    they answer with findings of the declared type, its result says
    [success] exactly when it carries no error; a failed result carries no
    findings, no fixes, no dynamic result, no pull-request URL and the
    summary of zeros, and the reports the coordinator has written with
    fs.writeFile are those that were there before the run; after a
    successful run they are those and the report of the run, under its
    path.  (What the actions called by the run leave on disk, the clone for
    one, is not part of [files].) *)
Theorem runAudit_reports_a_failure_as_a_result :
  (forall (env : Runtime.Env) (rq : AuditRequest) (w : Runtime.World),
      exists r, Runtime.outcome (Runtime.runAudit env rq) w = Returns r)
  /\ (forall (env : Env) (rq : AuditRequest) (w : World),
      exists r,
        outcome (runAudit env rq) w = Returns r
        /\ ar_repoUrl r = rq_repoUrl rq
        /\ (ar_success r = true <-> ar_error r = None)
        /\ (ar_success r = false ->
            deref (worldAfter (runAudit env rq) w) (ar_findings r) = []
            /\ ar_fixes r = []
            /\ ar_dynamicTestResult r = None
            /\ ar_prUrl r = None
            /\ ar_summary r = emptySummary
            /\ files (worldAfter (runAudit env rq) w) = files w)
        /\ (ar_success r = true ->
            exists rep,
              files (worldAfter (runAudit env rq) w)
              = <[reportPath env (ar_auditId r) := AuditReportJson rep]>
                  (files w))).
Proof.
  split; [exact Runtime_runAudit_returns|].
  intros env rq w.
  apply (wp_total _
           (fun r w' =>
              ar_repoUrl r = rq_repoUrl rq
              /\ (ar_success r = true <-> ar_error r = None)
              /\ (ar_success r = false ->
                  deref w' (ar_findings r) = []
                  /\ ar_fixes r = []
                  /\ ar_dynamicTestResult r = None
                  /\ ar_prUrl r = None
                  /\ ar_summary r = emptySummary
                  /\ files w' = files w)
              /\ (ar_success r = true ->
                  exists rep,
                    files w'
                    = <[reportPath env (ar_auditId r) := AuditReportJson rep]>
                        (files w)))).
  wp_run_stages.
  all: split; [reflexivity|].
  all: split; [split; congruence|].
  all: split; [intro Hs; try discriminate Hs|intro Hs; try discriminate Hs].
  all: try (repeat split; unfold deref; heap; reflexivity).
  eexists. unfold reportPath. rewrite Hfiles0, Hfiles. reflexivity.
Qed.

(** ** The notifications of a run *)

Lemma messagesOf_app (a b : list Event) :
  messagesOf (a ++ b) = messagesOf a ++ messagesOf b.
Proof. apply omap_app. Qed.

Lemma messagesOf_sendEvents env m b :
  messagesOf (sendEvents env m b) = if telegramOff env b then [] else [m].
Proof. unfold sendEvents. now destruct (telegramOff env b). Qed.

Lemma sendCount_eq env b :
  sendCount env b = if telegramOff env b then 0%nat else 1%nat.
Proof. reflexivity. Qed.

(** X22. The notifications of a run of runAudit.  With no bot or no chat id
    nothing is handed to [bot.sendMessage].  Otherwise the first message is
    the start notification with the id of the result, the last one is the
    completion notification carrying the returned result, or the error
    notification carrying its error, and no message between them is one of
    these two; every message is sent once. *)
Theorem runAudit_notifications_start_and_end_the_run :
  forall (env : Env) (rq : AuditRequest) (w : World),
  exists r,
    outcome (runAudit env rq) w = Returns r
    /\ bot (worldAfter (runAudit env rq) w) = bot w
    /\ sent (worldAfter (runAudit env rq) w)
       = (sent w
          + length (messagesOf (newEvents w (worldAfter (runAudit env rq) w))))%nat
    /\ (telegramOff env (bot w) = true ->
        messagesOf (newEvents w (worldAfter (runAudit env rq) w)) = [])
    /\ (telegramOff env (bot w) = false ->
        exists middle,
          messagesOf (newEvents w (worldAfter (runAudit env rq) w))
          = MsgAuditStart (rq_repoUrl rq) (ar_auditId r)
              :: middle ++ [finalMessage r]
          /\ Forall (fun m => isFinalMessage m = false) middle).
Proof.
  intros env rq w.
  apply (wp_total _
           (fun r w' =>
              bot w' = bot w
              /\ sent w' = (sent w + length (messagesOf (newEvents w w')))%nat
              /\ (telegramOff env (bot w) = true ->
                  messagesOf (newEvents w w') = [])
              /\ (telegramOff env (bot w) = false ->
                  exists middle,
                    messagesOf (newEvents w w')
                    = MsgAuditStart (rq_repoUrl rq) (ar_auditId r)
                        :: middle ++ [finalMessage r]
                    /\ Forall (fun m => isFinalMessage m = false) middle))).
  autounfold with audit stages. autounfold with audit.
  repeat first [wp_heap | wp_step].
  all: split; [reflexivity|].
  all: match goal with
       | |- context [newEvents ?w0 ?w'] =>
           erewrite (newEvents_app w0 w')
             by (cbn; rewrite <- ?app_assoc; reflexivity)
       end.
  all: rewrite ?messagesOf_app, ?messagesOf_sendEvents, ?sendCount_eq.
  all: destruct (telegramOff env (bot w)) eqn:Hoff; cbn.
  all: split; [lia|].
  all: split; [intro Hon; try discriminate Hon; reflexivity|].
  all: intro Hon; try discriminate Hon.
  all: first [ refine (ex_intro _ [] _); split; [reflexivity|]
             | refine (ex_intro _ [_] _); split; [reflexivity|]
             | refine (ex_intro _ [_; _] _); split; [reflexivity|]
             | refine (ex_intro _ [_; _; _] _); split; [reflexivity|]
             | refine (ex_intro _ [_; _; _; _] _); split; [reflexivity|] ].
  all: repeat constructor.
Qed.

(** ** The audit tool of the agent *)

(** X23. executeAuditTool never throws and never notifies: no call of
    [bot.sendMessage] is made.  Its result says [success] exactly when it
    carries no error.  A failed result carries no summary and no counts, and
    the reports the coordinator has written with fs.writeFile are those that
    were there before.  After a successful run they are those and
    full-report.json under the id of the result, and the findings in it are
    the findings of Slither, of Solhint and of the pattern checks in this
    order, as many as [findingsCount] says: the tool does not sort them.
    (What the actions called by the tool leave on disk is not part of
    [files].) *)
Theorem executeAuditTool_reports_unsorted_and_silently :
  forall (env : Env) (repoUrl branch : string) (w : World),
  exists r,
    outcome (executeAuditTool env repoUrl branch) w = Returns r
    /\ sent (worldAfter (executeAuditTool env repoUrl branch) w) = sent w
    /\ messagesOf (newEvents w (worldAfter (executeAuditTool env repoUrl branch) w))
       = []
    /\ (tr_success r = true <-> tr_error r = None)
    /\ (tr_success r = false ->
        tr_summary r = None /\ tr_findingsCount r = None
        /\ tr_fixesCount r = None /\ tr_prUrl r = None
        /\ files (worldAfter (executeAuditTool env repoUrl branch) w) = files w)
    /\ (tr_success r = true ->
        exists localPath commit a b c rep,
          gitClone env repoUrl branch = Returns (localPath, commit)
          /\ slither env localPath = Returns a
          /\ solhint env localPath = Returns b
          /\ patternChecks env localPath = Returns c
          /\ files (worldAfter (executeAuditTool env repoUrl branch) w)
             = <[fullReportPath env (tr_auditId r) := FullReportJson rep]>
                 (files w)
          /\ fr_findings rep = a ++ b ++ c
          /\ fr_summary rep = summarize (a ++ b ++ c)
          /\ tr_summary r = Some (summarize (a ++ b ++ c))
          /\ tr_findingsCount r = Some (length (a ++ b ++ c))
          /\ tr_fixesCount r = Some (length (fr_fixes rep))).
Proof.
  intros env repoUrl branch w.
  apply (wp_total _
           (fun r w' =>
              sent w' = sent w
              /\ messagesOf (newEvents w w') = []
              /\ (tr_success r = true <-> tr_error r = None)
              /\ (tr_success r = false ->
                  tr_summary r = None /\ tr_findingsCount r = None
                  /\ tr_fixesCount r = None /\ tr_prUrl r = None
                  /\ files w' = files w)
              /\ (tr_success r = true ->
                  exists localPath commit a b c rep,
                    gitClone env repoUrl branch = Returns (localPath, commit)
                    /\ slither env localPath = Returns a
                    /\ solhint env localPath = Returns b
                    /\ patternChecks env localPath = Returns c
                    /\ files w'
                       = <[fullReportPath env (tr_auditId r)
                           := FullReportJson rep]> (files w)
                    /\ fr_findings rep = a ++ b ++ c
                    /\ fr_summary rep = summarize (a ++ b ++ c)
                    /\ tr_summary r = Some (summarize (a ++ b ++ c))
                    /\ tr_findingsCount r = Some (length (a ++ b ++ c))
                    /\ tr_fixesCount r = Some (length (fr_fixes rep))))).
  wp_run_stages.
  all: split; [reflexivity|].
  all: split;
    [match goal with
     | |- context [newEvents ?w0 ?w'] =>
         erewrite (newEvents_app w0 w')
           by (cbn; rewrite <- ?app_assoc; reflexivity)
     end; reflexivity|].
  all: split; [split; congruence|].
  all: split; intro Hs; try discriminate Hs.
  all: try (repeat split; reflexivity).
  all: destruct a as [localPath commit]; cbn in *.
  all: do 5 eexists; eexists.
  all: split; [reflexivity|].
  all: do 3 (split; [eassumption|]).
  all: unfold deref, fullReportPath; heap.
  all: repeat split.
Qed.

(** ** What the warnings of the configuration announce *)

Lemma In_pushIf (cond : bool) (item x : string) (arr : list string) :
  In x (ConfigTs.pushIf cond item arr) <-> In x arr \/ (cond = true /\ x = item).
Proof.
  unfold ConfigTs.pushIf. destruct cond.
  - rewrite in_app_iff. cbn. intuition congruence.
  - intuition congruence.
Qed.

Lemma In_warnings (c : ConfigTs.FullConfig) (x : string) :
  In x (ConfigTs.warnings (ConfigTs.validateConfig c false))
  <-> (githubToken (ConfigTs.coordinator c) = ""
       /\ x = "GITHUB_TOKEN not set - PR creation will be disabled")
      \/ (testnetPrivateKey (ConfigTs.coordinator c) = ""
          /\ x = "TESTNET_PRIVATE_KEY not set - dynamic testing will be disabled")
      \/ (rpcUrls (ConfigTs.coordinator c) = []
          /\ x = "RPC_URLS not set - dynamic testing will be disabled")
      \/ (enableTelegramNotifications (ConfigTs.coordinator c) = true
          /\ telegramToken (ConfigTs.coordinator c) = ""
          /\ x = "TELEGRAM_TOKEN not set - notifications will be disabled")
      \/ (enableTelegramNotifications (ConfigTs.coordinator c) = true
          /\ telegramChatId (ConfigTs.coordinator c) = ""
          /\ x = "TELEGRAM_CHAT_ID not set - notifications will be disabled").
Proof.
  unfold ConfigTs.validateConfig. cbn [ConfigTs.warnings].
  destruct (enableTelegramNotifications (ConfigTs.coordinator c));
    rewrite !In_pushIf, !isEmpty_true, ?length_zero; cbn [In];
    intuition congruence.
Qed.

(** X13. What validateConfig warns about is what executeAuditTool and the
    Telegram module do with the same configuration.  After a warning that
    dynamic testing will be disabled, for the testnet key or for the RPC
    URLs, executeAuditTool never calls runDynamicTests; after the warning
    about the GitHub token it never calls createPR; after the warning about
    the Telegram token initTelegramBot creates no bot; and after the warning
    about the chat id sendTelegramMessage sends nothing, bot or no bot. *)
Theorem validateConfig_warnings_hold_for_executeAuditTool
    (c : ConfigTs.FullConfig) (env : Env) (warning : string) :
  config env = ConfigTs.coordinator c ->
  In warning (ConfigTs.warnings (ConfigTs.validateConfig c false)) ->
  (warning = "TESTNET_PRIVATE_KEY not set - dynamic testing will be disabled"
   \/ warning = "RPC_URLS not set - dynamic testing will be disabled" ->
   forall repoUrl branch w,
     Forall (fun e => isDynamicTests e = false)
       (newEvents w (worldAfter (executeAuditTool env repoUrl branch) w)))
  /\ (warning = "GITHUB_TOKEN not set - PR creation will be disabled" ->
      forall repoUrl branch w,
        Forall (fun e => isCreatePR e = false)
          (newEvents w (worldAfter (executeAuditTool env repoUrl branch) w)))
  /\ (warning = "TELEGRAM_TOKEN not set - notifications will be disabled" ->
      forall w, initTelegramBot env w = (Returns false, w))
  /\ (warning = "TELEGRAM_CHAT_ID not set - notifications will be disabled" ->
      forall message w,
        sendTelegramMessage env message w = (Returns tt, w)).
Proof.
  intros Hconfig Hin. apply In_warnings in Hin. rewrite <- Hconfig in Hin.
  assert (Hgate : forall repoUrl branch w,
             exists events,
               newEvents w (worldAfter (executeAuditTool env repoUrl branch) w)
               = events
               /\ (toolDynamicGate env = false ->
                   Forall (fun e => isDynamicTests e = false) events)
               /\ (toolPRGate env = false ->
                   Forall (fun e => isCreatePR e = false) events)).
  { intros repoUrl branch w.
    pose proof (executeAuditTool_gating env repoUrl branch w) as Hwp.
    unfold wp, worldAfter in *.
    destruct (executeAuditTool env repoUrl branch w) as [[r|e] w'];
      [|contradiction].
    destruct Hwp as (events & Htrace & Hd & Hp). exists events.
    split; [now apply newEvents_app|]. now split. }
  split; [|split; [|split]].
  - intros Hw repoUrl branch w.
    destruct (Hgate repoUrl branch w) as (events & -> & Hd & _). apply Hd.
    unfold toolDynamicGate.
    destruct Hw as [->| ->];
      destruct Hin as [[Hk Hx]|[[Hk Hx]|[[Hk Hx]|[(_ & Hk & Hx)|(_ & Hk & Hx)]]]];
      try discriminate Hx; rewrite Hk; cbn; now rewrite ?andb_false_r.
  - intros -> repoUrl branch w.
    destruct (Hgate repoUrl branch w) as (events & -> & _ & Hp). apply Hp.
    unfold toolPRGate.
    destruct Hin as [[Hk Hx]|[[Hk Hx]|[[Hk Hx]|[(_ & Hk & Hx)|(_ & Hk & Hx)]]]];
      try discriminate Hx. rewrite Hk. cbn. now rewrite andb_false_r.
  - intros -> w. unfold initTelegramBot.
    destruct Hin as [[Hk Hx]|[[Hk Hx]|[[Hk Hx]|[(_ & Hk & Hx)|(_ & Hk & Hx)]]]];
      try discriminate Hx. rewrite Hk. cbn. now rewrite orb_true_r.
  - intros -> message w. unfold sendTelegramMessage.
    destruct Hin as [[Hk Hx]|[[Hk Hx]|[[Hk Hx]|[(_ & Hk & Hx)|(_ & Hk & Hx)]]]];
      try discriminate Hx. rewrite Hk. cbn. now rewrite orb_true_r.
Qed.

(** ** The directory name of a clone *)

Lemma prefix_cons (a b : ascii) (p s : string) :
  String.prefix (String a p) (String b s)
  = (Ascii.eqb a b && String.prefix p s)%bool.
Proof.
  cbn [String.prefix]. destruct (ascii_dec a b) as [->|Hne].
  - now rewrite Ascii.eqb_refl.
  - apply Ascii.eqb_neq in Hne. now rewrite Hne.
Qed.

Lemma prefix_empty (p : string) : String.prefix p "" = String.eqb p "".
Proof. now destruct p. Qed.

Lemma includes_cons (needle : string) (c : ascii) (s : string) :
  includes needle (String c s)
  = (String.prefix needle (String c s) || includes needle s)%bool.
Proof. reflexivity. Qed.

Lemma String_replace_cons (pattern replacement : string) (c : ascii) (s : string) :
  String_replace pattern replacement (String c s)
  = if String.prefix pattern (String c s)
    then replacement +:+ dropString (String.length pattern) (String c s)
    else String c (String_replace pattern replacement s).
Proof. reflexivity. Qed.

(** Without an occurrence of the pattern nothing is replaced. *)
Lemma String_replace_absent (pattern replacement s : string) :
  includes pattern s = false -> String_replace pattern replacement s = s.
Proof.
  induction s as [|c s IH].
  - cbn. rewrite orb_false_r. now intros ->.
  - rewrite includes_cons, orb_false_iff. intros [Hp Hs].
    now rewrite String_replace_cons, Hp, (IH Hs).
Qed.

(** [".git"] does not overlap itself: it does not start inside a string that
    does not hold it and end in a copy of it put behind that string. *)
Lemma dot_git_no_overlap (a b : string) :
  a <> "" -> includes ".git" a = false ->
  String.prefix ".git" (a +:+ ".git" +:+ b) = false.
Proof.
  intros Hne Hfree.
  destruct a as [|c1 a]; [contradiction|].
  rewrite includes_cons, orb_false_iff in Hfree. destruct Hfree as [Hp _].
  rewrite append_cons. rewrite prefix_cons in Hp |- *.
  destruct (Ascii.eqb "." c1) eqn:H1; [|reflexivity]. cbn [andb] in Hp |- *.
  destruct a as [|c2 a]; [reflexivity|].
  rewrite append_cons. rewrite prefix_cons in Hp |- *.
  destruct (Ascii.eqb "g" c2) eqn:H2; [|reflexivity]. cbn [andb] in Hp |- *.
  destruct a as [|c3 a]; [reflexivity|].
  rewrite append_cons. rewrite prefix_cons in Hp |- *.
  destruct (Ascii.eqb "i" c3) eqn:H3; [|reflexivity]. cbn [andb] in Hp |- *.
  destruct a as [|c4 a]; [reflexivity|].
  rewrite append_cons. rewrite prefix_cons in Hp |- *.
  destruct (Ascii.eqb "t" c4) eqn:H4; [|reflexivity]. cbn [andb] in Hp |- *.
  destruct a; discriminate Hp.
Qed.

(** The first [".git"] is the one that goes, wherever it stands. *)
Lemma String_replace_dot_git (a b : string) :
  includes ".git" a = false ->
  String_replace ".git" "" (a +:+ ".git" +:+ b) = a +:+ b.
Proof.
  induction a as [|c a IH]; intro Hfree.
  - change ("" +:+ ".git" +:+ b) with (String "." (String "g" (String "i" (String "t" b)))).
    rewrite String_replace_cons, !prefix_cons. cbn. now destruct b.
  - pose proof (dot_git_no_overlap (String c a) b) as Hno.
    rewrite append_cons in Hno.
    rewrite !(append_cons c a), String_replace_cons, Hno;
      [|discriminate|exact Hfree].
    rewrite includes_cons, orb_false_iff in Hfree. destruct Hfree as [_ Hfree].
    now rewrite (IH Hfree).
Qed.

Lemma includes_char_dropString (c : ascii) (n : nat) (s : string) :
  includes (String c "") s = false ->
  includes (String c "") (dropString n s) = false.
Proof.
  revert s. induction n as [|n IH]; intros [|d s]; try (intro H; exact H).
  rewrite includes_char_cons, orb_false_iff. intros [_ Hs]. now apply IH.
Qed.

Lemma includes_char_String_replace (c : ascii) (pattern s : string) :
  includes (String c "") s = false ->
  includes (String c "") (String_replace pattern "" s) = false.
Proof.
  induction s as [|d s IH]; intro Hfree.
  - cbn [String_replace].
    destruct (String.prefix pattern ""); [|reflexivity].
    now destruct (String.length pattern).
  - rewrite String_replace_cons. destruct (String.prefix pattern (String d s)).
    + change ("" +:+ ?x) with x. now apply includes_char_dropString.
    + rewrite includes_char_cons, orb_false_iff in Hfree |- *.
      destruct Hfree as [Hd Hs]. split; [exact Hd|now apply IH].
Qed.

(** Splitting at a separator splits what stands before it and what stands
    behind it. *)
Lemma String_split_at (sep : ascii) (a b : string) :
  String_split sep (a +:+ String sep b) = String_split sep a ++ String_split sep b.
Proof.
  induction a as [|c a IH].
  - change ("" +:+ String sep b) with (String sep b).
    rewrite String_split_cons, Ascii.eqb_refl. reflexivity.
  - rewrite append_cons, !String_split_cons, IH.
    destruct (Ascii.eqb c sep); [reflexivity|].
    destruct (String_split sep a) as [|f fs] eqn:Hsp;
      [contradiction (String_split_not_nil sep a Hsp)|reflexivity].
Qed.

Lemma Array_pop_String_split (base name : string) :
  includes "/" name = false ->
  Array_pop (String_split "/" (base +:+ "/" +:+ name)) = Some name.
Proof.
  intro Hfree. unfold Array_pop.
  change ("/" +:+ name) with (String "/" name).
  rewrite String_split_at, (String_split_one "/" name Hfree).
  apply last_snoc.
Qed.

(** X24. The directory name cloneRepository derives from a URL is never
    empty and never holds a slash.  For a URL that ends in [/name] it is
    [name] when [name] does not hold [.git]; when it does, the first [.git]
    is the one removed, wherever it stands, so that [name] and [name.git]
    give the same directory name and so does [na.gitme]; and when nothing is
    left, as for a URL that ends in a slash or in [/.git], it is [repo]. *)
Theorem repoName_is_the_last_segment_without_its_first_dot_git :
  (forall repoUrl,
      CloneRepo.repoName repoUrl <> ""
      /\ includes "/" (CloneRepo.repoName repoUrl) = false)
  /\ (forall base name,
        includes "/" name = false -> includes ".git" name = false ->
        CloneRepo.repoName (base +:+ "/" +:+ name)
        = if String.eqb name "" then "repo" else name)
  /\ (forall base before behind,
        includes "/" before = false -> includes "/" behind = false ->
        includes ".git" before = false ->
        CloneRepo.repoName (base +:+ "/" +:+ (before +:+ ".git" +:+ behind))
        = if String.eqb (before +:+ behind) "" then "repo"
          else before +:+ behind).
Proof.
  split; [|split].
  - intro repoUrl. unfold CloneRepo.repoName, Array_pop.
    pose proof (String_split_free "/" repoUrl) as Hfree.
    destruct (last (String_split "/" repoUrl)) as [name|] eqn:Hlast;
      cbn [mbind option_bind optStrOr]; [|split; [discriminate|reflexivity]].
    apply last_Some in Hlast as [fields Heq]. rewrite Heq in Hfree.
    apply Forall_app in Hfree as [_ Hname].
    apply Forall_cons in Hname as [Hname _].
    unfold strOr. destruct (String.eqb_spec (String_replace ".git" "" name) "").
    + split; [discriminate|reflexivity].
    + split; [assumption|]. now apply includes_char_String_replace.
  - intros base name Hslash Hgit. unfold CloneRepo.repoName.
    rewrite (Array_pop_String_split base name Hslash).
    cbn [mbind option_bind optStrOr].
    now rewrite (String_replace_absent ".git" "" name Hgit).
  - intros base before behind Hbefore Hbehind Hgit. unfold CloneRepo.repoName.
    rewrite Array_pop_String_split.
    + cbn [mbind option_bind optStrOr].
      now rewrite (String_replace_dot_git before behind Hgit).
    + rewrite !includes_char_app, Hbefore, Hbehind. reflexivity.
Qed.

(** ** What runStaticAnalysis says it ran *)

(** X25. runStaticAnalysis never throws, and its result says [success]
    exactly when it carries no error.  On success the findings are those of
    Slither, then those of Solhint, then those of the pattern checks, in a
    new array; [toolsRun] always lists PatternCheck first, and lists Slither
    and Solhint exactly when they reported a finding, so a tool that ran and
    found nothing is not listed.  On failure there are no findings and no
    tool is listed.  The duration is the difference of the two clock
    readings the call makes. *)
Theorem runStaticAnalysis_lists_the_tools_that_found_something :
  forall (env : Env) (repoPath : string) (w : World),
  exists r,
    outcome (runStaticAnalysis env repoPath) w = Returns r
    /\ (sa_success r = true <-> sa_error r = None)
    /\ sa_findings r = length (arrays w)
    /\ sa_duration r = clock env (S (ticks w)) - clock env (ticks w)
    /\ (sa_success r = false ->
        deref (worldAfter (runStaticAnalysis env repoPath) w) (sa_findings r) = []
        /\ sa_toolsRun r = [])
    /\ (sa_success r = true ->
        exists a b c,
          slither env repoPath = Returns a
          /\ solhint env repoPath = Returns b
          /\ patternChecks env repoPath = Returns c
          /\ deref (worldAfter (runStaticAnalysis env repoPath) w) (sa_findings r)
             = a ++ b ++ c
          /\ head (sa_toolsRun r) = Some "PatternCheck"
          /\ (In "Slither" (sa_toolsRun r) <-> a <> [])
          /\ (In "Solhint" (sa_toolsRun r) <-> b <> [])
          /\ (forall tool, In tool (sa_toolsRun r) ->
              tool = "PatternCheck" \/ tool = "Slither" \/ tool = "Solhint")).
Proof.
  intros env repoPath w.
  apply (wp_total _
           (fun r w' =>
              (sa_success r = true <-> sa_error r = None)
              /\ sa_findings r = length (arrays w)
              /\ sa_duration r = clock env (S (ticks w)) - clock env (ticks w)
              /\ (sa_success r = false ->
                  deref w' (sa_findings r) = [] /\ sa_toolsRun r = [])
              /\ (sa_success r = true ->
                  exists a b c,
                    slither env repoPath = Returns a
                    /\ solhint env repoPath = Returns b
                    /\ patternChecks env repoPath = Returns c
                    /\ deref w' (sa_findings r) = a ++ b ++ c
                    /\ head (sa_toolsRun r) = Some "PatternCheck"
                    /\ (In "Slither" (sa_toolsRun r) <-> a <> [])
                    /\ (In "Solhint" (sa_toolsRun r) <-> b <> [])
                    /\ (forall tool, In tool (sa_toolsRun r) ->
                        tool = "PatternCheck" \/ tool = "Slither"
                        \/ tool = "Solhint")))).
  wp_run.
  all: split; [split; congruence|].
  all: split; [reflexivity|].
  all: split; [reflexivity|].
  all: split; intro Hs; try discriminate Hs.
  all: try (split; [unfold deref; heap; reflexivity|reflexivity]).
  do 3 eexists.
  do 3 (split; [reflexivity|]).
  split; [unfold deref; heap; reflexivity|].
  split; [reflexivity|].
  match goal with
  | |- context [toolsRunOf ?x ?y] => unfold toolsRunOf; destruct x, y
  end; cbn; intuition congruence.
Qed.

(** ** The registry after the background job *)

(** X26. A request that POST /api/audit/start accepts, followed by the
    background job it queued.  The entry of the run then reads completed,
    with the URL, the branch and the start time it was registered with, no
    progress, no error, and as its result what runAudit returned for that
    URL and branch with both optional stages requested unless the body says
    otherwise, the run having started two clock readings after the request
    came in; the completion time is the clock reading after the run; the entries stored under other ids read
    as before, and no callback is left pending. *)
Theorem serveAudit_completes_its_own_entry_only
    (env : Env) (body : StartBody) (w : World) (repoUrl : string) :
  immediates w = [] ->
  b_repoUrl body = Some repoUrl ->
  repoUrl <> "" ->
  registryBound w ->
  let auditId := auditIdOf (clock env (ticks w)) in
  let w' := worldAfter (serveAudit env body) w in
  exists w1 r w2,
    runAudit env
      (mkAuditRequest repoUrl (Some (default "main" (b_branch body)))
         (Some (default true (b_runDynamicTests body)))
         (Some (default true (b_createPullRequest body)))) w1
    = (Returns r, w2)
    /\ (ticks w1 = S (S (ticks w)) /\ arrays w1 = arrays w
        /\ files w1 = files w /\ trace w1 = trace w /\ bot w1 = bot w)
    /\ getAudit w' auditId
       = Some (mkAuditStatus auditId repoUrl (default "main" (b_branch body))
                 completed None (clock env (S (ticks w)))
                 (Some (clock env (ticks w2))) (Some r) None)
    /\ (forall other, other <> auditId -> getAudit w' other = getAudit w other)
    /\ immediates w' = []
    /\ registryBound w'.
Proof.
  intros Him Hurl Hne Hbound auditId w'. apply String.eqb_neq in Hne.
  pose proof (startAudit_eq env body w repoUrl Hurl Hne) as Hstart.
  rewrite Him in Hstart. cbn [app] in Hstart.
  match type of Hstart with
  | _ = (_, setImmediates [?j] ?ws) =>
      set (job := j) in *; set (w0 := setImmediates [] (setImmediates [job] ws))
  end.
  destruct (runAudit_pair env
              (mkAuditRequest (im_repoUrl job) (Some (im_branch job))
                 (Some (im_runDynamicTests job)) (Some (im_createPullRequest job)))
              (setObjects (alter markRunning (im_audit job) (objects w0)) w0))
    as (r & w2 & Hrun & Ho & Ha & Hi & _).
  pose proof (auditJob_eq env job w0 r w2 Hrun) as Hjob.
  assert (Hserve :
    serveAudit env body w
    = (Returns (ResponseQueued (auditIdOf (clock env (ticks w)))),
       setObjects
         (alter (markCompleted (clock env (ticks w2)) r) (im_audit job) (objects w2))
         (setTicks (S (ticks w2)) w2))).
  { unfold serveAudit, bind. rewrite Hstart. unfold runImmediates.
    cbn [immediates setImmediates]. fold w0. cbn [runJobs]. unfold bind.
    rewrite Hjob. reflexivity. }
  subst w' auditId. unfold worldAfter. rewrite Hserve. cbn [snd].
  cbn in Ho, Ha, Hi. rewrite alter_snoc in Ho.
  eexists _, r, w2.
  split; [exact Hrun|].
  split; [repeat split|].
  unfold getAudit. cbn. rewrite Ha, Ho, Hi, alter_snoc.
  split; [rewrite lookup_insert_eq; cbn; apply lookup_snoc_new|].
  split; [|split; [reflexivity|]].
  - intros other Hother. rewrite lookup_insert_ne by congruence.
    destruct (audits w !! other) as [k|] eqn:Hk; [|reflexivity]. cbn.
    apply lookup_app_l. eapply Hbound. exact Hk.
  - intros k n. cbn. rewrite ?Ha, ?Ho, ?alter_snoc, length_app. cbn.
    destruct (decide (k = auditIdOf (clock env (ticks w)))) as [->|Hk].
    + rewrite lookup_insert_eq. intros [= <-]. lia.
    + rewrite lookup_insert_ne by congruence. intro Hn.
      pose proof (Hbound k n Hn). lia.
Qed.

(** ** Which contracts are deployed *)

Lemma deployOne_app (chain : DynamicTests.Chain) (deployer contractFile : string)
    (deployments : list DynamicTests.DeploymentInfo) :
  DynamicTests.deployOne chain deployer contractFile deployments
  = deployments ++ DynamicTests.deployOne chain deployer contractFile [].
Proof.
  unfold DynamicTests.deployOne.
  destruct (DynamicTests.readArtifact chain contractFile) as [artifact|e];
    [|now rewrite app_nil_r].
  destruct (DynamicTests.noBytecode artifact); [now rewrite app_nil_r|].
  destruct (DynamicTests.deploy chain contractFile artifact)
    as [[address [[txHash receipt]|]]|e]; rewrite ?app_nil_r; reflexivity.
Qed.

Lemma deployLoop_flat_map (chain : DynamicTests.Chain) (deployer : string)
    (contractFiles : list string) (deployments : list DynamicTests.DeploymentInfo) :
  foldl (fun deployments contractFile =>
           DynamicTests.deployOne chain deployer contractFile deployments)
    deployments contractFiles
  = deployments
    ++ flat_map (fun contractFile =>
                   DynamicTests.deployOne chain deployer contractFile [])
         contractFiles.
Proof.
  revert deployments.
  induction contractFiles as [|f fs IH]; intro deployments; cbn [foldl flat_map].
  - now rewrite app_nil_r.
  - rewrite IH, (deployOne_app chain deployer f deployments), <- app_assoc.
    reflexivity.
Qed.

(** X27. deployContracts looks at the first three artifact files only, in
    the order the walk of artifacts/contracts finds them, and each of them
    adds its deployment, or nothing, whatever happened to the others: a file
    that cannot be read, has no bytecode or fails to deploy does not stop
    the ones after it, and does not make room for a fourth.  The artifact
    files are the .json files below artifacts/contracts whose name does not
    hold [.dbg.].  When that directory is missing, or it or a directory
    below it cannot be read, nothing is deployed and nothing is thrown. *)
Theorem deployContracts_tries_the_first_three_artifacts :
  forall (chain : DynamicTests.Chain) (repoPath deployer : string),
    let artifactsPath := pathJoin (pathJoin repoPath "artifacts") "contracts" in
    (DynamicTests.artifactsAccess chain artifactsPath = false ->
     DynamicTests.deployContracts chain repoPath deployer = [])
    /\ (forall e,
          DynamicTests.artifactsDir chain artifactsPath = Throws e ->
          DynamicTests.deployContracts chain repoPath deployer = [])
    /\ (forall entries,
          DynamicTests.artifactsDir chain artifactsPath = Returns entries ->
          Blocked (fun _ => true) entries ->
          DynamicTests.deployContracts chain repoPath deployer = [])
    /\ (forall entries,
          DynamicTests.artifactsAccess chain artifactsPath = true ->
          DynamicTests.artifactsDir chain artifactsPath = Returns entries ->
          ~ Blocked (fun _ => true) entries ->
          exists contractFiles,
            DynamicTests.findContractArtifacts artifactsPath (Returns entries)
            = Returns contractFiles
            /\ (forall p,
                  In p contractFiles
                  <-> Finds (fun _ => true) DynamicTests.isArtifactName
                        artifactsPath entries p)
            /\ DynamicTests.deployContracts chain repoPath deployer
               = flat_map
                   (fun contractFile =>
                      DynamicTests.deployOne chain deployer contractFile [])
                   (slice0 3 contractFiles)
            /\ Forall
                 (fun contractFile =>
                    (length (DynamicTests.deployOne chain deployer contractFile [])
                     <= 1)%nat)
                 contractFiles).
Proof.
  intros chain repoPath deployer artifactsPath.
  unfold DynamicTests.deployContracts. fold artifactsPath.
  split; [intros ->; reflexivity|].
  split.
  { intros e ->. now destruct (DynamicTests.artifactsAccess chain artifactsPath). }
  split.
  - intros entries -> Hblocked.
    destruct (DynamicTests.artifactsAccess chain artifactsPath); [|reflexivity].
    cbn [negb]. unfold DynamicTests.findContractArtifacts. cbn [walkDir].
    pose proof (walkEntries_answers (fun _ => true) DynamicTests.isArtifactName
                  entries artifactsPath) as Hwalk.
    destruct (walkEntries _ _ artifactsPath entries) as [files|e];
      [|reflexivity].
    destruct Hwalk as [Hnot _]. contradiction.
  - intros entries -> -> Hnot. cbn [negb].
    unfold DynamicTests.findContractArtifacts. cbn [walkDir].
    pose proof (walkEntries_answers (fun _ => true) DynamicTests.isArtifactName
                  entries artifactsPath) as Hwalk.
    destruct (walkEntries _ _ artifactsPath entries) as [files|e];
      [|contradiction].
    destruct Hwalk as [_ Hfinds]. exists files.
    split; [reflexivity|]. split; [exact Hfinds|].
    split; [apply (deployLoop_flat_map chain deployer (slice0 3 files) [])|].
    apply List.Forall_forall. intros f _. unfold DynamicTests.deployOne.
    destruct (DynamicTests.readArtifact chain f) as [artifact|e]; [|cbn; lia].
    destruct (DynamicTests.noBytecode artifact); [cbn; lia|].
    destruct (DynamicTests.deploy chain f artifact)
      as [[address [[txHash receipt]|]]|e]; cbn; lia.
Qed.

(** ** Durations *)

(** X28. For a duration that is a safe integer of milliseconds (above
    -2^53 and below 2^53), formatDuration shows the two largest units and
    drops the rest: seconds alone below a minute, minutes and seconds below
    an hour, and hours and minutes from an hour on, without the seconds and
    without a unit above the hour.  The smaller of the two is always below
    60.  A duration below zero is shown in seconds, rounded down, so that
    anything from one millisecond to a second before zero reads [-1s]. *)
Theorem formatDuration_shows_the_two_largest_units :
  forall ms : Z,
    - 2 ^ 53 < ms < 2 ^ 53 ->
    (ms < 60000 ->
     HelpersTs.formatDuration ms = pretty (ms / 1000) +:+ "s")
    /\ (60000 <= ms < 3600000 ->
        HelpersTs.formatDuration ms
        = pretty (ms / 60000) +:+ "m " +:+ pretty ((ms / 1000) mod 60) +:+ "s"
        /\ 1 <= ms / 60000 < 60)
    /\ (3600000 <= ms ->
        HelpersTs.formatDuration ms
        = pretty (ms / 3600000) +:+ "h " +:+ pretty ((ms / 60000) mod 60) +:+ "m"
        /\ 1 <= ms / 3600000 < 2 ^ 53)
    /\ (-1000 <= ms < 0 -> HelpersTs.formatDuration ms = "-1s").
Proof.
  intros ms Hsafe. unfold HelpersTs.formatDuration.
  assert (Hm : ms / 1000 / 60 = ms / 60000) by (rewrite Z.div_div by lia; reflexivity).
  assert (Hh : ms / 1000 / 60 / 60 = ms / 3600000)
    by (rewrite !Z.div_div by lia; reflexivity).
  rewrite Hh, Hm.
  split; [|split; [|split]].
  - intro Hlt.
    assert (ms / 60000 <= 0) by (apply Z.lt_succ_r, Z.div_lt_upper_bound; lia).
    assert (ms / 3600000 <= 0) by (apply Z.lt_succ_r, Z.div_lt_upper_bound; lia).
    destruct (Z.ltb_spec 0 (ms / 3600000)); [lia|].
    destruct (Z.ltb_spec 0 (ms / 60000)); [lia|]. reflexivity.
  - intros [Hle Hlt].
    assert (ms / 3600000 <= 0) by (apply Z.lt_succ_r, Z.div_lt_upper_bound; lia).
    assert (1 <= ms / 60000) by (apply Z.div_le_lower_bound; lia).
    assert (ms / 60000 < 60) by (apply Z.div_lt_upper_bound; lia).
    destruct (Z.ltb_spec 0 (ms / 3600000)); [lia|].
    destruct (Z.ltb_spec 0 (ms / 60000)); [|lia].
    rewrite Z.rem_mod_nonneg; [split; [reflexivity|lia]| |lia].
    apply Z.div_pos; lia.
  - intro Hle.
    assert (1 <= ms / 3600000) by (apply Z.div_le_lower_bound; lia).
    assert (ms / 3600000 < 2 ^ 53) by (apply Z.div_lt_upper_bound; lia).
    destruct (Z.ltb_spec 0 (ms / 3600000)); [|lia].
    rewrite Z.rem_mod_nonneg; [split; [reflexivity|lia]| |lia].
    apply Z.div_pos; lia.
  - intros [Hle Hlt].
    assert (Hs : ms / 1000 = -1).
    { symmetry. apply (Z.div_unique ms 1000 (-1) (ms + 1000)); lia. }
    assert (ms / 60000 <= 0) by (apply Z.lt_succ_r, Z.div_lt_upper_bound; lia).
    assert (ms / 3600000 <= 0) by (apply Z.lt_succ_r, Z.div_lt_upper_bound; lia).
    destruct (Z.ltb_spec 0 (ms / 3600000)); [lia|].
    destruct (Z.ltb_spec 0 (ms / 60000)); [lia|]. rewrite Hs. reflexivity.
Qed.

(** ** The further properties at concrete inputs *)


Lemma runPatternChecks_reports_lines_that_match_witness :
  exists relative index text pattern,
    String_split "010" vaultSource !! index = Some text
    /\ In pattern PatternChecks.patterns
    /\ occurs (PatternChecks.p_regex pattern) text
    /\ file vaultFinding = relative
    /\ line vaultFinding = Z.of_nat index + 1
    /\ title vaultFinding = PatternChecks.p_title pattern.
Proof.
  destruct (runPatternChecks_reports_lines_that_match
              (fun _ => Returns vaultSource) "/app/cloned-repos/vault-999"
              (Returns vaultTree) vaultFinding)
    as (entries & relative & content & index & text & pattern
        & _ & _ & Hread & Hline & Hpattern & Hoccurs & Hfile & Hnumber
        & Htitle & _).
  - vm_compute. left. reflexivity.
  - injection Hread as <-.
    exists relative, index, text, pattern. repeat split; assumption.
Defined.

Lemma validateConfig_warnings_hold_for_executeAuditTool_witness :
  Forall (fun e => isDynamicTests e = false)
    (newEvents startedWorld
       (worldAfter
          (executeAuditTool demoEnv "https://github.com/acme/vault" "main")
          startedWorld)).
Proof.
  apply (validateConfig_warnings_hold_for_executeAuditTool demoFullConfig demoEnv
           "RPC_URLS not set - dynamic testing will be disabled").
  - reflexivity.
  - vm_compute. right. right. left. reflexivity.
  - right. reflexivity.
Defined.

Lemma serveAudit_completes_its_own_entry_only_witness :
  exists a,
    getAudit (worldAfter (serveAudit demoEnv demoBody) startedWorld)
      (auditIdOf (clock demoEnv (ticks startedWorld))) = Some a
    /\ as_status a = completed
    /\ as_progress a = None
    /\ as_branch a = "main"
    /\ immediates (worldAfter (serveAudit demoEnv demoBody) startedWorld) = [].
Proof.
  destruct (serveAudit_completes_its_own_entry_only demoEnv demoBody startedWorld
              "https://github.com/acme/vault")
    as (w1 & r & w2 & _ & _ & Hentry & _ & Hqueue & _).
  - reflexivity.
  - reflexivity.
  - discriminate.
  - intros auditId r Hr. vm_compute in Hr. discriminate Hr.
  - eexists. split; [exact Hentry|].
    do 3 (split; [reflexivity|]). exact Hqueue.
Defined.

Lemma getConfig_reads_back_the_rpc_urls_witness :
  rpcUrls (ConfigTs.coordinator (ConfigTs.getConfig demoProcessEnv))
  = ["https://rpc.one"; "https://rpc.two"].
Proof.
  apply (proj1 (proj2 (getConfig_reads_back_the_rpc_urls))).
  - repeat constructor; discriminate.
  - reflexivity.
Defined.


Lemma postAuditStart_registers_a_queued_run_witness :
  getAudit
    (worldAfter (postAuditStart demoEnv (BodyFields demoBody)) startedWorld)
    (auditIdOf (clock demoEnv (ticks startedWorld)))
  = Some (mkAuditStatus (auditIdOf (clock demoEnv (ticks startedWorld)))
            "https://github.com/acme/vault" "main" queued None
            (clock demoEnv (S (ticks startedWorld))) None None None)
  /\ postAuditStart demoEnv (BodyThrows "Unexpected end of JSON input")
       startedWorld
     = (Returns (Response500 "Unexpected end of JSON input"), startedWorld).
Proof.
  split.
  - apply (proj2 (proj2 (proj2 postAuditStart_registers_a_queued_run))
             demoEnv demoBody startedWorld "https://github.com/acme/vault").
    + reflexivity.
    + discriminate.
    + intros auditId r Hr. vm_compute in Hr. discriminate Hr.
  - apply (proj1 (proj2 postAuditStart_registers_a_queued_run)).
Defined.

Lemma repoName_is_the_last_segment_without_its_first_dot_git_witness :
  CloneRepo.repoName ("https://github.com/acme" +:+ "/" +:+ "vault") = "vault"
  /\ CloneRepo.repoName
       ("https://github.com/acme" +:+ "/" +:+ ("vault" +:+ ".git" +:+ "")) = "vault"
  /\ CloneRepo.repoName
       ("https://github.com/acme" +:+ "/" +:+ ("my" +:+ ".git" +:+ "hub.io"))
     = "myhub.io".
Proof.
  destruct repoName_is_the_last_segment_without_its_first_dot_git
    as (_ & Hplain & Hgit).
  split; [|split].
  - apply (Hplain "https://github.com/acme" "vault"); reflexivity.
  - apply (Hgit "https://github.com/acme" "vault" ""); reflexivity.
  - apply (Hgit "https://github.com/acme" "my" "hub.io"); reflexivity.
Defined.

Lemma formatDuration_shows_the_two_largest_units_witness :
  HelpersTs.formatDuration 3725000 = "1h 2m"
  /\ HelpersTs.formatDuration 59999 = "59s"
  /\ HelpersTs.formatDuration (-1) = "-1s".
Proof.
  split; [|split].
  - apply (proj1 (proj1 (proj2 (proj2
             (formatDuration_shows_the_two_largest_units 3725000
                ltac:(lia)))) ltac:(lia))).
  - apply (proj1 (formatDuration_shows_the_two_largest_units 59999
                    ltac:(lia))). lia.
  - apply (proj2 (proj2 (proj2
             (formatDuration_shows_the_two_largest_units (-1)
                ltac:(lia))))). lia.
Defined.
